(* ===== verification/_CoqProject ===== *)
-Q . S2P
Prelude.v
Bytes.v
Sha256.v
Merkle.v
BitcoinTypes.v
Deserialize.v
Json.v
JsonFacts.v
ScriptPubkey.v
Database.v
Repository.v
RepositoryFacts.v
Chain.v
Ledger.v
Base58.v
Wallet.v
Config.v
WalletFacts.v
Scan.v
Genesis.v
Sync.v
HeaderSync.v
Manager.v
Queries.v
Rounds.v
Subscriptions.v
Electrum.v
ElectrumFacts.v
System.v
LifeCycle.v
Server.v
ServerFacts.v
Startup.v
Client.v
ClientTheorems.v
Reorg.v
BlockScan.v
Heights.v
Rows.v
Utxo.v
History.v
Examples.v
HeaderTheorems.v
ScanExamples.v
BlockTheorems.v
RepositoryTheorems.v
WalletTheorems.v
SyncTheorems.v
StartTheorems.v
NotifyTheorems.v
QueryTheorems.v
ElectrumTheorems.v
SystemTheorems.v
ServerTheorems.v
ServiceTheorems.v
ConfigTheorems.v
StartupTheorems.v
