(* ===== verification/Prelude.v ===== *)
(** * eps-go: a verification development of the Electrum personal server

    eps-go follows the block chain of a trusted Bitcoin node, keeps a ledger of
    the outputs that pay a fixed set of wallets in SQLite, and answers Electrum
    clients over JSON-RPC.  This development models its core in the kernel and
    proves that the core is correct: the ledger is what the chain says, through
    reorganisations, restarts and failures, and the answers are what the ledger
    says.

    ** The program and its parts

    - [src/walletmanager/walletmanager.go]: the wallet manager [W].  [run]
      alternates [syncHeaders] (follow the headers of the node, or find out with
      [checkReorg] where its chain left ours), [processReorg] (roll back to that
      block) and [syncWallets] (fetch the blocks that are missing, and
      [processBlock] each of them in a database transaction).  The exported
      methods are the queries and subscriptions of the clients.  One mutex
      guards the whole state, so every method is one step on it.
    - [src/walletmanager/repository.go]: the SQL statements, and an in-memory
      index of the unspent outputs that must agree with its table.
    - [src/walletmanager/properties.go]: constants and genesis blocks.
    - [src/electrum] turns JSON-RPC requests into calls of [W]; [src/jsonrpc]
      serves connections; [src/cmd/eps-go] and [src/config.go] start it all.

    ** Files, in dependency order

    Foundations.  This file: outcomes of a Go call ([Ok], [Err], [Panic], and
    [OutOfFuel] for a loop that the model has not finished), the monad [M] of
    methods that mutate their receiver (the state survives an error, as in Go),
    the judgements [wp], [preserves], [triple] and [safe], the tactics that step
    through a method, and lemmas on lists, maps and wrap-around.  [Bytes]:
    bytes, little endian integers, hexadecimal and decimal text.  [Sha256]:
    [crypto/sha256], executable.

    Components.  [Merkle]: the Merkle functions at the end of
    walletmanager.go.  [BitcoinTypes] and [Deserialize]: the serialization,
    hashing and parsing of bitcoin/types.go (vendored).  [Json]: what the
    program uses of [encoding/json], its scanner, decoding and encoding;
    [JsonFacts] has the lemmas.  [ScriptPubkey]: scriptpubkey.go (vendored).
    [Database] and [Repository]: the tables of [src/migrations] and
    repository.go; [RepositoryFacts] has its lemmas.  [Wallet]: the types of
    walletmanager.go, [setupWallet], [refillWallet], [walletUpdateIndexes],
    [walletHash]; [WalletFacts] has its lemmas.  [Base58] and [Config]: the text
    of extended keys and of wallets, up to [getWallets] of main.go.  [Genesis]:
    properties.go.  [Sync]: [syncHeaders] to [processBlock] and a round of
    [run].  [Manager]: [New].  [Queries] and [Subscriptions]: the exported
    methods.  [Electrum]: handlers.go and electrum.go, from the raw JSON of a
    request to the raw JSON of its result; [ElectrumFacts] has the lemmas.
    [System]: the rounds of [run] and the handlers of all connections as one
    system, whose step is one critical section of the mutex; connections are
    kept apart by their place in a list, because the server can give two of them
    one id.  [LifeCycle]: what
    comes before and after, the first round of [run], [WaitInit] and [Close].
    [Server] and [Client]: the goroutines, channels and socket of a connection
    of jsonrpc/server.go and of a client of jsonrpc/client.go, as step relations;
    [ServerFacts] and [ClientTheorems] have their invariants.  [Startup]:
    config.go, db.go and [run] of main.go, from the environment to the end of the
    program.  Every Definition has the name of the Go function or method it
    models; a loop is a Fixpoint named after its function.

    Theory.  [Chain]: a header table that is one chain.  [Ledger]: the
    invariant [db_ok] of the tables and what a roll back leaves.  [Scan] and
    [BlockScan]: the invariants of a block scan and its specification, and
    [Heights]: how far it brings the wallets.  [Utxo]: the abstract ledger of a
    chain, with no table, index or wallet, and that the scan refines it;
    [History]: that the tables keep what it was at every height they can be
    rolled back to.  [Rows]: the rows of the wallets, from which [New] starts.
    [HeaderSync] and [Reorg]: the invariants of the header synchronisation, and
    the interface [ServesChain] of a node that serves one chain.  [Rounds]: what
    a round of [run] keeps.

    Results.  [Examples] and [ScanExamples] are concrete wallets, nodes, blocks
    and managers; the files whose names end in [Theorems], and [Merkle], state
    the properties, each with an instance at such a concrete input.
    [StartTheorems] composes [New], the rounds, restarts and the queries;
    [ServiceTheorems] composes [Server], [Electrum] and [System].

    ** Interfaces and parameters

    - [Bip32] (in [ScriptPubkey]): key derivation and hash160, code of third
      parties; [Bip32Safe] (in [WalletFacts]) is what the proofs use of it: it
      returns a key of the same shape or an error, and never panics.
    - [BitcoinClient] (in [Sync]): the replies of the node, each a function of
      the number of calls made before, so it may answer anything at any time;
      [ServesChain] (in [HeaderSync]) is a node that answers [getheaders] from
      one chain, as the protocol says.
    - [Wire] (in [Deserialize]): a type whose bytes are read back whatever
      follows them; each format is an instance, built from those of its fields.
    - [RoundInvariant] (in [Rounds]): what the steps of a round must keep for
      the round to keep it; [Subscriptions] and [System] have instances.
    - [BlockStep] (in [BlockScan]): what [processBlock] must do to one block for
      [syncWallets] to do it to all that are missing; the invariant of the
      tables, the heights, the abstract ledger and its history are instances.
    - [ServerHandler] (in [Server]): the results that a handler may give.  The
      theorems on connections hold for any; [electrum_handler] (in
      [ServiceTheorems]) is the one of the program.
    - SHA-256 is a definition and is nowhere assumed injective: a theorem that
      needs it to be gives a collision as the other case of its conclusion.

    ** What the theorems show

    - The whole (C1, C10, C18): a manager that is started on any database of an
      earlier run and then follows a chain that grows and is reorganised, by up
      to six blocks at a time, through any number of rounds, holds exactly the
      unspent outputs of the chain it has come to, and answers balances with
      them; it serves exactly when its first round has ended without an error,
      and never when the node is down at the start; [New] resumes from its
      rows, and [restart_resumes] has the program stopped and started again
      between any two rounds.
    - Blocks (C2 to C6, C16, C17, C28): [processBlock] succeeds and keeps the
      invariants; misses no payment and no spend; invents nothing; stores proofs
      that verify; rolling back undoes any number of blocks exactly;
      [syncWallets] catches up to the best header.
    - Headers (C7 to C9, C34): the header table is one chain whatever the node
      replies; it reaches the tip of an honest node; a fork of at most six
      blocks is found, rolled back and recovered from; [checkReorg] ends.  That
      deeper forks, and one at the genesis block, panic, is proved too.
    - The system (C11 to C13, C33): in every state that it gets to from tables
      whose Merkle proofs are lists of hashes, any bytes a client sends are
      answered with valid JSON or an error and change no ledger, and so it is for
      what is written to the socket; the only panics are that of the parsing of
      a broadcast transaction, and on Testnet that of the header of the genesis
      block, which the program does not have; after [OnDisconnect] nothing is
      addressed to the id of a connection until another connection is given it;
      a subscription can miss a round.
    - Connections (C14, C15, C19, C32): the order of the calls of the handler and
      of the responses, whatever the interleaving; the only two ways for a
      connection to hang, and that a client can bring them about; a client gets
      the response to its request if it sends one at a time.
    - Subscriptions (C20, C21): every header stored is announced, and every
      change of a script's history is told.
    - Requests (C22 to C25) and queries (C36 to C38): the answers are what the
      tables say, and the proofs in them verify.  A balance is what the index in
      memory says, which is what the table says but after a block that has
      failed ([failed_block_leaves_index_stale]).
    - Formats (C26, C27, C39): transactions and blocks are read back as they were
      written, and reading any bytes ends; wallets are read as configured when
      all their variables are well formed.
    - Merkle trees (C29 to C31): the slice that is overwritten while it is read
      still gives Bitcoin's tree; proofs are complete, and binding up to a
      collision.
    - Wallets (C35): scripts are derived 2000 past the next index at every moment.
    - Settings (C40): the environment goes before the files.

    ** Bounds and fuel

    [checkReorg] runs with fuel 7 (its panic bounds the loop: C34), the Merkle
    loops with the number of hashes (C29, C31), [syncHeaders] and [syncWallets]
    with one round more than the headers or blocks that are missing (C6, C8),
    a whole round of [run] with one more than the blocks of the chain (C1, C10),
    the loops of [Deserialize] with the number of bytes, of which each round
    takes one (C27), and those of [Base58] with the number of digits.  Indexes
    are uint32 and amounts uint64, with their wrap-around; heights and positions
    are Go [int]s, of 64 bits, and are not bounded but where JSON gives them.

    ** Not modelled

    The network I/O of the Bitcoin node's client and the curve arithmetic of
    bip32, which are the parameters above; the parser of the configuration files,
    whose variables are given; the [sync.Once] of [GetConfig], and the pool of
    buffers of the handlers; the ticker of [run]: a round may come at any time.
    The first round of [run] is one step, which no client sees before it is over:
    a connection that is accepted earlier is counted from its first critical
    section on.  A step of [System] takes the goroutine of a connection to call
    the handler, and a step of [Server] takes the handler to give some result: a
    notification reaches the channel of its connection by [Notify], or is
    dropped when that is full.  Failures of the disk (a
    statement fails only when it violates a key), logs, and the estimate of the
    remaining time ([updateRemaining], floating-point numbers for a log) are
    left out.  The order of a range over a Go map is that of [map_to_list]. *)

From stdpp Require Export prelude gmap list sorting strings pretty.
From Stdlib Require Export ZArith Lia ZifyNat.
From Stdlib Require Import Strings.Byte.

Open Scope Z_scope.

(** Lengths are used in integer arithmetic. *)
Coercion Z.of_nat : nat >-> Z.

(** ** Bytes *)

(** Go's [byte] is [Init.Byte.byte]; a Go slice or array of bytes is a list. *)
Abbreviation byte := Init.Byte.byte.
Abbreviation bytes := (list byte).

#[export] Instance byte_eq_decision : EqDecision byte := byte_eq_dec.

#[export] Program Instance byte_countable : Countable byte :=
  inj_countable Byte.to_N Byte.of_N _.
Next Obligation. exact Byte.of_to_N. Qed.

(** ** Outcomes of a Go call *)

(** The errors the program distinguishes with [errors.Is] / [errors.As].
    [stackerr.Wrap] keeps the identity of the error it wraps, so it is the
    identity here. *)
Inductive error :=
  | ErrNoRows                               (* sql.ErrNoRows *)
  | ErrNotFound                             (* walletmanager.errNotFound *)
  | ErrReorg (LastHeightOnChain : Z)        (* walletmanager.reorgError *)
  | ErrConstraint (table : string)          (* a UNIQUE constraint failed *)
  | ErrMsg (msg : string).                  (* any other error *)

#[export] Instance error_eq_decision : EqDecision error.
Proof. solve_decision. Defined.

(** A call returns a value, returns an error, panics, or (for the loops that
    the model runs with fuel) has not finished when the fuel is used up. *)
Inductive outcome (A : Type) :=
  | Ok (a : A)
  | Err (e : error)
  | Panic (why : string)
  | OutOfFuel.
Arguments Ok {A} a.
Arguments Err {A} e.
Arguments Panic {A} why.
Arguments OutOfFuel {A}.

#[export] Instance outcome_ret : MRet outcome := λ A a, Ok a.
#[export] Instance outcome_bind : MBind outcome := λ A B f o,
  match o with
  | Ok a => f a
  | Err e => Err e
  | Panic p => Panic p
  | OutOfFuel => OutOfFuel
  end.

Definition is_Ok {A} (o : outcome A) : Prop := ∃ a, o = Ok a.

(** A [select] between a channel that is closed when its goroutine has ended and
    [ctx.Done()]: when both are ready, Go takes either. *)
Inductive select_or_timeout (closed ctx_done : bool) (timeout : error) : outcome unit → Prop :=
  | select_closed : closed = true → select_or_timeout closed ctx_done timeout (Ok tt)
  | select_timeout : ctx_done = true → select_or_timeout closed ctx_done timeout (Err timeout).

Lemma select_ok closed ctx_done timeout :
  select_or_timeout closed ctx_done timeout (Ok tt) ↔ closed = true.
Proof. split; [by inversion 1|]. by constructor. Qed.

(** ** The state and error monad of the methods *)

(** A method that mutates its receiver: it runs on a state, and leaves the
    state it has reached even when it returns an error or panics (Go does not
    undo assignments). *)
Definition M (S A : Type) : Type := S → outcome A * S.

#[export] Instance M_ret {S} : MRet (M S) := λ A a s, (Ok a, s).
#[export] Instance M_bind {S} : MBind (M S) := λ A B f m s,
  match m s with
  | (Ok a, s') => f a s'
  | (Err e, s') => (Err e, s')
  | (Panic p, s') => (Panic p, s')
  | (OutOfFuel, s') => (OutOfFuel, s')
  end.

Definition get {S} : M S S := λ s, (Ok s, s).
Definition gets {S A} (f : S → A) : M S A := λ s, (Ok (f s), s).
Definition modify {S} (f : S → S) : M S unit := λ s, (Ok tt, f s).
Definition throw {S A} (e : error) : M S A := λ s, (Err e, s).
Definition panic {S A} (why : string) : M S A := λ s, (Panic why, s).
Definition lift_outcome {S A} (o : outcome A) : M S A := λ s, (o, s).
Definition out_of_fuel {S A} : M S A := λ s, (OutOfFuel, s).

(** Run a method of a component on the part of the state that it owns. *)
Definition zoom {S T A} (proj : S → T) (upd : T → S → S) (m : M T A) : M S A :=
  λ s, let '(o, t) := m (proj s) in (o, upd t s).

(** [for _, x := range l { body }] with the error of the body returned. *)
Fixpoint forM {S A} (l : list A) (body : A → M S unit) : M S unit :=
  match l with
  | [] => mret tt
  | x :: l' => body x ;; forM l' body
  end.

(** [for i, x := range l { body }]. *)
Fixpoint forM_idx {S A} (i : Z) (l : list A) (body : Z → A → M S unit) : M S unit :=
  match l with
  | [] => mret tt
  | x :: l' => body i x ;; forM_idx (i + 1) l' body
  end.

(** ** Reasoning about methods *)

(** What a method ends with, on whatever branch. *)
Definition wp {S A} (m : M S A) (Q : outcome A → S → Prop) (s : S) : Prop :=
  Q (m s).1 (m s).2.

(** The method keeps the invariant on every branch, errors and panics
    included. *)
Definition preserves {S A} (I : S → Prop) (m : M S A) : Prop :=
  ∀ s, I s → I (m s).2.

Create HintDb preserve.

Section monad_lemmas.
Context {S : Type}.
Implicit Types s : S.

Lemma bind_run {A B} (m : M S A) (k : A → M S B) s :
  (m ≫= k) s =
  match m s with
  | (Ok a, s') => k a s'
  | (Err e, s') => (Err e, s')
  | (Panic p, s') => (Panic p, s')
  | (OutOfFuel, s') => (OutOfFuel, s')
  end.
Proof. reflexivity. Qed.

Lemma bind_Ok {A B} (m : M S A) (k : A → M S B) s b s' :
  (m ≫= k) s = (Ok b, s') ↔ ∃ a s1, m s = (Ok a, s1) ∧ k a s1 = (Ok b, s').
Proof.
  rewrite bind_run. split.
  - destruct (m s) as [[] ?]; naive_solver.
  - intros (a & s1 & -> & ?). done.
Qed.

Lemma bind_Ok_1 {A B} (m : M S A) (k : A → M S B) s a s1 :
  m s = (Ok a, s1) → (m ≫= k) s = k a s1.
Proof. rewrite bind_run. by intros ->. Qed.

Lemma bind_assoc {A B C} (m : M S A) (k : A → M S B) (h : B → M S C) s :
  ((m ≫= k) ≫= h) s = (m ≫= (λ a, k a ≫= h)) s.
Proof. rewrite !bind_run. by destruct (m s) as [[] ?]. Qed.

Lemma wp_bind {A B} (m : M S A) (k : A → M S B) Q s :
  wp m (λ o s', match o with
                | Ok a => wp (k a) Q s'
                | Err e => Q (Err e) s'
                | Panic p => Q (Panic p) s'
                | OutOfFuel => Q OutOfFuel s'
                end) s →
  wp (m ≫= k) Q s.
Proof. unfold wp. rewrite bind_run. by destruct (m s) as [[] ?]. Qed.

Lemma wp_mono {A} (m : M S A) (P Q : outcome A → S → Prop) s :
  (∀ o s', P o s' → Q o s') → wp m P s → wp m Q s.
Proof. unfold wp. auto. Qed.

Lemma preserves_ret I {A} (a : A) : preserves I (mret a : M S A).
Proof. by intros s. Qed.
Lemma preserves_gets I {A} (f : S → A) : preserves I (gets f).
Proof. by intros s. Qed.
Lemma preserves_get I : preserves I (get : M S S).
Proof. by intros s. Qed.
Lemma preserves_throw I {A} e : preserves I (throw e : M S A).
Proof. by intros s. Qed.
Lemma preserves_panic I {A} w : preserves I (panic w : M S A).
Proof. by intros s. Qed.
Lemma preserves_lift_outcome I {A} (o : outcome A) : preserves I (lift_outcome o : M S A).
Proof. by intros s. Qed.
Lemma preserves_out_of_fuel I {A} : preserves I (out_of_fuel : M S A).
Proof. by intros s. Qed.
Lemma preserves_modify (I : S → Prop) f : (∀ s, I s → I (f s)) → preserves I (modify f).
Proof. intros H s. apply H. Qed.

Lemma preserves_bind I {A B} (m : M S A) (k : A → M S B) :
  preserves I m → (∀ a, preserves I (k a)) → preserves I (m ≫= k).
Proof.
  intros Hm Hk s Hs. rewrite bind_run. specialize (Hm s Hs).
  destruct (m s) as [[] s']; simpl in *; by try apply Hk.
Qed.

Lemma preserves_forM I {A} (l : list A) (body : A → M S unit) :
  (∀ x, x ∈ l → preserves I (body x)) → preserves I (forM l body).
Proof.
  induction l as [|x l IH]; intros H; simpl; [apply preserves_ret|].
  apply preserves_bind; [apply H, list_elem_of_here|].
  intros _. apply IH. intros y Hy. apply H. by apply list_elem_of_further.
Qed.

Lemma preserves_forM_idx I {A} (l : list A) (body : Z → A → M S unit) i :
  (∀ j x, preserves I (body j x)) → preserves I (forM_idx i l body).
Proof.
  intros H. revert i. induction l as [|x l IH]; intros i; simpl; [apply preserves_ret|].
  apply preserves_bind; auto.
Qed.

Lemma preserves_True {A} (m : M S A) : preserves (λ _, True) m.
Proof. by intros s _. Qed.

Lemma preserves_zoom {T A} (I : T → Prop) (J : S → Prop) proj upd (m : M T A) :
  preserves I m → (∀ s, J s → I (proj s)) → (∀ t s, J s → I t → J (upd t s)) →
  preserves J (zoom proj upd m).
Proof.
  intros Hm HJ Hu s Hs. unfold zoom. specialize (Hm (proj s) (HJ _ Hs)).
  destruct (m (proj s)) as [o t]; simpl in *. by apply Hu.
Qed.
End monad_lemmas.

#[export] Hint Resolve preserves_ret preserves_gets preserves_get preserves_throw
  preserves_panic preserves_lift_outcome preserves_out_of_fuel preserves_modify
  preserves_bind preserves_forM preserves_forM_idx preserves_True : preserve.

(** ** Triples *)

(** From a state with [P] the method never panics and never runs out of fuel,
    it returns no error outside [E], and when it returns without an error its
    result and state have [Q]. *)
Definition triple {S A} (E : error → Prop) (P : S → Prop) (m : M S A) (Q : A → S → Prop) : Prop :=
  ∀ s, P s →
    match m s with
    | (Ok a, s') => Q a s'
    | (Err e, _) => E e
    | _ => False
    end.

(** A call that neither panics nor runs out of fuel. *)
Definition safe {A} (o : outcome A) : Prop :=
  match o with Ok _ | Err _ => True | _ => False end.

Section triple_lemmas.
Context {S : Type} {E : error → Prop}.
Implicit Types P : S → Prop.

Lemma triple_ret {A} P (a : A) (Q : A → S → Prop) :
  (∀ s, P s → Q a s) → triple E P (mret a) Q.
Proof. intros H s. apply H. Qed.

Lemma triple_bind {A B} P (m : M S A) (k : A → M S B) R Q :
  triple E P m R → (∀ a, triple E (R a) (k a) Q) → triple E P (m ≫= k) Q.
Proof.
  intros Hm Hk s Hs. rewrite bind_run. specialize (Hm s Hs).
  destruct (m s) as [[a|e|w|] s']; try done. by apply Hk.
Qed.

Lemma triple_consequence {A} P P' (m : M S A) (Q Q' : A → S → Prop) :
  triple E P' m Q' → (∀ s, P s → P' s) → (∀ a s, Q' a s → Q a s) → triple E P m Q.
Proof.
  intros Hm HP HQ s Hs. specialize (Hm s (HP _ Hs)). destruct (m s) as [[] s']; auto.
Qed.

Lemma triple_gets {A} P (f : S → A) (Q : A → S → Prop) :
  (∀ s, P s → Q (f s) s) → triple E P (gets f) Q.
Proof. intros H s. apply H. Qed.

Lemma triple_get P (Q : S → S → Prop) : (∀ s, P s → Q s s) → triple E P get Q.
Proof. intros H s. apply H. Qed.

Lemma triple_modify P f (Q : unit → S → Prop) :
  (∀ s, P s → Q tt (f s)) → triple E P (modify f) Q.
Proof. intros H s. apply H. Qed.

Lemma triple_throw {A} P e (Q : A → S → Prop) : E e → triple E P (throw e) Q.
Proof. by intros ? s _. Qed.

Lemma triple_lift_outcome {A} P (o : outcome A) (Q : A → S → Prop) :
  safe o → (∀ e, o = Err e → E e) → (∀ a s, o = Ok a → P s → Q a s) → triple E P (lift_outcome o) Q.
Proof. intros Ho He H s Hs. unfold lift_outcome. destruct o; try done; auto. Qed.

Lemma triple_exists {X A} (P : X → S → Prop) (m : M S A) Q :
  (∀ x, triple E (P x) m Q) → triple E (λ s, ∃ x, P x s) m Q.
Proof. intros H s [x Hx]. by apply (H x). Qed.

Lemma triple_pure {A} (φ : Prop) P (m : M S A) Q :
  (φ → triple E P m Q) → triple E (λ s, φ ∧ P s) m Q.
Proof. intros H s [Hφ Hs]. by apply H. Qed.

(** The precondition may speak of the state at the call. *)
Lemma triple_at {A} P (m : M S A) Q :
  (∀ s0, P s0 → triple E (eq s0) m Q) → triple E P m Q.
Proof. intros H s Hs. by apply (H s Hs). Qed.

(** What a method preserves is kept aside. *)
Lemma triple_keep {A} P (I : S → Prop) (m : M S A) Q :
  triple E P m Q → preserves I m → triple E (λ s, P s ∧ I s) m (λ a s, Q a s ∧ I s).
Proof.
  intros Hm Hp s [Hs Hi]. specialize (Hm s Hs). specialize (Hp s Hi). by destruct (m s) as [[] s'].
Qed.

(** A loop keeps an invariant of the elements that are left. *)
Lemma triple_forM {A} (I : list A → S → Prop) (l : list A) (body : A → M S unit) :
  (∀ x l', triple E (I (x :: l')) (body x) (λ _, I l')) →
  triple E (I l) (forM l body) (λ _, I []).
Proof.
  intros H. induction l as [|x l IH]; simpl; [by apply triple_ret|].
  eapply triple_bind; [apply H|]. intros []. apply IH.
Qed.
End triple_lemmas.

Lemma safe_bind {A B} (o : outcome A) (f : A → outcome B) :
  safe o → (∀ a, o = Ok a → safe (f a)) → safe (o ≫= f).
Proof. intros Ho Hf. destruct o; try done. by apply Hf. Qed.

Lemma safe_mapM {A B} (f : A → outcome B) l : (∀ x, x ∈ l → safe (f x)) → safe (mapM f l).
Proof.
  induction l as [|x l IH]; intros H; [done|]. simpl.
  apply safe_bind; [apply H, list_elem_of_here|]. intros y _.
  apply safe_bind; [|done]. apply IH. intros z Hz. apply H. by apply list_elem_of_further.
Qed.

(** Open every [m s = (Ok _, _)] hypothesis about a sequence of calls. *)
Ltac open_bind :=
  repeat match goal with
  | H : mbind _ _ _ = (Ok _, _) |- _ =>
      apply bind_Ok in H; destruct H as (? & ? & H & ?)
  end.

(** Run the next call of a block of the error monad. *)
Ltac run_outcome := cbn [mbind outcome_bind mret outcome_ret].

(** Case analysis on the scrutinee of the first match of the goal. *)
Ltac case_goal :=
  match goal with
  | |- context [match ?e with _ => _ end] => destruct e eqn:?
  end.

(** Linear arithmetic with division and remainder by constants. *)
Ltac div_lia := zify; Z.to_euclidean_division_equations; lia.

(** ** Machine integers *)

Definition uint8_wrap (z : Z) : Z := z `mod` 2 ^ 8.
Definition uint32_wrap (z : Z) : Z := z `mod` 2 ^ 32.
Definition uint64_wrap (z : Z) : Z := z `mod` 2 ^ 64.

Lemma uint32_wrap_small z : 0 ≤ z < 2 ^ 32 → uint32_wrap z = z.
Proof. intros. unfold uint32_wrap. by apply Z.mod_small. Qed.
Lemma uint64_wrap_small z : 0 ≤ z < 2 ^ 64 → uint64_wrap z = z.
Proof. intros. unfold uint64_wrap. by apply Z.mod_small. Qed.
Lemma uint32_wrap_range z : 0 ≤ uint32_wrap z < 2 ^ 32.
Proof. unfold uint32_wrap. apply Z.mod_pos_bound. lia. Qed.
Lemma uint64_wrap_range z : 0 ≤ uint64_wrap z < 2 ^ 64.
Proof. unfold uint64_wrap. apply Z.mod_pos_bound. lia. Qed.

(** ** Lists *)

Section list_lemmas.
Context {A : Type}.
Implicit Types l k : list A.

(** Go's [copy(dst[:], src)] on an array [dst]: the bytes past the end of
    [src] keep their value. *)
Definition copy_into (dst src : list A) : list A :=
  take (length dst) src ++ drop (length src) dst.

Lemma length_copy_into dst src : length (copy_into dst src) = length dst.
Proof.
  unfold copy_into. rewrite length_app, length_take, length_drop. lia.
Qed.

Lemma copy_into_full dst src :
  length src = length dst → copy_into dst src = src.
Proof.
  intros H. unfold copy_into. rewrite <- H, firstn_all, H.
  by rewrite drop_all, app_nil_r.
Qed.

Lemma copy_into_prefix dst src :
  (length dst ≤ length src)%nat → copy_into dst src = take (length dst) src.
Proof.
  intros H. unfold copy_into. by rewrite (drop_ge dst), app_nil_r by done.
Qed.
End list_lemmas.

Lemma elem_of_take_of {A} (l : list A) n x : x ∈ take n l → x ∈ l.
Proof. intros Hx. rewrite <- (take_drop n l), elem_of_app. by left. Qed.
Lemma elem_of_drop_of {A} (l : list A) n x : x ∈ drop n l → x ∈ l.
Proof. intros Hx. rewrite <- (take_drop n l), elem_of_app. by right. Qed.

Section filter_lemmas.
Context {A : Type} (P : A → Prop) `{!∀ x, Decision (P x)}.

Lemma filter_all (l : list A) : (∀ x, x ∈ l → P x) → filter P l = l.
Proof using Type.
  induction l as [|x l IH]; intros Hl; [done|].
  rewrite filter_cons_True by apply Hl, list_elem_of_here. f_equal. apply IH.
  intros y Hy. by apply Hl, list_elem_of_further.
Qed.

Lemma filter_none (l : list A) : (∀ x, x ∈ l → ¬ P x) → filter P l = [].
Proof using Type.
  induction l as [|x l IH]; intros Hl; [done|].
  rewrite filter_cons_False by apply Hl, list_elem_of_here. apply IH.
  intros y Hy. by apply Hl, list_elem_of_further.
Qed.
End filter_lemmas.

(** [omap] keeps the places of the elements that all have an image. *)
Lemma omap_lookup_all {A B} (f : A → option B) (l : list A) (i : nat) x y :
  (∀ (j : nat) z, (j < i)%nat → l !! j = Some z → is_Some (f z)) → l !! i = Some x → f x = Some y →
  omap f l !! i = Some y.
Proof.
  revert i. induction l as [|z l IH]; intros [|i] Hall Hx Hy; try done.
  - injection Hx as ->. cbn. by rewrite Hy.
  - destruct (Hall 0%nat z) as [y0 Hy0]; [lia|done|]. cbn. rewrite Hy0. apply IH; [|done|done].
    intros j z' Hj Hz'. apply (Hall (S j) z'); [lia|done].
Qed.

(** ** Sequences of calls in the error monad *)

Lemma outcome_bind_Ok {A B} (o : outcome A) (f : A → outcome B) b :
  (o ≫= f) = Ok b ↔ ∃ a, o = Ok a ∧ f a = Ok b.
Proof.
  split; [|by intros (a & -> & ?)].
  destruct o as [a| | |]; intros H; try discriminate H. by exists a.
Qed.

Section outcome_lemmas.
Context {A B : Type}.
Implicit Types (f : A → outcome B) (l : list A) (k : list B).

Lemma mapM_Ok f l k : mapM f l = Ok k ↔ Forall2 (λ x y, f x = Ok y) l k.
Proof.
  revert k. induction l as [|x l IH]; intros k; simpl.
  - split; [intros [= <-]; constructor|by inversion 1].
  - rewrite outcome_bind_Ok. split.
    + intros (y & Hy & (k' & Hk'%IH & [= <-])%outcome_bind_Ok). by constructor.
    + inversion 1 as [|? y ? k' Hy Hk']; subst. exists y. split; [done|].
      apply outcome_bind_Ok. exists k'. by rewrite IH.
Qed.

Lemma mapM_Ok_total f (g : A → B) l :
  (∀ x, x ∈ l → f x = Ok (g x)) → mapM f l = Ok (g <$> l).
Proof.
  intros H. apply mapM_Ok, Forall2_fmap_r, Forall_Forall2_diag, Forall_forall. exact H.
Qed.
End outcome_lemmas.

Ltac open_outcome :=
  repeat match goal with
  | H : mbind _ _ = Ok _ |- _ => apply outcome_bind_Ok in H; destruct H as (? & H & ?)
  end.

(** ** Slices *)

(** [l[i]]: an index out of range panics. *)
Definition index {A} (l : list A) (i : nat) : outcome A :=
  match l !! i with
  | Some x => Ok x
  | None => Panic "index out of range"
  end.

(** [l[i] = x]. *)
Definition store {A} (l : list A) (i : nat) (x : A) : outcome (list A) :=
  match l !! i with
  | Some _ => Ok (<[i := x]> l)
  | None => Panic "index out of range"
  end.

Lemma index_Some {A} (l : list A) i x : l !! i = Some x → index l i = Ok x.
Proof. unfold index. by intros ->. Qed.

Lemma index_Ok {A} (l : list A) i x : index l i = Ok x → l !! i = Some x.
Proof. unfold index. destruct (l !! i); [by intros [= ->]|done]. Qed.

Lemma index_lt {A} (l : list A) i : (i < length l)%nat → ∃ x, l !! i = Some x ∧ index l i = Ok x.
Proof.
  intros [x Hx]%lookup_lt_is_Some. exists x. by rewrite (index_Some _ _ _ Hx).
Qed.

Lemma index_Ok_elem {A} (l : list A) i x : index l i = Ok x → x ∈ l.
Proof.
  unfold index. destruct (l !! i) eqn:E; [|done]. intros [= ->]. by eapply list_elem_of_lookup_2.
Qed.

Lemma store_lt {A} (l : list A) i x : (i < length l)%nat → store l i x = Ok (<[i := x]> l).
Proof. intros [y Hy]%lookup_lt_is_Some. unfold store. by rewrite Hy. Qed.
