(* ===== verification/Bytes.v ===== *)
(** * Bytes: machine integers as bytes, hexadecimal, and formatting

    What [vendor/ncody.com/ncgo.git/bitcoin/types.go] does to write integers as
    little endian bytes, [encoding/hex], and the [%d] and [%s] verbs of
    [fmt.Appendf] as the program uses them. *)

From S2P Require Import Prelude.
From Stdlib Require Import Strings.Byte.

(** ** Bytes and integers *)

Definition b2z (b : byte) : Z := Z.of_N (Byte.to_N b).

(** The conversion [byte(v)], which keeps the low eight bits. *)
Definition z2b (z : Z) : byte :=
  default x00 (Byte.of_N (Z.to_N (z `mod` 256))).

Lemma b2z_range b : 0 ≤ b2z b < 256.
Proof. unfold b2z. pose proof (Byte.to_N_bounded b). lia. Qed.

Lemma b2z_z2b z : b2z (z2b z) = z `mod` 256.
Proof.
  unfold b2z, z2b. pose proof (Z.mod_pos_bound z 256 ltac:(lia)).
  destruct (Byte.of_N _) as [b|] eqn:E; simpl.
  - apply Byte.to_of_N in E. rewrite E. lia.
  - apply Byte.of_N_None_iff in E. lia.
Qed.

Lemma z2b_b2z b : z2b (b2z b) = b.
Proof.
  unfold z2b. rewrite Z.mod_small by apply b2z_range.
  unfold b2z. by rewrite N2Z.id, Byte.of_to_N.
Qed.

#[export] Instance b2z_inj : Inj (=) (=) b2z.
Proof. intros a b H. by rewrite <- (z2b_b2z a), H, z2b_b2z. Qed.

(** An array [[n]byte] of zeroes. *)
Definition zeroes (n : nat) : bytes := replicate n x00.

(** ** Little endian integers *)

(** Byte [i] of [v], [byte(v >> (8*i))]. *)
Definition byte_at (v : Z) (i : Z) : byte := z2b (Z.shiftr v (8 * i)).

Definition uint16SerializeLE (v : Z) : bytes := [byte_at v 0; byte_at v 1].
Definition uint32SerializeLE (v : Z) : bytes :=
  [byte_at v 0; byte_at v 1; byte_at v 2; byte_at v 3].
Definition uint64SerializeLE (v : Z) : bytes :=
  [byte_at v 0; byte_at v 1; byte_at v 2; byte_at v 3;
   byte_at v 4; byte_at v 5; byte_at v 6; byte_at v 7].

(** [r <<= 8; r |= b] on a register of [w] bits. *)
Definition push_byte (w r : Z) (b : byte) : Z :=
  Z.lor (Z.shiftl r 8 `mod` 2 ^ w) (b2z b).

(** The bytes are pushed from the last one down to the first one. *)
Definition deserializeLE (w : Z) (bs : bytes) : Z :=
  foldr (λ b r, push_byte w r b) 0 bs.

Definition uint16DeserializeLE (bs : bytes) : Z := deserializeLE 16 bs.
Definition uint32DeserializeLE (bs : bytes) : Z := deserializeLE 32 bs.
Definition uint64DeserializeLE (bs : bytes) : Z := deserializeLE 64 bs.

Lemma lor_shiftl_add r b : 0 ≤ r → 0 ≤ b < 256 → Z.lor (Z.shiftl r 8) b = 256 * r + b.
Proof.
  intros Hr Hb. pose proof (Z.add_lor_land (Z.shiftl r 8) b) as H.
  assert (Z.land (Z.shiftl r 8) b = 0) as E.
  { apply Z.bits_inj'. intros n Hn. rewrite Z.land_spec, Z.bits_0, Z.shiftl_spec by done.
    destruct (Z_lt_ge_dec n 8).
    - by rewrite Z.testbit_neg_r by lia.
    - rewrite (proj1 (Z.bounded_iff_bits_nonneg' 8 b ltac:(lia) ltac:(lia))) by lia.
      by rewrite andb_false_r. }
  rewrite Z.shiftl_mul_pow2 in * by lia. lia.
Qed.

(** The value that little endian bytes stand for, and its inverse. *)
Definition le_value (bs : bytes) : Z := foldr (λ b r, 256 * r + b2z b) 0 bs.

Fixpoint le_bytes (n : nat) (v : Z) : bytes :=
  match n with
  | O => []
  | S n => z2b v :: le_bytes n (v `div` 256)
  end.

Lemma le_value_range bs : 0 ≤ le_value bs < 256 ^ length bs.
Proof.
  induction bs as [|b bs IH]; simpl; [lia|].
  pose proof (b2z_range b). rewrite Nat2Z.inj_succ, Z.pow_succ_r by lia. lia.
Qed.

Lemma deserializeLE_value w bs : 8 * length bs ≤ w → deserializeLE w bs = le_value bs.
Proof.
  induction bs as [|b bs IH]; intros Hw; [done|]. simpl.
  rewrite IH by (simpl in Hw; lia). unfold push_byte.
  pose proof (le_value_range bs) as Hr. pose proof (b2z_range b).
  rewrite Z.mod_small; [apply lor_shiftl_add; lia|].
  rewrite Z.shiftl_mul_pow2 by lia. split; [lia|].
  apply Z.lt_le_trans with (256 ^ length bs * 2 ^ 8); [lia|].
  change 256 with (2 ^ 8). rewrite <- Z.pow_mul_r, <- Z.pow_add_r by lia.
  apply Z.pow_le_mono_r; simpl in Hw; lia.
Qed.

Lemma le_value_le_bytes n v : le_value (le_bytes n v) = v `mod` 256 ^ n.
Proof.
  revert v. induction n as [|n IH]; intros v; [by rewrite Z.mod_1_r|].
  simpl. rewrite IH, b2z_z2b, Nat2Z.inj_succ, Z.pow_succ_r by lia.
  rewrite Z.rem_mul_r by lia. lia.
Qed.

Lemma le_bytes_le_value bs : le_bytes (length bs) (le_value bs) = bs.
Proof.
  induction bs as [|b bs IH]; [done|]. simpl. pose proof (b2z_range b). f_equal.
  - apply (inj b2z). rewrite b2z_z2b. rewrite Z.add_comm, Z.mul_comm, Z.mod_add by lia.
    by apply Z.mod_small.
  - rewrite Z.mul_comm, Z.div_add_l, Z.div_small, Z.add_0_r by lia. apply IH.
Qed.

Lemma length_le_bytes n v : length (le_bytes n v) = n.
Proof. revert v. induction n; intros; simpl; auto. Qed.

Lemma byte_at_succ v i : 0 ≤ i → byte_at v (i + 1) = byte_at (v `div` 256) i.
Proof.
  intros. unfold byte_at. f_equal. change 256 with (2 ^ 8).
  rewrite <- Z.shiftr_div_pow2, Z.shiftr_shiftr by lia. f_equal; lia.
Qed.

Lemma byte_at_0 v : byte_at v 0 = z2b v.
Proof. unfold byte_at. by rewrite Z.shiftr_0_r. Qed.

Ltac le_bytes_tac :=
  simpl; rewrite ?byte_at_0;
  repeat match goal with
  | |- context [byte_at ?v (Zpos ?p)] =>
      let q := eval compute in (Z.pred (Zpos p)) in
      change (byte_at v (Zpos p)) with (byte_at v (q + 1));
      rewrite (byte_at_succ v q) by lia
  end; rewrite ?byte_at_0; reflexivity.

Lemma uint16SerializeLE_le v : uint16SerializeLE v = le_bytes 2 v.
Proof. unfold uint16SerializeLE. le_bytes_tac. Qed.
Lemma uint32SerializeLE_le v : uint32SerializeLE v = le_bytes 4 v.
Proof. unfold uint32SerializeLE. le_bytes_tac. Qed.
Lemma uint64SerializeLE_le v : uint64SerializeLE v = le_bytes 8 v.
Proof. unfold uint64SerializeLE. le_bytes_tac. Qed.

Lemma uint16_roundtrip v : 0 ≤ v < 2 ^ 16 → uint16DeserializeLE (uint16SerializeLE v) = v.
Proof.
  intros. rewrite uint16SerializeLE_le. unfold uint16DeserializeLE.
  rewrite deserializeLE_value by (rewrite length_le_bytes; lia).
  rewrite le_value_le_bytes. by apply Z.mod_small.
Qed.
Lemma uint32_roundtrip v : 0 ≤ v < 2 ^ 32 → uint32DeserializeLE (uint32SerializeLE v) = v.
Proof.
  intros. rewrite uint32SerializeLE_le. unfold uint32DeserializeLE.
  rewrite deserializeLE_value by (rewrite length_le_bytes; lia).
  rewrite le_value_le_bytes. by apply Z.mod_small.
Qed.
Lemma uint64_roundtrip v : 0 ≤ v < 2 ^ 64 → uint64DeserializeLE (uint64SerializeLE v) = v.
Proof.
  intros. rewrite uint64SerializeLE_le. unfold uint64DeserializeLE.
  rewrite deserializeLE_value by (rewrite length_le_bytes; lia).
  rewrite le_value_le_bytes. by apply Z.mod_small.
Qed.

Lemma uint32SerializeLE_inj v w :
  0 ≤ v < 2 ^ 32 → 0 ≤ w < 2 ^ 32 → uint32SerializeLE v = uint32SerializeLE w → v = w.
Proof. intros Hv Hw H. by rewrite <- (uint32_roundtrip v), H, uint32_roundtrip. Qed.

(** ** Text *)

(** The bytes of a Go string literal. *)
Definition str (s : string) : bytes := String.list_byte_of_string s.

(** [encoding/hex]: [EncodeToString], lower case. *)
Definition hexDigit (n : Z) : byte := z2b (if n <? 10 then 48 + n else 87 + n).

Definition hexEncode (bs : bytes) : bytes :=
  b ← bs; [hexDigit (b2z b `div` 16); hexDigit (b2z b `mod` 16)].

(** The value of a digit, in either case; [None] is [hex.InvalidByteError]. *)
Definition fromHexChar (c : byte) : option Z :=
  let z := b2z c in
  if (48 <=? z) && (z <=? 57) then Some (z - 48)
  else if (97 <=? z) && (z <=? 102) then Some (z - 87)
  else if (65 <=? z) && (z <=? 70) then Some (z - 55)
  else None.

(** [hex.DecodeString]: two digits per byte, an odd length is an error. *)
Fixpoint hexDecode (cs : bytes) : outcome bytes :=
  match cs with
  | [] => Ok []
  | [c] =>
      match fromHexChar c with
      | None => Err (ErrMsg "encoding/hex: invalid byte")
      | Some _ => Err (ErrMsg "encoding/hex: odd length hex string")
      end
  | c1 :: c2 :: cs' =>
      match fromHexChar c1, fromHexChar c2 with
      | Some h, Some l => bs ← hexDecode cs'; Ok (z2b (16 * h + l) :: bs)
      | _, _ => Err (ErrMsg "encoding/hex: invalid byte")
      end
  end.

(** Bytes written in hexadecimal. *)
Definition unhex (s : string) : bytes :=
  match hexDecode (str s) with
  | Ok bs => bs
  | _ => []
  end.

(** The [%d] verb on an [int]. *)
Definition decimal (z : Z) : bytes := str (pretty z).

Lemma length_hexEncode bs : length (hexEncode bs) = (2 * length bs)%nat.
Proof.
  unfold hexEncode. induction bs as [|b bs IH]; [done|].
  rewrite bind_cons, length_app, IH. simpl. lia.
Qed.

Lemma hexDigit_range n : 0 ≤ n < 16 →
  b2z (hexDigit n) = if n <? 10 then 48 + n else 87 + n.
Proof.
  intros. unfold hexDigit. rewrite b2z_z2b. apply Z.mod_small. by destruct (Z.ltb_spec n 10); lia.
Qed.

Lemma fromHexChar_hexDigit n : 0 ≤ n < 16 → fromHexChar (hexDigit n) = Some n.
Proof.
  intros Hn. unfold fromHexChar. rewrite hexDigit_range by done.
  destruct (Z.ltb_spec n 10).
  - replace ((48 <=? 48 + n) && (48 + n <=? 57)) with true by lia. f_equal; lia.
  - replace ((48 <=? 87 + n) && (87 + n <=? 57)) with false by lia.
    replace ((97 <=? 87 + n) && (87 + n <=? 102)) with true by lia. f_equal; lia.
Qed.

Lemma hexDecode_hexEncode bs : hexDecode (hexEncode bs) = Ok bs.
Proof.
  induction bs as [|b bs IH]; [done|].
  unfold hexEncode in *. rewrite bind_cons. cbn [app hexDecode].
  pose proof (b2z_range b) as Hb.
  rewrite !fromHexChar_hexDigit, IH by (split; [|apply Z.div_lt_upper_bound || apply Z.mod_pos_bound]; lia || (apply Z.div_pos; lia) || (apply Z.mod_pos_bound; lia)).
  cbn. rewrite <- Z.div_mod by lia. by rewrite z2b_b2z.
Qed.

#[export] Instance hexEncode_inj : Inj (=) (=) hexEncode.
Proof.
  intros a b H. assert (Ok a = Ok b) as E by (by rewrite <- (hexDecode_hexEncode a), H, hexDecode_hexEncode).
  congruence.
Qed.

#[export] Instance str_inj : Inj (=) (=) str.
Proof.
  intros a b H. unfold str in H.
  by rewrite <- (String.string_of_list_byte_of_string a), H, String.string_of_list_byte_of_string.
Qed.

#[export] Instance decimal_inj : Inj (=) (=) decimal.
Proof. intros a b H. unfold decimal in H. by apply (inj str), (inj pretty) in H. Qed.

(** The separator of the status text never occurs in a number or a hash. *)
Definition colon : byte := z2b 58.

Lemma colon_not_in_hex bs : colon ∉ hexEncode bs.
Proof.
  unfold hexEncode. intros (b & Hc & Hb)%list_elem_of_bind. pose proof (b2z_range b).
  assert (0 ≤ b2z b `div` 16 < 16 ∧ 0 ≤ b2z b `mod` 16 < 16) as [Hd Hm].
  { split; [split; [apply Z.div_pos|apply Z.div_lt_upper_bound]; lia|apply Z.mod_pos_bound; lia]. }
  rewrite !elem_of_cons, elem_of_nil in Hc.
  assert (b2z colon = 58) by (by vm_compute).
  destruct Hc as [Hc|[Hc|[]]]; apply (f_equal b2z) in Hc;
    rewrite hexDigit_range in Hc by done; case_match; lia.
Qed.

Lemma pretty_N_char_colon n : pretty_N_char n ≠ Ascii.ascii_of_nat 58.
Proof. unfold pretty_N_char. repeat case_match; discriminate. Qed.

Lemma str_cons c s : str (String c s) = Ascii.byte_of_ascii c :: str s.
Proof. reflexivity. Qed.

Lemma str_app s t : str (s +:+ t) = str s ++ str t.
Proof.
  induction s as [|c s IH]; [done|].
  change (str (String c (s +:+ t)) = str (String c s) ++ str t).
  rewrite !str_cons, IH. done.
Qed.

Lemma colon_not_digit n : Ascii.byte_of_ascii (pretty_N_char n) ≠ colon.
Proof. unfold pretty_N_char. repeat case_match; discriminate. Qed.

Lemma colon_not_in_pretty_N_go n s : colon ∉ str s → colon ∉ str (pretty_N_go n s).
Proof.
  revert s. induction (N.lt_wf_0 n) as [n _ IH]. intros s Hs.
  destruct (decide (n = 0%N)) as [->|]; [by rewrite pretty_N_go_0|].
  rewrite pretty_N_go_step by lia. apply IH; [apply N.div_lt; lia|].
  rewrite str_cons, elem_of_cons. intros [H|H]; [by apply (colon_not_digit (n `mod` 10))|done].
Qed.

Lemma colon_not_in_decimal z : colon ∉ decimal z.
Proof.
  assert (∀ n : N, colon ∉ str (pretty n)) as HN.
  { intros n. unfold pretty, pretty_N. case_decide.
    - by apply (bool_decide_unpack _); vm_compute.
    - apply colon_not_in_pretty_N_go. by apply (bool_decide_unpack _); vm_compute. }
  destruct z as [|p|p].
  - by apply (bool_decide_unpack _); vm_compute.
  - apply (HN (N.pos p)).
  - change (decimal (Z.neg p)) with (str ("-" +:+ pretty (N.pos p))).
    rewrite str_app, elem_of_app. intros [H|H]; [|by apply HN in H].
    revert H. by apply (bool_decide_unpack _); vm_compute.
Qed.

Lemma split_at_sep {A} (c : A) l1 l2 r1 r2 :
  c ∉ l1 → c ∉ l2 → l1 ++ c :: r1 = l2 ++ c :: r2 → l1 = l2 ∧ r1 = r2.
Proof.
  revert l2. induction l1 as [|x l1 IH]; intros l2 H1 H2 H.
  - destruct l2 as [|y l2]; simpl in H; [by simplify_eq|].
    injection H as -> _. destruct H2. apply list_elem_of_here.
  - apply not_elem_of_cons in H1 as [Hx H1].
    destruct l2 as [|y l2]; simpl in H; injection H as -> H; [done|].
    apply not_elem_of_cons in H2 as [_ H2]. destruct (IH l2) as [-> ->]; done.
Qed.

Example hexEncode_ex : hexEncode [z2b 0; z2b 171; z2b 255] = str "00abff".
Proof. reflexivity. Qed.
Example decimal_ex : decimal (-919939) = str "-919939".
Proof. reflexivity. Qed.
