(* ===== verification/Sha256.v ===== *)
(** * Sha256: [crypto/sha256] of the Go standard library

    [sha256.Sum256] as FIPS 180-4 defines it, on bytes.  It is executable, so
    block hashes, transaction ids and Merkle roots of real data are computed
    by the kernel. *)

From S2P Require Import Prelude Bytes.

Module Sha256.

(** ** 32 bit words *)

(** Truncation to a word is a mask, which the kernel computes faster than a
    remainder. *)
Definition trunc32 (a : Z) : Z := Z.land a 0xffffffff.
Definition add32 (a b : Z) : Z := trunc32 (a + b).
Definition not32 (a : Z) : Z := Z.lxor a 0xffffffff.
Definition rotr (n x : Z) : Z :=
  Z.lor (Z.shiftr x n) (trunc32 (Z.shiftl x (32 - n))).

Definition Ch (x y z : Z) : Z := Z.lxor (Z.land x y) (Z.land (not32 x) z).
Definition Maj (x y z : Z) : Z :=
  Z.lxor (Z.land x y) (Z.lxor (Z.land x z) (Z.land y z)).
Definition Sigma0 (x : Z) : Z := Z.lxor (rotr 2 x) (Z.lxor (rotr 13 x) (rotr 22 x)).
Definition Sigma1 (x : Z) : Z := Z.lxor (rotr 6 x) (Z.lxor (rotr 11 x) (rotr 25 x)).
Definition sigma0 (x : Z) : Z := Z.lxor (rotr 7 x) (Z.lxor (rotr 18 x) (Z.shiftr x 3)).
Definition sigma1 (x : Z) : Z := Z.lxor (rotr 17 x) (Z.lxor (rotr 19 x) (Z.shiftr x 10)).

(** Big endian words of four bytes. *)
Fixpoint be_words (bs : bytes) : list Z :=
  match bs with
  | b3 :: b2 :: b1 :: b0 :: bs' =>
      (Z.shiftl (b2z b3) 24 + Z.shiftl (b2z b2) 16 + Z.shiftl (b2z b1) 8 + b2z b0) :: be_words bs'
  | _ => []
  end.

(** The round constants, written as one hexadecimal text. *)
Definition K : list Z := Eval vm_compute in be_words (
  unhex ("428a2f9871374491b5c0fbcfe9b5dba53956c25b59f111f1923f82a4ab1c5ed5"
    +:+ "d807aa9812835b01243185be550c7dc372be5d7480deb1fe9bdc06a7c19bf174"
    +:+ "e49b69c1efbe47860fc19dc6240ca1cc2de92c6f4a7484aa5cb0a9dc76f988da"
    +:+ "983e5152a831c66db00327c8bf597fc7c6e00bf3d5a7914706ca635114292967"
    +:+ "27b70a852e1b21384d2c6dfc53380d13650a7354766a0abb81c2c92e92722c85"
    +:+ "a2bfe8a1a81a664bc24b8b70c76c51a3d192e819d6990624f40e3585106aa070"
    +:+ "19a4c1161e376c082748774c34b0bcb5391c0cb34ed8aa4a5b9cca4f682e6ff3"
    +:+ "748f82ee78a5636f84c878148cc7020890befffaa4506cebbef9a3f7c67178f2")).

(** The chaining value, eight words. *)
Record words8 := Words8 { wa : Z; wb : Z; wc : Z; wd : Z; we : Z; wf : Z; wg : Z; wh : Z }.

Definition H0 : words8 := Eval vm_compute in
  match be_words (unhex "6a09e667bb67ae853c6ef372a54ff53a510e527f9b05688c1f83d9ab5be0cd19") with
  | [a; b; c; d; e; f; g; h] => Words8 a b c d e f g h
  | _ => Words8 0 0 0 0 0 0 0 0
  end.

(** One round with the round constant and the schedule word. *)
Definition round (s : words8) (k w : Z) : words8 :=
  let '(Words8 a b c d e f g h) := s in
  let t1 := add32 h (add32 (Sigma1 e) (add32 (Ch e f g) (add32 k w))) in
  let t2 := add32 (Sigma0 a) (Maj a b c) in
  Words8 (add32 t1 t2) a b c (add32 d t1) e f g.

(** The message schedule, kept as a window of the last sixteen words. *)
Fixpoint rounds (ks win : list Z) (s : words8) : words8 :=
  match ks with
  | [] => s
  | k :: ks' =>
      match win with
      | w :: rest =>
          let next := add32 (sigma1 (nth 14 win 0))
                       (add32 (nth 9 win 0) (add32 (sigma0 (nth 1 win 0)) w)) in
          rounds ks' (rest ++ [next]) (round s k w)
      | [] => s
      end
  end.

Definition compress (h : words8) (block : list Z) : words8 :=
  let '(Words8 a b c d e f g i) := h in
  let '(Words8 a' b' c' d' e' f' g' i') := rounds K block h in
  Words8 (add32 a a') (add32 b b') (add32 c c') (add32 d d')
         (add32 e e') (add32 f f') (add32 g g') (add32 i i').

(** ** Padding *)

Definition be32 (v : Z) : bytes := [byte_at v 3; byte_at v 2; byte_at v 1; byte_at v 0].

Definition pad (msg : bytes) : bytes :=
  let l := Z.of_nat (length msg) in
  msg ++ [z2b 128] ++ zeroes (Z.to_nat ((55 - l) `mod` 64))
    ++ be32 (Z.shiftr (8 * l) 32) ++ be32 (8 * l).

(** Sixteen words at a time; the word list of a padded message has a length
    that is a multiple of sixteen. *)
Fixpoint blocks (fuel : nat) (ws : list Z) (h : words8) : words8 :=
  match fuel, ws with
  | S fuel, _ :: _ => blocks fuel (drop 16 ws) (compress h (take 16 ws))
  | _, _ => h
  end.

Definition digest (s : words8) : bytes :=
  let '(Words8 a b c d e f g h) := s in
  be32 a ++ be32 b ++ be32 c ++ be32 d ++ be32 e ++ be32 f ++ be32 g ++ be32 h.

(** [sha256.Sum256]. *)
Definition Sum256 (msg : bytes) : bytes :=
  let ws := be_words (pad msg) in digest (blocks (length ws) ws H0).

Lemma length_Sum256 msg : length (Sum256 msg) = 32%nat.
Proof. unfold Sum256, digest. by destruct (blocks _ _ _). Qed.

(** The vectors of FIPS 180-4. *)
Example Sum256_empty : hexEncode (Sum256 []) =
  str "e3b0c44298fc1c149afbf4c8996fb92427ae41e4649b934ca495991b7852b855".
Proof. vm_compute. reflexivity. Qed.
Example Sum256_abc : hexEncode (Sum256 (str "abc")) =
  str "ba7816bf8f01cfea414140de5dae2223b00361a396177a9cb410ff61f20015ad".
Proof. vm_compute. reflexivity. Qed.
Example Sum256_two_blocks :
  hexEncode (Sum256 (str "abcdbcdecdefdefgefghfghighijhijkijkljklmklmnlmnomnopnopq")) =
  str "248d6a61d20638b8e5c026930c3e6039a33ce45964ff2167f6ecedd419db06c1".
Proof. vm_compute. reflexivity. Qed.

(** The bytes that the model keeps as [[32]byte]. *)
Definition hash32 (h : bytes) : Prop := length h = 32%nat.

End Sha256.

Arguments Sha256.Sum256 : simpl never.
#[global] Opaque Sha256.Sum256.

(** [sha256.Sum256(sha256.Sum256(msg))], the hash of blocks and transactions. *)
Definition doubleSha256 (msg : bytes) : bytes := Sha256.Sum256 (Sha256.Sum256 msg).

Lemma length_doubleSha256 msg : length (doubleSha256 msg) = 32%nat.
Proof. apply Sha256.length_Sum256. Qed.

Arguments doubleSha256 : simpl never.
