(* ===== verification/Merkle.v ===== *)
(** * Merkle: Merkle roots and inclusion proofs

    Models [catDoubleSha256], [merkleRoot], [findPos], [MerkleProof],
    [hashPairs] and [checkMerkleProof] of
    [src/walletmanager/walletmanager.go].  [hashPairs] overwrites the slice it
    is given while it reads it; the model keeps the writes, and the first
    lemmas show that it computes the level above in Bitcoin's tree. *)

From S2P Require Import Prelude Bytes Sha256.

(** ** Definitions

    [int] division and remainder truncate towards zero. *)

(** The two children are copied into one buffer of 64 bytes. *)
Definition catDoubleSha256 (left right : bytes) : bytes :=
  let buf := copy_into (zeroes 64) left in
  let buf := take 32 buf ++ copy_into (drop 32 buf) right in
  let hash := Sha256.Sum256 buf in
  Sha256.Sum256 hash.

Section loops.
(** The hash of two children. *)
Variable cat : bytes → bytes → bytes.

(** The body of the loop of [hashPairs] for [i] in [[i, i+n)]. *)
Fixpoint hashPairs_loop (hlen n i : nat) (hashes : list bytes) : outcome (list bytes) :=
  match n with
  | O => Ok hashes
  | S n =>
      let pos := (i * 2)%nat in
      hashes' ←
        (if bool_decide (hlen - 1 < pos + 1)%nat then
           x ← index hashes pos; store hashes i (cat x x)
         else
           x ← index hashes pos; y ← index hashes (pos + 1);
           store hashes i (cat x y));
      hashPairs_loop hlen n (S i) hashes'
  end.

Definition hashPairs_with (hashes : list bytes) : outcome (list bytes) :=
  let hlen := length hashes in
  let rlen := (hlen / 2 + hlen `mod` 2)%nat in
  hashes ← hashPairs_loop hlen rlen 0 hashes;
  let hashes := take rlen hashes in
  if bool_decide (rlen `mod` 2 ≠ 0 ∧ rlen ≠ 1)%nat then
    last ← index hashes (length hashes - 1); Ok (hashes ++ [last])
  else Ok hashes.

(** [for len(lvl) != 1 { lvl = hashPairs(lvl) }]. *)
Fixpoint merkleRoot_loop (fuel : nat) (lvl : list bytes) : outcome bytes :=
  match fuel with
  | O => OutOfFuel
  | S fuel =>
      if bool_decide (length lvl ≠ 1)%nat then
        lvl ← hashPairs_with lvl; merkleRoot_loop fuel lvl
      else index lvl 0
  end.

(** [for len(level) > 1 { ... }] of [MerkleProof]. *)
Fixpoint MerkleProof_loop (fuel : nat) (level : list bytes) (pos : nat)
    (branch : list bytes) : outcome (list bytes) :=
  match fuel with
  | O => OutOfFuel
  | S fuel =>
      if bool_decide (1 < length level)%nat then
        sibling ← (if bool_decide (pos `mod` 2 = 0)%nat
                   then index level (pos + 1) else index level (pos - 1));
        level ← hashPairs_with level;
        MerkleProof_loop fuel level (pos / 2) (branch ++ [sibling])
      else Ok branch
  end.

Fixpoint checkMerkleProof_loop (current : bytes) (pos : Z) (branch : list bytes) : bytes :=
  match branch with
  | [] => current
  | v :: branch =>
      checkMerkleProof_loop
        (if bool_decide (Z.rem pos 2 = 0) then cat current v else cat v current)
        (Z.quot pos 2) branch
  end.
End loops.

Definition hashPairs (hashes : list bytes) : outcome (list bytes) :=
  hashPairs_with catDoubleSha256 hashes.

(** Every round at least halves a level that is not the root, so its length is
    fuel enough; with no leaves at all the Go loop does not end. *)
Definition merkleRoot (hashes : list bytes) : outcome bytes :=
  merkleRoot_loop catDoubleSha256 (S (length hashes)) hashes.

(** [findPos] returns -1 for a hash that is not there. *)
Fixpoint findPos_from (i : Z) (txids : list bytes) (txid : bytes) : Z :=
  match txids with
  | [] => -1
  | v :: txids => if bool_decide (txid = v) then i else findPos_from (i + 1) txids txid
  end.
Definition findPos (txids : list bytes) (txid : bytes) : Z := findPos_from 0 txids txid.

Definition MerkleProof (txids : list bytes) (txid : bytes) : outcome (Z * list bytes) :=
  let txpos := findPos txids txid in
  if bool_decide (txpos < 0) then Ok (-1, [])
  else if bool_decide (length txids = 1)%nat then Ok (txpos, [])
  else
    level ← (if bool_decide (length txids `mod` 2 ≠ 0)%nat
             then last ← index txids (length txids - 1); Ok (txids ++ [last])
             else Ok txids);
    branch ← MerkleProof_loop catDoubleSha256 (S (length level)) level (Z.to_nat txpos) [];
    Ok (txpos, branch).

Definition checkMerkleProof (txid : bytes) (pos : Z) (merkleRoot : bytes)
    (branch : list bytes) : bool :=
  bool_decide (merkleRoot = checkMerkleProof_loop catDoubleSha256 txid pos branch).

(** ** The tree as Bitcoin defines it *)

Section reference.
Variable cat : bytes → bytes → bytes.

(** The level above: the last hash of an odd level is paired with itself. *)
Fixpoint level_up (l : list bytes) : list bytes :=
  match l with
  | [] => []
  | [x] => [cat x x]
  | x :: y :: l => cat x y :: level_up l
  end.

Fixpoint tree_root (fuel : nat) (l : list bytes) : bytes :=
  match fuel, l with
  | S fuel, _ :: _ :: _ => tree_root fuel (level_up l)
  | _, x :: _ => x
  | _, [] => []
  end.

(** The root of a non-empty list of leaves. *)
Definition reference_root (l : list bytes) : bytes := tree_root (length l) l.

End reference.

(** A level with its last hash doubled when the level is odd and not a root. *)
Definition padded (l : list bytes) : list bytes :=
  match last l with
  | Some x => if bool_decide (length l `mod` 2 ≠ 0 ∧ length l ≠ 1)%nat then l ++ [x] else l
  | None => l
  end.

Lemma length_padded l :
  length (padded l) = if bool_decide (length l `mod` 2 ≠ 0 ∧ length l ≠ 1)%nat
                      then S (length l) else length l.
Proof.
  unfold padded. destruct (last l) eqn:E.
  - case_bool_decide; [|done]. rewrite length_app. simpl. lia.
  - apply last_None in E. subst. done.
Qed.

Lemma padded_prefix l i : (i < length l)%nat → padded l !! i = l !! i.
Proof.
  intros. unfold padded. repeat case_match; try done. by rewrite lookup_app_l.
Qed.

Section level_facts.
Variable cat : bytes → bytes → bytes.
Local Abbreviation level_up := (level_up cat).
Implicit Types l : list bytes.

Lemma list_ind2 (P : list bytes → Prop) :
  P [] → (∀ x, P [x]) → (∀ x y l, P l → P (x :: y :: l)) → ∀ l, P l.
Proof.
  intros H0 H1 H2 l. cut (P l ∧ ∀ x, P (x :: l)); [tauto|].
  induction l as [|y l [IH1 IH2]]; auto.
Qed.

Lemma length_level_up l : length (level_up l) = ((length l + 1) / 2)%nat.
Proof.
  induction l as [| |x y l IH] using list_ind2; [done|done|].
  cbn [Merkle.level_up length]. rewrite IH.
  replace (S (S (length l)) + 1)%nat with (1 * 2 + (length l + 1))%nat by lia.
  rewrite Nat.div_add_l by lia. lia.
Qed.

Lemma level_up_pair l i x y :
  l !! (2 * i)%nat = Some x → l !! (2 * i + 1)%nat = Some y →
  level_up l !! i = Some (cat x y).
Proof.
  revert i. induction l as [|z|a b l IH] using list_ind2; intros i Hx Hy.
  - done.
  - destruct i; simpl in *; [done|]. by rewrite Nat.add_comm in Hx.
  - destruct i as [|i]; simpl in *; [by simplify_eq|].
    replace (i + S (i + 0))%nat with (S (2 * i)) in Hx, Hy by lia. simpl in Hx.
    apply IH; [done|]. by replace (S (2 * i) + 1)%nat with (S (2 * i + 1)) in Hy by lia.
Qed.

Lemma level_up_last l i x :
  l !! (2 * i)%nat = Some x → (length l = 2 * i + 1)%nat →
  level_up l !! i = Some (cat x x).
Proof.
  revert i. induction l as [|z|a b l IH] using list_ind2; intros i Hx Hl.
  - done.
  - assert (i = 0%nat) as -> by (simpl in Hl; lia). simpl in *. by simplify_eq.
  - destruct i as [|i]; [simpl in Hl; lia|]. simpl.
    replace (2 * S i)%nat with (S (S (2 * i))) in Hx by lia. simpl in Hx.
    apply IH; [done|simpl in Hl; lia].
Qed.

Lemma level_up_app_even k l :
  Nat.Even (length k) → level_up (k ++ l) = level_up k ++ level_up l.
Proof.
  induction k as [|z|a b k IH] using list_ind2; intros Hk.
  - done.
  - by destruct Hk as [? ?]; simpl in *; lia.
  - simpl. f_equal. apply IH. destruct Hk as [n Hn]. exists (n - 1)%nat. simpl in Hn. lia.
Qed.

(** Doubling the last hash first makes no difference to the level above. *)
Lemma level_up_padded l : level_up (padded l) = level_up l.
Proof.
  unfold padded. destruct (last l) as [x|] eqn:E; [|done].
  case_bool_decide as H; [|done]. destruct H as [H _].
  apply last_Some in E as [k ->]. rewrite length_app in H. cbn [length] in H.
  assert (Nat.Even (length k)) as Hk by (exists (length k / 2)%nat; div_lia).
  rewrite <- app_assoc. simpl. by rewrite !level_up_app_even by done.
Qed.
End level_facts.

(** ** The loops compute the reference tree *)

Section refinement.
Variable cat : bytes → bytes → bytes.
Local Abbreviation level_up := (level_up cat).
Implicit Types l : list bytes.

(** The slice after [i] iterations: the hashes written so far, then the
    entries that have not been overwritten. *)
Definition overwritten (l : list bytes) (i : nat) : list bytes :=
  take i (level_up l) ++ drop i l.

Lemma overwritten_lookup l i j :
  (i ≤ length (level_up l))%nat → (i ≤ j)%nat → overwritten l i !! j = l !! j.
Proof.
  intros Hi Hj. unfold overwritten.
  rewrite lookup_app_r; rewrite length_take_le by done; [|lia].
  rewrite lookup_drop. f_equal. lia.
Qed.

Lemma overwritten_insert l i x :
  (i < length l)%nat → level_up l !! i = Some x →
  <[i := x]> (overwritten l i) = overwritten l (S i).
Proof.
  intros Hi Hx. unfold overwritten.
  pose proof (lookup_lt_Some _ _ _ Hx) as Hlt.
  rewrite insert_app_r_alt; rewrite length_take_le by lia; [|lia].
  rewrite Nat.sub_diag, (take_S_r _ _ x) by done.
  destruct (lookup_lt_is_Some_2 l i Hi) as [y Hy].
  rewrite (drop_S _ y) by done. simpl. by rewrite <- app_assoc.
Qed.

Lemma hashPairs_loop_spec l n i :
  (i + n = length (level_up l))%nat →
  hashPairs_loop cat (length l) n i (overwritten l i) = Ok (overwritten l (i + n)).
Proof.
  revert i. induction n as [|n IH]; intros i Hn; simpl; [by rewrite Nat.add_0_r|].
  rewrite length_level_up in Hn.
  assert (2 * i < length l)%nat as H2i by div_lia.
  assert (i ≤ length (level_up l))%nat by (rewrite length_level_up; div_lia).
  destruct (lookup_lt_is_Some_2 l (2 * i) H2i) as [x Hx].
  assert (∀ v, store (overwritten l i) i v = Ok (<[i := v]> (overwritten l i))) as Hst.
  { intros v. apply store_lt. unfold overwritten.
    rewrite length_app, length_take_le, length_drop by lia. lia. }
  rewrite (index_Some _ _ x) by (rewrite overwritten_lookup by lia; by replace (i * 2)%nat with (2 * i)%nat by lia).
  assert (∃ v, level_up l !! i = Some v ∧
    (if bool_decide (length l - 1 < i * 2 + 1)%nat then
       x ← Ok x; store (overwritten l i) i (cat x x)
     else x ← Ok x; y ← index (overwritten l i) (i * 2 + 1); store (overwritten l i) i (cat x y))
    = Ok (<[i := v]> (overwritten l i))) as (v & Hv & ->).
  { case_bool_decide as Hlast; cbn.
    - exists (cat x x). split; [apply level_up_last; [done|lia]|apply Hst].
    - destruct (lookup_lt_is_Some_2 l (2 * i + 1)) as [y Hy]; [lia|].
      rewrite (index_Some _ _ y)
        by (rewrite overwritten_lookup by lia; by replace (i * 2 + 1)%nat with (2 * i + 1)%nat by lia).
      exists (cat x y). split; [by apply level_up_pair|apply Hst]. }
  cbn. rewrite overwritten_insert by (done || lia).
  rewrite IH by (rewrite length_level_up; lia). f_equal. f_equal. lia.
Qed.

Lemma hashPairs_with_spec l : hashPairs_with cat l = Ok (padded (level_up l)).
Proof.
  unfold hashPairs_with.
  assert (length l / 2 + length l `mod` 2 = length (level_up l))%nat as ->
    by (rewrite length_level_up; div_lia).
  rewrite (hashPairs_loop_spec l (length (level_up l)) 0 eq_refl
    : hashPairs_loop _ _ _ _ l = _). run_outcome.
  rewrite Nat.add_0_l. unfold overwritten. rewrite firstn_all, take_app_length.
  unfold padded. destruct (last (level_up l)) as [z|] eqn:Hz.
  - case_bool_decide; [|done].
    rewrite (index_Some _ _ z); [done|].
    rewrite last_lookup in Hz. by replace (length (level_up l) - 1)%nat
      with (Nat.pred (length (level_up l))) by lia.
  - apply last_None in Hz. by rewrite Hz.
Qed.

(** *** Roots *)

Lemma tree_root_fuel n m l :
  (length l ≤ n)%nat → (length l ≤ m)%nat → tree_root cat n l = tree_root cat m l.
Proof.
  revert m l. induction n as [|n IH]; intros m l Hn Hm.
  - destruct l; [|simpl in Hn; lia]. by destruct m.
  - destruct l as [|x [|y l]]; [by destruct m|by destruct m|].
    destruct m as [|m]; [simpl in Hm; lia|]. cbn [tree_root].
    assert (length (level_up (x :: y :: l)) ≤ min n m)%nat
      by (rewrite length_level_up; cbn [length] in *; div_lia).
    apply IH; lia.
Qed.

Lemma reference_root_step l :
  (2 ≤ length l)%nat → reference_root cat l = reference_root cat (level_up l).
Proof.
  intros Hl. unfold reference_root. destruct l as [|x [|y l]]; [simpl in Hl; lia..|].
  change (tree_root cat (length (x :: y :: l)) (x :: y :: l))
    with (tree_root cat (S (length l)) (level_up (x :: y :: l))).
  apply tree_root_fuel; [|done]. rewrite length_level_up. cbn [length]. div_lia.
Qed.

Lemma reference_root_padded l : reference_root cat (padded l) = reference_root cat l.
Proof.
  pose proof (length_padded l) as Hl. case_bool_decide as H.
  - rewrite (reference_root_step (padded l)), level_up_padded by div_lia.
    rewrite <- reference_root_step by div_lia. done.
  - unfold padded. destruct (last l); [|done]. by rewrite bool_decide_eq_false_2.
Qed.

Lemma length_padded_level_up l :
  (2 ≤ length l)%nat → (1 ≤ length (padded (level_up l)) < length l)%nat.
Proof. intros. rewrite length_padded, length_level_up. case_bool_decide; div_lia. Qed.

Lemma merkleRoot_loop_spec fuel l :
  l ≠ [] → (length l < fuel)%nat → merkleRoot_loop cat fuel l = Ok (reference_root cat l).
Proof.
  revert l. induction fuel as [|fuel IH]; intros l Hne Hf; [lia|]. simpl.
  case_bool_decide as H1.
  - assert (2 ≤ length l)%nat as H2 by (destruct l as [|? [|]]; simpl in *; [done|done|lia]).
    pose proof (length_padded_level_up l H2) as Hlen.
    rewrite hashPairs_with_spec. run_outcome. rewrite IH by (lia || by intros E; rewrite E in Hlen; simpl in Hlen; lia).
    by rewrite reference_root_padded, <- reference_root_step.
  - destruct l as [|x [|]]; done.
Qed.

(** With no leaves the loop of [merkleRoot] never ends. *)
Lemma merkleRoot_loop_nil fuel : merkleRoot_loop cat fuel [] = OutOfFuel.
Proof.
  induction fuel as [|fuel IH]; [done|]. cbn [merkleRoot_loop].
  rewrite bool_decide_eq_true_2, hashPairs_with_spec by done. exact IH.
Qed.

(** *** Branches *)

(** A level that [MerkleProof] can pair: even, or the root alone. *)
Definition pairable (l : list bytes) : Prop := (length l `mod` 2 = 0 ∨ length l = 1)%nat.

Lemma pairable_padded l : l ≠ [] → pairable (padded l).
Proof.
  intros Hl. unfold pairable. rewrite length_padded.
  assert (length l ≠ 0)%nat by (by destruct l). case_bool_decide; div_lia.
Qed.

Lemma even_pos_rem (pos : nat) : Z.rem pos 2 = 0 ↔ (pos `mod` 2 = 0)%nat.
Proof. rewrite Z.rem_mod_nonneg by lia. div_lia. Qed.
Lemma quot_pos (pos : nat) : Z.quot pos 2 = (pos / 2)%nat.
Proof. rewrite Z.quot_div_nonneg by lia. div_lia. Qed.

(** One round: the sibling it takes hashes the entry to its parent. *)
Lemma sibling_spec l pos x :
  pairable l → (2 ≤ length l)%nat → l !! pos = Some x →
  ∃ v, (if bool_decide (pos `mod` 2 = 0)%nat
        then index l (pos + 1) else index l (pos - 1)) = Ok v ∧ v ∈ l ∧
    level_up l !! (pos / 2)%nat =
      Some (if bool_decide (Z.rem pos 2 = 0) then cat x v else cat v x).
Proof.
  intros Hp H2 Hx. pose proof (lookup_lt_Some _ _ _ Hx) as Hlt.
  assert (length l `mod` 2 = 0)%nat as Hev by (destruct Hp; lia).
  rewrite (bool_decide_ext _ _ (even_pos_rem pos)).
  case_bool_decide as Hpos.
  - destruct (index_lt l (pos + 1)) as (v & Hv & ->); [div_lia|].
    exists v. split; [done|]. split; [by eapply list_elem_of_lookup_2|].
    apply level_up_pair.
    + by replace (2 * (pos / 2))%nat with pos by div_lia.
    + by replace (2 * (pos / 2) + 1)%nat with (pos + 1)%nat by div_lia.
  - destruct (index_lt l (pos - 1)) as (v & Hv & ->); [div_lia|].
    exists v. split; [done|]. split; [by eapply list_elem_of_lookup_2|].
    apply level_up_pair.
    + by replace (2 * (pos / 2))%nat with (pos - 1)%nat by div_lia.
    + by replace (2 * (pos / 2) + 1)%nat with pos by div_lia.
Qed.

Lemma branch_bound (n m m' b : nat) :
  (n `mod` 2 = 0 → 2 ≤ n → m = (n + 1) / 2 →
   m' = m ∨ m' = m + 1 ∧ m `mod` 2 ≠ 0 ∧ m ≠ 1 →
   m' ≤ 2 ^ b → b = 0 ∨ 2 ^ (b - 1) < m' →
   n ≤ 2 * 2 ^ b ∧ 2 ^ b < n)%nat.
Proof.
  intros Hn H2 -> Hm Hb Hb'. split; [div_lia|].
  destruct b as [|c]; [rewrite Nat.pow_0_r in *; div_lia|].
  destruct Hb' as [|Hb']; [done|]. replace (S c - 1)%nat with c in Hb' by lia.
  rewrite Nat.pow_succ_r' in *. destruct c as [|c]; [rewrite Nat.pow_0_r in *; div_lia|].
  rewrite Nat.pow_succ_r' in *. div_lia.
Qed.

Lemma MerkleProof_loop_spec fuel l pos x branch :
  pairable l → l !! pos = Some x → (length l < fuel)%nat →
  ∃ br, MerkleProof_loop cat fuel l pos branch = Ok (branch ++ br) ∧
    checkMerkleProof_loop cat x pos br = reference_root cat l ∧
    (length l ≤ 2 ^ length br ∧ (br = [] ∨ 2 ^ (length br - 1) < length l))%nat.
Proof.
  revert l pos x branch. induction fuel as [|fuel IH]; intros l pos x branch Hp Hx Hf; [lia|].
  pose proof (lookup_lt_Some _ _ _ Hx) as Hlt.
  cbn [MerkleProof_loop]. case_bool_decide as H1.
  - destruct (sibling_spec l pos x Hp H1 Hx) as (v & -> & _ & Hup). run_outcome.
    rewrite hashPairs_with_spec. run_outcome.
    pose proof (length_padded_level_up l H1) as Hlen.
    pose proof (lookup_lt_Some _ _ _ Hup) as Hlt'.
    destruct (IH (padded (level_up l)) (pos / 2)%nat
      (if bool_decide (Z.rem pos 2 = 0) then cat x v else cat v x) (branch ++ [v]))
      as (br & -> & Hroot & Hb1 & Hb2).
    + apply pairable_padded. by intros E; rewrite E in Hlt'; simpl in Hlt'; lia.
    + by rewrite padded_prefix.
    + lia.
    + exists (v :: br). split; [by rewrite <- app_assoc|]. split.
      { simpl. by rewrite quot_pos, Hroot, reference_root_padded, <- reference_root_step. }
      assert (length (padded (level_up l)) = length (level_up l) ∨
        length (padded (level_up l)) = length (level_up l) + 1 ∧
        length (level_up l) `mod` 2 ≠ 0 ∧ length (level_up l) ≠ 1)%nat as Hpl.
      { pose proof (length_padded (level_up l)) as Hpl.
        case_bool_decide; [right; split; [lia|done]|by left]. }
      destruct (branch_bound _ _ _ (length br) ltac:(destruct Hp; [done|lia]) H1
        (length_level_up cat l) Hpl Hb1 ltac:(destruct Hb2 as [->|?]; [by left|by right])).
      cbn [length]. rewrite Nat.pow_succ_r'.
      split; [done|right]. by replace (S (length br) - 1)%nat with (length br) by lia.
  - exists []. rewrite app_nil_r. destruct l as [|y [|]]; simpl in *; try lia.
    destruct pos; [injection Hx as ->|lia]. by auto.
Qed.
(** The entries of a branch are leaves or results of [cat]. *)
Lemma MerkleProof_loop_Forall (P : bytes → Prop) fuel l pos branch br :
  (∀ x y, P (cat x y)) → Forall P l → Forall P branch →
  MerkleProof_loop cat fuel l pos branch = Ok br → Forall P br.
Proof.
  intros Hcat. revert l pos branch. induction fuel as [|fuel IH]; intros l pos branch Hl Hb H; [done|].
  cbn [MerkleProof_loop] in H. case_bool_decide as H1; [|by injection H as <-].
  apply outcome_bind_Ok in H as (v & Hv & H). rewrite hashPairs_with_spec in H.
  apply (IH (padded (level_up l)) (pos / 2)%nat (branch ++ [v])); [| |done].
  - apply Forall_forall. intros x Hx.
    assert (x ∈ level_up l) as Hup.
    { unfold padded in Hx. destruct (last (level_up l)) as [z|] eqn:Hz; [|done].
      case_bool_decide; [|done]. apply elem_of_app in Hx as [Hx|Hx]; [done|].
      apply list_elem_of_singleton in Hx as ->. by apply last_Some_elem_of. }
    clear -Hup Hcat. revert x Hup. apply Forall_forall.
    remember (length l) as n eqn:Hn. revert l Hn. induction (lt_wf n) as [n _ IHn].
    intros [|x [|y l]] ->; [constructor|by repeat constructor|].
    simpl. constructor; [done|]. eapply (IHn (length l)); simpl; [lia|done].
  - apply Forall_app. split; [done|]. apply Forall_singleton.
    assert (v ∈ l) as Hin; [|by rewrite Forall_forall in Hl; apply Hl].
    case_bool_decide; apply index_Ok_elem in Hv; done.
Qed.
End refinement.

(** ** Collisions *)

(** Two branches of the same length for the same position, walked together:
    the first pair of different inputs of [cat] with the same hash. *)
Fixpoint find_collision (cat : bytes → bytes → bytes) (x y : bytes) (pos : Z)
    (b1 b2 : list bytes) : option ((bytes * bytes) * (bytes * bytes)) :=
  match b1, b2 with
  | v :: b1, w :: b2 =>
      let p := if bool_decide (Z.rem pos 2 = 0) then (x, v) else (v, x) in
      let q := if bool_decide (Z.rem pos 2 = 0) then (y, w) else (w, y) in
      let hp := cat p.1 p.2 in
      let hq := cat q.1 q.2 in
      if bool_decide (p ≠ q ∧ hp = hq) then Some (p, q)
      else find_collision cat hp hq (Z.quot pos 2) b1 b2
  | _, _ => None
  end.

Lemma find_collision_spec cat x y pos b1 b2 :
  x ≠ y → length b1 = length b2 →
  checkMerkleProof_loop cat x pos b1 = checkMerkleProof_loop cat y pos b2 →
  ∃ p q, find_collision cat x y pos b1 b2 = Some (p, q) ∧ p ≠ q ∧ cat p.1 p.2 = cat q.1 q.2.
Proof.
  revert x y pos b2. induction b1 as [|v b1 IH]; intros x y pos [|w b2] Hxy Hl H; try done.
  cbn [find_collision]. cbn [checkMerkleProof_loop] in H. injection Hl as Hl.
  destruct (bool_decide (Z.rem pos 2 = 0)); cbn [fst snd];
    case_bool_decide as Hc; [by destruct Hc; eauto| |by destruct Hc; eauto|];
    (apply IH; [|done|done]); intros E; apply Hc; split; congruence.
Qed.

(** ** [findPos] *)

Lemma findPos_from_spec i txids txid :
  match list_find (λ v, txid = v) txids with
  | Some (j, _) => findPos_from i txids txid = i + Z.of_nat j
  | None => findPos_from i txids txid = -1
  end.
Proof.
  revert i. induction txids as [|v txids IH]; intros i; [done|]. simpl.
  case_decide as H; [rewrite bool_decide_eq_true_2 by done; lia|].
  rewrite bool_decide_eq_false_2 by done. specialize (IH (i + 1)).
  destruct (list_find _ txids) as [[j w]|]; simpl in *; lia.
Qed.

Lemma findPos_Some txids txid :
  txid ∈ txids → ∃ j : nat, findPos txids txid = j ∧ txids !! j = Some txid ∧
    ∀ k, txids !! k = Some txid → (j ≤ k)%nat.
Proof.
  intros Hin. unfold findPos. pose proof (findPos_from_spec 0 txids txid) as H.
  destruct (list_find (λ v, txid = v) txids) as [[j v]|] eqn:E.
  - apply list_find_Some in E as (Hj & <- & Hfirst). exists j. rewrite H.
    split; [lia|]. split; [done|]. intros k Hk. destruct (decide (k < j)%nat); [|lia].
    by destruct (Hfirst k txid Hk).
  - rewrite list_find_None, Forall_forall in E. by destruct (E txid Hin).
Qed.

Lemma findPos_None txids txid : txid ∉ txids → findPos txids txid = -1.
Proof.
  intros Hni. unfold findPos. pose proof (findPos_from_spec 0 txids txid) as H.
  destruct (list_find (λ v, txid = v) txids) as [[j v]|] eqn:E; [|done].
  apply list_find_Some in E as (Hj & <- & _). destruct Hni. by eapply list_elem_of_lookup_2.
Qed.

(** In a block without duplicate transactions the position found is the
    position asked for. *)
Lemma findPos_NoDup txids txid (j : nat) :
  NoDup txids → txids !! j = Some txid → findPos txids txid = j.
Proof.
  intros Hnd Hj. destruct (findPos_Some txids txid) as (k & -> & Hk & _).
  { by eapply list_elem_of_lookup_2. }
  by rewrite (NoDup_lookup _ _ _ _ Hnd Hj Hk).
Qed.

(** ** Properties of the exported functions *)

Abbreviation merkle_root := (reference_root catDoubleSha256).

Lemma hashPairs_spec l : hashPairs l = Ok (padded (level_up catDoubleSha256 l)).
Proof. apply hashPairs_with_spec. Qed.

Lemma merkleRoot_spec l : l ≠ [] → merkleRoot l = Ok (merkle_root l).
Proof. intros. apply merkleRoot_loop_spec; [done|lia]. Qed.

Lemma padded_level l :
  length l ≠ 1%nat → l ≠ [] →
  (if bool_decide (length l `mod` 2 ≠ 0)%nat
   then last ← index l (length l - 1); Ok (l ++ [last]) else Ok l) = Ok (padded l).
Proof.
  intros H1 Hne. unfold padded. destruct (last l) as [x|] eqn:Hx; [|by apply last_None in Hx].
  rewrite (bool_decide_ext (_ ∧ _) (length l `mod` 2 ≠ 0)%nat) by tauto.
  case_bool_decide; [|done]. rewrite (index_Some _ _ x); [done|].
  rewrite last_lookup in Hx. by replace (length l - 1)%nat with (Nat.pred (length l)) by lia.
Qed.

Lemma log2_up_bounds (n n' b : nat) :
  (2 ≤ n → n' = n ∨ n' = S n ∧ n `mod` 2 ≠ 0 → n' `mod` 2 = 0 →
   n' ≤ 2 ^ b → b = 0 ∨ 2 ^ (b - 1) < n' → b = Nat.log2_up n)%nat.
Proof.
  intros H2 Hn' Hev Hle Hlt. symmetry.
  destruct b as [|b]; [rewrite Nat.pow_0_r in Hle; lia|].
  destruct Hlt as [|Hlt]; [done|]. replace (S b - 1)%nat with b in Hlt by lia.
  apply Nat.log2_up_unique; [lia|]. simpl Nat.pred. split; [|lia].
  destruct b as [|b]; [rewrite Nat.pow_0_r; lia|]. rewrite Nat.pow_succ_r' in *. div_lia.
Qed.

(** What [MerkleProof] returns for a transaction of the block: the first
    position of the transaction, and a branch of [log2_up n] hashes that leads
    from it to the root. *)
Lemma MerkleProof_spec txids txid :
  txid ∈ txids →
  ∃ (pos : nat) branch,
    MerkleProof txids txid = Ok (Z.of_nat pos, branch) ∧
    findPos txids txid = pos ∧
    txids !! pos = Some txid ∧
    checkMerkleProof_loop catDoubleSha256 txid pos branch = merkle_root txids ∧
    length branch = Nat.log2_up (length txids).
Proof.
  intros Hin. destruct (findPos_Some _ _ Hin) as (pos & Hpos & Hl & _).
  pose proof (lookup_lt_Some _ _ _ Hl) as Hlt.
  exists pos. unfold MerkleProof. rewrite Hpos. rewrite bool_decide_eq_false_2 by lia.
  case_bool_decide as H1.
  - exists []. destruct txids as [|x [|]]; try done.
    destruct pos; [|simpl in Hlt; lia]. injection Hl as ->. done.
  - assert (txids ≠ []) as Hne by (by intros ->).
    rewrite padded_level by done. run_outcome. rewrite Nat2Z.id.
    destruct (MerkleProof_loop_spec catDoubleSha256 (S (length (padded txids))) (padded txids)
      pos txid []) as (br & -> & Hroot & Hb1 & Hb2).
    + by apply pairable_padded.
    + by rewrite padded_prefix.
    + lia.
    + run_outcome. exists br. simpl app. split_and!; try done.
      { by rewrite Hroot, reference_root_padded. }
      pose proof (length_padded txids) as Hpl.
      eapply (log2_up_bounds _ (length (padded txids))); [lia| | |done|].
      * case_bool_decide as Hc; [right; split; [done|apply Hc]|by left].
      * case_bool_decide; div_lia.
      * destruct Hb2 as [->|]; [by left|by right].
Qed.

(** Over hashes of 32 bytes the branch is one of hashes of 32 bytes. *)
Lemma MerkleProof_hash32 txids txid pos branch :
  Forall Sha256.hash32 txids → MerkleProof txids txid = Ok (pos, branch) →
  Forall Sha256.hash32 branch.
Proof.
  intros Hl. unfold MerkleProof.
  case_bool_decide; [by intros [= <- <-]|]. case_bool_decide; [by intros [= <- <-]|].
  intros Hm. apply outcome_bind_Ok in Hm as (level & Hlev & Hm).
  apply outcome_bind_Ok in Hm as (br & Hbr & [= <- <-]).
  eapply MerkleProof_loop_Forall; [|  | |exact Hbr].
  - intros x y. apply Sha256.length_Sum256.
  - case_bool_decide; [|by injection Hlev as <-].
    apply outcome_bind_Ok in Hlev as (last & Hlast%index_Ok_elem & [= <-]).
    rewrite Forall_forall in Hl. apply Forall_app. split; [by apply Forall_forall|].
    apply Forall_singleton. by apply Hl.
  - constructor.
Qed.

Lemma MerkleProof_absent txids txid : txid ∉ txids → MerkleProof txids txid = Ok (-1, []).
Proof. intros H. unfold MerkleProof. by rewrite findPos_None. Qed.

Lemma catDoubleSha256_app l r :
  Sha256.hash32 l → Sha256.hash32 r → catDoubleSha256 l r = doubleSha256 (l ++ r).
Proof.
  unfold Sha256.hash32. intros Hl Hr. unfold catDoubleSha256, doubleSha256. do 2 f_equal. f_equal.
  - unfold copy_into, zeroes. rewrite length_replicate.
    rewrite take_app_le by (rewrite length_take; lia).
    rewrite take_take. apply firstn_all2. lia.
  - rewrite copy_into_full; [done|].
    rewrite length_drop, length_copy_into. unfold zeroes. rewrite length_replicate. lia.
Qed.

(** The hashes of the tree are 32 bytes long. *)
Lemma hash32_catDoubleSha256 l r : Sha256.hash32 (catDoubleSha256 l r).
Proof. apply Sha256.length_Sum256. Qed.

(** ** Theorems *)

(** [hashPairs] overwrites the slice that it reads, and still computes the
    level above in Bitcoin's Merkle tree: the parents of the pairs, an odd last
    node paired with itself, and the last parent repeated when there is an odd
    number, more than one, of them. *)
Theorem hashPairs_is_level_up hashes :
  hashPairs hashes = Ok (padded (level_up catDoubleSha256 hashes)).
Proof. apply hashPairs_spec. Qed.

(** C31: [merkleRoot] ends and computes the root of Bitcoin's Merkle tree, given
    as a recursive definition on the levels, for any list of hashes that is not
    empty. *)
Theorem merkleRoot_is_reference hashes :
  hashes ≠ [] → merkleRoot hashes = Ok (reference_root catDoubleSha256 hashes).
Proof. apply merkleRoot_spec. Qed.

Lemma merkleRoot_is_reference_witness :
  merkleRoot [zeroes 32; zeroes 32; zeroes 32] =
    Ok (reference_root catDoubleSha256 [zeroes 32; zeroes 32; zeroes 32]).
Proof. apply (merkleRoot_is_reference [zeroes 32; zeroes 32; zeroes 32]). discriminate. Defined.

(** On an empty list the loop of [merkleRoot] never ends: no number of
    rounds is enough. *)
Theorem merkleRoot_diverges_on_nil fuel :
  merkleRoot_loop catDoubleSha256 fuel [] = OutOfFuel.
Proof. apply merkleRoot_loop_nil. Qed.

(** C29: a transaction of a block has a proof: [MerkleProof] returns its first
    position and a branch, of as many hashes as the tree has levels, with which
    [checkMerkleProof] accepts it for the root that [merkleRoot] computes; for
    a hash that is not in the block it returns the position -1. *)
Theorem MerkleProof_correct txids txid :
  (txid ∈ txids →
    ∃ (pos : nat) branch root,
      MerkleProof txids txid = Ok (Z.of_nat pos, branch) ∧
      txids !! pos = Some txid ∧ (∀ k, txids !! k = Some txid → (pos ≤ k)%nat) ∧
      length branch = Nat.log2_up (length txids) ∧
      merkleRoot txids = Ok root ∧ checkMerkleProof txid pos root branch = true) ∧
  (txid ∉ txids → MerkleProof txids txid = Ok (-1, [])).
Proof.
  split; [|apply MerkleProof_absent]. intros Hin.
  destruct (MerkleProof_spec txids txid Hin) as (pos & branch & Hmp & Hfp & Hl & Hck & Hlen).
  exists pos, branch, (merkle_root txids). split_and!; try done.
  - destruct (findPos_Some txids txid Hin) as (j & Hj & _ & Hfirst).
    rewrite Hfp in Hj. by apply Nat2Z.inj in Hj as ->.
  - apply merkleRoot_spec. by intros ->.
  - unfold checkMerkleProof. by apply bool_decide_eq_true_2.
Qed.

Lemma MerkleProof_correct_witness :
  ∃ (pos : nat) branch, MerkleProof [zeroes 32; []] [] = Ok (Z.of_nat pos, branch).
Proof.
  destruct (proj1 (MerkleProof_correct [zeroes 32; []] [])) as (pos & branch & _ & H & _).
  - apply list_elem_of_further, list_elem_of_here.
  - exists pos, branch. exact H.
Defined.

(** The inputs of the collision are pairs of hashes. *)
Lemma find_collision_hash32 x y pos b1 b2 p q :
  Sha256.hash32 x → Sha256.hash32 y → Forall Sha256.hash32 b1 → Forall Sha256.hash32 b2 →
  find_collision catDoubleSha256 x y pos b1 b2 = Some (p, q) →
  (Sha256.hash32 p.1 ∧ Sha256.hash32 p.2) ∧ (Sha256.hash32 q.1 ∧ Sha256.hash32 q.2).
Proof.
  intros Hx Hy H1. revert x y pos b2 Hx Hy. induction H1 as [|v b1 Hv H1 IH]; intros x y pos [|w b2] Hx Hy H2 H; try done.
  inversion_clear H2. cbn [find_collision] in H.
  case_bool_decide; [|eapply IH; [..|exact H]; auto using hash32_catDoubleSha256].
  injection H as <- <-. by case_bool_decide.
Qed.

(** C30: proofs are binding: two different transaction ids with branches of the
    same length for the same position are never both accepted, whatever the
    root, unless the walk along the two branches finds two different strings of
    64 bytes with the same double SHA-256. *)
Theorem checkMerkleProof_binding txid1 txid2 pos branch1 branch2 :
  Sha256.hash32 txid1 → Sha256.hash32 txid2 →
  Forall Sha256.hash32 branch1 → Forall Sha256.hash32 branch2 →
  txid1 ≠ txid2 → length branch1 = length branch2 →
  (∀ root, checkMerkleProof txid1 pos root branch1 = true →
           checkMerkleProof txid2 pos root branch2 = false) ∨
  ∃ p q, find_collision catDoubleSha256 txid1 txid2 pos branch1 branch2 = Some (p, q) ∧
    length (p.1 ++ p.2) = 64%nat ∧ length (q.1 ++ q.2) = 64%nat ∧
    p.1 ++ p.2 ≠ q.1 ++ q.2 ∧ doubleSha256 (p.1 ++ p.2) = doubleSha256 (q.1 ++ q.2).
Proof.
  intros Hx Hy Hb1 Hb2 Hne Hlen.
  destruct (decide (checkMerkleProof_loop catDoubleSha256 txid1 pos branch1 =
    checkMerkleProof_loop catDoubleSha256 txid2 pos branch2)) as [Heq|Hneq].
  2: { left. intros root H1%bool_decide_eq_true_1. apply bool_decide_eq_false_2. congruence. }
  right. destruct (find_collision_spec catDoubleSha256 txid1 txid2 pos branch1 branch2 Hne Hlen Heq)
    as (p & q & Hf & Hpq & Hc).
  destruct (find_collision_hash32 _ _ _ _ _ _ _ Hx Hy Hb1 Hb2 Hf) as [[Hp1 Hp2] [Hq1 Hq2]].
  exists p, q. rewrite !catDoubleSha256_app in Hc by done.
  unfold Sha256.hash32 in *. rewrite !length_app. split_and!; try done; [lia..|].
  intros Happ. apply Hpq. apply app_inj_1 in Happ as [? ?]; [|congruence].
  by destruct p, q; simpl in *; subst.
Qed.

Lemma checkMerkleProof_binding_witness :
  checkMerkleProof (replicate 32 (z2b 1)) 0 (zeroes 32) [] = false ∨
  ∃ p q, find_collision catDoubleSha256 (zeroes 32) (replicate 32 (z2b 1)) 0 [] [] = Some (p, q).
Proof.
  destruct (checkMerkleProof_binding (zeroes 32) (replicate 32 (z2b 1)) 0 [] []) as [H|(p & q & H & _)].
  - reflexivity.
  - reflexivity.
  - constructor.
  - constructor.
  - discriminate.
  - reflexivity.
  - left. apply H. vm_compute. reflexivity.
  - right. exists p, q. exact H.
Defined.
