(* ===== verification/BitcoinTypes.v ===== *)
(** * BitcoinTypes: headers, transactions and blocks

    The part of [vendor/ncody.com/ncgo.git/bitcoin/types.go] that the wallet
    manager calls: the records, [Serialize], [Hash], [Txid] and [TXIDs].
    [Serialize(buf)] appends to its buffer; the model returns what it appends. *)

From S2P Require Import Prelude Bytes Sha256.

(** ** Compact sizes *)

Definition compactSizeSerialize (s : Z) : bytes :=
  if s <=? 0xFC then [z2b s]
  else if s <=? 2 ^ 16 - 1 then z2b 0xFD :: uint16SerializeLE (s `mod` 2 ^ 16)
  else if s <=? 2 ^ 32 - 1 then z2b 0xFE :: uint32SerializeLE (uint32_wrap s)
  else z2b 0xFF :: uint64SerializeLE s.

(** ** Headers *)

Record Header := {
  BlockVersion : Z;      (* uint32 *)
  PreviousBlock : bytes; (* [32]byte *)
  MerkleRoot : bytes;    (* [32]byte *)
  Timestamp : Z;         (* uint32 *)
  NBits : Z;             (* uint32 *)
  Nonce : Z;             (* uint32 *)
}.

(** The 80 bytes of a header, which [Hash] hashes. *)
Definition header80 (ver : Z) (prev merkle : bytes) (time bits nonce : Z) : bytes :=
  uint32SerializeLE ver ++ prev ++ merkle ++ uint32SerializeLE time ++
  uint32SerializeLE bits ++ uint32SerializeLE nonce.

(** [Header.Serialize] adds the (zero) transaction count of a headers message. *)
Definition Header_Serialize (h : Header) : bytes :=
  header80 (BlockVersion h) (PreviousBlock h) (MerkleRoot h) (Timestamp h) (NBits h) (Nonce h)
  ++ [z2b 0].

Definition Header_Hash (h : Header) : bytes :=
  doubleSha256
    (header80 (BlockVersion h) (PreviousBlock h) (MerkleRoot h) (Timestamp h) (NBits h) (Nonce h)).

(** The arrays of a header have their Go length. *)
Definition header_ok (h : Header) : Prop :=
  Sha256.hash32 (PreviousBlock h) ∧ Sha256.hash32 (MerkleRoot h).

(** ** Transactions *)

Record Input := {
  in_Txid : bytes; (* [32]byte *)
  in_Vout : Z;     (* uint32 *)
  ScriptSig : bytes;
  Sequence : Z;    (* uint32 *)
}.

Record Output := {
  Amount : Z;      (* uint64 *)
  ScriptPubkey : bytes;
}.

Record Witness := { StackItems : list bytes }.

Record Transaction := {
  tx_Version : Z;  (* uint32 *)
  Marker : byte;
  Flag : byte;
  Inputs : list Input;
  Outputs : list Output;
  tx_Witness : list Witness;
  Locktime : Z;    (* uint32 *)
}.

Definition Input_Serialize (i : Input) : bytes :=
  in_Txid i ++ uint32SerializeLE (in_Vout i) ++
  compactSizeSerialize (length (ScriptSig i)) ++ ScriptSig i ++
  uint32SerializeLE (Sequence i).

Definition Output_Serialize (o : Output) : bytes :=
  uint64SerializeLE (Amount o) ++ compactSizeSerialize (length (ScriptPubkey o)) ++ ScriptPubkey o.

Definition stackItem_Serialize (item : bytes) : bytes :=
  compactSizeSerialize (length item) ++ item.

Definition Witness_Serialize (w : Witness) : bytes :=
  compactSizeSerialize (length (StackItems w)) ++ (StackItems w ≫= stackItem_Serialize).

Definition Transaction_Serialize (t : Transaction) : bytes :=
  let isSegwit := bool_decide (Flag t = z2b 1) in
  uint32SerializeLE (tx_Version t) ++
  (if isSegwit then [Marker t; Flag t] else []) ++
  compactSizeSerialize (length (Inputs t)) ++ (Inputs t ≫= Input_Serialize) ++
  compactSizeSerialize (length (Outputs t)) ++ (Outputs t ≫= Output_Serialize) ++
  (if isSegwit then tx_Witness t ≫= Witness_Serialize else []) ++
  uint32SerializeLE (Locktime t).

(** The serialization without the witness. *)
Definition serializeForTxid (t : Transaction) : bytes :=
  uint32SerializeLE (tx_Version t) ++
  compactSizeSerialize (length (Inputs t)) ++ (Inputs t ≫= Input_Serialize) ++
  compactSizeSerialize (length (Outputs t)) ++ (Outputs t ≫= Output_Serialize) ++
  uint32SerializeLE (Locktime t).

Definition Txid (t : Transaction) : bytes := doubleSha256 (serializeForTxid t).

(** ** Blocks *)

Record Block := {
  blk_Version : Z;           (* uint32 *)
  blk_PreviousBlock : bytes; (* [32]byte *)
  blk_MerkleRoot : bytes;    (* [32]byte *)
  Time : Z;                  (* uint32 *)
  Bits : Z;                  (* uint32 *)
  blk_Nonce : Z;             (* uint32 *)
  Transactions : list Transaction;
}.

Definition Block_Hash (b : Block) : bytes :=
  doubleSha256
    (header80 (blk_Version b) (blk_PreviousBlock b) (blk_MerkleRoot b) (Time b) (Bits b) (blk_Nonce b)).

(** The header of a block, as a node announces it. *)
Definition header_of (b : Block) : Header := {|
  BlockVersion := blk_Version b; PreviousBlock := blk_PreviousBlock b;
  MerkleRoot := blk_MerkleRoot b; Timestamp := Time b; NBits := Bits b; Nonce := blk_Nonce b |}.

Definition TXIDs (b : Block) : list bytes := Txid <$> Transactions b.

(** ** Lengths *)

Lemma length_header80 v p m t b n :
  Sha256.hash32 p → Sha256.hash32 m → length (header80 v p m t b n) = 80%nat.
Proof. unfold Sha256.hash32, header80. intros Hp Hm. rewrite !length_app, Hp, Hm. done. Qed.

Lemma take80_Header_Serialize h :
  header_ok h →
  take 80 (Header_Serialize h) =
    header80 (BlockVersion h) (PreviousBlock h) (MerkleRoot h) (Timestamp h) (NBits h) (Nonce h).
Proof.
  intros [Hp Hm]. unfold Header_Serialize. by rewrite take_app_length' by (by rewrite length_header80).
Qed.

Lemma hash32_Header_Hash h : Sha256.hash32 (Header_Hash h).
Proof. apply length_doubleSha256. Qed.
Lemma hash32_Block_Hash b : Sha256.hash32 (Block_Hash b).
Proof. apply length_doubleSha256. Qed.
Lemma hash32_Txid t : Sha256.hash32 (Txid t).
Proof. apply length_doubleSha256. Qed.
Lemma hash32_TXIDs b txid : txid ∈ TXIDs b → Sha256.hash32 txid.
Proof. intros (t & -> & _)%list_elem_of_fmap. apply hash32_Txid. Qed.

(** The witness does not enter the transaction id. *)
Lemma Txid_witness t m f w :
  Txid {| tx_Version := tx_Version t; Marker := m; Flag := f; Inputs := Inputs t;
          Outputs := Outputs t; tx_Witness := w; Locktime := Locktime t |} = Txid t.
Proof. reflexivity. Qed.
