(* ===== verification/Deserialize.v ===== *)
(** * Deserialize: reading the wire format

    The [Deserialize] methods of [vendor/ncody.com/ncgo.git/bitcoin/types.go].
    A reader is a method on the bytes that a [bytes.Reader] has left.  The
    receiver of [Deserialize] is a zero value; the model returns it when it is
    filled.  [make] panics when the slice would pass the 2^48 bytes of the
    address space (of a 64 bit machine); smaller slices are allocated. *)

From S2P Require Import Prelude Bytes Sha256 BitcoinTypes.

(** ** Readers *)

Definition EOF : error := ErrMsg "EOF".

(** [readAll]: a [bytes.Reader] gives what it has, then [io.EOF]. *)
Definition readAll (target : Z) : M bytes bytes := λ r,
  if target <=? length r then (Ok (take (Z.to_nat target) r), drop (Z.to_nat target) r)
  else (Err EOF, []).

(** One call of [Read] on a buffer of [size] bytes. *)
Definition read_once (size : nat) : M bytes bytes := λ r,
  match r with
  | [] => (Err EOF, [])
  | _ => (Ok (take size r), drop size r)
  end.

Definition uint32ReadLE : M bytes Z := buf ← readAll 4; mret (uint32DeserializeLE buf).
Definition uint64ReadLE : M bytes Z := buf ← readAll 8; mret (uint64DeserializeLE buf).

Definition compactSizeDeserialize (s : bytes) : Z :=
  match s with
  | [] => 0
  | c :: v =>
      if bool_decide (c = z2b 0xFD) then
        if bool_decide (length s < 3)%nat then 0 else uint16DeserializeLE (take 2 v)
      else if bool_decide (c = z2b 0xFE) then
        if bool_decide (length s < 5)%nat then 0 else uint32DeserializeLE (take 4 v)
      else if bool_decide (c = z2b 0xFF) then
        if bool_decide (length s < 9)%nat then 0 else uint64DeserializeLE (take 8 v)
      else b2z c
  end.

(** The number of bytes that follow the first one. *)
Definition compactSizeTarget (c : byte) : nat :=
  if bool_decide (c = z2b 0xFD) then 2
  else if bool_decide (c = z2b 0xFE) then 4
  else if bool_decide (c = z2b 0xFF) then 8
  else 0.

Definition compactSizeRead : M bytes Z :=
  c ← read_once 1;
  c ← lift_outcome (index c 0);
  let target := compactSizeTarget c in
  if bool_decide (target = 0%nat) then mret (b2z c)
  else
    v ← read_once target;
    if bool_decide (length v ≠ target) then throw (ErrMsg "bad read size")
    else mret (compactSizeDeserialize (copy_into (zeroes 9) (c :: v))).

(** [make([]T, n)] for elements of [size] bytes. *)
Definition make_slice (size n : Z) : M bytes unit :=
  if 2 ^ 48 <? size * n then panic "makeslice: len out of range" else mret tt.

(** [for range n { x.Deserialize(r); l = append(l, x) }].  Every element takes
    at least one byte, so one round more than there are bytes is enough. *)
Fixpoint read_n {A} (fuel : nat) (n : Z) (body : M bytes A) : M bytes (list A) :=
  if n <=? 0 then mret []
  else
    match fuel with
    | O => out_of_fuel
    | S fuel => x ← body; xs ← read_n fuel (n - 1) body; mret (x :: xs)
    end.
Definition for_range {A} (n : Z) (body : M bytes A) : M bytes (list A) :=
  λ r, read_n (S (length r)) n body r.

(** ** The types *)

(** The bytes of a slice of the size that was read. *)
Definition readBytes (size : Z) : M bytes bytes := make_slice 1 size ;; readAll size.

Definition Header_Deserialize : M bytes Header :=
  version ← uint32ReadLE; prev ← readAll 32; merkle ← readAll 32;
  time ← uint32ReadLE; bits ← uint32ReadLE; nonce ← uint32ReadLE; readAll 1 ;;
  mret {| BlockVersion := version; PreviousBlock := prev; MerkleRoot := merkle;
          Timestamp := time; NBits := bits; Nonce := nonce |}.

Definition Input_Deserialize : M bytes Input :=
  txid ← readAll 32; vout ← uint32ReadLE; size ← compactSizeRead;
  script ← readBytes size; sequence ← uint32ReadLE;
  mret {| in_Txid := txid; in_Vout := vout; ScriptSig := script; Sequence := sequence |}.

Definition Output_Deserialize : M bytes Output :=
  amount ← uint64ReadLE; size ← compactSizeRead; script ← readBytes size;
  mret {| Amount := amount; ScriptPubkey := script |}.

Definition stackItem_Deserialize : M bytes bytes := size ← compactSizeRead; readBytes size.

(** The sizes of the elements of a slice are those of the Go structs. *)
Definition Witness_Deserialize : M bytes Witness :=
  count ← compactSizeRead;
  make_slice 32 count ;;
  items ← for_range count stackItem_Deserialize;
  mret {| StackItems := items |}.

(** The flag that follows a zero marker. *)
Definition readFlag : M bytes byte :=
  buf ← read_once 1;
  flag ← lift_outcome (index buf 0);
  if bool_decide (flag ≠ z2b 0x01) then throw (ErrMsg "bad flag") else mret flag.

Definition Transaction_Deserialize : M bytes Transaction :=
  version ← uint32ReadLE;
  markerOrVinCount ← compactSizeRead;
  let isSegwit := markerOrVinCount =? 0 in
  flag ← (if isSegwit then readFlag else mret (z2b 0));
  inputCount ← (if isSegwit then compactSizeRead else mret markerOrVinCount);
  make_slice 80 inputCount ;;
  inputs ← for_range inputCount Input_Deserialize;
  outputCount ← compactSizeRead;
  make_slice 40 outputCount ;;
  outputs ← for_range outputCount Output_Deserialize;
  witness ← (if isSegwit then make_slice 32 inputCount ;; for_range inputCount Witness_Deserialize
             else mret []);
  locktime ← uint32ReadLE;
  mret {| tx_Version := version; Marker := z2b 0; Flag := flag; Inputs := inputs;
          Outputs := outputs; tx_Witness := witness; Locktime := locktime |}.

Definition Block_Deserialize : M bytes Block :=
  version ← uint32ReadLE; prev ← readAll 32; merkle ← readAll 32;
  time ← uint32ReadLE; bits ← uint32ReadLE; nonce ← uint32ReadLE;
  count ← compactSizeRead;
  make_slice 104 count ;;
  txs ← for_range count Transaction_Deserialize;
  mret {| blk_Version := version; blk_PreviousBlock := prev; blk_MerkleRoot := merkle;
          Time := time; Bits := bits; blk_Nonce := nonce; Transactions := txs |}.

(** [Block.Serialize]. *)
Definition Block_Serialize (b : Block) : bytes :=
  header80 (blk_Version b) (blk_PreviousBlock b) (blk_MerkleRoot b) (Time b) (Bits b) (blk_Nonce b)
  ++ compactSizeSerialize (length (Transactions b)) ++ (Transactions b ≫= Transaction_Serialize).

(** ** Round trips *)

(** The reader takes exactly these bytes, whatever follows them. *)
Definition parses {A} (m : M bytes A) (bs : bytes) (a : A) : Prop :=
  ∀ rest, m (bs ++ rest) = (Ok a, rest).

(** A format: what is written can be read back. *)
Class Wire (A : Type) := {
  encode : A → bytes;
  decode : M bytes A;
  wire_ok : A → Prop;
  decode_encode a : wire_ok a → parses decode (encode a) a;
  encode_cons a : wire_ok a → encode a ≠ [];
}.

Lemma parses_bind {A B} (m : M bytes A) (k : A → M bytes B) bs bs' a b :
  parses m bs a → parses (k a) bs' b → parses (m ≫= k) (bs ++ bs') b.
Proof. intros Hm Hk rest. rewrite <- (assoc_L _), bind_run, Hm. apply Hk. Qed.

Lemma parses_ret {A} (a : A) : parses (mret a) [] a.
Proof. by intros rest. Qed.

Lemma parses_bind_nil {A B} (m : M bytes A) (k : A → M bytes B) bs a b :
  parses m [] a → parses (k a) bs b → parses (m ≫= k) bs b.
Proof. intros Hm Hk. exact (parses_bind m k [] bs a b Hm Hk). Qed.

Lemma parses_bind_ret {A B} (m : M bytes A) (k : A → M bytes B) bs a b :
  parses m bs a → parses (k a) [] b → parses (m ≫= k) bs b.
Proof. intros Hm Hk. rewrite <- (app_nil_r bs). by eapply parses_bind. Qed.

Lemma readAll_parses bs : parses (readAll (length bs)) bs bs.
Proof.
  intros rest. unfold readAll. rewrite length_app.
  rewrite (proj2 (Z.leb_le _ _)) by lia. by rewrite Nat2Z.id, take_app_length, drop_app_length.
Qed.

Lemma readAll_parses_n (n : Z) bs : length bs = n :> Z → parses (readAll n) bs bs.
Proof. intros <-. apply readAll_parses. Qed.

Lemma uint32ReadLE_parses v : 0 ≤ v < 2 ^ 32 → parses uint32ReadLE (uint32SerializeLE v) v.
Proof.
  intros Hv. eapply parses_bind_ret; [by apply readAll_parses_n|].
  rewrite uint32_roundtrip by done. apply parses_ret.
Qed.

Lemma uint64ReadLE_parses v : 0 ≤ v < 2 ^ 64 → parses uint64ReadLE (uint64SerializeLE v) v.
Proof.
  intros Hv. eapply parses_bind_ret; [by apply readAll_parses_n|].
  rewrite uint64_roundtrip by done. apply parses_ret.
Qed.

Lemma read_once_parses c bs : parses (read_once (S (length bs))) (c :: bs) (c :: bs).
Proof. intros rest. cbn. by rewrite take_app_length, drop_app_length. Qed.

Lemma z2b_neq a b : 0 ≤ a < 256 → 0 ≤ b < 256 → a ≠ b → z2b a ≠ z2b b.
Proof.
  intros Ha Hb Hn H. apply (f_equal b2z) in H.
  rewrite !b2z_z2b, !Z.mod_small in H by lia. done.
Qed.

(** A size with a prefix: the prefix announces the bytes that follow. *)
Lemma compactSizeRead_long c v n :
  compactSizeTarget c = length v → v ≠ [] → compactSizeDeserialize (copy_into (zeroes 9) (c :: v)) = n →
  parses compactSizeRead (c :: v) n.
Proof.
  intros Ht Hv Hn. change (c :: v) with ([c] ++ v).
  eapply parses_bind; [apply (read_once_parses c [])|]. cbn [lift_outcome index].
  eapply parses_bind_nil; [by intros rest|]. rewrite Ht.
  rewrite bool_decide_eq_false_2 by (destruct v; [done|simpl; lia]).
  destruct v as [|d v]; [done|]. eapply parses_bind_ret; [apply read_once_parses|].
  rewrite bool_decide_eq_false_2 by auto. rewrite Hn. apply parses_ret.
Qed.

Lemma compactSizeRead_parses n :
  0 ≤ n < 2 ^ 64 → parses compactSizeRead (compactSizeSerialize n) n.
Proof.
  intros Hn. unfold compactSizeSerialize.
  destruct (Z.leb_spec n 0xFC).
  { change [z2b n] with ([z2b n] ++ []).
    eapply parses_bind; [apply (read_once_parses _ [])|].
    eapply parses_bind_nil; [by intros rest|].
    unfold compactSizeTarget. rewrite !(bool_decide_eq_false_2 (z2b n = _)) by (apply z2b_neq; lia).
    intros rest. cbn. by rewrite b2z_z2b, Z.mod_small by lia. }
  destruct (Z.leb_spec n (2 ^ 16 - 1)); [|destruct (Z.leb_spec n (2 ^ 32 - 1))].
  - rewrite Z.mod_small by lia. apply compactSizeRead_long; [done|done|].
    transitivity (uint16DeserializeLE (uint16SerializeLE n)); [done|by apply uint16_roundtrip; lia].
  - rewrite uint32_wrap_small by lia. apply compactSizeRead_long; [done|done|].
    transitivity (uint32DeserializeLE (uint32SerializeLE n)); [done|by apply uint32_roundtrip; lia].
  - apply compactSizeRead_long; [done|done|].
    transitivity (uint64DeserializeLE (uint64SerializeLE n)); [done|by apply uint64_roundtrip; lia].
Qed.

Lemma make_slice_parses size n : size * n ≤ 2 ^ 48 → parses (make_slice size n) [] tt.
Proof. intros H rest. unfold make_slice. by rewrite (proj2 (Z.ltb_ge _ _)). Qed.

Lemma readBytes_parses bs : length bs ≤ 2 ^ 48 → parses (readBytes (length bs)) bs bs.
Proof.
  intros H. eapply parses_bind_nil; [apply make_slice_parses; lia|]. apply readAll_parses.
Qed.

Lemma read_n_parses {A} (f : A → bytes) (body : M bytes A) l fuel :
  (∀ x, x ∈ l → parses body (f x) x) → (length l ≤ fuel)%nat →
  parses (read_n fuel (length l) body) (l ≫= f) l.
Proof.
  revert fuel. induction l as [|x l IH]; intros fuel Hf Hl rest.
  { by destruct fuel. }
  destruct fuel as [|fuel]; [simpl in Hl; lia|]. rewrite bind_cons, <- (assoc_L (++)).
  cbn [read_n]. rewrite (proj2 (Z.leb_gt _ _)) by (simpl; lia).
  rewrite bind_run, Hf by apply list_elem_of_here.
  replace (length (x :: l) - 1) with (Z.of_nat (length l)) by (simpl; lia).
  rewrite bind_run, IH; [done|intros y Hy; apply Hf; by apply list_elem_of_further|simpl in Hl; lia].
Qed.

Lemma length_bind_le {A B} (f : A → list B) l :
  (∀ x, x ∈ l → f x ≠ []) → (length l ≤ length (l ≫= f))%nat.
Proof.
  induction l as [|x l IH]; intros H; [done|]. rewrite bind_cons, length_app. simpl.
  pose proof (H x (list_elem_of_here _ _)) as Hx. destruct (f x); [done|]. simpl.
  specialize (IH (λ y Hy, H y (list_elem_of_further _ _ _ Hy))). lia.
Qed.

Lemma for_range_parses `{Wire A} (l : list A) :
  Forall wire_ok l → parses (for_range (length l) decode) (l ≫= encode) l.
Proof.
  rewrite Forall_forall. intros Hl rest. unfold for_range. apply read_n_parses.
  - intros x Hx. by apply decode_encode, Hl.
  - rewrite length_app.
    pose proof (length_bind_le encode l (λ x Hx, encode_cons x (Hl x Hx))). lia.
Qed.

Lemma compactSizeSerialize_cons n : compactSizeSerialize n ≠ [].
Proof. unfold compactSizeSerialize. repeat case_match; done. Qed.

(** The pieces of a format, one after the other. *)
Create HintDb parses.
#[export] Hint Resolve parses_ret uint32ReadLE_parses uint64ReadLE_parses readAll_parses_n
  compactSizeRead_parses readBytes_parses make_slice_parses for_range_parses : parses.
Ltac parse_step :=
  first [ eapply parses_bind; [solve [eauto with parses lia]|]
        | eapply parses_bind_ret; [solve [eauto with parses lia]|]
        | eapply parses_bind_nil; [solve [eauto with parses lia]|] ].
Ltac app_neq_nil :=
  let H := fresh in
  intros H; apply (f_equal length) in H; rewrite ?length_app in H; simpl in H; lia.

Definition input_ok (i : Input) : Prop :=
  length (in_Txid i) = 32%nat ∧ 0 ≤ in_Vout i < 2 ^ 32 ∧ 0 ≤ Sequence i < 2 ^ 32 ∧
  length (ScriptSig i) ≤ 2 ^ 48.
Definition output_ok (o : Output) : Prop :=
  0 ≤ Amount o < 2 ^ 64 ∧ length (ScriptPubkey o) ≤ 2 ^ 48.
Definition item_ok (item : bytes) : Prop := length item ≤ 2 ^ 48.
Definition witness_ok (w : Witness) : Prop :=
  32 * length (StackItems w) ≤ 2 ^ 48 ∧ Forall item_ok (StackItems w).

#[export] Program Instance Input_Wire : Wire Input :=
  {| encode := Input_Serialize; decode := Input_Deserialize; wire_ok := input_ok |}.
Next Obligation.
  intros i (Ht & Hv & Hs & Hl). unfold Input_Deserialize, Input_Serialize.
  do 4 parse_step. eapply parses_bind_ret; [by apply uint32ReadLE_parses|]. destruct i. apply parses_ret.
Qed.
Next Obligation. intros i (Ht & _). unfold Input_Serialize. app_neq_nil. Qed.

#[export] Program Instance Output_Wire : Wire Output :=
  {| encode := Output_Serialize; decode := Output_Deserialize; wire_ok := output_ok |}.
Next Obligation.
  intros o (Ha & Hl). unfold Output_Deserialize, Output_Serialize.
  do 2 parse_step. eapply parses_bind_ret; [by apply readBytes_parses|]. destruct o. apply parses_ret.
Qed.
Next Obligation. intros o _. unfold Output_Serialize. app_neq_nil. Qed.

#[export] Program Instance stackItem_Wire : Wire bytes :=
  {| encode := stackItem_Serialize; decode := stackItem_Deserialize; wire_ok := item_ok |}.
Next Obligation.
  intros item Hl. unfold item_ok in Hl. unfold stackItem_Deserialize, stackItem_Serialize.
  parse_step. by apply readBytes_parses.
Qed.
Next Obligation.
  intros item _ [H _]%app_eq_nil. by apply compactSizeSerialize_cons in H.
Qed.

#[export] Program Instance Witness_Wire : Wire Witness :=
  {| encode := Witness_Serialize; decode := Witness_Deserialize; wire_ok := witness_ok |}.
Next Obligation.
  intros w (Hl & Hi). unfold Witness_Deserialize, Witness_Serialize.
  parse_step. eapply parses_bind_nil; [apply make_slice_parses; lia|].
  eapply parses_bind_ret; [exact (for_range_parses (A := bytes) _ Hi)|]. destruct w. apply parses_ret.
Qed.
Next Obligation.
  intros w _ [H _]%app_eq_nil. by apply compactSizeSerialize_cons in H.
Qed.

Lemma inputs_parses l :
  Forall input_ok l → parses (for_range (length l) Input_Deserialize) (l ≫= Input_Serialize) l.
Proof. exact (for_range_parses (A := Input) l). Qed.
Lemma outputs_parses l :
  Forall output_ok l → parses (for_range (length l) Output_Deserialize) (l ≫= Output_Serialize) l.
Proof. exact (for_range_parses (A := Output) l). Qed.
Lemma witnesses_parses l :
  Forall witness_ok l → parses (for_range (length l) Witness_Deserialize) (l ≫= Witness_Serialize) l.
Proof. exact (for_range_parses (A := Witness) l). Qed.

(** A transaction as [Deserialize] leaves it: with a witness per input and the
    flag, or with neither and at least one input. *)
Definition transaction_ok (t : Transaction) : Prop :=
  0 ≤ tx_Version t < 2 ^ 32 ∧ 0 ≤ Locktime t < 2 ^ 32 ∧ Marker t = z2b 0 ∧
  80 * length (Inputs t) ≤ 2 ^ 48 ∧ 40 * length (Outputs t) ≤ 2 ^ 48 ∧
  Forall input_ok (Inputs t) ∧ Forall output_ok (Outputs t) ∧ Forall witness_ok (tx_Witness t) ∧
  ((Flag t = z2b 1 ∧ length (tx_Witness t) = length (Inputs t)) ∨
   (Flag t = z2b 0 ∧ tx_Witness t = [] ∧ Inputs t ≠ [])).

Lemma readFlag_parses : parses readFlag [z2b 1] (z2b 1).
Proof. by intros rest. Qed.

Ltac open_transaction :=
  cbn [tx_Version Marker Flag Inputs Outputs tx_Witness Locktime] in *.

(** The steps from the inputs on. *)
Ltac parse_body :=
  eapply parses_bind_nil; [apply make_slice_parses; lia|];
  eapply parses_bind; [by apply inputs_parses|];
  parse_step;
  eapply parses_bind_nil; [apply make_slice_parses; lia|];
  eapply parses_bind; [by apply outputs_parses|].

Lemma Transaction_legacy_parses t :
  transaction_ok t → Flag t = z2b 0 → tx_Witness t = [] → Inputs t ≠ [] →
  parses Transaction_Deserialize (Transaction_Serialize t) t.
Proof.
  destruct t as [v m f ins outs wit lt]. unfold transaction_ok. open_transaction.
  intros (Hv & Hlt & -> & Hi & Ho & Fi & Fo & _ & _) -> -> Hne.
  unfold Transaction_Deserialize, Transaction_Serialize. open_transaction.
  rewrite bool_decide_eq_false_2 by done. rewrite !app_nil_l.
  do 2 parse_step.
  rewrite (proj2 (Z.eqb_neq _ _)) by (destruct ins; [done|simpl; lia]).
  do 2 (eapply parses_bind_nil; [apply parses_ret|]).
  parse_body. eapply parses_bind_nil; [apply parses_ret|].
  eapply parses_bind_ret; [by apply uint32ReadLE_parses|]. apply parses_ret.
Qed.

Lemma Transaction_segwit_parses t :
  transaction_ok t → Flag t = z2b 1 → length (tx_Witness t) = length (Inputs t) →
  parses Transaction_Deserialize (Transaction_Serialize t) t.
Proof.
  destruct t as [v m f ins outs wit lt]. unfold transaction_ok. open_transaction.
  intros (Hv & Hlt & -> & Hi & Ho & Fi & Fo & Fw & _) -> Hw.
  unfold Transaction_Deserialize, Transaction_Serialize. open_transaction.
  rewrite bool_decide_eq_true_2 by done.
  change [z2b 0; z2b 1] with (compactSizeSerialize 0 ++ [z2b 1]). rewrite <- (assoc_L (++)).
  do 2 parse_step. cbn [Z.eqb].
  eapply parses_bind; [apply readFlag_parses|].
  parse_step. parse_body. rewrite <- Hw.
  eapply parses_bind.
  { eapply parses_bind_nil; [apply make_slice_parses; lia|]. by apply witnesses_parses. }
  eapply parses_bind_ret; [by apply uint32ReadLE_parses|]. apply parses_ret.
Qed.

#[export] Program Instance Transaction_Wire : Wire Transaction :=
  {| encode := Transaction_Serialize; decode := Transaction_Deserialize; wire_ok := transaction_ok |}.
Next Obligation.
  intros t Ht. pose proof Ht as (_ & _ & _ & _ & _ & _ & _ & _ & [[? ?]|(? & ? & ?)]).
  - by apply Transaction_segwit_parses.
  - by apply Transaction_legacy_parses.
Qed.
Next Obligation. intros t _. unfold Transaction_Serialize. app_neq_nil. Qed.

(** Headers and blocks. *)
Definition header_fields_ok (v t b n : Z) (p m : bytes) : Prop :=
  0 ≤ v < 2 ^ 32 ∧ 0 ≤ t < 2 ^ 32 ∧ 0 ≤ b < 2 ^ 32 ∧ 0 ≤ n < 2 ^ 32 ∧
  length p = 32%nat ∧ length m = 32%nat.
Definition header_wire_ok (h : Header) : Prop :=
  header_fields_ok (BlockVersion h) (Timestamp h) (NBits h) (Nonce h) (PreviousBlock h) (MerkleRoot h).
Definition block_wire_ok (b : Block) : Prop :=
  header_fields_ok (blk_Version b) (Time b) (Bits b) (blk_Nonce b) (blk_PreviousBlock b)
    (blk_MerkleRoot b) ∧
  104 * length (Transactions b) ≤ 2 ^ 48 ∧ Forall transaction_ok (Transactions b).

Lemma transactions_parses l :
  Forall transaction_ok l → parses (for_range (length l) Transaction_Deserialize) (l ≫= Transaction_Serialize) l.
Proof. exact (for_range_parses (A := Transaction) l). Qed.

#[export] Program Instance Header_Wire : Wire Header :=
  {| encode := Header_Serialize; decode := Header_Deserialize; wire_ok := header_wire_ok |}.
Next Obligation.
  intros [v p m t b n] (Hv & Ht & Hb & Hn & Hp & Hm).
  cbn [BlockVersion PreviousBlock MerkleRoot Timestamp NBits Nonce] in *.
  unfold Header_Deserialize, Header_Serialize, header80.
  cbn [BlockVersion PreviousBlock MerkleRoot Timestamp NBits Nonce].
  rewrite <- !(assoc_L (++)). do 6 parse_step.
  eapply parses_bind_ret; [by apply readAll_parses_n|]. apply parses_ret.
Qed.
Next Obligation. intros h _. unfold Header_Serialize. app_neq_nil. Qed.

#[export] Program Instance Block_Wire : Wire Block :=
  {| encode := Block_Serialize; decode := Block_Deserialize; wire_ok := block_wire_ok |}.
Next Obligation.
  intros [v p m t b n txs] ((Hv & Ht & Hb & Hn & Hp & Hm) & Hl & Htx).
  cbn [blk_Version blk_PreviousBlock blk_MerkleRoot Time Bits blk_Nonce Transactions] in *.
  unfold Block_Deserialize, Block_Serialize, header80.
  cbn [blk_Version blk_PreviousBlock blk_MerkleRoot Time Bits blk_Nonce Transactions].
  rewrite <- !(assoc_L (++)). do 7 parse_step.
  eapply parses_bind_nil; [apply make_slice_parses; lia|].
  eapply parses_bind_ret; [by apply transactions_parses|]. apply parses_ret.
Qed.
Next Obligation. intros b _. unfold Block_Serialize, header80. app_neq_nil. Qed.

(** ** Termination and panics *)

(** Reading ends, never makes more bytes available, and panics in [make] only. *)
Record reads {A} (m : M bytes A) : Prop := {
  reads_ends r : (m r).1 ≠ OutOfFuel;
  reads_panic r why : (m r).1 = Panic why → why = "makeslice: len out of range";
  reads_less r a r' : m r = (Ok a, r') → (length r' ≤ length r)%nat;
}.

(** It takes at least one byte. *)
Definition consumes {A} (m : M bytes A) : Prop :=
  ∀ r a r', m r = (Ok a, r') → (length r' < length r)%nat.

Lemma reads_ret {A} (a : A) : reads (mret a).
Proof. split; [done|done|]. by intros r b r' [= <- <-]. Qed.

Lemma reads_throw {A} e : reads (throw e : M bytes A).
Proof. split; done. Qed.

Lemma reads_bind {A B} (m : M bytes A) (k : A → M bytes B) :
  reads m → (∀ a, reads (k a)) → reads (m ≫= k).
Proof.
  intros [H1 H2 H3] Hk. split.
  - intros r. rewrite bind_run. specialize (H1 r). destruct (m r) as [[] r1]; try done.
    apply Hk.
  - intros r why. rewrite bind_run. specialize (H2 r). destruct (m r) as [[] r1]; try done; simpl in *.
    + apply Hk.
    + intros [= ->]. by apply H2.
  - intros r b r' (a & r1 & Hm & Hb)%bind_Ok. apply H3 in Hm. apply Hk in Hb. lia.
Qed.

Lemma consumes_bind_l {A B} (m : M bytes A) (k : A → M bytes B) :
  consumes m → (∀ a, reads (k a)) → consumes (m ≫= k).
Proof. intros Hm Hk r b r' (a & r1 & H1 & H2)%bind_Ok. apply Hm in H1. apply Hk in H2. lia. Qed.

Lemma consumes_bind_r {A B} (m : M bytes A) (k : A → M bytes B) :
  reads m → (∀ a, consumes (k a)) → consumes (m ≫= k).
Proof. intros Hm Hk r b r' (a & r1 & H1 & H2)%bind_Ok. apply Hm in H1. apply Hk in H2. lia. Qed.

Lemma readAll_reads n : reads (readAll n).
Proof.
  split; unfold readAll; intros r *; destruct (n <=? length r) eqn:E; try done.
  intros [= _ <-]. rewrite length_drop. lia.
Qed.

Lemma readAll_consumes n : 0 < n → consumes (readAll n).
Proof.
  intros Hn r a r'. unfold readAll. destruct (Z.leb_spec n (length r)); [|done].
  intros [= _ <-]. rewrite length_drop. lia.
Qed.

Lemma read_once_reads n : reads (read_once n).
Proof. split; intros [|c r] *; try done. intros [= _ <-]. rewrite length_drop. lia. Qed.

Lemma read_once_consumes n : (0 < n)%nat → consumes (read_once n).
Proof. intros Hn [|c r] a r'; [done|]. intros [= _ <-]. rewrite length_drop. simpl. lia. Qed.

Lemma make_slice_reads size n : reads (make_slice size n).
Proof.
  split; unfold make_slice, panic; intros r *; destruct (2 ^ 48 <? size * n); try done.
  - by intros [= <-].
  - by intros [= _ <-].
Qed.

(** The first byte of what [read_once 1] has read. *)
Lemma first_byte_reads {B} (k : byte → M bytes B) :
  (∀ c, reads (k c)) → reads (buf ← read_once 1; c ← lift_outcome (index buf 0); k c).
Proof.
  intros Hk. assert (∀ r, ∃ o r', (buf ← read_once 1; c ← lift_outcome (index buf 0); k c) r = (o, r') ∧
    ((o = Err EOF) ∨ ∃ c r1, (length r1 ≤ length r)%nat ∧ k c r1 = (o, r'))) as H.
  { intros [|c r]; [do 2 eexists; split; [done|by left]|].
    destruct (k c r) as [o r'] eqn:E. exists o, r'. split; [exact E|].
    right. exists c, r. split; [simpl; lia|done]. }
  split; intros r; destruct (H r) as (o & r1 & -> & [->|(c & r2 & Hl & Hkr)]); try done; simpl.
  - pose proof (reads_ends _ (Hk c) r2) as He. by rewrite Hkr in He.
  - intros why ->. apply (reads_panic _ (Hk c) r2). by rewrite Hkr.
  - intros a r' [= -> <-]. apply (reads_less _ (Hk c)) in Hkr. lia.
Qed.

Lemma compactSizeRead_reads : reads compactSizeRead.
Proof.
  apply first_byte_reads. intros c. case_bool_decide; [apply reads_ret|].
  apply reads_bind; [apply read_once_reads|]. intros v.
  case_bool_decide; [apply reads_throw|apply reads_ret].
Qed.

Lemma read_n_reads {A} (body : M bytes A) : reads body → consumes body →
  ∀ fuel n r, (length r < fuel)%nat →
    (read_n fuel n body r).1 ≠ OutOfFuel ∧
    (∀ why, (read_n fuel n body r).1 = Panic why → why = "makeslice: len out of range") ∧
    (∀ l r', read_n fuel n body r = (Ok l, r') → (length r' ≤ length r)%nat).
Proof.
  intros Hb Hc fuel. induction fuel as [|fuel IH]; intros n r Hl; [lia|].
  cbn [read_n]. destruct (n <=? 0); [split_and!; try done; by intros l r' [= <- <-]|].
  pose proof (reads_ends _ Hb r) as He. pose proof (reads_panic _ Hb r) as Hp.
  rewrite bind_run. destruct (body r) as [[a|e|w|] r1] eqn:E; simpl in *; [|done| |done].
  - apply Hc in E. specialize (IH (n - 1) r1 ltac:(lia)) as (H1 & H2 & H3).
    rewrite bind_run. destruct (read_n fuel (n - 1) body r1) as [[l|e|w|] r2]; simpl in *; try done.
    split_and!; [done|done|]. intros l' r' [= _ <-]. specialize (H3 _ _ eq_refl). lia.
  - split_and!; [done| |done]. intros why [= ->]. by apply Hp.
Qed.

Lemma for_range_reads {A} n (body : M bytes A) : reads body → consumes body → reads (for_range n body).
Proof.
  intros Hb Hc. split; intros r; unfold for_range;
    by destruct (read_n_reads body Hb Hc (S (length r)) n r ltac:(lia)) as (? & ? & ?).
Qed.

Create HintDb reads.
#[export] Hint Resolve reads_ret reads_throw reads_bind readAll_reads read_once_reads make_slice_reads
  compactSizeRead_reads for_range_reads readAll_consumes read_once_consumes
  first_byte_reads consumes_bind_l consumes_bind_r : reads.
#[export] Hint Extern 1 (0 < _)%Z => lia : reads.
#[export] Hint Extern 1 (0 < _)%nat => lia : reads.

Lemma compactSizeRead_consumes : consumes compactSizeRead.
Proof.
  intros [|c r] n r'; [done|]. unfold compactSizeRead.
  rewrite (bind_Ok_1 _ _ _ [c] r) by done. rewrite (bind_Ok_1 _ _ _ c r) by done.
  case_bool_decide; [intros [= _ <-]; simpl; lia|].
  intros (v & r1 & H1 & H2)%bind_Ok. apply (reads_less _ (read_once_reads _)) in H1.
  case_bool_decide; [done|]. injection H2 as _ <-. simpl. lia.
Qed.
#[export] Hint Resolve compactSizeRead_consumes : reads.

Ltac solve_reads := eauto 30 with reads.

Lemma readBytes_reads n : reads (readBytes n).
Proof. unfold readBytes. solve_reads. Qed.
Lemma uint32ReadLE_reads : reads uint32ReadLE.
Proof. unfold uint32ReadLE. solve_reads. Qed.
Lemma uint64ReadLE_reads : reads uint64ReadLE.
Proof. unfold uint64ReadLE. solve_reads. Qed.
Lemma uint32ReadLE_consumes : consumes uint32ReadLE.
Proof. unfold uint32ReadLE. solve_reads. Qed.
Lemma uint64ReadLE_consumes : consumes uint64ReadLE.
Proof. unfold uint64ReadLE. solve_reads. Qed.
#[export] Hint Resolve readBytes_reads uint32ReadLE_reads uint64ReadLE_reads
  uint32ReadLE_consumes uint64ReadLE_consumes : reads.

Lemma Input_Deserialize_reads : reads Input_Deserialize.
Proof. unfold Input_Deserialize. solve_reads. Qed.
Lemma Input_Deserialize_consumes : consumes Input_Deserialize.
Proof. unfold Input_Deserialize. solve_reads. Qed.
Lemma Output_Deserialize_reads : reads Output_Deserialize.
Proof. unfold Output_Deserialize. solve_reads. Qed.
Lemma Output_Deserialize_consumes : consumes Output_Deserialize.
Proof. unfold Output_Deserialize. solve_reads. Qed.
Lemma stackItem_Deserialize_reads : reads stackItem_Deserialize.
Proof. unfold stackItem_Deserialize. solve_reads. Qed.
Lemma stackItem_Deserialize_consumes : consumes stackItem_Deserialize.
Proof. unfold stackItem_Deserialize. solve_reads. Qed.
#[export] Hint Resolve Input_Deserialize_reads Input_Deserialize_consumes Output_Deserialize_reads
  Output_Deserialize_consumes stackItem_Deserialize_reads stackItem_Deserialize_consumes : reads.

Lemma Witness_Deserialize_reads : reads Witness_Deserialize.
Proof. unfold Witness_Deserialize. solve_reads. Qed.
Lemma Witness_Deserialize_consumes : consumes Witness_Deserialize.
Proof. unfold Witness_Deserialize. solve_reads. Qed.
Lemma readFlag_reads : reads readFlag.
Proof. unfold readFlag. apply first_byte_reads. intros c. case_bool_decide; solve_reads. Qed.
#[export] Hint Resolve Witness_Deserialize_reads Witness_Deserialize_consumes readFlag_reads : reads.

Lemma reads_if {A} (b : bool) (m k : M bytes A) : reads m → reads k → reads (if b then m else k).
Proof. by destruct b. Qed.
#[export] Hint Resolve reads_if : reads.

Lemma Transaction_Deserialize_reads : reads Transaction_Deserialize.
Proof. unfold Transaction_Deserialize. solve_reads. Qed.
Lemma Transaction_Deserialize_consumes : consumes Transaction_Deserialize.
Proof. unfold Transaction_Deserialize. solve_reads. Qed.
#[export] Hint Resolve Transaction_Deserialize_reads Transaction_Deserialize_consumes : reads.

Lemma Header_Deserialize_reads : reads Header_Deserialize.
Proof. unfold Header_Deserialize. solve_reads. Qed.
Lemma Block_Deserialize_reads : reads Block_Deserialize.
Proof. unfold Block_Deserialize. solve_reads. Qed.

