(* ===== verification/Json.v ===== *)
(** * Json: [encoding/json] as the handlers use it

    The scanner of the Go standard library, a push-down automaton that is run
    byte by byte, and what [json.Unmarshal] does with the types that
    [src/electrum/handlers.go] decodes into: [string], [int], [bool], and
    slices of [int], [string], [json.RawMessage] and pointers.  A value of the
    wrong type does not stop the decoding: it is skipped, and the first such
    error is returned at the end; [null] leaves what it is decoded into. *)

From S2P Require Import Prelude Bytes.
From Stdlib Require Import Strings.Byte.

(** ** The scanner *)

Inductive parseState := parseObjectKey | parseObjectValue | parseArrayValue.

Inductive step :=
  | BeginValueOrEmpty | BeginValue | BeginStringOrEmpty | BeginString
  | EndValue | EndTop
  | InString | InStringEsc | InStringEscU | InStringEscU1 | InStringEscU12 | InStringEscU123
  | Neg | S1 | S0 | Dot | Dot0 | SE | ESign | E0
  | ST | STr | STru | SF | SFa | SFal | SFals | SN | SNu | SNul.

(** The next step and the stack of open arrays and objects. *)
Record scanner := Scanner { sc_step : step; sc_stack : list parseState }.

#[export] Instance parseState_eq_decision : EqDecision parseState.
Proof. solve_decision. Defined.
#[export] Instance step_eq_decision : EqDecision step.
Proof. solve_decision. Defined.

Definition isSpace (c : byte) : bool :=
  match c with x20 | x09 | x0d | x0a => true | _ => false end.
Definition isDigit (c : byte) : bool := (48 <=? b2z c) && (b2z c <=? 57).
Definition isHex (c : byte) : bool := bool_decide (is_Some (fromHexChar c)).

Definition maxNestingDepth : Z := 10000.

Definition push (st : step) (p : parseState) (stack : list parseState) : option scanner :=
  if S (length stack) <=? maxNestingDepth then Some (Scanner st (p :: stack))
  else None.

(** [popParseState]. *)
Definition pop (stack : list parseState) : scanner :=
  match tail stack with
  | [] => Scanner EndTop []
  | stack => Scanner EndValue stack
  end.

Definition stateEndTop (c : byte) : option scanner :=
  if isSpace c then Some (Scanner EndTop []) else None.

Definition stateEndValue (stack : list parseState) (c : byte) : option scanner :=
  match stack with
  | [] => stateEndTop c
  | p :: rest =>
      if isSpace c then Some (Scanner EndValue stack)
      else
        match p, c with
        | parseObjectKey, x3a (* : *) => Some (Scanner BeginValue (parseObjectValue :: rest))
        | parseObjectValue, x2c (* , *) => Some (Scanner BeginString (parseObjectKey :: rest))
        | parseObjectValue, x7d (* } *) => Some (pop stack)
        | parseArrayValue, x2c => Some (Scanner BeginValue stack)
        | parseArrayValue, x5d (* ] *) => Some (pop stack)
        | _, _ => None
        end
  end.

Definition stateBeginValue (stack : list parseState) (c : byte) : option scanner :=
  if isSpace c then Some (Scanner BeginValue stack)
  else
    match c with
    | x7b (* { *) => push BeginStringOrEmpty parseObjectKey stack
    | x5b (* [ *) => push BeginValueOrEmpty parseArrayValue stack
    | x22 (* quote *) => Some (Scanner InString stack)
    | x2d (* - *) => Some (Scanner Neg stack)
    | x30 (* 0 *) => Some (Scanner S0 stack)
    | x74 (* t *) => Some (Scanner ST stack)
    | x66 (* f *) => Some (Scanner SF stack)
    | x6e (* n *) => Some (Scanner SN stack)
    | _ => if isDigit c then Some (Scanner S1 stack) else None
    end.

Definition stateBeginString (stack : list parseState) (c : byte) : option scanner :=
  if isSpace c then Some (Scanner BeginString stack)
  else if bool_decide (c = x22) then Some (Scanner InString stack) else None.

Definition state0 (stack : list parseState) (c : byte) : option scanner :=
  match c with
  | x2e (* . *) => Some (Scanner Dot stack)
  | x65 | x45 (* e E *) => Some (Scanner SE stack)
  | _ => stateEndValue stack c
  end.

Definition stateESign (stack : list parseState) (c : byte) : option scanner :=
  if isDigit c then Some (Scanner E0 stack) else None.

(** One letter of a literal. *)
Definition expect (want : byte) (st : step) (stack : list parseState) (c : byte) : option scanner :=
  if bool_decide (c = want) then Some (Scanner st stack) else None.

(** [scan.step(scan, c)]; [None] is [scanError]. *)
Definition scan_step (s : scanner) (c : byte) : option scanner :=
  let '(Scanner st stack) := s in
  match st with
  | BeginValueOrEmpty =>
      if isSpace c then Some s
      else if bool_decide (c = x5d) then stateEndValue stack c
      else stateBeginValue stack c
  | BeginValue => stateBeginValue stack c
  | BeginStringOrEmpty =>
      if isSpace c then Some s
      else if bool_decide (c = x7d) then stateEndValue (parseObjectValue :: tail stack) c
      else stateBeginString stack c
  | BeginString => stateBeginString stack c
  | EndValue => stateEndValue stack c
  | EndTop => stateEndTop c
  | InString =>
      match c with
      | x22 => Some (Scanner EndValue stack)
      | x5c (* backslash *) => Some (Scanner InStringEsc stack)
      | _ => if b2z c <? 32 then None else Some s
      end
  | InStringEsc =>
      match c with
      | x62 | x66 | x6e | x72 | x74 | x5c | x2f | x22 (* b f n r t \ / quote *) =>
          Some (Scanner InString stack)
      | x75 (* u *) => Some (Scanner InStringEscU stack)
      | _ => None
      end
  | InStringEscU => if isHex c then Some (Scanner InStringEscU1 stack) else None
  | InStringEscU1 => if isHex c then Some (Scanner InStringEscU12 stack) else None
  | InStringEscU12 => if isHex c then Some (Scanner InStringEscU123 stack) else None
  | InStringEscU123 => if isHex c then Some (Scanner InString stack) else None
  | Neg =>
      if bool_decide (c = x30) then Some (Scanner S0 stack)
      else if isDigit c then Some (Scanner S1 stack) else None
  | S1 => if isDigit c then Some s else state0 stack c
  | S0 => state0 stack c
  | Dot => if isDigit c then Some (Scanner Dot0 stack) else None
  | Dot0 =>
      if isDigit c then Some s
      else match c with
           | x65 | x45 => Some (Scanner SE stack)
           | _ => stateEndValue stack c
           end
  | SE =>
      match c with
      | x2b | x2d (* + - *) => Some (Scanner ESign stack)
      | _ => stateESign stack c
      end
  | ESign => stateESign stack c
  | E0 => if isDigit c then Some s else stateEndValue stack c
  | ST => expect x72 STr stack c
  | STr => expect x75 STru stack c
  | STru => expect x65 EndValue stack c
  | SF => expect x61 SFa stack c
  | SFa => expect x6c SFal stack c
  | SFal => expect x73 SFals stack c
  | SFals => expect x65 EndValue stack c
  | SN => expect x75 SNu stack c
  | SNu => expect x6c SNul stack c
  | SNul => expect x6c EndValue stack c
  end.

Fixpoint scan_run (s : scanner) (data : bytes) : option scanner :=
  match data with
  | [] => Some s
  | c :: data => match scan_step s c with Some s' => scan_run s' data | None => None end
  end.

(** [scan.eof()]: the value may be ended by a space. *)
Definition scan_eof (s : scanner) : bool :=
  match scan_step s x20 with
  | Some s' => bool_decide (sc_step s' = EndTop)
  | None => false
  end.

Definition checkValid (data : bytes) : bool :=
  match scan_run (Scanner BeginValue []) data with
  | Some s => scan_eof s
  | None => false
  end.

(** ** The pieces of a valid text *)

Fixpoint skip_space (data : bytes) : bytes :=
  match data with
  | c :: rest => if isSpace c then skip_space rest else data
  | [] => []
  end.
Definition trim (data : bytes) : bytes := reverse (skip_space (reverse (skip_space data))).

(** The texts of the elements of an array, after its opening bracket.  [cur]
    is what has been read of the current element, [depth] the number of arrays
    and objects that are open in it, [str] and [esc] whether the next byte is in
    a string and escaped. *)
Fixpoint elements_from (cur : bytes) (depth : nat) (str esc : bool) (data : bytes) : list bytes :=
  match data with
  | [] => []
  | c :: data =>
      if str then
        elements_from (cur ++ [c]) depth
          (esc || negb (bool_decide (c = x22))) (negb esc && bool_decide (c = x5c)) data
      else
        match c, depth with
        | x5d, O => match cur with [] => [] | _ => [cur] end
        | x2c, O => cur :: elements_from [] 0 false false data
        | (x5b | x7b), _ => elements_from (cur ++ [c]) (S depth) false false data
        | (x5d | x7d), _ => elements_from (cur ++ [c]) (depth - 1) false false data
        | x22, _ => elements_from (cur ++ [c]) depth true false data
        | _, O => elements_from (if isSpace c then cur else cur ++ [c]) 0 false false data
        | _, _ => elements_from (cur ++ [c]) depth false false data
        end
  end.

(** The elements of an array; [None] for a value that is no array. *)
Definition array_elements (data : bytes) : option (list bytes) :=
  match skip_space data with
  | x5b :: data => Some (elements_from [] 0 false false data)
  | _ => None
  end.

(** ** Strings *)

(** [utf8.DecodeRune]: the rune and how many bytes it takes; a byte that starts
    no rune is one replacement character. *)
Definition RuneError : Z := 0xFFFD.

Definition cont (lo hi : Z) (c : byte) : bool := (lo <=? b2z c) && (b2z c <=? hi).
Definition low6 (c : byte) : Z := Z.land (b2z c) 0x3F.

Definition decodeRune (s : bytes) : Z * nat :=
  match s with
  | [] => (RuneError, 0%nat)
  | c0 :: s =>
      let x := b2z c0 in
      if x <? 0x80 then (x, 1%nat)
      else if (0xC2 <=? x) && (x <=? 0xDF) then
        match s with
        | c1 :: _ =>
            if cont 0x80 0xBF c1 then (Z.lor (Z.shiftl (Z.land x 0x1F) 6) (low6 c1), 2%nat)
            else (RuneError, 1%nat)
        | _ => (RuneError, 1%nat)
        end
      else if (0xE0 <=? x) && (x <=? 0xEF) then
        let lo := if x =? 0xE0 then 0xA0 else 0x80 in
        let hi := if x =? 0xED then 0x9F else 0xBF in
        match s with
        | c1 :: c2 :: _ =>
            if cont lo hi c1 && cont 0x80 0xBF c2 then
              (Z.lor (Z.lor (Z.shiftl (Z.land x 0x0F) 12) (Z.shiftl (low6 c1) 6)) (low6 c2), 3%nat)
            else (RuneError, 1%nat)
        | _ => (RuneError, 1%nat)
        end
      else if (0xF0 <=? x) && (x <=? 0xF4) then
        let lo := if x =? 0xF0 then 0x90 else 0x80 in
        let hi := if x =? 0xF4 then 0x8F else 0xBF in
        match s with
        | c1 :: c2 :: c3 :: _ =>
            if cont lo hi c1 && cont 0x80 0xBF c2 && cont 0x80 0xBF c3 then
              (Z.lor (Z.lor (Z.lor (Z.shiftl (Z.land x 0x07) 18) (Z.shiftl (low6 c1) 12))
                        (Z.shiftl (low6 c2) 6)) (low6 c3), 4%nat)
            else (RuneError, 1%nat)
        | _ => (RuneError, 1%nat)
        end
      else (RuneError, 1%nat)
  end.

(** [utf8.AppendRune]. *)
Definition encodeRune (r : Z) : bytes :=
  let tail6 n := z2b (Z.lor 0x80 (Z.land (Z.shiftr r n) 0x3F)) in
  if (0 <=? r) && (r <=? 0x7F) then [z2b r]
  else if (0 <=? r) && (r <=? 0x7FF) then [z2b (Z.lor 0xC0 (Z.shiftr r 6)); tail6 0]
  else if ((0 <=? r) && (r <? 0xD800)) || ((0xDFFF <? r) && (r <=? 0xFFFF)) then
    [z2b (Z.lor 0xE0 (Z.shiftr r 12)); tail6 6; tail6 0]
  else if (0xFFFF <? r) && (r <=? 0x10FFFF) then
    [z2b (Z.lor 0xF0 (Z.shiftr r 18)); tail6 12; tail6 6; tail6 0]
  else [xef; xbf; xbd].

(** The four digits of a [\uXXXX] escape, or -1. *)
Definition getu4 (s : bytes) : Z :=
  match s with
  | x5c :: x75 :: a :: b :: c :: d :: _ =>
      match fromHexChar a, fromHexChar b, fromHexChar c, fromHexChar d with
      | Some a, Some b, Some c, Some d => 4096 * a + 256 * b + 16 * c + d
      | _, _, _, _ => -1
      end
  | _ => -1
  end.

Definition isSurrogate (r : Z) : bool := (0xD800 <=? r) && (r <? 0xE000).
Definition utf16_decode (r1 r2 : Z) : Z :=
  if (0xD800 <=? r1) && (r1 <? 0xDC00) && (0xDC00 <=? r2) && (r2 <? 0xE000)
  then Z.lor (Z.shiftl (r1 - 0xD800) 10) (r2 - 0xDC00) + 0x10000
  else RuneError.

(** The byte that a one-letter escape stands for. *)
Definition escape (c : byte) : option byte :=
  match c with
  | x22 | x5c | x2f | x27 => Some c
  | x62 => Some x08 | x66 => Some x0c | x6e => Some x0a | x72 => Some x0d | x74 => Some x09
  | _ => None
  end.

(** The loop of [unquoteBytes]; every round takes a byte at least. *)
Fixpoint unquote_from (fuel : nat) (s : bytes) : option bytes :=
  match fuel, s with
  | _, [] => Some []
  | O, _ => None
  | S fuel, x5c :: rest =>
      match rest with
      | [] => None
      | x75 :: _ =>
          let rr := getu4 s in
          if rr <? 0 then None
          else if isSurrogate rr then
            let dec := utf16_decode rr (getu4 (drop 6 s)) in
            if dec =? RuneError then app (encodeRune RuneError) <$> unquote_from fuel (drop 6 s)
            else app (encodeRune dec) <$> unquote_from fuel (drop 12 s)
          else app (encodeRune rr) <$> unquote_from fuel (drop 6 s)
      | c :: rest => e ← escape c; cons e <$> unquote_from fuel rest
      end
  | S fuel, c :: rest =>
      if bool_decide (c = x22) || (b2z c <? 32) then None
      else if b2z c <? 0x80 then cons c <$> unquote_from fuel rest
      else
        let '(r, size) := decodeRune s in
        app (encodeRune r) <$> unquote_from fuel (drop size s)
  end.

(** [unquote] of a string literal, quotes included. *)
Definition unquote (lit : bytes) : option bytes :=
  match lit with
  | x22 :: s =>
      match reverse s with
      | x22 :: r => unquote_from (length s) (reverse r)
      | _ => None
      end
  | _ => None
  end.

(** ** Numbers *)

Definition digit_value (c : byte) : Z := b2z c - 48.

(** The digits of a decimal number; [None] for any other text. *)
Fixpoint parse_digits (acc : Z) (s : bytes) : option Z :=
  match s with
  | [] => Some acc
  | c :: s => if isDigit c then parse_digits (10 * acc + digit_value c) s else None
  end.

(** [strconv.ParseInt(s, 10, bits)]; [None] is an error of syntax or range. *)
Definition ParseInt (bits : Z) (s : bytes) : option Z :=
  let '(neg, digits) :=
    match s with x2b :: d => (false, d) | x2d :: d => (true, d) | _ => (false, s) end in
  match digits with
  | [] => None
  | _ =>
      n ← parse_digits 0 digits;
      if neg then (if n <=? 2 ^ (bits - 1) then Some (- n) else None)
      else (if n <? 2 ^ (bits - 1) then Some n else None)
  end.

(** ** Unmarshal *)

(** What decoding a value does to the variable: a value is stored, [null]
    keeps what is there, and a value of another type is an error. *)
Inductive decoded (A : Type) := Stored (a : A) | Kept | Mismatch.
Arguments Stored {A} a.
Arguments Kept {A}.
Arguments Mismatch {A}.

Definition is_null (v : bytes) : bool := bool_decide (v = str "null").

Definition decode_string (v : bytes) : decoded bytes :=
  if is_null v then Kept
  else match unquote v with Some s => Stored s | None => Mismatch end.

Definition decode_int (v : bytes) : decoded Z :=
  if is_null v then Kept
  else match v with
       | x2b :: _ => Mismatch
       | _ => match ParseInt 64 v with Some n => Stored n | None => Mismatch end
       end.

Definition decode_bool (v : bytes) : decoded bool :=
  if is_null v then Kept
  else if bool_decide (v = str "true") then Stored true
  else if bool_decide (v = str "false") then Stored false
  else Mismatch.

(** [json.RawMessage] takes the text of any value. *)
Definition decode_raw (v : bytes) : decoded bytes := Stored v.

Definition stored {A} (zero : A) (d : decoded A) : A :=
  match d with Stored a => a | _ => zero end.
Definition mismatch {A} (d : decoded A) : bool :=
  match d with Mismatch => true | _ => false end.

Definition SyntaxError : error := ErrMsg "json: syntax error".
Definition UnmarshalTypeError : error := ErrMsg "json: cannot unmarshal".

(** The error that is returned at the end of the decoding. *)
Definition type_error (bad : bool) : option error := if bad then Some UnmarshalTypeError else None.

(** [json.Unmarshal(data, &v)] of a variable with the value [zero]. *)
Definition Unmarshal {A} (dec : bytes → decoded A) (zero : A) (data : bytes) : A * option error :=
  if checkValid data then
    let d := dec (trim data) in (stored zero d, type_error (mismatch d))
  else (zero, Some SyntaxError).

(** [json.Unmarshal(data, &params)] of a nil slice. *)
Definition UnmarshalSlice {A} (dec : bytes → decoded A) (zero : A) (data : bytes)
    : list A * option error :=
  if checkValid data then
    match array_elements data with
    | Some vs => (stored zero ∘ dec <$> vs, type_error (existsb (mismatch ∘ dec) vs))
    | None => ([], type_error (negb (is_null (trim data))))
    end
  else ([], Some SyntaxError).

(** A variable behind a pointer in a slice of [any]: the element at its place is
    decoded into it, if there is one. *)
Definition pointer {A} (dec : bytes → decoded A) (zero : A) (v : option bytes) : A * bool :=
  match v with
  | Some v => (stored zero (dec v), mismatch (dec v))
  | None => (zero, false)
  end.

(** An element past the pointers is decoded into a new [any]; that fails when a
    number in it is too large for a float64. *)
Fixpoint numbers_from (cur : bytes) (str esc : bool) (data : bytes) : list bytes :=
  match data with
  | [] => match cur with [] => [] | _ => [cur] end
  | c :: data =>
      if str then
        numbers_from [] (esc || negb (bool_decide (c = x22))) (negb esc && bool_decide (c = x5c)) data
      else
        match cur with
        | [] =>
            if bool_decide (c = x22) then numbers_from [] true false data
            else if isDigit c || bool_decide (c = x2d) then numbers_from [c] false false data
            else numbers_from [] false false data
        | _ =>
            if isDigit c || bool_decide (c ∈ [x2e; x65; x45; x2b; x2d])
            then numbers_from (cur ++ [c]) false false data
            else cur :: numbers_from [] (bool_decide (c = x22)) false data
        end
  end.

(** The digits and the scale of a number: it is [m * 10 ^ e]. *)
Fixpoint number_exponent (neg : bool) (acc : Z) (s : bytes) : Z :=
  match s with
  | [] => if neg then - acc else acc
  | x2d :: s => number_exponent true acc s
  | c :: s => number_exponent neg (if isDigit c then 10 * acc + digit_value c else acc) s
  end.
Fixpoint number_value (m scale : Z) (frac : bool) (s : bytes) : Z * Z :=
  match s with
  | [] => (m, scale)
  | x2d :: s => number_value m scale frac s
  | x2e :: s => number_value m scale true s
  | (x65 | x45) :: s => (m, scale + number_exponent false 0 s)
  | c :: s => number_value (10 * m + digit_value c) (if frac then scale - 1 else scale) frac s
  end.

(** Half a unit past the largest float64 rounds to infinity. *)
Definition float_ok (lit : bytes) : bool :=
  let '(m, e) := number_value 0 0 false lit in
  if (m =? 0) || (e + length lit <? 0) then true
  else if 400 <? e then false
  else if 0 <=? e then m * 10 ^ e <? 2 ^ 1024 - 2 ^ 970
  else m <? (2 ^ 1024 - 2 ^ 970) * 10 ^ (- e).

Definition any_ok (v : bytes) : bool := forallb float_ok (numbers_from [] false false v).

(** [json.Unmarshal(data, &params)] of a slice of [n] pointers, before they are
    decoded into: the elements, and the error of the elements past them. *)
Definition pointer_elements (n : nat) (data : bytes) : outcome (list bytes * bool) :=
  if checkValid data then
    match array_elements data with
    | Some vs => Ok (vs, negb (forallb any_ok (drop n vs)))
    | None => if is_null (trim data) then Ok ([], false) else Err UnmarshalTypeError
    end
  else Err SyntaxError.

(** ** Writing *)

Definition quote (s : bytes) : bytes := [x22] ++ s ++ [x22].
Definition comma_separated (items : list bytes) : bytes :=
  match items with
  | [] => []
  | x :: items => x ++ (items ≫= λ y, x2c :: y)
  end.
Definition json_array (items : list bytes) : bytes := [x5b] ++ comma_separated items ++ [x5d].
Definition member (name : string) (value : bytes) : bytes := quote (str name) ++ [x3a] ++ value.
Definition json_object (members : list bytes) : bytes := [x7b] ++ comma_separated members ++ [x7d].
