(* ===== verification/JsonFacts.v ===== *)
(** * JsonFacts: what is written is valid and reads back

    Every text that the handlers build is a JSON value, and a list of values is
    taken apart again into the same values. *)

From S2P Require Import Prelude Bytes Json.
From Stdlib Require Import Strings.Byte.

(** ** The scanner on values *)

Lemma scan_run_app s a b :
  scan_run s (a ++ b) = s' ← scan_run s a; scan_run s' b.
Proof.
  revert s. induction a as [|c a IH]; intros s; [done|]. simpl.
  destruct (scan_step s c); [apply IH|done].
Qed.

(** What ends a value is no part of a number. *)
Definition ends_number (c : byte) : Prop :=
  isDigit c = false ∧ c ≠ x2e ∧ c ≠ x65 ∧ c ≠ x45.

Lemma stateEndValue_ends stack c s : stateEndValue stack c = Some s → ends_number c.
Proof.
  intros H. assert (isSpace c = true ∨ c = x3a ∨ c = x2c ∨ c = x7d ∨ c = x5d) as Hc.
  { destruct (isSpace c) eqn:E; [by left|right].
    destruct stack as [|[] stack]; cbn in H; unfold stateEndTop in H; rewrite E in H;
      try discriminate H; destruct c; try discriminate H; tauto. }
  destruct Hc as [Hc|[->|[->|[->| ->]]]]; try done.
  by destruct c.
Qed.

Lemma state0_ends stack c : ends_number c → state0 stack c = stateEndValue stack c.
Proof. intros (_ & H1 & H2 & H3). by destruct c. Qed.

(** From the state where a value may begin, the scanner passes the text and is
    where the value has ended; at most [d] arrays and objects are open in it. *)
Record value (d : nat) (v : bytes) : Prop := {
  value_run stack c s : length stack + d ≤ maxNestingDepth → stateEndValue stack c = Some s →
    scan_run (Scanner BeginValue stack) (v ++ [c]) = Some s;
  value_head : ∃ c v', v = c :: v' ∧ isSpace c = false ∧ c ≠ x5d;
}.

Lemma value_weaken (d d' : nat) v : (d ≤ d')%nat → value d v → value d' v.
Proof. intros Hd [H1 H2]. split; [|done]. intros stack c s Hl. apply H1. lia. Qed.

Lemma value_valid (d : nat) v : d ≤ maxNestingDepth → value d v → checkValid v = true.
Proof.
  intros Hd [H _]. specialize (H [] x20 (Scanner EndTop []) Hd eq_refl).
  rewrite scan_run_app in H. unfold checkValid.
  destruct (scan_run (Scanner BeginValue []) v) as [s|]; [|done]. simpl in H.
  unfold scan_eof. destruct (scan_step s x20); [|done]. by injection H as ->.
Qed.

(** Bytes that need no escape. *)
Definition plain (c : byte) : Prop := c ≠ x22 ∧ c ≠ x5c ∧ 32 ≤ b2z c < 128.

Lemma scan_plain stack s : Forall plain s → scan_run (Scanner InString stack) s = Some (Scanner InString stack).
Proof.
  induction 1 as [|c s (H1 & H2 & H3) Hs IH]; [done|]. cbn [scan_run scan_step].
  rewrite (proj2 (Z.ltb_ge (b2z c) 32)) by lia. by destruct c.
Qed.

Lemma value_quote s : Forall plain s → value 0 (quote s).
Proof.
  intros Hs. split; [|by do 2 eexists]. intros stack c t _ Hc. unfold quote.
  cbn [app scan_run scan_step stateBeginValue isSpace].
  rewrite <- (assoc_L (++)), scan_run_app, scan_plain by done. simpl. by rewrite Hc.
Qed.

Lemma hexDigit_plain n : 0 ≤ n < 16 → plain (hexDigit n).
Proof.
  intros Hn. pose proof (hexDigit_range n Hn) as Hr.
  assert (48 <= b2z (hexDigit n) < 58 ∨ 97 <= b2z (hexDigit n) < 103) as H by (destruct (Z.ltb_spec n 10); lia).
  assert (b2z x22 = 34 ∧ b2z x5c = 92) as [E1 E2] by done.
  split_and!; [intros E; rewrite E in H; lia|intros E; rewrite E in H; lia|lia|lia].
Qed.

Lemma hexEncode_plain bs : Forall plain (hexEncode bs).
Proof.
  unfold hexEncode. induction bs as [|b bs IH]; [constructor|]. rewrite bind_cons.
  pose proof (b2z_range b). apply Forall_app. split; [|done].
  apply Forall_cons; split; [|apply Forall_cons; split; [|constructor]]; apply hexDigit_plain.
  - split; [apply Z.div_pos|apply Z.div_lt_upper_bound]; lia.
  - apply Z.mod_pos_bound. lia.
Qed.

Lemma str_plain s : forallb (λ c, negb (bool_decide (c = x22)) && negb (bool_decide (c = x5c)) &&
  (32 <=? b2z c) && (b2z c <? 128)) (str s) = true → Forall plain (str s).
Proof.
  generalize (str s). intros l Hl. rewrite forallb_forall in Hl. apply Forall_forall. intros c Hc.
  rewrite list_elem_of_In in Hc. apply Hl in Hc.
  rewrite !andb_true_iff, !negb_true_iff, !bool_decide_eq_false, Z.leb_le, Z.ltb_lt in Hc.
  destruct Hc as [[[? ?] ?] ?]. by split_and!.
Qed.

(** ** Numbers *)

Definition digits (s : bytes) : Prop := Forall (λ c, isDigit c = true) s.

(** Decimal digits with no leading zero. *)
Definition natural (s : bytes) : Prop :=
  s = [x30] ∨ ∃ c s', s = c :: s' ∧ isDigit c = true ∧ c ≠ x30 ∧ digits s'.

Lemma scan_digits stack s c t :
  digits s → ends_number c → stateEndValue stack c = Some t →
  scan_run (Scanner S1 stack) (s ++ [c]) = Some t.
Proof.
  intros Hs He Hc. pose proof He as (Hd & _). induction Hs as [|x s Hx Hs IH]; cbn [app scan_run scan_step].
  - rewrite Hd. by rewrite state0_ends, Hc.
  - by rewrite Hx.
Qed.

Lemma value_natural s : natural s → value 0 s.
Proof.
  intros [->|(x & s' & -> & Hx & Hn & Hs)]; (split; [|by do 2 eexists; split_and!; [done|..]; try done; destruct x]).
  - intros stack c t _ Hc. pose proof (stateEndValue_ends _ _ _ Hc) as He.
    cbn [app scan_run scan_step stateBeginValue isSpace]. by rewrite state0_ends, Hc.
  - intros stack c t _ Hc. cbn [app scan_run scan_step].
    assert (stateBeginValue stack x = Some (Scanner S1 stack)) as ->.
    { unfold stateBeginValue. rewrite Hx. destruct x; done. }
    apply scan_digits; [done|by eapply stateEndValue_ends|done].
Qed.

Lemma value_negative s : natural s → value 0 (x2d :: s).
Proof.
  intros Hs. split; [|by do 2 eexists]. intros stack c t _ Hc.
  pose proof (stateEndValue_ends _ _ _ Hc) as He.
  cbn [app scan_run scan_step stateBeginValue isSpace].
  destruct Hs as [->|(x & s' & -> & Hx & Hn & Hs)]; cbn [app scan_run scan_step].
  - rewrite bool_decide_eq_true_2 by done. cbn [scan_run scan_step]. by rewrite state0_ends, Hc.
  - rewrite bool_decide_eq_false_2, Hx by done. by apply (scan_digits _ s').
Qed.

Lemma below_ten (P : N → Prop) : Forall P (N.of_nat <$> seq 0 10) → ∀ x, (x < 10)%N → P x.
Proof.
  rewrite Forall_forall. intros H x Hx. apply H, list_elem_of_fmap. exists (N.to_nat x).
  rewrite N2Nat.id, elem_of_seq. lia.
Qed.

(** The digits that [pretty] puts before what it has. *)
Lemma pretty_N_char_digit x : (x < 10)%N →
  let c := Ascii.byte_of_ascii (pretty_N_char x) in isDigit c = true ∧ digit_value c = Z.of_N x.
Proof.
  intros Hx. revert x Hx. apply below_ten. by repeat constructor.
Qed.

Lemma pretty_N_char_nonzero x : (0 < x < 10)%N → Ascii.byte_of_ascii (pretty_N_char x) ≠ x30.
Proof.
  intros [H0 Hx]. revert H0. pattern x. revert x Hx. apply below_ten.
  by repeat (apply Forall_cons; split).
Qed.

Lemma pretty_N_go_digits x s :
  digits (str s) → digits (str (pretty_N_go x s)) ∧
    parse_digits 0 (str (pretty_N_go x s)) = parse_digits (Z.of_N x) (str s).
Proof.
  revert s. induction (N.lt_wf_0 x) as [x _ IH]. intros s Hs.
  assert (x = 0 ∨ 0 < x)%N as [->|Hx] by lia; [by rewrite pretty_N_go_0|].
  rewrite pretty_N_go_step by done.
  destruct (pretty_N_char_digit (x `mod` 10)) as [Hd Hv]; [by apply N.mod_lt|].
  destruct (IH (x `div` 10)%N ltac:(by apply N.div_lt) (String (pretty_N_char (x `mod` 10)) s)) as [H1 H2].
  { by constructor. }
  split; [done|]. rewrite H2. change (str (String ?a ?l)) with (Ascii.byte_of_ascii a :: str l).
  cbn [parse_digits]. rewrite Hd, Hv. f_equal.
  pose proof (N.div_mod x 10 ltac:(done)) as E. lia.
Qed.

Lemma pretty_N_go_head x s : (0 < x)%N →
  ∃ c s', str (pretty_N_go x s) = c :: s' ∧ c ≠ x30.
Proof.
  revert s. induction (N.lt_wf_0 x) as [x _ IH]. intros s Hx. rewrite pretty_N_go_step by done.
  assert (x < 10 ∨ 0 < x `div` 10)%N as [H|H].
  { destruct (N.lt_ge_cases x 10); [by left|right]. apply N.div_str_pos. lia. }
  - rewrite N.div_small, pretty_N_go_0, N.mod_small by done. do 2 eexists. split; [done|].
    by apply pretty_N_char_nonzero.
  - apply IH; [by apply N.div_lt|done].
Qed.

Lemma pretty_N_natural (n : N) : natural (str (pretty n)) ∧ parse_digits 0 (str (pretty n)) = Some (Z.of_N n).
Proof.
  unfold pretty, pretty_N. case_decide as Hn; [subst n; split; [by left|done]|].
  destruct (pretty_N_go_digits n EmptyString) as [H1 H2]; [constructor|].
  destruct (pretty_N_go_head n EmptyString) as (c & s' & E & Hc); [lia|].
  split; [|done]. right. exists c, s'. rewrite E in H1. apply Forall_cons in H1 as [??]. by split_and!.
Qed.

Lemma decimal_cases z : ∃ ds, natural ds ∧ parse_digits 0 ds = Some (Z.abs z) ∧
  decimal z = if z <? 0 then x2d :: ds else ds.
Proof.
  destruct (pretty_N_natural (Z.abs_N z)) as [H1 H2]. exists (str (pretty (Z.abs_N z))).
  rewrite N2Z.inj_abs_N in H2. split_and!; [done|done|]. by destruct z.
Qed.

Lemma value_decimal z : value 0 (decimal z).
Proof.
  destruct (decimal_cases z) as (ds & H & _ & ->).
  destruct (z <? 0); [by apply value_negative|by apply value_natural].
Qed.

Lemma ParseInt_decimal bits z :
  - 2 ^ (bits - 1) ≤ z < 2 ^ (bits - 1) → ParseInt bits (decimal z) = Some z.
Proof.
  intros Hz. destruct (decimal_cases z) as (ds & Hn & Hp & ->). unfold ParseInt.
  destruct (Z.ltb_spec z 0).
  - assert (ds ≠ []) as Hne by (destruct Hn as [->|(c & s' & -> & _)]; done).
    destruct ds as [|c ds]; [done|]. rewrite Hp. cbn [mbind option_bind].
    rewrite (proj2 (Z.leb_le _ _)) by lia. f_equal. lia.
  - destruct Hn as [->|(c & s' & -> & Hc & _)].
    + injection Hp as Hp. cbn. rewrite (proj2 (Z.ltb_lt _ _)) by lia. f_equal. lia.
    + assert (c ≠ x2b ∧ c ≠ x2d) as [H1 H2] by (by split; intros ->).
      assert (match c :: s' with x2b :: d => (false, d) | x2d :: d => (true, d) | _ => (false, c :: s') end
        = (false, c :: s')) as -> by (by destruct c).
      rewrite Hp. cbn [mbind option_bind]. rewrite (proj2 (Z.ltb_lt _ _)) by lia. f_equal. lia.
Qed.

(** ** Arrays and objects *)

Lemma pop_run p stack c s : stateEndValue stack c = Some s → scan_run (pop (p :: stack)) [c] = Some s.
Proof. intros H. destruct stack as [|q stack]; cbn in *; by rewrite H. Qed.

Lemma value_then d v stack c s rest :
  value d v → length stack + d ≤ maxNestingDepth → stateEndValue stack c = Some s →
  scan_run (Scanner BeginValue stack) (v ++ c :: rest) = scan_run s rest.
Proof.
  intros [Hv _] Hd Hc. change (v ++ c :: rest) with (v ++ [c] ++ rest).
  by rewrite (assoc_L (++)), scan_run_app, (Hv _ _ _ Hd Hc).
Qed.

Lemma scan_elements d stack x xs rest :
  Forall (value d) (x :: xs) → length stack + S d ≤ maxNestingDepth →
  scan_run (Scanner BeginValue (parseArrayValue :: stack))
    (x ++ (xs ≫= λ y, x2c :: y) ++ x5d :: rest) = scan_run (pop (parseArrayValue :: stack)) rest.
Proof.
  revert x. induction xs as [|y xs IH]; intros x [Hx Hxs]%Forall_cons Hd.
  - by apply (value_then d); [|simpl; lia|].
  - rewrite bind_cons, <- (assoc_L (++)).
    change ((x2c :: y) ++ ?r) with (x2c :: (y ++ r)).
    rewrite (value_then d x _ x2c (Scanner BeginValue (parseArrayValue :: stack)) _ Hx);
      [|simpl; lia|done]. by apply IH.
Qed.

Lemma push_ok st p stack : S (length stack) ≤ maxNestingDepth → push st p stack = Some (Scanner st (p :: stack)).
Proof. intros H. unfold push. by rewrite (proj2 (Z.leb_le _ _)). Qed.

(** Where an element or the end of the array may come, an element may. *)
Lemma scan_first_element stack c s : isSpace c = false → c ≠ x5d →
  scan_run (Scanner BeginValueOrEmpty stack) (c :: s) = scan_run (Scanner BeginValue stack) (c :: s).
Proof. intros Hs Hc. cbn [scan_run scan_step]. by rewrite Hs, bool_decide_eq_false_2 by done. Qed.

Lemma value_array d items : Forall (value d) items → value (S d) (json_array items).
Proof.
  intros Hi. split; [|by do 2 eexists]. intros stack c s Hd Hc. unfold json_array.
  cbn [app scan_run scan_step stateBeginValue isSpace]. rewrite push_ok by lia.
  destruct items as [|x xs].
  - cbn [comma_separated app scan_run scan_step isSpace].
    rewrite bool_decide_eq_true_2 by done. change (stateEndValue (parseArrayValue :: stack) x5d) with
      (Some (pop (parseArrayValue :: stack))). by apply pop_run.
  - cbn [comma_separated]. rewrite <- !(assoc_L (++)).
    pose proof Hi as [Hx _]%Forall_cons. destruct (value_head _ _ Hx) as (k & x' & -> & Hk & Hk').
    cbn [app]. rewrite scan_first_element by done.
    change (k :: x' ++ ?r) with ((k :: x') ++ r). change ([x5d] ++ [c]) with (x5d :: [c]).
    rewrite (scan_elements d) by (simpl; (done || lia)). by apply pop_run.
Qed.

(** A member with its value, up to what ends it. *)
Lemma scan_member d name v stack st c s rest :
  Forall plain (str name) → value d v → length stack + S d ≤ maxNestingDepth →
  st = BeginString ∨ st = BeginStringOrEmpty →
  stateEndValue (parseObjectValue :: stack) c = Some s →
  scan_run (Scanner st (parseObjectKey :: stack)) (member name v ++ c :: rest) = scan_run s rest.
Proof.
  intros Hn Hv Hd Hst Hc. unfold member, quote. rewrite <- !(assoc_L (++)).
  destruct Hst as [->| ->]; cbn [app scan_run scan_step stateBeginString isSpace];
    rewrite ?bool_decide_eq_false_2, ?bool_decide_eq_true_2 by done; cbn [tail];
    rewrite scan_run_app, scan_plain by done; cbn [mbind option_bind scan_run scan_step stateEndValue isSpace];
    by apply (value_then d); [|simpl; lia|].
Qed.

Lemma scan_members d stack st n v ms rest :
  Forall plain (str n) → value d v →
  Forall (λ m : string * bytes, Forall plain (str m.1) ∧ value d m.2) ms →
  length stack + S d ≤ maxNestingDepth → st = BeginString ∨ st = BeginStringOrEmpty →
  scan_run (Scanner st (parseObjectKey :: stack))
    (member n v ++ (ms ≫= λ m, x2c :: member m.1 m.2) ++ x7d :: rest)
    = scan_run (pop (parseObjectValue :: stack)) rest.
Proof.
  intros Hn Hv Hms Hd Hst. revert n v st Hn Hv Hst.
  induction Hms as [|[n' v'] ms [Hn' Hv'] Hms IH]; intros n v st Hn Hv Hst.
  - by apply (scan_member d).
  - rewrite bind_cons, <- (assoc_L (++)). cbn [app fst snd].
    rewrite (scan_member d _ _ _ _ x2c (Scanner BeginString (parseObjectKey :: stack))) by done.
    apply IH; [done|done|by left].
Qed.

Lemma value_object d (ms : list (string * bytes)) :
  ms ≠ [] → Forall (λ m : string * bytes, Forall plain (str m.1) ∧ value d m.2) ms →
  value (S d) (json_object ((λ m, member m.1 m.2) <$> ms)).
Proof.
  intros Hne Hms. destruct Hms as [|[n v] ms [Hn Hv] Hms]; [done|].
  split; [|by do 2 eexists]. intros stack c s Hd Hc. unfold json_object.
  cbn [app scan_run scan_step stateBeginValue isSpace fmap list_fmap comma_separated fst snd].
  rewrite push_ok by lia. rewrite <- !(assoc_L (++)).
  assert ((((λ m : string * bytes, member m.1 m.2) <$> ms) ≫= λ y, x2c :: y)
    = (ms ≫= λ m, x2c :: member m.1 m.2)) as ->.
  { clear. induction ms as [|m ms IH]; [done|]. rewrite fmap_cons, !bind_cons. by rewrite IH. }
  change ([x7d] ++ [c]) with (x7d :: [c]).
  rewrite (scan_members d) by (done || lia || by right). by apply pop_run.
Qed.

(** ** Lists of strings and numbers, read back *)

(** A scalar: a value that is one element of the array it is in. *)
Record scalar (x : bytes) : Prop := {
  scalar_value : value 0 x;
  scalar_element rest : elements_from [] 0 false false (x ++ rest) = elements_from x 0 false false rest;
  scalar_trim : trim x = x;
}.

Lemma skip_space_head c s : isSpace c = false → skip_space (c :: s) = c :: s.
Proof. intros H. cbn [skip_space]. by rewrite H. Qed.

Lemma trim_ends x c s c' s' :
  x = c :: s → x = s' ++ [c'] → isSpace c = false → isSpace c' = false → trim x = x.
Proof.
  intros E E' Hc Hc'. unfold trim. rewrite E, skip_space_head, <- E, E', reverse_snoc by done.
  by rewrite skip_space_head, <- reverse_snoc, reverse_involutive.
Qed.

Lemma elements_plain cur s rest :
  Forall plain s → elements_from cur 0 true false (s ++ rest) = elements_from (cur ++ s) 0 true false rest.
Proof.
  intros Hs. revert cur. induction Hs as [|c s (H1 & H2 & _) Hs IH]; intros cur.
  - by rewrite app_nil_r.
  - cbn [app elements_from]. rewrite !bool_decide_eq_false_2 by done. cbn [orb andb negb].
    by rewrite IH, <- (assoc_L (++)).
Qed.

Lemma scalar_quote s : Forall plain s → scalar (quote s).
Proof.
  intros Hs. split; [by apply value_quote| |by apply (trim_ends _ x22 (s ++ [x22]) x22 (x22 :: s))].
  intros rest. unfold quote. cbn [app elements_from]. rewrite <- (assoc_L (++)), elements_plain by done.
  cbn [app elements_from]. by rewrite bool_decide_eq_true_2.
Qed.

Lemma elements_step cur c rest :
  isDigit c = true ∨ c = x2d →
  elements_from cur 0 false false (c :: rest) = elements_from (cur ++ [c]) 0 false false rest.
Proof. intros [Hc| ->]; [by destruct c|done]. Qed.

Lemma elements_digits cur s rest :
  digits s → elements_from cur 0 false false (s ++ rest) = elements_from (cur ++ s) 0 false false rest.
Proof.
  intros Hs. revert cur. induction Hs as [|c s Hc Hs IH]; intros cur; [by rewrite app_nil_r|].
  cbn [app]. by rewrite elements_step, IH, <- (assoc_L (++)) by (by left).
Qed.

Lemma natural_digits s : natural s → digits s ∧ s ≠ [].
Proof. intros [->|(c & s' & -> & Hc & _ & Hs)]; (split; [|done]); by repeat constructor. Qed.

Lemma digits_no_space c : isDigit c = true → isSpace c = false.
Proof. by destruct c. Qed.

Lemma scalar_decimal z : scalar (decimal z).
Proof.
  split; [apply value_decimal| |];
    destruct (decimal_cases z) as (ds & [Hd Hne]%natural_digits & _ & ->).
  - intros rest. destruct (z <? 0); [|by apply elements_digits].
    cbn [app]. rewrite elements_step by (by right). by apply elements_digits.
  - destruct ds as [|c ds]; [done|]. pose proof (exists_last Hne) as (s' & c' & E).
    assert (isSpace c' = false) as Hc'.
    { apply digits_no_space. rewrite E in Hd. apply Forall_app in Hd as [_ [? _]%Forall_cons]. done. }
    apply Forall_cons in Hd as [Hc _]. apply digits_no_space in Hc.
    destruct (z <? 0); [eapply (trim_ends _ x2d _ c' (x2d :: s'))|eapply (trim_ends _ c _ c' s')];
      rewrite ?E; done.
Qed.

Lemma elements_scalars xs :
  Forall scalar xs → elements_from [] 0 false false (comma_separated xs ++ [x5d]) = xs.
Proof.
  intros Hxs. destruct Hxs as [|x xs Hx Hxs]; [done|]. cbn [comma_separated].
  revert x Hx. induction Hxs as [|y xs Hy Hxs IH]; intros x Hx; rewrite <- (assoc_L (++)), scalar_element by done.
  - destruct (value_head _ _ (scalar_value _ Hx)) as (c & x' & -> & _). done.
  - rewrite bind_cons, <- (assoc_L (++)). cbn [app elements_from]. f_equal.
    rewrite (assoc_L (++)). by apply IH.
Qed.

Lemma array_elements_array xs : Forall scalar xs → array_elements (json_array xs) = Some xs.
Proof.
  intros Hxs. unfold array_elements, json_array. cbn [app skip_space isSpace].
  by rewrite elements_scalars.
Qed.

Lemma array_valid xs : Forall scalar xs → checkValid (json_array xs) = true.
Proof.
  intros Hxs. apply (value_valid 1); [done|]. apply value_array.
  eapply Forall_impl; [done|]. by intros x [? _ _].
Qed.

(** The parameters of a request, decoded. *)
Lemma UnmarshalSlice_array {A} (dec : bytes → decoded A) zero xs :
  Forall scalar xs → existsb (mismatch ∘ dec) xs = false →
  UnmarshalSlice dec zero (json_array xs) = (stored zero ∘ dec <$> xs, None).
Proof.
  intros Hxs Hd. unfold UnmarshalSlice. by rewrite array_valid, array_elements_array, Hd.
Qed.

(** One value, decoded. *)
Lemma Unmarshal_scalar {A} (dec : bytes → decoded A) zero x :
  scalar x → Unmarshal dec zero x = (stored zero (dec x), type_error (mismatch (dec x))).
Proof.
  intros [Hv _ Ht]. unfold Unmarshal. by rewrite (value_valid 0), Ht.
Qed.

Lemma unquote_plain fuel s : Forall plain s → (length s ≤ fuel)%nat → unquote_from fuel s = Some s.
Proof.
  intros Hs. revert fuel. induction Hs as [|c s (H1 & H2 & H3) Hs IH]; intros [|fuel] Hf;
    [done|done|simpl in Hf; lia|]. cbn [unquote_from].
  assert (∀ a b : option bytes, match c with x5c => a | _ => b end = b) as -> by (by destruct c).
  rewrite bool_decide_eq_false_2 by done.
  rewrite (proj2 (Z.ltb_ge _ _)), (proj2 (Z.ltb_lt _ _)) by lia. cbn [orb].
  rewrite IH by (simpl in Hf; lia). done.
Qed.

Lemma decode_quote s : Forall plain s → decode_string (quote s) = Stored s.
Proof.
  intros Hs. unfold decode_string, is_null. rewrite bool_decide_eq_false_2 by done.
  unfold unquote, quote. cbn [app]. rewrite reverse_snoc, reverse_involutive, unquote_plain; [done|done|].
  rewrite length_app. simpl. lia.
Qed.

Lemma decode_decimal z : - 2 ^ 63 ≤ z < 2 ^ 63 → decode_int (decimal z) = Stored z.
Proof.
  intros Hz. unfold decode_int. pose proof (ParseInt_decimal 64 z Hz) as HP.
  destruct (decimal_cases z) as (ds & Hn & _ & E). rewrite E in *.
  assert (∃ c s, (if z <? 0 then x2d :: ds else ds) = c :: s ∧ (isDigit c = true ∨ c = x2d)) as (c & s & E' & Hc).
  { destruct (z <? 0); [by eauto|]. apply natural_digits in Hn as [Hd Hne].
    destruct ds as [|c ds]; [done|]. apply Forall_cons in Hd as [? _]. by eauto. }
  rewrite E' in *. unfold is_null. rewrite bool_decide_eq_false_2.
  - assert (∀ a b : decoded Z, match c with x2b => a | _ => b end = b) as -> by (by destruct Hc as [?| ->]; [destruct c|]).
    by rewrite HP.
  - intros [= -> _]. by destruct Hc.
Qed.
