(* ===== verification/ScriptPubkey.v ===== *)
(** * ScriptPubkey: the output scripts of a wallet

    Models [vendor/ncody.com/ncgo.git/bitcoin/scriptpubkey/scriptpubkey.go],
    which the wallet manager calls to derive its scripts.  The key derivation
    of [bip32] (elliptic curve arithmetic of a third-party package) and
    [hash160] (SHA-256 then the RIPEMD-160 of a third-party package) are the
    operations of the class [Bip32]. *)

From S2P Require Import Prelude Bytes Sha256.

(** ** What the scripts rest on *)

Record ExtendedKey := {
  Version : bytes;     (* [4]byte *)
  Depth : byte;
  Fingerprint : bytes; (* [4]byte *)
  ChildNum : bytes;    (* [4]byte *)
  Chaincode : bytes;   (* [32]byte *)
  Key : bytes;         (* [33]byte *)
}.

Class Bip32 := {
  DeriveXpub : ExtendedKey → list Z → outcome ExtendedKey;
  XpubFromXprv : ExtendedKey → outcome ExtendedKey;
  hash160 : bytes → bytes;
}.

(** ** Kinds *)

Inductive Kind :=
  | SK_NONE | SK_P2PK | SK_P2PKH | SK_P2MS | SK_P2SH_MULTISIG
  | SK_P2SH_WPKH | SK_P2WPKH | SK_P2WSH_MULTISIG.

#[export] Instance Kind_eq_decision : EqDecision Kind.
Proof. solve_decision. Defined.

(** The [iota] value of a kind. *)
Definition kind_byte (k : Kind) : Z :=
  match k with
  | SK_NONE => 0 | SK_P2PK => 1 | SK_P2PKH => 2 | SK_P2MS => 3
  | SK_P2SH_MULTISIG => 4 | SK_P2SH_WPKH => 5 | SK_P2WPKH => 6 | SK_P2WSH_MULTISIG => 7
  end.

(** ** Opcodes of [script.go] that the scripts use *)

Definition OP_0 : Z := 0x00.
Definition OP_PUSHBYTES_1 : Z := 0x01.
Definition OP_PUSHBYTES_20 : Z := 0x14.
Definition OP_PUSHBYTES_32 : Z := 0x20.
Definition OP_1 : Z := 0x51.
Definition OP_DUP : Z := 0x76.
Definition OP_EQUAL : Z := 0x87.
Definition OP_EQUALVERIFY : Z := 0x88.
Definition OP_HASH160 : Z := 0xA9.
Definition OP_CHECKSIG : Z := 0xAC.
Definition OP_CHECKMULTISIG : Z := 0xAE.

(** [bytes.Compare(a, b) <= 0]. *)
Fixpoint bytes_leb (a b : bytes) : bool :=
  match a, b with
  | [], _ => true
  | _ :: _, [] => false
  | x :: a, y :: b => if b2z x =? b2z y then bytes_leb a b else b2z x <? b2z y
  end.
Definition bytes_le (a b : bytes) : Prop := Is_true (bytes_leb a b).
#[export] Instance bytes_le_dec : RelDecision bytes_le.
Proof. intros a b. unfold bytes_le. apply _. Defined.

Definition bytesSorted (slicesData : list bytes) : list bytes := merge_sort bytes_le slicesData.

Section scripts.
Context `{Bip32}.

Definition pubkey_length_ok (klen : nat) : bool := bool_decide (klen = 33 ∨ klen = 65)%nat.

Definition p2pk (pubkey : bytes) : outcome bytes :=
  let klen := length pubkey in
  if negb (pubkey_length_ok klen) then Err (ErrMsg "bad pubkey length")
  else Ok ([z2b (OP_PUSHBYTES_1 - 1 + klen)] ++ pubkey ++ [z2b OP_CHECKSIG]).

(** The scripts below fill an array at fixed offsets with a hash of 20
    bytes. *)
Definition p2pkh (pubkey : bytes) : outcome bytes :=
  if negb (pubkey_length_ok (length pubkey)) then Err (ErrMsg "bad pubkey length")
  else Ok ([z2b OP_DUP; z2b OP_HASH160; z2b OP_PUSHBYTES_20]
           ++ copy_into (zeroes 20) (hash160 pubkey) ++ [z2b OP_EQUALVERIFY; z2b OP_CHECKSIG]).

(** The checks that open the three multisig functions; the length of the
    keys on success. *)
Definition multisig_checks (reqsigs : Z) (pubkeys : list bytes) : outcome nat :=
  let klen := match pubkeys with k :: _ => length k | [] => 0%nat end in
  let nkeys := length pubkeys in
  if negb (forallb (λ k : bytes, bool_decide (length k = klen)) pubkeys)
  then Err (ErrMsg "all pubkeys must have the same length")
  else if negb (pubkey_length_ok klen) then Err (ErrMsg "bad pubkey length")
  else if 16 <? nkeys then Err (ErrMsg "max n multisig keys is 16")
  else if nkeys <? reqsigs then Err (ErrMsg "required signatures > n pubkeys")
  else if reqsigs <? 1 then Err (ErrMsg "required signatures < 1")
  else Ok klen.

Definition multisig_script (reqsigs : Z) (klen : nat) (pubkeys : list bytes) : bytes :=
  [z2b (OP_1 - 1 + reqsigs)]
    ++ (pubkeys ≫= λ k, z2b (OP_PUSHBYTES_1 - 1 + klen) :: k)
    ++ [z2b (OP_1 - 1 + length pubkeys); z2b OP_CHECKMULTISIG].

Definition p2ms (reqsigs : Z) (pubkeys : list bytes) : outcome bytes :=
  klen ← multisig_checks reqsigs pubkeys;
  Ok (multisig_script reqsigs klen pubkeys).

Definition p2shMultisig (reqsigs : Z) (pubkeys : list bytes) : outcome bytes :=
  klen ← multisig_checks reqsigs pubkeys;
  Ok ([z2b OP_HASH160; z2b OP_PUSHBYTES_20]
      ++ copy_into (zeroes 20) (hash160 (multisig_script reqsigs klen pubkeys)) ++ [z2b OP_EQUAL]).

Definition p2shWpkh (pubkey : bytes) : outcome bytes :=
  if negb (pubkey_length_ok (length pubkey)) then Err (ErrMsg "bad pubkey length")
  else
    let scriptData := [z2b OP_0; z2b OP_PUSHBYTES_20] ++ copy_into (zeroes 20) (hash160 pubkey) in
    Ok ([z2b OP_HASH160; z2b OP_PUSHBYTES_20]
        ++ copy_into (zeroes 20) (hash160 scriptData) ++ [z2b OP_EQUAL]).

Definition p2wpkh (pubkey : bytes) : outcome bytes :=
  if negb (pubkey_length_ok (length pubkey)) then Err (ErrMsg "bad pubkey length")
  else Ok ([z2b OP_0; z2b OP_PUSHBYTES_20] ++ copy_into (zeroes 20) (hash160 pubkey)).

Definition p2wshMulti (reqsigs : Z) (pubkeys : list bytes) : outcome bytes :=
  klen ← multisig_checks reqsigs pubkeys;
  Ok ([z2b OP_0; z2b OP_PUSHBYTES_32]
      ++ copy_into (zeroes 32) (Sha256.Sum256 (multisig_script reqsigs klen pubkeys))).

Definition Make (scriptKind : Kind) (reqsigs : Z) (pubkeys : list bytes) : outcome bytes :=
  match scriptKind with
  | SK_P2PK => pubkey ← index pubkeys 0; p2pk pubkey
  | SK_P2PKH => pubkey ← index pubkeys 0; p2pkh pubkey
  | SK_P2MS => p2ms reqsigs (bytesSorted pubkeys)
  | SK_P2SH_MULTISIG => p2shMultisig reqsigs (bytesSorted pubkeys)
  | SK_P2SH_WPKH => pubkey ← index pubkeys 0; p2shWpkh pubkey
  | SK_P2WPKH => pubkey ← index pubkeys 0; p2wpkh pubkey
  | SK_P2WSH_MULTISIG => p2wshMulti reqsigs (bytesSorted pubkeys)
  | SK_NONE => Err (ErrMsg "bad scriptKind")
  end.

(** A private key, which starts with a zero byte, is turned into its public
    key first. *)
Definition basePubKey (k : ExtendedKey) : outcome ExtendedKey :=
  b ← index (Key k) 0;
  if bool_decide (b = z2b 0) then XpubFromXprv k else Ok k.

(** The script at one index: every base key derived to the index. *)
Definition make_at (scriptKind : Kind) (reqsigs : Z) (basePubKeys : list ExtendedKey)
    (idx : Z) : outcome bytes :=
  pubkeys ← mapM (λ k, extPubkey ← DeriveXpub k [idx]; Ok (Key extPubkey)) basePubKeys;
  Make scriptKind reqsigs pubkeys.

Definition MakeMulti (scriptKind : Kind) (reqsigs offset count : Z)
    (baseKeys : list ExtendedKey) : outcome (list bytes) :=
  basePubKeys ← mapM basePubKey baseKeys;
  mapM (λ i, make_at scriptKind reqsigs basePubKeys (uint32_wrap (i + offset))) (seqZ 0 count).
End scripts.

(** ** Properties of the definitions *)

Lemma bytes_leb_refl a : bytes_leb a a = true.
Proof. induction a as [|x a IH]; [done|]. simpl. by rewrite Z.eqb_refl. Qed.

Lemma bytes_leb_antisymm a b : bytes_leb a b = true → bytes_leb b a = true → a = b.
Proof.
  revert b. induction a as [|x a IH]; intros [|y b] Hab Hba; try done. simpl in *.
  destruct (Z.eqb_spec (b2z x) (b2z y)) as [E|E].
  - apply (inj b2z) in E as ->. rewrite Z.eqb_refl in Hba. f_equal. by apply IH.
  - rewrite (proj2 (Z.eqb_neq (b2z y) (b2z x))) in Hba by done. lia.
Qed.

#[export] Instance bytes_le_total : Total bytes_le.
Proof.
  intros a b. unfold bytes_le. revert b. induction a as [|x a IH]; intros b; [by left|].
  destruct b as [|y b]; [by right|]. simpl.
  destruct (Z.eqb_spec (b2z x) (b2z y)) as [E|E].
  - rewrite E, Z.eqb_refl. apply IH.
  - rewrite (proj2 (Z.eqb_neq (b2z y) (b2z x))) by done.
    destruct (Z.ltb_spec (b2z x) (b2z y)); [by left|right].
    rewrite (proj2 (Z.ltb_lt _ _)) by lia. done.
Qed.

#[export] Instance bytes_le_trans : Transitive bytes_le.
Proof.
  intros a b c. unfold bytes_le. revert b c.
  induction a as [|x a IH]; intros [|y b] [|z c] Hab Hbc; try done. simpl in *.
  destruct (Z.eqb_spec (b2z x) (b2z y)), (Z.eqb_spec (b2z y) (b2z z)),
    (Z.eqb_spec (b2z x) (b2z z)); try (by eauto); try lia; apply Is_true_true in Hab, Hbc;
    apply Is_true_true; lia.
Qed.

#[export] Instance bytes_le_antisymm : AntiSymm (=) bytes_le.
Proof. intros a b Ha Hb. apply Is_true_true in Ha, Hb. by apply bytes_leb_antisymm. Qed.

(** Sorting forgets the order the keys were given in. *)
Lemma bytesSorted_perm l k : l ≡ₚ k → bytesSorted l = bytesSorted k.
Proof.
  intros Hp. apply (Sorted_unique bytes_le); [apply Sorted_merge_sort, _..|].
  unfold bytesSorted. by rewrite !merge_sort_Permutation.
Qed.
