(* ===== verification/Database.v ===== *)
(** * Database: the SQLite tables and the statements run on them

    The tables of [src/migrations/*.sql] and the SQL of
    [src/walletmanager/repository.go].  A table with a primary key is a finite
    map from the key to the other columns; [scriptpubkey_tx], which is only
    inserted into where the row does not exist, is a set of rows.  A statement
    fails when it violates a primary key; failures of the disk are not
    modelled.  [ORDER BY] is a sort of the rows of the table, whose own order
    SQL leaves open; [LIMIT] with a negative number is no limit. *)

From S2P Require Import Prelude Bytes.

(** ** Tables *)

Record walletRow := {
  wr_height : Z;
  wr_next_receive_index : Z;
  wr_next_change_index : Z;
}.

Record headerRow := {
  bh_height : Z;
  bh_serialized : bytes;
}.

Record utxoRow := {
  uo_satoshi : Z;
  uo_scriptpubkey_hash : bytes;
}.

Record stxoRow := {
  so_satoshi : Z;
  so_scriptpubkey_hash : bytes;
  so_spent_height : Z;
}.

Record txRow := {
  tr_blockhash : bytes;
  tr_pos : Z;
  tr_serialized : bytes;
  tr_merkle_proof : bytes;
}.

Record Database := {
  t_wallet : gmap bytes walletRow;
  t_blockheader : gmap bytes headerRow;
  t_unspent_output : gmap bytes utxoRow;
  t_spent_output : gmap bytes stxoRow;
  t_tx : gmap bytes txRow;
  t_scriptpubkey_tx : gset (bytes * bytes);
}.

(** The tables as the migrations create them. *)
Definition emptyDatabase : Database := {|
  t_wallet := ∅; t_blockheader := ∅; t_unspent_output := ∅;
  t_spent_output := ∅; t_tx := ∅; t_scriptpubkey_tx := ∅ |}.

Definition upd_wallet f (db : Database) : Database := {|
  t_wallet := f (t_wallet db); t_blockheader := t_blockheader db;
  t_unspent_output := t_unspent_output db; t_spent_output := t_spent_output db;
  t_tx := t_tx db; t_scriptpubkey_tx := t_scriptpubkey_tx db |}.
Definition upd_blockheader f (db : Database) : Database := {|
  t_wallet := t_wallet db; t_blockheader := f (t_blockheader db);
  t_unspent_output := t_unspent_output db; t_spent_output := t_spent_output db;
  t_tx := t_tx db; t_scriptpubkey_tx := t_scriptpubkey_tx db |}.
Definition upd_unspent_output f (db : Database) : Database := {|
  t_wallet := t_wallet db; t_blockheader := t_blockheader db;
  t_unspent_output := f (t_unspent_output db); t_spent_output := t_spent_output db;
  t_tx := t_tx db; t_scriptpubkey_tx := t_scriptpubkey_tx db |}.
Definition upd_spent_output f (db : Database) : Database := {|
  t_wallet := t_wallet db; t_blockheader := t_blockheader db;
  t_unspent_output := t_unspent_output db; t_spent_output := f (t_spent_output db);
  t_tx := t_tx db; t_scriptpubkey_tx := t_scriptpubkey_tx db |}.
Definition upd_tx f (db : Database) : Database := {|
  t_wallet := t_wallet db; t_blockheader := t_blockheader db;
  t_unspent_output := t_unspent_output db; t_spent_output := t_spent_output db;
  t_tx := f (t_tx db); t_scriptpubkey_tx := t_scriptpubkey_tx db |}.
Definition upd_scriptpubkey_tx f (db : Database) : Database := {|
  t_wallet := t_wallet db; t_blockheader := t_blockheader db;
  t_unspent_output := t_unspent_output db; t_spent_output := t_spent_output db;
  t_tx := t_tx db; t_scriptpubkey_tx := f (t_scriptpubkey_tx db) |}.

Lemma database_eq db1 db2 :
  t_wallet db1 = t_wallet db2 → t_blockheader db1 = t_blockheader db2 →
  t_unspent_output db1 = t_unspent_output db2 → t_spent_output db1 = t_spent_output db2 →
  t_tx db1 = t_tx db2 → t_scriptpubkey_tx db1 = t_scriptpubkey_tx db2 → db1 = db2.
Proof. destruct db1, db2. simpl. congruence. Qed.

(** ** Clauses *)

(** [ORDER BY key ASC]. *)
Definition key_le {A} (key : A → Z) (r s : A) : Prop := key r ≤ key s.
#[export] Instance key_le_dec {A} (key : A → Z) : RelDecision (key_le key).
Proof. intros r s. unfold key_le. solve_decision. Defined.
Definition order_by {A} (key : A → Z) (rows : list A) : list A :=
  merge_sort (key_le key) rows.

(** [ORDER BY k1, k2 ASC]. *)
Definition lex_le (p q : Z * Z) : Prop := p.1 < q.1 ∨ p.1 = q.1 ∧ p.2 ≤ q.2.
#[export] Instance lex_le_dec : RelDecision lex_le.
Proof. intros p q. unfold lex_le. solve_decision. Defined.
Definition key2_le {A} (key : A → Z * Z) (r s : A) : Prop := lex_le (key r) (key s).
#[export] Instance key2_le_dec {A} (key : A → Z * Z) : RelDecision (key2_le key).
Proof. intros r s. unfold key2_le. apply _. Defined.
Definition order_by2 {A} (key : A → Z * Z) (rows : list A) : list A :=
  merge_sort (key2_le key) rows.

(** [LIMIT n]. *)
Definition sql_limit {A} (n : Z) (rows : list A) : list A :=
  if n <? 0 then rows else take (Z.to_nat n) rows.

(** [bufWrapper.Scan] into an array of [n] bytes. *)
Definition scan_blob (n : nat) (data : bytes) : outcome bytes :=
  if bool_decide (length data = n) then Ok data
  else Err (ErrMsg "bufWrapper: len of src != len dest").

Section order_facts.
Context {A : Type}.
Implicit Types rows : list A.

#[local] Instance key_le_trans (key : A → Z) : Transitive (key_le key).
Proof. intros ???. unfold key_le. lia. Qed.
#[local] Instance key_le_total (key : A → Z) : Total (key_le key).
Proof. intros ??. unfold key_le. lia. Qed.
#[local] Instance lex_key_trans (key : A → Z * Z) : Transitive (key2_le key).
Proof. intros ???. unfold key2_le, lex_le. lia. Qed.
#[local] Instance lex_key_total (key : A → Z * Z) : Total (key2_le key).
Proof. intros ??. unfold key2_le, lex_le. lia. Qed.

Lemma order_by_perm key rows : order_by key rows ≡ₚ rows.
Proof. apply merge_sort_Permutation. Qed.
Lemma order_by_sorted key rows : StronglySorted (key_le key) (order_by key rows).
Proof. apply Sorted_StronglySorted; [apply _|]. apply Sorted_merge_sort, _. Qed.
Lemma order_by2_perm key rows : order_by2 key rows ≡ₚ rows.
Proof. apply merge_sort_Permutation. Qed.
Lemma order_by2_sorted key rows :
  StronglySorted (key2_le key) (order_by2 key rows).
Proof. apply Sorted_StronglySorted; [apply _|]. apply Sorted_merge_sort, _. Qed.

Lemma elem_of_order_by key rows r : r ∈ order_by key rows ↔ r ∈ rows.
Proof. by rewrite order_by_perm. Qed.
Lemma elem_of_order_by2 key rows r : r ∈ order_by2 key rows ↔ r ∈ rows.
Proof. by rewrite order_by2_perm. Qed.

(** Sorted lists with the same rows and keys that tell the rows apart are
    equal: the order of such a query is determined. *)
Lemma sorted_unique (R : A → A → Prop) l1 l2 :
  (∀ x y, x ∈ l1 → y ∈ l1 → R x y → R y x → x = y) →
  StronglySorted R l1 → StronglySorted R l2 → l1 ≡ₚ l2 → l1 = l2.
Proof.
  intros HR Hs1. revert l2 HR. induction Hs1 as [|x l1 Hs1 IH Hx]; intros l2 HR Hs2 Hp.
  - by apply Permutation_nil_l in Hp.
  - destruct Hs2 as [|y l2 Hs2 Hy]; [by apply Permutation_nil_r in Hp|].
    rewrite Forall_forall in Hx, Hy.
    assert (x = y) as ->.
    { assert (y ∈ x :: l1) as Hy1 by (rewrite Hp; apply list_elem_of_here).
      assert (x ∈ y :: l2) as Hx2 by (rewrite <- Hp; apply list_elem_of_here).
      apply elem_of_cons in Hy1 as [->|Hy1]; [done|].
      apply elem_of_cons in Hx2 as [->|Hx2]; [done|].
      apply HR; [apply list_elem_of_here|by apply list_elem_of_further| |]; auto. }
    f_equal. apply IH; [|done|by apply Permutation_cons_inv in Hp].
    intros u v Hu Hv. apply HR; by apply list_elem_of_further.
Qed.
End order_facts.

Lemma sql_limit_length {A} n (rows : list A) :
  0 ≤ n → (length (sql_limit n rows) ≤ Z.to_nat n)%nat.
Proof. intros. unfold sql_limit. rewrite (proj2 (Z.ltb_ge _ _)) by done. rewrite length_take. lia. Qed.
