(* ===== verification/Repository.v ===== *)
(** * Repository: the data access of the wallet manager

    Models [src/walletmanager/repository.go]: the statements it runs on the
    tables of [Database], and the in-memory index of unspent outputs that it
    keeps beside them.  The [db sql.Database] argument of a method is the
    database of the state; [sql.Execute] (in [Sync]) is what gives a method the
    handle of a transaction. *)

From S2P Require Import Prelude Bytes Database.

(** ** State *)

Record utxoData2 := {
  u2_Satoshi : Z;
  u2_ScriptPubkeyHash : bytes;
}.

Record repository := {
  r_db : Database;
  utxoIndex : gmap bytes utxoData2;
}.

Definition upd_db f (r : repository) : repository :=
  {| r_db := f (r_db r); utxoIndex := utxoIndex r |}.
Definition upd_utxoIndex f (r : repository) : repository :=
  {| r_db := r_db r; utxoIndex := f (utxoIndex r) |}.

(** [db.Query] with a query that fails or gives rows. *)
Definition query {A} (q : Database → outcome A) : M repository A :=
  λ r, (q (r_db r), r).

(** [db.Exec] of a statement that changes the tables. *)
Definition exec (stmt : Database → outcome Database) : M repository unit :=
  λ r, match stmt (r_db r) with
       | Ok db => (Ok tt, upd_db (λ _, db) r)
       | Err e => (Err e, r)
       | Panic p => (Panic p, r)
       | OutOfFuel => (OutOfFuel, r)
       end.

(** [INSERT] of a row into a table with a primary key. *)
Definition insert_row {A} (table : string) (k : bytes) (row : A) (m : gmap bytes A)
    : outcome (gmap bytes A) :=
  match m !! k with
  | Some _ => Err (ErrConstraint table)
  | None => Ok (<[k := row]> m)
  end.

(** The first row, or [sql.ErrNoRows] from [Row.Scan]. *)
Definition query_row {A} (rows : list A) : outcome A :=
  match rows with
  | row :: _ => Ok row
  | [] => Err ErrNoRows
  end.

(** ** Wallets *)

Record walletData := {
  wd_Hash : bytes;
  wd_Height : Z;
  wd_NextReceiveIndex : Z;
  wd_NextChangeIndex : Z;
}.

Definition selectWalletData (hash : bytes) : M repository walletData :=
  query (λ db,
    match t_wallet db !! hash with
    | Some row => Ok {| wd_Hash := hash; wd_Height := wr_height row;
                        wd_NextReceiveIndex := wr_next_receive_index row;
                        wd_NextChangeIndex := wr_next_change_index row |}
    | None => Err ErrNoRows
    end).

Definition insertWalletData (wd : walletData) : M repository unit :=
  exec (λ db,
    wallet ← insert_row "wallet" (wd_Hash wd)
      {| wr_height := wd_Height wd; wr_next_receive_index := wd_NextReceiveIndex wd;
         wr_next_change_index := wd_NextChangeIndex wd |} (t_wallet db);
    Ok (upd_wallet (λ _, wallet) db)).

Definition updateWalletIndexes (whash : bytes) (nextReceiveIndex nextChangeIndex : Z)
    : M repository unit :=
  exec (λ db, Ok (upd_wallet
    (alter (λ row, {| wr_height := wr_height row;
                      wr_next_receive_index := nextReceiveIndex;
                      wr_next_change_index := nextChangeIndex |}) whash) db)).

Definition updateWalletHeight (whash : bytes) (height : Z) : M repository unit :=
  exec (λ db, Ok (upd_wallet
    (alter (λ row, {| wr_height := height;
                      wr_next_receive_index := wr_next_receive_index row;
                      wr_next_change_index := wr_next_change_index row |}) whash) db)).

(** ** Block headers *)

Record blockHeaderData := {
  hd_Hash : bytes;
  hd_Height : Z;
  hd_Serialized : bytes;
}.

Definition header_rows (db : Database) : list (bytes * headerRow) :=
  map_to_list (t_blockheader db).

Definition row_height (row : bytes * headerRow) : Z := bh_height row.2.

(** [ORDER BY height DESC]. *)
Definition headers_desc (db : Database) : list (bytes * headerRow) :=
  order_by (λ row, - row_height row) (header_rows db).

Definition selectLastBlockHeaderData : M repository blockHeaderData :=
  query (λ db,
    '(hash, row) ← query_row (headers_desc db);
    hash ← scan_blob 32 hash;
    Ok {| hd_Hash := hash; hd_Height := bh_height row; hd_Serialized := bh_serialized row |}).

Definition headers_from (height : Z) (db : Database) : list (bytes * headerRow) :=
  order_by row_height (filter (λ row, height ≤ row_height row) (header_rows db)).

Definition header_exists (height : Z) (db : Database) : bool :=
  existsb (λ row, row_height row =? height) (header_rows db).

(** The hashes are appended to [out]. *)
Definition selectBlockHashesAtHeight (height limit : Z) (out : list bytes)
    : M repository (list bytes) :=
  query (λ db,
    let rows := if header_exists height db then headers_from height db else [] in
    hashes ← mapM (λ row, scan_blob 32 row.1) (sql_limit limit rows);
    Ok (out ++ hashes)).

Definition selectRawBlockHeaderByHeight (height : Z) : M repository bytes :=
  query (λ db,
    '(_, row) ← query_row (filter (λ row, row_height row = height) (header_rows db));
    scan_blob 80 (bh_serialized row)).

Definition selectRawBlockHeadersByHeight (height limit : Z) : M repository (list bytes) :=
  query (λ db,
    mapM (λ row, scan_blob 80 (bh_serialized row.2)) (sql_limit limit (headers_from height db))).

Definition selectLastBlockHeaderHeightAndRaw : M repository (Z * bytes) :=
  query (λ db,
    '(_, row) ← query_row (headers_desc db);
    raw ← scan_blob 80 (bh_serialized row);
    Ok (bh_height row, raw)).

(** [serialized[:80]] of a slice of at least 80 bytes. *)
Definition insertBlockHeader (hash : bytes) (height : Z) (serialized : bytes)
    : M repository unit :=
  if bool_decide (length serialized < 80)%nat then panic "slice bounds out of range"
  else exec (λ db,
    headers ← insert_row "blockheader" hash
      {| bh_height := height; bh_serialized := take 80 serialized |} (t_blockheader db);
    Ok (upd_blockheader (λ _, headers) db)).

(** ** Transactions *)

(** [INSERT ... SELECT ... WHERE NOT EXISTS]. *)
Definition insertTransaction (txid blockHash : bytes) (pos : Z)
    (serialized merkleProof : bytes) : M repository unit :=
  exec (λ db, Ok (
    match t_tx db !! txid with
    | Some _ => db
    | None => upd_tx <[txid := {| tr_blockhash := blockHash; tr_pos := pos;
                                  tr_serialized := serialized; tr_merkle_proof := merkleProof |}]> db
    end)).

Definition selectRawTransaction (txid : bytes) : M repository bytes :=
  query (λ db,
    match t_tx db !! txid with
    | Some row => Ok (tr_serialized row)
    | None => Err ErrNoRows
    end).

Record transactionData := {
  td_Txid : bytes;
  td_BlockHash : bytes;
  td_Pos : Z;
  td_Raw : bytes;
  td_MerkleProof : bytes;
}.

Definition selectTransactionFromTxid (txid : bytes) : M repository transactionData :=
  query (λ db,
    match t_tx db !! txid with
    | Some row =>
        bh ← scan_blob 32 (tr_blockhash row);
        Ok {| td_Txid := txid; td_BlockHash := bh; td_Pos := tr_pos row;
              td_Raw := tr_serialized row; td_MerkleProof := tr_merkle_proof row |}
    | None => Err ErrNoRows
    end).

(** The height of the block of a row of [tx]: [JOIN blockheader AS bh ON
    bh.hash = tx.blockhash]. *)
Definition tx_height (db : Database) (row : txRow) : option Z :=
  bh_height <$> t_blockheader db !! tr_blockhash row.

Definition selectTransactionFromHeightPos (height pos : Z) : M repository transactionData :=
  query (λ db,
    '(txid, row) ← query_row
      (filter (λ r : bytes * txRow, tx_height db r.2 = Some height ∧ tr_pos r.2 = pos)
         (map_to_list (t_tx db)));
    txid ← scan_blob 32 txid;
    bh ← scan_blob 32 (tr_blockhash row);
    Ok {| td_Txid := txid; td_BlockHash := bh; td_Pos := tr_pos row;
          td_Raw := tr_serialized row; td_MerkleProof := tr_merkle_proof row |}).

Definition insertScriptPubkeyTransaction (scriptPubkeyHash txid : bytes) : M repository unit :=
  exec (λ db, Ok (upd_scriptpubkey_tx (λ rows, {[ (scriptPubkeyHash, txid) ]} ∪ rows) db)).

(** ** History and unspent outputs of a script *)

Record TxData := {
  td_Height : Z;
  td_TxidOf : bytes;
}.

(** The rows of [scriptpubkey_tx JOIN tx JOIN blockheader] for a script, each
    with its height and position. *)
Definition history_rows (db : Database) (sh : bytes) : list ((Z * Z) * bytes) :=
  omap (λ r : bytes * bytes,
    if bool_decide (r.1 = sh) then
      row ← t_tx db !! r.2; height ← tx_height db row; Some ((height, tr_pos row), r.2)
    else None) (elements (t_scriptpubkey_tx db)).

Definition selectScriptHashHistory (sh : bytes) : M repository (list TxData) :=
  query (λ db,
    mapM (λ row : (Z * Z) * bytes,
      txid ← scan_blob 32 row.2; Ok {| td_Height := row.1.1; td_TxidOf := txid |})
      (order_by2 fst (history_rows db sh))).

Record UtxoData := {
  ud_Height : Z;
  ud_TxPos : Z;
  ud_Txid : bytes;
  ud_Satoshi : Z;
}.

(** [SUBSTR(txid_vout, 1, 32)]. *)
Definition outpoint_txid (txVout : bytes) : bytes := take 32 txVout.

Definition unspent_rows (db : Database) (sh : bytes) : list ((Z * Z) * (bytes * Z)) :=
  omap (λ r : bytes * utxoRow,
    if bool_decide (uo_scriptpubkey_hash r.2 = sh) then
      row ← t_tx db !! outpoint_txid r.1; height ← tx_height db row;
      Some ((height, tr_pos row), (outpoint_txid r.1, uo_satoshi r.2))
    else None) (map_to_list (t_unspent_output db)).

Definition selectScriptHashUnspent (sh : bytes) : M repository (list UtxoData) :=
  query (λ db,
    mapM (λ row : (Z * Z) * (bytes * Z),
      txid ← scan_blob 32 row.2.1;
      Ok {| ud_Height := row.1.1; ud_TxPos := row.1.2; ud_Txid := txid; ud_Satoshi := row.2.2 |})
      (order_by2 fst (unspent_rows db sh))).

(** The sum over the index, in uint64. *)
Definition selectScriptHashBalance (sh : bytes) : M repository Z :=
  gets (λ r,
    map_fold (λ _ (v : utxoData2) out,
      if bool_decide (u2_ScriptPubkeyHash v ≠ sh) then out
      else uint64_wrap (out + u2_Satoshi v)) 0 (utxoIndex r)).

(** ** Unspent outputs *)

Record utxoData := {
  ux_TxidVout : bytes;
  ux_Satoshi : Z;
  ux_ScriptPubkeyHash : bytes;
}.

(** [database/sql] refuses to pass a uint64 with its high bit set. *)
Definition insertUnspentOutput (txVout : bytes) (satoshi : Z) (scriptPubkeyHash : bytes)
    : M repository unit :=
  exec (λ db,
    if 2 ^ 63 <=? satoshi then Err (ErrMsg "uint64 values with high bit set are not supported")
    else Ok (
      match t_unspent_output db !! txVout with
      | Some _ => db
      | None => upd_unspent_output
          <[txVout := {| uo_satoshi := satoshi; uo_scriptpubkey_hash := scriptPubkeyHash |}]> db
      end)) ;;
  modify (upd_utxoIndex
    <[txVout := {| u2_Satoshi := satoshi; u2_ScriptPubkeyHash := scriptPubkeyHash |}]>).

Definition selectAllUtxos : M repository (list utxoData) :=
  query (λ db,
    mapM (λ r : bytes * utxoRow,
      tv ← scan_blob 36 r.1;
      h ← scan_blob 32 (uo_scriptpubkey_hash r.2);
      Ok {| ux_TxidVout := tv; ux_Satoshi := uo_satoshi r.2; ux_ScriptPubkeyHash := h |})
      (map_to_list (t_unspent_output db))).

Definition selectUnspentOutput (txVout : bytes) : M repository utxoData :=
  u ← gets (λ r, utxoIndex r !! txVout);
  match u with
  | None => throw ErrNotFound
  | Some u => mret {| ux_TxidVout := txVout; ux_Satoshi := u2_Satoshi u;
                      ux_ScriptPubkeyHash := u2_ScriptPubkeyHash u |}
  end.

Definition spend_row (height : Z) (row : utxoRow) : stxoRow :=
  {| so_satoshi := uo_satoshi row; so_scriptpubkey_hash := uo_scriptpubkey_hash row;
     so_spent_height := height |}.

Definition unspend_row (row : stxoRow) : utxoRow :=
  {| uo_satoshi := so_satoshi row; uo_scriptpubkey_hash := so_scriptpubkey_hash row |}.

Definition deleteUnspentOutput (txVout : bytes) (height : Z) : M repository unit :=
  exec (λ db,
    let db1 :=
      match t_unspent_output db !! txVout, t_spent_output db !! txVout with
      | Some row, None => upd_spent_output <[txVout := spend_row height row]> db
      | _, _ => db
      end in
    Ok (upd_unspent_output (delete txVout) db1)) ;;
  modify (upd_utxoIndex (delete txVout)).

(** ** Caches *)

Definition loadUtxoIndex : M repository unit :=
  utxos ← selectAllUtxos;
  modify (upd_utxoIndex (λ idx,
    foldl (λ idx u, <[ux_TxidVout u := {| u2_Satoshi := ux_Satoshi u;
                                         u2_ScriptPubkeyHash := ux_ScriptPubkeyHash u |}]> idx)
      idx utxos)).

Definition reloadCaches : M repository unit :=
  modify (upd_utxoIndex (λ _, ∅)) ;; loadUtxoIndex.

(** [newRepository]: the index is loaded from the tables. *)
Definition newRepository (db : Database) : outcome unit * repository :=
  loadUtxoIndex {| r_db := db; utxoIndex := ∅ |}.

(** ** Rolling back a reorganised branch *)

(** The transactions of blocks above the height:
    [SELECT txid FROM tx JOIN blockheader ... AND bh.height > $1]. *)
Definition tx_above (db : Database) (height : Z) (txid : bytes) : bool :=
  match t_tx db !! txid with
  | Some row =>
      match tx_height db row with
      | Some h => height <? h
      | None => false
      end
  | None => false
  end.

Definition header_above (height : Z) (row : headerRow) : bool := height <? bh_height row.

(** The blocks above the height: [SELECT hash FROM blockheader WHERE height > $1]. *)
Definition block_above (db : Database) (height : Z) (hash : bytes) : bool :=
  match t_blockheader db !! hash with
  | Some row => header_above height row
  | None => false
  end.

(** The statements of [deleteAllSinceBlock], in their order. *)
Definition delete_stx_above (height : Z) (db : Database) : Database :=
  upd_scriptpubkey_tx (filter (λ r, tx_above db height r.2 = false)) db.

Definition spent_above (height : Z) (db : Database) : gmap bytes stxoRow :=
  filter (λ r, height < so_spent_height r.2) (t_spent_output db).

Definition restore_spent_above (height : Z) (db : Database) : outcome Database :=
  let restored := unspend_row <$> spent_above height db in
  if bool_decide (dom restored ∩ dom (t_unspent_output db) = ∅) then
    Ok (upd_unspent_output (λ unspent, restored ∪ unspent) db)
  else Err (ErrConstraint "unspent_output").

Definition delete_spent_above (height : Z) (db : Database) : Database :=
  upd_spent_output (filter (λ r, ¬ height < so_spent_height r.2)) db.

Definition delete_unspent_above (height : Z) (db : Database) : Database :=
  upd_unspent_output (filter (λ r, tx_above db height (outpoint_txid r.1) = false)) db.

Definition delete_tx_above (height : Z) (db : Database) : Database :=
  upd_tx (filter (λ r, block_above db height (tr_blockhash r.2) = false)) db.

Definition delete_headers_above (height : Z) (db : Database) : Database :=
  upd_blockheader (filter (λ r, header_above height r.2 = false)) db.

Definition lower_wallets (height : Z) (db : Database) : Database :=
  upd_wallet (fmap (λ row, {|
    wr_height := if height <? wr_height row then height else wr_height row;
    wr_next_receive_index := wr_next_receive_index row;
    wr_next_change_index := wr_next_change_index row |})) db.

(** A statement that fails leaves the transaction of the script open, with
    nothing committed. *)
Definition deleteAllSinceBlock (height : Z) : M repository unit :=
  exec (λ db,
    db ← restore_spent_above height (delete_stx_above height db);
    Ok (lower_wallets height (delete_headers_above height (delete_tx_above height
       (delete_unspent_above height (delete_spent_above height db)))))).
