(* ===== verification/RepositoryFacts.v ===== *)
(** * RepositoryFacts: the repository keeps its cache and its tables in step

    Well-formed tables, the coherence of the index of unspent outputs with its
    table, and what each statement does to them. *)

From S2P Require Import Prelude Bytes Sha256 Database Repository.

(** ** Invariants *)

(** The blobs have the lengths of the Go arrays they are written from. *)
Record blobs_ok (db : Database) : Prop := {
  blobs_header : ∀ h row, t_blockheader db !! h = Some row →
    length h = 32%nat ∧ length (bh_serialized row) = 80%nat;
  blobs_unspent : ∀ tv row, t_unspent_output db !! tv = Some row →
    length tv = 36%nat ∧ length (uo_scriptpubkey_hash row) = 32%nat;
  blobs_spent : ∀ tv row, t_spent_output db !! tv = Some row →
    length tv = 36%nat ∧ length (so_scriptpubkey_hash row) = 32%nat;
  blobs_tx : ∀ txid row, t_tx db !! txid = Some row →
    length txid = 32%nat ∧ length (tr_blockhash row) = 32%nat;
  blobs_stx : ∀ sh txid, (sh, txid) ∈ t_scriptpubkey_tx db →
    length sh = 32%nat ∧ length txid = 32%nat;
}.

Definition to_index (row : utxoRow) : utxoData2 :=
  {| u2_Satoshi := uo_satoshi row; u2_ScriptPubkeyHash := uo_scriptpubkey_hash row |}.

(** The index of the repository is the table [unspent_output]. *)
Definition index_sync (r : repository) : Prop :=
  utxoIndex r = to_index <$> t_unspent_output (r_db r).

Lemma blobs_ok_empty : blobs_ok emptyDatabase.
Proof. split; simpl; intros *; try by rewrite lookup_empty. by intros []%elem_of_empty. Qed.

(** ** Running statements *)

Lemma exec_Ok stmt r r' :
  exec stmt r = (Ok tt, r') ↔ ∃ db, stmt (r_db r) = Ok db ∧ r' = upd_db (λ _, db) r.
Proof.
  unfold exec. split.
  - destruct (stmt (r_db r)) as [db| | |]; intros H; try discriminate H.
    injection H as <-. by exists db.
  - by intros (db & -> & ->).
Qed.

Lemma query_run {A} (q : Database → outcome A) r : query q r = (q (r_db r), r).
Proof. reflexivity. Qed.

Lemma safe_scan_blob n data : safe (scan_blob n data).
Proof. unfold scan_blob. by case_bool_decide. Qed.

(** Queries never panic. *)
Ltac safe_query :=
  unfold query; simpl fst; cbv beta zeta;
  repeat first [ apply safe_bind; [|intros ? ?] | apply safe_mapM; intros ? ?
               | apply safe_scan_blob | exact I | case_match ].

Lemma safe_selectBlockHashesAtHeight h n out r : safe (selectBlockHashesAtHeight h n out r).1.
Proof. unfold selectBlockHashesAtHeight. safe_query. Qed.
Lemma safe_selectScriptHashHistory sh r : safe (selectScriptHashHistory sh r).1.
Proof. unfold selectScriptHashHistory. safe_query. Qed.
Lemma safe_selectScriptHashUnspent sh r : safe (selectScriptHashUnspent sh r).1.
Proof. unfold selectScriptHashUnspent. safe_query. Qed.

(** ** The history of a script *)

Definition history (db : Database) (sh : bytes) : list TxData :=
  (λ row : (Z * Z) * bytes, {| td_Height := row.1.1; td_TxidOf := row.2 |})
    <$> order_by2 fst (history_rows db sh).

Lemma elem_of_history_rows db sh height pos txid :
  ((height, pos), txid) ∈ history_rows db sh ↔
  (sh, txid) ∈ t_scriptpubkey_tx db ∧
  ∃ row, t_tx db !! txid = Some row ∧ tx_height db row = Some height ∧ tr_pos row = pos.
Proof.
  unfold history_rows. rewrite list_elem_of_omap. split.
  - intros ([sh' x] & Hin & Hx). apply elem_of_elements in Hin. simpl in Hx.
    case_bool_decide as Hsh; [|done]. subst sh'.
    destruct (t_tx db !! x) as [row|] eqn:Hrow; [|done]. simpl in Hx.
    destruct (tx_height db row) eqn:Hh; [|done]. injection Hx as -> <- ->. eauto.
  - intros (Hin & row & Hrow & Hh & <-). exists (sh, txid).
    split; [by apply elem_of_elements|]. simpl. rewrite bool_decide_eq_true_2 by done.
    rewrite Hrow. simpl. by rewrite Hh.
Qed.

(** A transaction is in the history of a script once. *)
Lemma NoDup_fmap_omap {A B C} (f : A → option B) (key : B → C) l :
  NoDup l → (∀ x y a b, f x = Some a → f y = Some b → key a = key b → x = y) →
  NoDup (key <$> omap f l).
Proof.
  intros Hnd Hf. induction Hnd as [|x l Hx _ IH]; [by constructor|]. simpl.
  destruct (f x) as [a|] eqn:E; [|done]. rewrite fmap_cons. constructor; [|done].
  intros (b & Hk & (y & Hy & Hb)%list_elem_of_omap)%list_elem_of_fmap.
  apply Hx. by rewrite (Hf x y a b E Hb Hk).
Qed.

Lemma history_NoDup db sh : NoDup (td_TxidOf <$> history db sh).
Proof.
  unfold history. rewrite <- list_fmap_compose.
  assert (NoDup (snd <$> history_rows db sh)) as Hnd.
  { apply NoDup_fmap_omap; [apply NoDup_elements|]. intros [sh1 x1] [sh2 x2] a b Ha Hb Hk. simpl in Ha, Hb.
    case_bool_decide as H1; [|done]. case_bool_decide as H2; [|done].
    apply bind_Some in Ha as (? & _ & (? & _ & [= <-])%bind_Some).
    apply bind_Some in Hb as (? & _ & (? & _ & [= <-])%bind_Some). simpl in Hk. congruence. }
  change (NoDup (snd <$> order_by2 fst (history_rows db sh))). by rewrite order_by2_perm.
Qed.

Lemma selectScriptHashHistory_ok sh r :
  blobs_ok (r_db r) → selectScriptHashHistory sh r = (Ok (history (r_db r) sh), r).
Proof.
  intros Hb. unfold selectScriptHashHistory. rewrite query_run. f_equal.
  apply mapM_Ok_total. intros [[height pos] txid] Hin. rewrite elem_of_order_by2 in Hin.
  apply elem_of_history_rows in Hin as (Hin & _). simpl.
  destruct (blobs_stx _ Hb _ _ Hin) as [_ Hl]. unfold scan_blob. by rewrite bool_decide_eq_true_2.
Qed.

(** ** Reloading the cache *)

Lemma foldl_insert_list_to_map {A B} (key : B → bytes) (val : B → A) (l : list B) (m : gmap bytes A) :
  NoDup (key <$> l) →
  foldl (λ m u, <[key u := val u]> m) m l = list_to_map ((λ u, (key u, val u)) <$> l) ∪ m.
Proof.
  revert m. induction l as [|u l IH]; intros m Hnd; simpl; [by rewrite (left_id_L ∅ (∪))|].
  inversion_clear Hnd. rewrite IH by done.
  rewrite <- insert_union_l. rewrite insert_union_r; [done|].
  apply not_elem_of_list_to_map. rewrite <- list_fmap_compose. done.
Qed.

Lemma selectAllUtxos_ok r :
  blobs_ok (r_db r) →
  selectAllUtxos r =
    (Ok ((λ x : bytes * utxoRow, {| ux_TxidVout := x.1; ux_Satoshi := uo_satoshi x.2;
            ux_ScriptPubkeyHash := uo_scriptpubkey_hash x.2 |})
         <$> map_to_list (t_unspent_output (r_db r))), r).
Proof.
  intros Hb. unfold selectAllUtxos. rewrite query_run. f_equal.
  apply mapM_Ok_total. intros [tv row] Hin%elem_of_map_to_list.
  destruct (blobs_unspent _ Hb _ _ Hin) as [H1 H2]. simpl.
  unfold scan_blob. by rewrite !bool_decide_eq_true_2.
Qed.

Lemma loadUtxoIndex_ok r :
  blobs_ok (r_db r) →
  loadUtxoIndex r =
    (Ok tt, upd_utxoIndex (λ idx, (to_index <$> t_unspent_output (r_db r)) ∪ idx) r).
Proof.
  intros Hb. unfold loadUtxoIndex. rewrite bind_run, selectAllUtxos_ok by done.
  unfold modify, upd_utxoIndex. do 2 f_equal. cbv beta.
  rewrite (foldl_insert_list_to_map ux_TxidVout
    (λ u, {| u2_Satoshi := ux_Satoshi u; u2_ScriptPubkeyHash := ux_ScriptPubkeyHash u |})).
  - f_equal. rewrite <- list_fmap_compose. unfold compose. simpl.
    rewrite <- (list_to_map_to_list (M := gmap bytes) (to_index <$> _)).
    by rewrite map_to_list_fmap.
  - rewrite <- list_fmap_compose. apply NoDup_fst_map_to_list.
Qed.

Lemma reloadCaches_ok r :
  blobs_ok (r_db r) →
  reloadCaches r = (Ok tt, {| r_db := r_db r; utxoIndex := to_index <$> t_unspent_output (r_db r) |}).
Proof.
  intros Hb. unfold reloadCaches. rewrite bind_run. unfold modify.
  rewrite loadUtxoIndex_ok by done. unfold upd_utxoIndex. simpl.
  by rewrite (right_id_L ∅ (∪)).
Qed.

(** ** The statements keep the cache coherent *)

(** An outpoint determines its output, so a row that is inserted again is the
    row that is there. *)
Definition consistent_output (tv : bytes) (sat : Z) (sh : bytes) (r : repository) : Prop :=
  ∀ row, t_unspent_output (r_db r) !! tv = Some row →
    uo_satoshi row = sat ∧ uo_scriptpubkey_hash row = sh.

Lemma insertUnspentOutput_Ok tv sat sh r r' :
  insertUnspentOutput tv sat sh r = (Ok tt, r') →
  sat < 2 ^ 63 ∧
  t_unspent_output (r_db r') =
    match t_unspent_output (r_db r) !! tv with
    | Some _ => t_unspent_output (r_db r)
    | None => <[tv := {| uo_satoshi := sat; uo_scriptpubkey_hash := sh |}]> (t_unspent_output (r_db r))
    end ∧
  utxoIndex r' = <[tv := {| u2_Satoshi := sat; u2_ScriptPubkeyHash := sh |}]> (utxoIndex r) ∧
  r_db r' = upd_unspent_output (λ _, t_unspent_output (r_db r')) (r_db r).
Proof.
  unfold insertUnspentOutput. intros (? & r1 & H1 & H2)%bind_Ok.
  destruct x. apply exec_Ok in H1 as (db & Hdb & ->). injection H2 as <-.
  case_match eqn:Hs; [done|]. injection Hdb as <-. simpl.
  split; [lia|]. destruct (t_unspent_output (r_db r) !! tv); simpl; by destruct (r_db r).
Qed.

Lemma insertUnspentOutput_sync tv sat sh r r' :
  consistent_output tv sat sh r → index_sync r →
  insertUnspentOutput tv sat sh r = (Ok tt, r') → index_sync r'.
Proof.
  unfold index_sync, consistent_output. intros Hc Hs (_ & Hu & Hi & _)%insertUnspentOutput_Ok.
  rewrite Hu, Hi, Hs. destruct (t_unspent_output (r_db r) !! tv) as [row|] eqn:E.
  - destruct (Hc row eq_refl) as [<- <-]. apply insert_id. by rewrite lookup_fmap, E.
  - by rewrite fmap_insert.
Qed.

Lemma deleteUnspentOutput_run tv h r :
  deleteUnspentOutput tv h r =
  (Ok tt, {|
    r_db := upd_unspent_output (delete tv)
      (match t_unspent_output (r_db r) !! tv, t_spent_output (r_db r) !! tv with
       | Some row, None => upd_spent_output <[tv := spend_row h row]> (r_db r)
       | _, _ => r_db r
       end);
    utxoIndex := delete tv (utxoIndex r) |}).
Proof. reflexivity. Qed.

Lemma deleteUnspentOutput_sync tv h : preserves index_sync (deleteUnspentOutput tv h).
Proof.
  intros r Hs. rewrite deleteUnspentOutput_run. unfold index_sync in *. simpl. rewrite Hs.
  rewrite <- fmap_delete. f_equal. by repeat case_match.
Qed.

Lemma upd_same_unspent_sync (f : Database → Database) r :
  t_unspent_output (f (r_db r)) = t_unspent_output (r_db r) →
  index_sync r → index_sync (upd_db f r).
Proof. unfold index_sync. simpl. by intros ->. Qed.

(** A statement that writes other tables keeps the cache coherent. *)
Lemma exec_sync stmt :
  (∀ db db', stmt db = Ok db' → t_unspent_output db' = t_unspent_output db) →
  preserves index_sync (exec stmt).
Proof.
  intros Hst r Hs. unfold exec. destruct (stmt (r_db r)) as [db| | |] eqn:E; try done.
  unfold index_sync in *. simpl. by rewrite (Hst _ _ E).
Qed.
