(* ===== verification/Chain.v ===== *)
(** * Chain: the header table as a chain of blocks

    The table [blockheader] holds the blocks after the genesis block as rows
    with a height each.  [chain_ok] says that the rows, in the order of their
    heights, form one chain from the genesis block: heights 1, 2, 3, ..., every
    row hashes to its key, and names the row before it as its parent.  The
    queries of the repository are evaluated on such a table. *)

From S2P Require Import Prelude Bytes Sha256 BitcoinTypes Database Repository.

(** ** Linked rows *)

(** The [PreviousBlock] field of 80 bytes of header. *)
Definition prev_of (header : bytes) : bytes := take 32 (drop 4 header).

Fixpoint linked (prev : bytes) (h : Z) (rows : list (bytes * headerRow)) : Prop :=
  match rows with
  | [] => True
  | (hs, r) :: rows =>
      bh_height r = h ∧ length (bh_serialized r) = 80%nat ∧
      prev_of (bh_serialized r) = prev ∧ hs = doubleSha256 (bh_serialized r) ∧
      linked hs (h + 1) rows
  end.

(** The hash of the last block. *)
Definition tip_hash (g : bytes) (rows : list (bytes * headerRow)) : bytes :=
  default g (fst <$> last rows).

Definition chain_ok (g : bytes) (db : Database) (rows : list (bytes * headerRow)) : Prop :=
  header_rows db ≡ₚ rows ∧ linked g 1 rows.

Lemma chain_ok_empty g : chain_ok g emptyDatabase [].
Proof. done. Qed.

Lemma tip_hash_cons g hs r rows : tip_hash g ((hs, r) :: rows) = tip_hash hs rows.
Proof. unfold tip_hash. destruct rows as [|x rows]; [done|]. rewrite last_cons_cons. by destruct (last_is_Some (x :: rows)) as [_ [[??] ->]]. Qed.

Lemma tip_hash_snoc g rows hs r : tip_hash g (rows ++ [(hs, r)]) = hs.
Proof. unfold tip_hash. by rewrite last_snoc. Qed.

Lemma linked_app g h l1 l2 :
  linked g h (l1 ++ l2) ↔ linked g h l1 ∧ linked (tip_hash g l1) (h + length l1) l2.
Proof.
  revert g h. induction l1 as [|[hs r] l1 IH]; intros g h; simpl.
  - rewrite Z.add_0_r. tauto.
  - rewrite IH, tip_hash_cons. replace (h + 1 + length l1) with (h + S (length l1)) by lia. tauto.
Qed.

Lemma linked_lookup g h rows (i : nat) hs r :
  linked g h rows → rows !! i = Some (hs, r) →
  bh_height r = h + i ∧ length (bh_serialized r) = 80%nat ∧ hs = doubleSha256 (bh_serialized r) ∧
  prev_of (bh_serialized r) = tip_hash g (take i rows).
Proof.
  intros Hl Hi. rewrite <- (take_drop_middle _ _ _ Hi) in Hl.
  apply linked_app in Hl as [_ Hl]. simpl in Hl.
  apply lookup_lt_Some in Hi. rewrite length_take_le in Hl by lia. tauto.
Qed.

Lemma linked_key_inj g h rows x y :
  linked g h rows → x ∈ rows → y ∈ rows → row_height x = row_height y → x = y.
Proof.
  intros Hl [i Hx]%list_elem_of_lookup [j Hy]%list_elem_of_lookup Heq.
  destruct x as [hx rx], y as [hy ry].
  destruct (linked_lookup _ _ _ _ _ _ Hl Hx) as [H1 _].
  destruct (linked_lookup _ _ _ _ _ _ Hl Hy) as [H2 _].
  unfold row_height in Heq. simpl in Heq. assert (i = j) as -> by lia. congruence.
Qed.

Lemma linked_hash32 g h rows hs r : linked g h rows → (hs, r) ∈ rows → Sha256.hash32 hs.
Proof.
  intros Hl [i Hi]%list_elem_of_lookup.
  destruct (linked_lookup _ _ _ _ _ _ Hl Hi) as (_ & _ & -> & _). apply length_doubleSha256.
Qed.

Lemma linked_from g h rows x : linked g h rows → x ∈ rows → h ≤ row_height x.
Proof.
  intros Hl [i Hi]%list_elem_of_lookup. destruct x as [hs r].
  destruct (linked_lookup _ _ _ _ _ _ Hl Hi) as [Hh _]. unfold row_height. simpl. lia.
Qed.

(** The rows in the order of their heights are sorted both ways. *)
Lemma linked_sorted g h rows : linked g h rows → StronglySorted (key_le row_height) rows.
Proof.
  revert g h. induction rows as [|[hs r] rows IH]; intros g h Hl; [constructor|].
  constructor; [apply (IH hs (h + 1)), Hl|]. apply Forall_forall. intros x Hx.
  destruct Hl as (Hh & _ & _ & _ & Hl).
  pose proof (linked_from _ _ _ _ Hl Hx). unfold key_le, row_height in *. simpl. lia.
Qed.

Lemma StronglySorted_snoc {A} (R : A → A → Prop) l x :
  StronglySorted R l → Forall (λ y, R y x) l → StronglySorted R (l ++ [x]).
Proof.
  induction 1 as [|y l Hs IH Hy]; intros Hx; simpl; [repeat constructor|].
  inversion_clear Hx. constructor; [by apply IH|]. apply Forall_app. by repeat constructor.
Qed.

Lemma StronglySorted_reverse {A} (R : A → A → Prop) l :
  StronglySorted R l → StronglySorted (flip R) (reverse l).
Proof.
  induction 1 as [|x l Hs IH Hx]; [constructor|]. rewrite reverse_cons.
  apply StronglySorted_snoc; [done|]. by apply Forall_reverse.
Qed.

Lemma StronglySorted_impl {A} (R R' : A → A → Prop) l :
  (∀ x y, R x y → R' x y) → StronglySorted R l → StronglySorted R' l.
Proof. intros HR. induction 1; constructor; [done|]. by eapply Forall_impl; eauto. Qed.

(** ** Queries on a chain *)

Section chain.
Context {g : bytes} {db : Database} {rows : list (bytes * headerRow)}.
Hypothesis Hc : chain_ok g db rows.

Lemma order_by_rows l : l ≡ₚ rows → order_by row_height l = rows.
Proof using Hc.
  intros Hl. destruct Hc as [_ Hk].
  apply (sorted_unique (key_le row_height)); [|apply order_by_sorted|by eapply linked_sorted|].
  - intros x y. rewrite !elem_of_order_by, Hl. unfold key_le. intros Hx Hy ??.
    eapply linked_key_inj; [done..|]. lia.
  - by rewrite order_by_perm.
Qed.

Lemma headers_desc_rows : headers_desc db = reverse rows.
Proof using Hc.
  destruct Hc as [Hp Hk]. unfold headers_desc.
  apply (sorted_unique (key_le (λ r, - row_height r))); [|apply order_by_sorted| |].
  - intros x y. rewrite !elem_of_order_by, Hp. unfold key_le. intros Hx Hy ??.
    eapply linked_key_inj; [done..|]. lia.
  - eapply StronglySorted_impl; [|by eapply StronglySorted_reverse, linked_sorted].
    intros x y. unfold key_le, flip. lia.
  - by rewrite order_by_perm, Hp, reverse_Permutation.
Qed.

Lemma linked_filter_from g' h0 l h :
  linked g' h0 l → filter (λ r, h ≤ row_height r) l = drop (Z.to_nat (h - h0)) l.
Proof using Type.
  revert g' h0. induction l as [|[hs r] l IH]; intros g' h0 Hl; [by rewrite drop_nil|].
  destruct Hl as (Hh & _ & _ & _ & Hl).
  destruct (decide (h ≤ h0)) as [Hle|Hgt].
  - replace (Z.to_nat (h - h0)) with O by lia. simpl.
    rewrite filter_cons_True by (unfold row_height; simpl; lia). f_equal.
    rewrite (IH _ _ Hl). by replace (Z.to_nat (h - (h0 + 1))) with O by lia.
  - rewrite filter_cons_False by (unfold row_height; simpl; lia).
    replace (Z.to_nat (h - h0)) with (S (Z.to_nat (h - (h0 + 1)))) by lia.
    simpl. by apply (IH hs).
Qed.

Lemma headers_from_rows h : headers_from h db = drop (Z.to_nat (h - 1)) rows.
Proof using Hc.
  destruct Hc as [Hp Hk]. unfold headers_from.
  rewrite <- (linked_filter_from _ _ _ _ Hk).
  apply (sorted_unique (key_le row_height)); [|apply order_by_sorted| |].
  - intros x y. rewrite !elem_of_order_by, !list_elem_of_filter, Hp. unfold key_le.
    intros [_ Hx] [_ Hy] ??. eapply linked_key_inj; [done..|]. lia.
  - rewrite (linked_filter_from _ _ _ _ Hk).
    pose proof (linked_sorted _ _ _ Hk) as Hs. rewrite <- (take_drop (Z.to_nat (h - 1)) rows) in Hs.
    clear -Hs. induction (take _ _) as [|x l IH]; [done|]. inversion_clear Hs. auto.
  - by rewrite order_by_perm, Hp.
Qed.

Lemma header_exists_rows h : header_exists h db = true ↔ 1 ≤ h ≤ length rows.
Proof using Hc.
  destruct Hc as [Hp Hk]. unfold header_exists. rewrite existsb_exists. split.
  - intros (x & Hin & Heq). apply list_elem_of_In in Hin. rewrite Hp in Hin.
    apply list_elem_of_lookup in Hin as [i Hi]. destruct x as [hs r].
    destruct (linked_lookup _ _ _ _ _ _ Hk Hi) as [Hh _]. apply lookup_lt_Some in Hi.
    unfold row_height in Heq. simpl in Heq. lia.
  - intros Hh. destruct (lookup_lt_is_Some_2 rows (Z.to_nat (h - 1))) as [[hs r] Hi]; [lia|].
    exists (hs, r). destruct (linked_lookup _ _ _ _ _ _ Hk Hi) as [Hr _].
    split; [|unfold row_height; simpl; lia].
    apply list_elem_of_In. rewrite Hp. by eapply list_elem_of_lookup_2.
Qed.

Lemma selectLastBlockHeaderData_chain r :
  r_db r = db →
  selectLastBlockHeaderData r =
    (match last rows with
     | Some (hs, row) => Ok {| hd_Hash := hs; hd_Height := length rows;
                               hd_Serialized := bh_serialized row |}
     | None => Err ErrNoRows
     end, r).
Proof using Hc.
  intros Hr. unfold selectLastBlockHeaderData, query. rewrite Hr, headers_desc_rows. f_equal.
  destruct Hc as [_ Hk].
  destruct rows as [|x l] using rev_ind; [done|]. clear IHl.
  rewrite reverse_snoc, last_snoc. destruct x as [hs row]. run_outcome. simpl query_row. run_outcome.
  apply linked_app in Hk as [_ (Hh & _ & _ & -> & _)]. unfold scan_blob.
  rewrite bool_decide_eq_true_2 by apply length_doubleSha256. run_outcome.
  do 2 f_equal. rewrite length_app. simpl. lia.
Qed.

Lemma selectBlockHashesAtHeight_chain h n r :
  r_db r = db → 1 ≤ h → 0 ≤ n →
  selectBlockHashesAtHeight h n [] r =
    (Ok (take (Z.to_nat n) (drop (Z.to_nat (h - 1)) rows.*1)), r).
Proof using Hc.
  intros Hr Hh Hn. unfold selectBlockHashesAtHeight, query. rewrite Hr. f_equal.
  assert ((if header_exists h db then headers_from h db else []) = drop (Z.to_nat (h - 1)) rows) as ->.
  { destruct (header_exists h db) eqn:E; [apply headers_from_rows|].
    symmetry. apply drop_ge. apply not_true_iff_false in E.
    rewrite header_exists_rows in E. lia. }
  rewrite (mapM_Ok_total _ fst).
  - run_outcome. do 2 f_equal. unfold sql_limit. rewrite (proj2 (Z.ltb_ge _ _)) by lia.
    simpl. by rewrite fmap_take, fmap_drop.
  - intros [hs row] Hin. unfold scan_blob. rewrite bool_decide_eq_true_2; [done|].
    destruct Hc as [_ Hk]. eapply (linked_hash32 _ _ _ _ row Hk).
    unfold sql_limit in Hin. rewrite (proj2 (Z.ltb_ge _ _)) in Hin by lia.
    by eapply elem_of_drop_of, elem_of_take_of.
Qed.

(** Genesis is not in the table. *)
Lemma selectBlockHashesAtHeight_genesis n r :
  r_db r = db → selectBlockHashesAtHeight 0 n [] r = (Ok [], r).
Proof using Hc.
  intros Hr. unfold selectBlockHashesAtHeight, query. rewrite Hr.
  assert (header_exists 0 db = false) as ->.
  { apply not_true_iff_false. rewrite header_exists_rows. lia. }
  unfold sql_limit. by destruct (n <? 0); rewrite ?take_nil.
Qed.

Lemma selectRawBlockHeaderByHeight_chain h r :
  r_db r = db →
  selectRawBlockHeaderByHeight h r =
    (match (if 1 <=? h then rows !! Z.to_nat (h - 1) else None) with
     | Some (_, row) => Ok (bh_serialized row)
     | None => Err ErrNoRows
     end, r).
Proof using Hc.
  intros Hr. unfold selectRawBlockHeaderByHeight, query. rewrite Hr. f_equal.
  destruct Hc as [Hp Hk].
  assert (∀ x, x ∈ filter (λ row, row_height row = h) (header_rows db) ↔
               1 ≤ h ∧ rows !! Z.to_nat (h - 1) = Some x) as Hf.
  { intros [hs row]. rewrite list_elem_of_filter, Hp. split.
    - intros [Hh [i Hi]%list_elem_of_lookup].
      destruct (linked_lookup _ _ _ _ _ _ Hk Hi) as [Hr' _].
      unfold row_height in Hh. simpl in Hh. split; [lia|].
      by replace (Z.to_nat (h - 1)) with i by lia.
    - intros [Hh Hi]. destruct (linked_lookup _ _ _ _ _ _ Hk Hi) as [Hr' _].
      split; [unfold row_height; simpl; lia|by eapply list_elem_of_lookup_2]. }
  destruct (filter _ _) as [|[hs row] l].
  - simpl. destruct (Z.leb_spec 1 h); [|done].
    destruct (rows !! Z.to_nat (h - 1)) as [x|] eqn:E; [|done].
    exfalso. apply (not_elem_of_nil x), Hf. done.
  - destruct (proj1 (Hf (hs, row))) as [H1 H2]; [apply list_elem_of_here|].
    rewrite (proj2 (Z.leb_le _ _)) by lia. rewrite H2. simpl. run_outcome.
    unfold scan_blob. rewrite bool_decide_eq_true_2; [done|].
    by destruct (linked_lookup _ _ _ _ _ _ Hk H2) as (_ & ? & _).
Qed.
End chain.
