(* ===== verification/Ledger.v ===== *)
(** * Ledger: rolling the tables back to a height

    The referential invariant of the tables ([db_ok]), what
    [deleteAllSinceBlock] leaves ([rolled_back]), and the fact that writing a
    block above a height does not change what a rollback to the height leaves. *)

From S2P Require Import Prelude Bytes Sha256 Database Repository RepositoryFacts.

(** ** The referential invariant *)

(** Every row is tied to a transaction of a known block that is not above
    [top], and no output is both spent and unspent. *)
Record db_ok (top : Z) (db : Database) : Prop := {
  ok_tx : ∀ txid row, t_tx db !! txid = Some row →
    ∃ h, tx_height db row = Some h ∧ h ≤ top;
  ok_unspent : ∀ tv row, t_unspent_output db !! tv = Some row →
    is_Some (t_tx db !! outpoint_txid tv);
  ok_spent : ∀ tv row, t_spent_output db !! tv = Some row →
    ∃ trow h, t_tx db !! outpoint_txid tv = Some trow ∧ tx_height db trow = Some h ∧
      h ≤ so_spent_height row ∧ so_spent_height row ≤ top;
  ok_stx : ∀ sh txid, (sh, txid) ∈ t_scriptpubkey_tx db → is_Some (t_tx db !! txid);
  ok_disjoint : ∀ tv row, t_spent_output db !! tv = Some row → t_unspent_output db !! tv = None;
}.

Lemma db_ok_empty top : db_ok top emptyDatabase.
Proof. split; simpl; intros *; (by rewrite lookup_empty) || by rewrite elem_of_empty. Qed.

(** ** What a rollback leaves *)

Definition rolled_back (h : Z) (db : Database) : Database := {|
  t_wallet := t_wallet (lower_wallets h db);
  t_blockheader := filter (λ r, header_above h r.2 = false) (t_blockheader db);
  t_unspent_output :=
    filter (λ r, tx_above db h (outpoint_txid r.1) = false)
      ((unspend_row <$> spent_above h db) ∪ t_unspent_output db);
  t_spent_output := filter (λ r, ¬ h < so_spent_height r.2) (t_spent_output db);
  t_tx := filter (λ r, block_above db h (tr_blockhash r.2) = false) (t_tx db);
  t_scriptpubkey_tx := filter (λ r, tx_above db h r.2 = false) (t_scriptpubkey_tx db);
|}.

(** The tables that blocks write: all but the wallets and the headers. *)
Definition ledger (db : Database) :=
  (t_unspent_output db, t_spent_output db, t_tx db, t_scriptpubkey_tx db).

Lemma spent_above_lookup h db tv row :
  spent_above h db !! tv = Some row ↔ t_spent_output db !! tv = Some row ∧ h < so_spent_height row.
Proof. unfold spent_above. by rewrite map_lookup_filter_Some. Qed.

Lemma deleteAllSinceBlock_ok top h r :
  db_ok top (r_db r) →
  deleteAllSinceBlock h r = (Ok tt, upd_db (rolled_back h) r).
Proof.
  intros Hok. unfold deleteAllSinceBlock, exec.
  assert (restore_spent_above h (delete_stx_above h (r_db r)) =
    Ok (upd_unspent_output (λ u, (unspend_row <$> spent_above h (r_db r)) ∪ u)
          (delete_stx_above h (r_db r)))) as ->.
  { unfold restore_spent_above. rewrite bool_decide_eq_true_2; [done|].
    apply elem_of_equiv_empty_L. intros tv.
    rewrite elem_of_intersection, !elem_of_dom, lookup_fmap, fmap_is_Some.
    intros [[row Hs] [u Hu]]. apply spent_above_lookup in Hs as [Hs _].
    simpl in Hs, Hu. by rewrite (ok_disjoint _ _ Hok _ _ Hs) in Hu. }
  reflexivity.
Qed.

(** A transaction that is not above the height, told by its row. *)
Lemma tx_above_false db h txid row h' :
  t_tx db !! txid = Some row → tx_height db row = Some h' → tx_above db h txid = (h <? h').
Proof. unfold tx_above. by intros -> ->. Qed.

Lemma block_above_height db h row h' :
  tx_height db row = Some h' → block_above db h (tr_blockhash row) = (h <? h').
Proof.
  unfold tx_height, block_above, header_above.
  destruct (t_blockheader db !! tr_blockhash row); simpl; [|done]. by intros [= ->].
Qed.

Lemma tx_above_None db h txid : t_tx db !! txid = None → tx_above db h txid = false.
Proof. unfold tx_above. by intros ->. Qed.

(** With nothing above the height, the rollback changes no ledger table. *)
Lemma rolled_back_id h db : db_ok h db → ledger (rolled_back h db) = ledger db.
Proof.
  intros Hok. unfold ledger, rolled_back. simpl.
  assert (spent_above h db = ∅) as Hsp.
  { apply map_empty. intros tv. apply map_lookup_filter_None. right. intros row Hr. destruct (ok_spent _ _ Hok _ _ Hr)
      as (? & ? & ? & ? & ? & ?). simpl. lia. }
  assert (∀ txid, tx_above db h txid = false) as Hna.
  { intros txid. unfold tx_above. destruct (t_tx db !! txid) as [row|] eqn:E; [|done].
    destruct (ok_tx _ _ Hok _ _ E) as (h' & -> & ?). lia. }
  rewrite Hsp, fmap_empty, (left_id_L ∅ (∪)). f_equal; [f_equal; [f_equal|]|].
  - apply map_filter_id. intros tv row _. apply Hna.
  - apply map_filter_id. intros tv row Hr.
    destruct (ok_spent _ _ Hok _ _ Hr) as (? & ? & ? & ? & ? & ?). simpl. lia.
  - apply map_filter_id. intros txid row Hr. destruct (ok_tx _ _ Hok _ _ Hr) as (h' & Hh & ?).
    simpl. rewrite (block_above_height _ _ _ _ Hh). lia.
  - apply set_eq. intros [sh txid]. rewrite elem_of_filter. simpl. rewrite Hna. tauto.
Qed.

(** ** Rollback restores the invariant *)

Lemma tx_height_rolled_back h db row h' :
  tx_height db row = Some h' → h' ≤ h → tx_height (rolled_back h db) row = Some h'.
Proof.
  unfold tx_height, rolled_back. simpl. intros (hdr & Hh & ->)%fmap_Some Hle.
  rewrite fmap_Some. exists hdr. split; [|done]. apply map_lookup_filter_Some.
  split; [done|]. unfold header_above. simpl. lia.
Qed.

Lemma t_tx_rolled_back h db txid row h' :
  t_tx db !! txid = Some row → tx_height db row = Some h' → h' ≤ h →
  t_tx (rolled_back h db) !! txid = Some row.
Proof.
  intros Ht Hh Hle. unfold rolled_back. simpl. apply map_lookup_filter_Some.
  split; [done|]. simpl. rewrite (block_above_height _ _ _ _ Hh). lia.
Qed.

Lemma rolled_back_db_ok top h db : db_ok top db → db_ok h (rolled_back h db).
Proof.
  intros Hok. split.
  - intros txid row Ht. unfold rolled_back in Ht. simpl in Ht.
    apply map_lookup_filter_Some in Ht as [Ht Hb]. simpl in Hb.
    destruct (ok_tx _ _ Hok _ _ Ht) as (h' & Hh & _).
    rewrite (block_above_height _ _ _ _ Hh) in Hb.
    exists h'. split; [apply tx_height_rolled_back; [done|]|]; lia.
  - intros tv row Hu. unfold rolled_back in Hu. simpl in Hu.
    apply map_lookup_filter_Some in Hu as [Hu Hna]. simpl in Hna.
    assert (is_Some (t_tx db !! outpoint_txid tv)) as [trow Ht].
    { apply lookup_union_Some_raw in Hu as [Hu|[_ Hu]]; [|by eapply ok_unspent].
      rewrite lookup_fmap, fmap_Some in Hu. destruct Hu as (s & Hs & _).
      apply spent_above_lookup in Hs as [Hs _].
      destruct (ok_spent _ _ Hok _ _ Hs) as (trow & ? & ? & _). by exists trow. }
    destruct (ok_tx _ _ Hok _ _ Ht) as (h' & Hh & _).
    rewrite (tx_above_false _ _ _ _ _ Ht Hh) in Hna.
    eexists. eapply t_tx_rolled_back; [done..|lia].
  - intros tv row Hs. unfold rolled_back in Hs. simpl in Hs.
    apply map_lookup_filter_Some in Hs as [Hs Hle]. simpl in Hle.
    destruct (ok_spent _ _ Hok _ _ Hs) as (trow & h' & Ht & Hh & ? & ?).
    exists trow, h'. split_and!; [eapply t_tx_rolled_back; [done..|lia]
      |apply tx_height_rolled_back; [done|lia]|done|lia].
  - intros sh txid Hin. unfold rolled_back in Hin. simpl in Hin.
    apply elem_of_filter in Hin as [Hna Hin]. simpl in Hna.
    destruct (ok_stx _ _ Hok _ _ Hin) as [trow Ht].
    destruct (ok_tx _ _ Hok _ _ Ht) as (h' & Hh & _).
    rewrite (tx_above_false _ _ _ _ _ Ht Hh) in Hna.
    eexists. eapply t_tx_rolled_back; [done..|lia].
  - intros tv row Hs. unfold rolled_back in *. simpl in *.
    apply map_lookup_filter_Some in Hs as [Hs Hle]. simpl in Hle.
    apply map_lookup_filter_None. left. apply lookup_union_None. split.
    + rewrite lookup_fmap, fmap_None. apply eq_None_not_Some. intros [s Hab].
      apply spent_above_lookup in Hab as [Hs' ?]. simplify_eq. lia.
    + by eapply ok_disjoint.
Qed.

(** ** Writing above a height *)

Definition view (h : Z) (db : Database) := ledger (rolled_back h db).

Lemma db_ok_mono top top' db : top ≤ top' → db_ok top db → db_ok top' db.
Proof.
  intros Hle Hok. split; try apply Hok.
  - intros txid row Ht. destruct (ok_tx _ _ Hok _ _ Ht) as (h & ? & ?). exists h. split; [done|lia].
  - intros tv row Hs. destruct (ok_spent _ _ Hok _ _ Hs) as (trow & h & ? & ? & ? & ?).
    exists trow, h. split_and!; try done. lia.
Qed.

Definition put_tx (txid : bytes) (row : txRow) (db : Database) : Database :=
  match t_tx db !! txid with
  | Some _ => db
  | None => upd_tx <[txid := row]> db
  end.
Definition put_stx (sh txid : bytes) (db : Database) : Database :=
  upd_scriptpubkey_tx (λ rows, {[ (sh, txid) ]} ∪ rows) db.
Definition put_unspent (tv : bytes) (row : utxoRow) (db : Database) : Database :=
  match t_unspent_output db !! tv with
  | Some _ => db
  | None => upd_unspent_output <[tv := row]> db
  end.
Definition spend (tv : bytes) (height : Z) (db : Database) : Database :=
  upd_unspent_output (delete tv)
    (match t_unspent_output db !! tv, t_spent_output db !! tv with
     | Some row, None => upd_spent_output <[tv := spend_row height row]> db
     | _, _ => db
     end).

(** [put_tx] of a new transaction. *)
Section put_tx.
Context (h hh : Z) (txid : bytes) (row : txRow) (db : Database).
Hypothesis Hok : db_ok hh db.
Hypothesis Hrow : tx_height db row = Some hh.
Hypothesis Hnew : t_tx db !! txid = None.

Lemma put_tx_new : put_tx txid row db = upd_tx <[txid := row]> db.
Proof using Hnew. unfold put_tx. by rewrite Hnew. Qed.

Lemma put_tx_lookup_old x r : t_tx db !! x = Some r → t_tx (put_tx txid row db) !! x = Some r.
Proof using Hnew.
  intros Hx. rewrite put_tx_new. simpl. rewrite lookup_insert_ne; [done|]. congruence.
Qed.

Lemma put_tx_above_old x :
  is_Some (t_tx db !! x) → tx_above (put_tx txid row db) h x = tx_above db h x.
Proof using Hnew.
  intros [r Hr]. unfold tx_above. rewrite (put_tx_lookup_old _ _ Hr), Hr, put_tx_new. reflexivity.
Qed.

Lemma put_tx_above_new : h < hh → tx_above (put_tx txid row db) h txid = true.
Proof using Hnew Hrow.
  intros. rewrite put_tx_new. unfold tx_above. simpl. rewrite lookup_insert_eq.
  change (tx_height (upd_tx <[txid:=row]> db) row) with (tx_height db row). rewrite Hrow. lia.
Qed.

Lemma put_tx_db_ok : db_ok hh (put_tx txid row db).
Proof using Hok Hrow Hnew.
  split.
  - intros x r Hx. rewrite put_tx_new in Hx |- *. simpl in Hx.
    apply lookup_insert_Some in Hx as [[<- <-]|[_ Hx]]; [by exists hh|].
    apply (ok_tx _ _ Hok _ _ Hx).
  - intros tv r Hu. rewrite put_tx_new in Hu. destruct (ok_unspent _ _ Hok _ _ Hu) as [t Ht].
    exists t. by apply put_tx_lookup_old.
  - intros tv r Hs. rewrite put_tx_new in Hs.
    destruct (ok_spent _ _ Hok _ _ Hs) as (t & h' & Ht & ? & ? & ?).
    exists t, h'. split; [by apply put_tx_lookup_old|]. by rewrite put_tx_new.
  - intros sh x Hx. rewrite put_tx_new in Hx. destruct (ok_stx _ _ Hok _ _ Hx) as [t Ht].
    exists t. by apply put_tx_lookup_old.
  - rewrite put_tx_new. apply (ok_disjoint _ _ Hok).
Qed.

Lemma put_tx_view : h < hh → view h (put_tx txid row db) = view h db.
Proof using Hok Hrow Hnew.
  intros Hlt. unfold view, ledger, rolled_back. simpl.
  assert (t_unspent_output (put_tx txid row db) = t_unspent_output db) as -> by by rewrite put_tx_new.
  assert (spent_above h (put_tx txid row db) = spent_above h db) as -> by by rewrite put_tx_new.
  assert (t_spent_output (put_tx txid row db) = t_spent_output db) as -> by by rewrite put_tx_new.
  assert (t_scriptpubkey_tx (put_tx txid row db) = t_scriptpubkey_tx db) as -> by by rewrite put_tx_new.
  f_equal; [f_equal; [f_equal|]|].
  - apply map_filter_ext. intros tv r Hu. simpl. rewrite put_tx_above_old; [done|].
    apply lookup_union_Some_raw in Hu as [Hu|[_ Hu]]; [|by eapply ok_unspent].
    rewrite lookup_fmap, fmap_Some in Hu. destruct Hu as (s & Hs & _).
    apply spent_above_lookup in Hs as [Hs _].
    destruct (ok_spent _ _ Hok _ _ Hs) as (t & ? & ? & _). by exists t.
  - rewrite put_tx_new. simpl. rewrite map_filter_insert_False, map_filter_delete.
    + by rewrite delete_id; [|apply map_lookup_filter_None; left].
    + simpl. change (block_above (upd_tx <[txid:=row]> db)) with (block_above db).
      rewrite (block_above_height _ _ _ _ Hrow). lia.
  - apply set_eq. intros [sh x]. rewrite !elem_of_filter. simpl.
    split; intros [Ha Hin]; (split; [|done]); revert Ha;
      rewrite put_tx_above_old by (by eapply ok_stx); done.
Qed.
End put_tx.

Lemma put_stx_db_ok top sh txid db :
  db_ok top db → is_Some (t_tx db !! txid) → db_ok top (put_stx sh txid db).
Proof.
  intros Hok Ht. split; try apply Hok. simpl. intros sh' x.
  rewrite elem_of_union, elem_of_singleton. intros [[= -> ->]|Hin]; [done|]. by eapply ok_stx.
Qed.

Lemma put_stx_view h sh txid db :
  tx_above db h txid = true → view h (put_stx sh txid db) = view h db.
Proof.
  intros Ha. unfold view, ledger, rolled_back. simpl. f_equal.
  apply set_eq. intros [sh' x]. rewrite !elem_of_filter, elem_of_union, elem_of_singleton. simpl.
  change (tx_above (put_stx sh txid db)) with (tx_above db).
  split; [|tauto]. intros [Hx [[= -> ->]|Hin]]; [congruence|done].
Qed.

Lemma put_unspent_db_ok top tv row db :
  db_ok top db → is_Some (t_tx db !! outpoint_txid tv) → t_spent_output db !! tv = None →
  db_ok top (put_unspent tv row db).
Proof.
  intros Hok Ht Hs. unfold put_unspent. destruct (t_unspent_output db !! tv) eqn:E; [done|].
  split; try apply Hok; simpl.
  - intros tv' r [[<- <-]|[_ Hu]]%lookup_insert_Some; [done|]. by eapply ok_unspent.
  - intros tv' r Hs'. rewrite lookup_insert_ne; [by eapply ok_disjoint|]. congruence.
Qed.

Lemma put_unspent_view h tv row db :
  tx_above db h (outpoint_txid tv) = true → view h (put_unspent tv row db) = view h db.
Proof.
  intros Ha. unfold put_unspent. destruct (t_unspent_output db !! tv) eqn:E; [done|].
  unfold view, ledger, rolled_back. simpl. do 3 f_equal.
  apply map_eq. intros tv'.
  change (tx_above (upd_unspent_output _ db)) with (tx_above db).
  change (spent_above h (upd_unspent_output _ db)) with (spent_above h db).
  apply option_eq. intros r. rewrite !map_lookup_filter_Some. simpl.
  destruct (decide (tv' = tv)) as [->|Hne]; [split; intros [_ ?]; congruence|].
  by rewrite !lookup_union, lookup_insert_ne.
Qed.

Section spend.
Context (h hh : Z) (tv : bytes) (row : utxoRow) (db : Database).
Hypothesis Hok : db_ok hh db.
Hypothesis Hu : t_unspent_output db !! tv = Some row.

Lemma spend_unspent_None : t_spent_output db !! tv = None.
Proof using Hok Hu.
  apply eq_None_not_Some. intros [s Hs]. by rewrite (ok_disjoint _ _ Hok _ _ Hs) in Hu.
Qed.

Lemma spend_run :
  spend tv hh db =
    upd_unspent_output (delete tv) (upd_spent_output <[tv := spend_row hh row]> db).
Proof using Hok Hu. unfold spend. by rewrite Hu, spend_unspent_None. Qed.

Lemma spend_db_ok : db_ok hh (spend tv hh db).
Proof using Hok Hu.
  rewrite spend_run. split; simpl.
  - apply Hok.
  - intros tv' r [_ ?]%lookup_delete_Some. by eapply ok_unspent.
  - intros tv' r [[<- <-]|[_ Hs]]%lookup_insert_Some; [|by apply (ok_spent _ _ Hok)].
    destruct (ok_unspent _ _ Hok _ _ Hu) as [t Ht]. destruct (ok_tx _ _ Hok _ _ Ht) as (h' & Hh & ?).
    exists t, h'. simpl. split_and!; try done; lia.
  - apply Hok.
  - intros tv' r [[<- _]|[_ Hs]]%lookup_insert_Some; [by apply lookup_delete_eq|].
    apply lookup_delete_None. right. by eapply ok_disjoint.
Qed.

Lemma spend_view : h < hh → view h (spend tv hh db) = view h db.
Proof using Hok Hu.
  intros Hlt. rewrite spend_run. unfold view, ledger, rolled_back. simpl.
  do 2 f_equal. f_equal.
  - f_equal. apply map_eq. intros tv'. unfold spent_above. simpl.
    rewrite map_filter_insert_True by (simpl; lia).
    rewrite fmap_insert, !lookup_union, !lookup_fmap.
    destruct (decide (tv' = tv)) as [->|Hne].
    + rewrite lookup_insert_eq, lookup_delete_eq, Hu.
      rewrite (proj2 (map_lookup_filter_None _ _ _)) by (left; apply spend_unspent_None).
      simpl. by destruct row.
    + by rewrite lookup_insert_ne, lookup_delete_ne, lookup_fmap by done.
  - rewrite map_filter_insert_False by (simpl; lia). rewrite delete_id; [done|].
    apply spend_unspent_None.
Qed.
End spend.

Arguments put_tx : simpl never.
Arguments put_unspent : simpl never.
Arguments spend : simpl never.
