(* ===== verification/Base58.v ===== *)
(** * Base58: the text of an extended key

    Models [Encode], [Decode], [CheckEncode] and [CheckDecode] of
    [vendor/ncody.com/ncgo.git/bitcoin/base58], which work ten digits at a time
    on a [big.Int], and [ExtendedEncode] and [ExtendedDecodeUnchecked] of
    [vendor/ncody.com/ncgo.git/bitcoin/bip32/bip32.go]. *)

From S2P Require Import Prelude Bytes Sha256 ScriptPubkey.
From Stdlib Require Import Strings.Byte.

(** ** Positional notation *)

(** The value of digits, the most significant first. *)
Definition value_of (base : Z) (ds : list Z) : Z := foldl (λ a d, base * a + d) 0 ds.

(** The digits, the least significant first, of a number below [base ^ fuel]. *)
Fixpoint digits_le (base : Z) (fuel : nat) (n : Z) : list Z :=
  match fuel with
  | O => []
  | S fuel => if n <=? 0 then [] else n mod base :: digits_le base fuel (n / base)
  end.

(** ** Encode and Decode *)

Definition alphabet : bytes := str "123456789ABCDEFGHJKLMNPQRSTUVWXYZabcdefghijkmnopqrstuvwxyz".

Definition b58table : list Z :=
  replicate 49 255 ++ [0; 1; 2; 3; 4; 5; 6; 7; 8] ++ replicate 7 255 ++
  [9; 10; 11; 12; 13; 14; 15; 16] ++ [255] ++ [17; 18; 19; 20; 21] ++ [255] ++
  [22; 23; 24; 25; 26; 27; 28; 29; 30; 31; 32] ++ replicate 6 255 ++
  [33; 34; 35; 36; 37; 38; 39; 40; 41; 42; 43] ++ [255] ++
  [44; 45; 46; 47; 48; 49; 50; 51; 52; 53; 54; 55; 56; 57] ++ replicate 133 255.

Definition bigIntermediateRadix : Z := 430804206899405824.

Definition digit_char (d : Z) : byte := nth (Z.to_nat d) alphabet x00.
Definition char_digit (c : byte) : Z := nth (Z.to_nat (b2z c)) b58table 255.

(** The inner loop of [Encode]: at most [n] digits of [primitiveNum]; [num] is
    what is left of the number. *)
Fixpoint encode_chunk (n : nat) (num primitiveNum : Z) : bytes :=
  match n with
  | O => []
  | S n =>
      if (0 <? num) || (0 <? primitiveNum) then
        digit_char (primitiveNum mod 58) :: encode_chunk n num (primitiveNum / 58)
      else []
  end.

Fixpoint encode_loop (fuel : nat) (num : Z) : bytes :=
  match fuel with
  | O => []
  | S fuel =>
      if 0 <? num then
        encode_chunk 10 (num / bigIntermediateRadix) (num mod bigIntermediateRadix) ++
        encode_loop fuel (num / bigIntermediateRadix)
      else []
  end.

(** The leading elements that are [x]. *)
Fixpoint leading (x : byte) (s : bytes) : nat :=
  match s with
  | c :: s => if bool_decide (c = x) then S (leading x s) else 0
  | [] => 0
  end.

(** [new(big.Int).SetBytes(input)] and [result.Bytes()]. *)
Definition SetBytes (input : bytes) : Z := value_of 256 (b2z <$> input).
Definition Bytes (n : Z) : bytes := z2b <$> reverse (digits_le 256 (Z.to_nat (Z.log2_up (n + 1))) n).

(** The number has fewer digits than the input has bytes, times ten. *)
Definition Encode (input : bytes) : bytes :=
  reverse (encode_loop (S (length input)) (SetBytes input) ++
           replicate (leading x00 input) (digit_char 0)).

(** The inner loop of [Decode], from the character [i] on: the digits up to the
    next multiple of ten, or at least one. *)
Fixpoint decode_chunk (first : bool) (i a m : Z) (input : bytes) : outcome (Z * Z * Z * bytes) :=
  match input with
  | [] => Ok (i, a, m, [])
  | c :: rest =>
      if first || negb (i mod 10 =? 0) then
        let tmp := char_digit c in
        if tmp =? 255 then Err (ErrMsg "invalid Base58 input string")
        else decode_chunk false (i + 1) (a * 58 + tmp) (if first then m else m * 58) rest
      else Ok (i, a, m, input)
  end.

Fixpoint decode_loop (fuel : nat) (i result : Z) (input : bytes) : outcome Z :=
  match input with
  | [] => Ok result
  | _ =>
      match fuel with
      | O => OutOfFuel
      | S fuel =>
          '(i, a, m, rest) ← decode_chunk true i 0 58 input;
          decode_loop fuel i (result * m + a) rest
      end
  end.

Definition Decode (input : bytes) : outcome bytes :=
  result ← decode_loop (length input) 0 0 input;
  Ok (replicate (leading x31 input) x00 ++ Bytes result).

Definition checksum (data : bytes) : bytes := take 4 (Sha256.Sum256 (Sha256.Sum256 data)).

Definition CheckEncode (data : bytes) : bytes := Encode (data ++ checksum data).

Definition CheckDecode (s : bytes) : outcome bytes :=
  data ← Decode s;
  if bool_decide (length data < 5)%nat then Err (ErrMsg "bad base58 data size")
  else
    let body := take (length data - 4) data in
    if bool_decide (checksum body ≠ drop (length data - 4) data) then Err (ErrMsg "bad checksum")
    else Ok body.

(** ** Extended keys *)

Definition ExtendedEncode (e : ExtendedKey) : bytes :=
  CheckEncode (Version e ++ [Depth e] ++ Fingerprint e ++ ChildNum e ++ Chaincode e ++ Key e).

Definition ExtendedDecodeUnchecked (b58x : bytes) : outcome ExtendedKey :=
  match CheckDecode b58x with
  | Ok data =>
      if bool_decide (length data ≠ 78)%nat then Err (ErrMsg "bad extended key data")
      else
        depth ← index data 4;
        Ok {| Version := take 4 data; Depth := depth; Fingerprint := take 4 (drop 5 data);
              ChildNum := take 4 (drop 9 data); Chaincode := take 32 (drop 13 data);
              Key := take 33 (drop 45 data) |}
  | Err _ => Err (ErrMsg "invalid checksum")
  | Panic p => Panic p
  | OutOfFuel => OutOfFuel
  end.

(** ** Facts of positional notation *)

Section notation.
Context (base : Z) (Hbase : 2 ≤ base).

Definition digits_ok (ds : list Z) : Prop := Forall (λ d, 0 ≤ d < base) ds.

Lemma value_snoc ds d : value_of base (ds ++ [d]) = base * value_of base ds + d.
Proof using Type. unfold value_of. by rewrite foldl_app. Qed.

Lemma value_zeros n ds : value_of base (replicate n 0 ++ ds) = value_of base ds.
Proof using Type.
  induction n as [|n IH]; [done|]. cbn [replicate app]. rewrite <- IH. unfold value_of. cbn [foldl].
  f_equal. lia.
Qed.

Lemma value_nonneg ds : digits_ok ds → 0 ≤ value_of base ds < base ^ length ds.
Proof using Hbase.
  induction ds as [|d ds IH] using rev_ind; [done|]. intros [Hds Hd]%Forall_app.
  apply Forall_cons in Hd as [Hd _]. specialize (IH Hds). rewrite value_snoc, length_app. simpl length.
  replace (length ds + 1)%nat with (S (length ds)) by lia. rewrite Nat2Z.inj_succ, Z.pow_succ_r by lia.
  generalize dependent (value_of base ds). generalize (base ^ length ds). intros P v Hv.
  assert (base * v ≤ base * (P - 1)) by (apply Z.mul_le_mono_nonneg_l; lia).
  assert (0 ≤ base * v) by (apply Z.mul_nonneg_nonneg; lia). lia.
Qed.

(** The digits without leading zeros are the digits of their value. *)
Lemma digits_value fuel ds :
  digits_ok ds → head ds ≠ Some 0 → (length ds ≤ fuel)%nat →
  digits_le base fuel (value_of base ds) = reverse ds.
Proof using Hbase.
  revert fuel. induction ds as [|d ds IH] using rev_ind; intros fuel Hok Hh Hl.
  { by destruct fuel. }
  rewrite length_app in Hl. simpl in Hl. destruct fuel as [|fuel]; [lia|].
  apply Forall_app in Hok as [Hds Hd]. apply Forall_cons in Hd as [Hd _].
  rewrite value_snoc, reverse_snoc. pose proof (value_nonneg ds Hds) as Hv.
  assert (0 < base * value_of base ds + d) as Hpos.
  { destruct ds as [|d0 ds]; [unfold value_of; simpl; assert (d ≠ 0) by (by intros ->); lia|].
    assert (0 < value_of base (d0 :: ds)); [|nia].
    change (d0 :: ds) with ([d0] ++ ds) in *. clear -Hds Hh Hbase.
    assert (d0 ≠ 0) by (by intros ->). apply Forall_cons in Hds as [Hd0 Hds].
    induction ds as [|x ds IH] using rev_ind; [unfold value_of; simpl; lia|].
    apply Forall_app in Hds as [Hds Hx]. apply Forall_cons in Hx as [Hx _].
    rewrite (assoc_L (++)), value_snoc. specialize (IH Hds Hh). nia. }
  cbn [digits_le]. rewrite (proj2 (Z.leb_gt _ _)) by lia. f_equal.
  - rewrite Z.mul_comm, Z.add_comm, Z.mod_add by lia. by apply Z.mod_small.
  - rewrite Z.mul_comm, Z.div_add_l by lia. rewrite Z.div_small, Z.add_0_r by lia.
    apply IH; [done| |lia]. by destruct ds.
Qed.

Lemma digits_ok_le fuel n : digits_ok (digits_le base fuel n).
Proof using Hbase.
  revert n. induction fuel as [|fuel IH]; intros n; [constructor|]. cbn [digits_le].
  case_match; constructor; [apply Z.mod_pos_bound; lia|apply IH].
Qed.

(** More fuel does not change the digits. *)
Lemma digits_fuel (fuel fuel' : nat) n :
  n < base ^ fuel → n < base ^ fuel' → digits_le base fuel n = digits_le base fuel' n.
Proof using Hbase.
  revert fuel' n. induction fuel as [|fuel IH]; intros [|fuel'] n H1 H2; [done|..].
  - cbn [digits_le]. rewrite (proj2 (Z.leb_le _ _)); [done|]. simpl in H1. lia.
  - cbn [digits_le]. rewrite (proj2 (Z.leb_le _ _)); [done|]. simpl in H2. lia.
  - cbn [digits_le]. destruct (Z.leb_spec n 0); [done|]. f_equal.
    rewrite !Nat2Z.inj_succ, !Z.pow_succ_r in * by lia.
    apply IH; apply Z.div_lt_upper_bound; lia.
Qed.

Lemma value_digits (fuel : nat) n :
  0 ≤ n → n < base ^ fuel → value_of base (reverse (digits_le base fuel n)) = n.
Proof using Hbase.
  revert n. induction fuel as [|fuel IH]; intros n Hn Hf; [simpl in *; unfold value_of; simpl; lia|].
  cbn [digits_le]. destruct (Z.leb_spec n 0); [unfold value_of; simpl; lia|].
  rewrite reverse_cons, value_snoc, IH.
  - rewrite <- Z.div_mod by lia. done.
  - apply Z.div_pos; lia.
  - rewrite Nat2Z.inj_succ, Z.pow_succ_r in Hf by lia. apply Z.div_lt_upper_bound; lia.
Qed.

(** The most significant digit is not zero. *)
Lemma digits_head (fuel : nat) n :
  n < base ^ fuel → head (reverse (digits_le base fuel n)) ≠ Some 0.
Proof using Hbase.
  revert n. induction fuel as [|fuel IH]; intros n Hf; [done|]. cbn [digits_le].
  destruct (Z.leb_spec n 0); [done|]. rewrite reverse_cons.
  assert (n / base < base ^ fuel) as Hq.
  { rewrite Nat2Z.inj_succ, Z.pow_succ_r in Hf by lia. apply Z.div_lt_upper_bound; lia. }
  specialize (IH _ Hq). destruct (reverse (digits_le base fuel (n / base))) as [|d ds] eqn:E; [|done].
  simpl. intros [= Hz]. apply (f_equal reverse) in E. rewrite reverse_involutive in E.
  assert (n / base ≤ 0) as Hle.
  { destruct fuel; [simpl in Hq; lia|]. cbn [digits_le] in E. by destruct (Z.leb_spec (n / base) 0). }
  assert (n / base = 0) as Hq0 by (pose proof (Z.div_pos n base); lia).
  pose proof (Z.div_mod n base ltac:(lia)). lia.
Qed.
End notation.

(** ** Characters *)

Lemma digit_char_spec d : 0 ≤ d < 58 →
  char_digit (digit_char d) = d ∧ (digit_char d = x31 → d = 0).
Proof.
  intros Hd. assert (Forall (λ d, char_digit (digit_char d) = d ∧ (digit_char d = x31 → d = 0)) (seqZ 0 58)) as H.
  { apply (bool_decide_unpack _). vm_compute. exact I. }
  rewrite Forall_forall in H. apply H. apply elem_of_seqZ. lia.
Qed.

Lemma digit_chars ds : digits_ok 58 ds → (char_digit <$> (digit_char <$> ds)) = ds.
Proof.
  induction 1 as [|d ds Hd Hds IH]; [done|]. rewrite !fmap_cons, IH. f_equal. by apply digit_char_spec.
Qed.

(** ** Encode *)

Lemma encode_chunk_digits (n F : nat) q r :
  0 ≤ q → 0 ≤ r < 58 ^ n →
  encode_chunk n q r ++ (digit_char <$> digits_le 58 F q) = digit_char <$> digits_le 58 (n + F) (q * 58 ^ n + r).
Proof.
  revert r. induction n as [|n IH]; intros r Hq Hr.
  { simpl in Hr. replace (q * 58 ^ 0%nat + r) with q by (simpl; lia). done. }
  rewrite Nat2Z.inj_succ, Z.pow_succ_r in * by lia.
  assert (0 < 58 ^ n) as HP by (apply Z.pow_pos_nonneg; lia).
  cbn [encode_chunk Nat.add digits_le].
  destruct (Z.leb_spec (q * (58 * 58 ^ n) + r) 0) as [Hz|Hz].
  - assert (q = 0 ∧ r = 0) as [-> ->] by nia. cbn. by destruct F.
  - assert ((0 <? q) || (0 <? r) = true) as ->.
    { apply orb_true_iff. rewrite !Z.ltb_lt. destruct (Z.eq_dec q 0) as [->|]; lia. }
    cbn [app]. rewrite fmap_cons. f_equal.
    + f_equal. replace (q * (58 * 58 ^ n) + r) with (r + q * 58 ^ n * 58) by lia. by rewrite Z.mod_add.
    + rewrite IH; [|lia|split; [apply Z.div_pos|apply Z.div_lt_upper_bound]; lia].
      do 2 f_equal. replace (q * (58 * 58 ^ n) + r) with (q * 58 ^ n * 58 + r) by lia.
      by rewrite Z.div_add_l.
Qed.

Lemma encode_loop_digits (fuel : nat) num :
  0 ≤ num < 58 ^ (10 * fuel)%nat →
  encode_loop fuel num = digit_char <$> digits_le 58 (10 * fuel) num.
Proof.
  revert num. induction fuel as [|fuel IH]; intros num Hn; [done|].
  replace (10 * S fuel)%nat with (10 + 10 * fuel)%nat in * by lia. cbn [encode_loop].
  destruct (Z.ltb_spec 0 num) as [Hp|Hp].
  - change bigIntermediateRadix with (58 ^ 10%nat).
    rewrite Nat2Z.inj_add, Z.pow_add_r in Hn by lia.
    rewrite IH by (split; [apply Z.div_pos|apply Z.div_lt_upper_bound]; lia).
    rewrite encode_chunk_digits; [|apply Z.div_pos; lia|apply Z.mod_pos_bound; lia].
    do 2 f_equal. rewrite (Z.mul_comm (num / _)). symmetry. apply Z.div_mod. lia.
  - assert (num = 0) as -> by lia. done.
Qed.

(** What follows the leading bytes. *)
Lemma leading_split x s : ∃ t, s = replicate (leading x s) x ++ t ∧ head t ≠ Some x.
Proof.
  induction s as [|c s (t & IH & Ht)]; [by exists []|]. cbn [leading]. case_bool_decide as Hc.
  - subst c. exists t. simpl. by rewrite <- IH.
  - exists (c :: s). split; [done|]. simpl. congruence.
Qed.

Lemma leading_replicate x n t : head t ≠ Some x → leading x (replicate n x ++ t) = n.
Proof.
  intros Ht. induction n as [|n IH].
  - destruct t as [|c t]; [done|]. simpl. rewrite bool_decide_eq_false_2; [done|]. by intros ->.
  - cbn [replicate app leading]. rewrite bool_decide_eq_true_2 by done. by rewrite IH.
Qed.

Lemma bytes_digits_ok (s : bytes) : digits_ok 256 (b2z <$> s).
Proof. apply Forall_fmap, Forall_forall. intros c _. simpl. pose proof (b2z_range c). lia. Qed.

Lemma SetBytes_bound (s : bytes) : 0 ≤ SetBytes s < 256 ^ length s.
Proof.
  unfold SetBytes. pose proof (value_nonneg 256 ltac:(lia) _ (bytes_digits_ok s)) as H.
  by rewrite length_fmap in H.
Qed.

(** The digits of the number, most significant first. *)
Definition digits58 (input : bytes) : list Z := reverse (digits_le 58 (10 * S (length input)) (SetBytes input)).

Lemma SetBytes_bound58 (s : bytes) : SetBytes s < 58 ^ (10 * S (length s))%nat.
Proof.
  pose proof (SetBytes_bound s) as [_ H]. eapply Z.lt_le_trans; [exact H|].
  rewrite Nat2Z.inj_mul, Z.pow_mul_r by lia. trans ((58 ^ 10%nat) ^ length s).
  - apply Z.pow_le_mono_l. split; [lia|]. vm_compute. discriminate.
  - apply Z.pow_le_mono_r; [vm_compute; reflexivity|lia].
Qed.

Lemma Encode_digits input :
  Encode input = digit_char <$> (replicate (leading x00 input) 0 ++ digits58 input).
Proof.
  unfold Encode, digits58. rewrite encode_loop_digits by (split; [apply SetBytes_bound|apply SetBytes_bound58]).
  rewrite reverse_app, reverse_replicate, fmap_app, fmap_replicate, fmap_reverse. done.
Qed.

Lemma Encode_digits_ok input : digits_ok 58 (replicate (leading x00 input) 0 ++ digits58 input).
Proof.
  apply Forall_app. split.
  - apply Forall_replicate. lia.
  - apply Forall_reverse, digits_ok_le. lia.
Qed.

(** ** Decode *)

Lemma foldl_value r ds :
  foldl (λ a d, 58 * a + d) r ds = r * 58 ^ length ds + value_of 58 ds.
Proof.
  induction ds as [|d ds IH] using rev_ind; [unfold value_of; simpl; lia|].
  rewrite foldl_app, value_snoc, IH, length_app. simpl length.
  replace (length ds + 1)%nat with (S (length ds)) by lia. rewrite Nat2Z.inj_succ, Z.pow_succ_r by lia.
  cbn [foldl]. lia.
Qed.

Lemma decode_chunk_digits ds i a m :
  digits_ok 58 ds →
  ∃ ds1 ds2 i', ds = ds1 ++ ds2 ∧
    decode_chunk false i a m (digit_char <$> ds) =
      Ok (i', foldl (λ a d, 58 * a + d) a ds1, m * 58 ^ length ds1, digit_char <$> ds2).
Proof.
  revert i a m. induction ds as [|d ds IH]; intros i a m Hok.
  { exists [], [], i. split; [done|]. simpl. do 3 f_equal. lia. }
  apply Forall_cons in Hok as [Hd Hok]. rewrite fmap_cons. cbn [decode_chunk orb].
  destruct (i mod 10 =? 0); cbn [negb].
  { exists [], (d :: ds), i. split; [done|]. simpl. do 3 f_equal. lia. }
  destruct (digit_char_spec d Hd) as [-> _]. rewrite (proj2 (Z.eqb_neq _ _)) by lia.
  destruct (IH (i + 1) (a * 58 + d) (m * 58) Hok) as (ds1 & ds2 & i' & -> & ->).
  exists (d :: ds1), ds2, i'. split; [done|]. cbn [foldl length].
  rewrite Nat2Z.inj_succ, Z.pow_succ_r by lia. do 3 f_equal; [|lia]. do 3 f_equal. lia.
Qed.

Lemma decode_loop_digits fuel ds i result :
  digits_ok 58 ds → (length ds ≤ fuel)%nat →
  decode_loop fuel i result (digit_char <$> ds) = Ok (foldl (λ a d, 58 * a + d) result ds).
Proof.
  revert ds i result. induction fuel as [|fuel IH]; intros [|d ds] i result Hok Hl;
    [done|simpl in Hl; lia|done|].
  apply Forall_cons in Hok as [Hd Hok]. rewrite fmap_cons. cbn [decode_loop decode_chunk orb].
  destruct (digit_char_spec d Hd) as [-> _]. rewrite (proj2 (Z.eqb_neq _ _)) by lia.
  destruct (decode_chunk_digits ds (i + 1) (0 * 58 + d) 58 Hok) as (ds1 & ds2 & i' & -> & ->).
  run_outcome. apply Forall_app in Hok as [Hok1 Hok2].
  rewrite IH; [|done|simpl in Hl; rewrite length_app in Hl; lia]. f_equal.
  change (d :: ds1 ++ ds2) with ((d :: ds1) ++ ds2). rewrite foldl_app. f_equal.
  rewrite (foldl_value result), foldl_value. cbn [length].
  rewrite Nat2Z.inj_succ, Z.pow_succ_r by lia.
  assert (value_of 58 (d :: ds1) = d * 58 ^ length ds1 + value_of 58 ds1) as ->.
  { change (value_of 58 (d :: ds1)) with (foldl (λ a d, 58 * a + d) (58 * 0 + d) ds1).
    rewrite foldl_value. lia. }
  lia.
Qed.

Lemma z2b_b2z_list (s : bytes) : z2b <$> (b2z <$> s) = s.
Proof. induction s as [|c s IH]; [done|]. by rewrite !fmap_cons, IH, z2b_b2z. Qed.

Lemma Bytes_SetBytes rest : head rest ≠ Some x00 → Bytes (SetBytes rest) = rest.
Proof.
  intros Hh. unfold Bytes. pose proof (SetBytes_bound rest) as [H0 Hl].
  rewrite (digits_fuel 256 ltac:(lia) _ (length rest)); [|..|done].
  - unfold SetBytes. rewrite digits_value; [|lia|apply bytes_digits_ok| |by rewrite length_fmap].
    + by rewrite reverse_involutive, z2b_b2z_list.
    + destruct rest as [|c rest]; [done|]. simpl. intros [= Hz]. apply Hh. simpl. f_equal.
      by rewrite <- (z2b_b2z c), Hz.
  - rewrite Z2Nat.id by apply Z.log2_up_nonneg.
    assert (SetBytes rest + 1 ≤ 2 ^ Z.log2_up (SetBytes rest + 1)) as H2.
    { destruct (Z.eq_dec (SetBytes rest) 0) as [->|]; [done|]. apply Z.log2_up_spec. lia. }
    assert (2 ^ Z.log2_up (SetBytes rest + 1) ≤ 256 ^ Z.log2_up (SetBytes rest + 1)).
    { apply Z.pow_le_mono_l. lia. }
    lia.
Qed.

Lemma Decode_Encode input : Decode (Encode input) = Ok input.
Proof.
  unfold Decode. rewrite Encode_digits. pose proof (Encode_digits_ok input) as Hok.
  rewrite decode_loop_digits by (done || by rewrite length_fmap). run_outcome. f_equal.
  change (foldl _ 0 ?l) with (value_of 58 l). rewrite value_zeros.
  unfold digits58 at 2. rewrite value_digits; [|lia|apply SetBytes_bound|apply SetBytes_bound58].
  destruct (leading_split x00 input) as (rest & Hs & Hh).
  assert (SetBytes input = SetBytes rest) as HS.
  { trans (SetBytes (replicate (leading x00 input) x00 ++ rest)); [by rewrite <- Hs|]. unfold SetBytes. rewrite fmap_app, fmap_replicate. apply value_zeros. }
  rewrite HS, Bytes_SetBytes by done. rewrite fmap_app, fmap_replicate.
  change (digit_char 0) with x31. rewrite leading_replicate; [by rewrite <- Hs|].
  intros Hx. pose proof (digits_head 58 ltac:(lia) _ _ (SetBytes_bound58 input)) as Hd.
  unfold digits58 in *. assert (digits_ok 58 (reverse (digits_le 58 (10 * S (length input)) (SetBytes input)))) as Hds.
  { apply Forall_reverse, digits_ok_le. lia. }
  destruct (reverse (digits_le 58 (10 * S (length input)) (SetBytes input))) as [|d ds]; [done|].
  apply Forall_cons in Hds as [Hd0 _]. apply Hd. simpl in *. injection Hx as Hx.
  f_equal. by apply digit_char_spec.
Qed.

(** ** Keys *)

Lemma length_checksum data : length (checksum data) = 4%nat.
Proof. unfold checksum. rewrite length_take, Sha256.length_Sum256. done. Qed.

Lemma CheckDecode_CheckEncode data : data ≠ [] → CheckDecode (CheckEncode data) = Ok data.
Proof.
  intros Hne. unfold CheckDecode, CheckEncode. rewrite Decode_Encode. run_outcome.
  rewrite length_app, length_checksum. rewrite bool_decide_eq_false_2.
  2: { destruct data; [done|]. simpl. lia. }
  replace (length data + 4 - 4)%nat with (length data) by lia.
  rewrite take_app_length, drop_app_length. by rewrite bool_decide_eq_false_2 by (intros HF; by apply HF).
Qed.

(** The arrays of an extended key have their lengths. *)
Definition key_ok (e : ExtendedKey) : Prop :=
  length (Version e) = 4%nat ∧ length (Fingerprint e) = 4%nat ∧ length (ChildNum e) = 4%nat ∧
  length (Chaincode e) = 32%nat ∧ length (Key e) = 33%nat.

Lemma ExtendedDecode_Encode e : key_ok e → ExtendedDecodeUnchecked (ExtendedEncode e) = Ok e.
Proof.
  destruct e as [v d f c cc k]. intros (Hv & Hf & Hc & Hcc & Hk). simpl in *.
  unfold ExtendedDecodeUnchecked, ExtendedEncode. cbn [Version Depth Fingerprint ChildNum Chaincode Key].
  rewrite CheckDecode_CheckEncode by by destruct v. rewrite bool_decide_eq_false_2.
  2: { intros H. apply H. rewrite !length_app, Hv, Hf, Hc, Hcc, Hk. done. }
  assert (index (v ++ [d] ++ f ++ c ++ cc ++ k) 4 = Ok d) as ->.
  { apply index_Some. rewrite lookup_app_r, Hv by lia. done. }
  run_outcome. do 2 f_equal.
  - by apply take_app_length'.
  - rewrite (assoc_L (++)), drop_app_length' by (rewrite length_app, Hv; done). by apply take_app_length'.
  - do 2 rewrite (assoc_L (++)). rewrite drop_app_length' by (rewrite !length_app, Hv, Hf; done).
    by apply take_app_length'.
  - do 3 rewrite (assoc_L (++)). rewrite drop_app_length' by (rewrite !length_app, Hv, Hf, Hc; done).
    by apply take_app_length'.
  - do 4 rewrite (assoc_L (++)). rewrite drop_app_length' by (rewrite !length_app, Hv, Hf, Hc, Hcc; done).
    by rewrite take_ge by lia.
Qed.

(** The characters of an encoded text. *)
Lemma Encode_alphabet input : Forall (λ c, c ∈ alphabet) (Encode input).
Proof.
  rewrite Encode_digits. pose proof (Encode_digits_ok input) as Hok. apply Forall_fmap.
  eapply Forall_impl; [exact Hok|]. intros d Hd. cbn beta in Hd. unfold compose, digit_char.
  apply list_elem_of_In, nth_In. change (length alphabet) with 58%nat.
  apply Nat2Z.inj_lt. rewrite Z2Nat.id; [apply Hd|apply Hd].
Qed.
