(* ===== verification/Wallet.v ===== *)
(** * Wallet: the state of the wallet manager and its script index

    Models the types of [src/walletmanager/walletmanager.go], its constants in
    [properties.go], and the functions that keep the index of script hashes:
    [setupWallet], [walletUpdateIndexes], [refillWallet],
    [deriveScriptPubkeys], [walletHash] and [makeTxidVout]. *)

From S2P Require Import Prelude Bytes Sha256 BitcoinTypes ScriptPubkey Database Repository.

(** ** Types *)

Definition gap : Z := 2000.

Inductive accountKind := receiveAccount | changeAccount.
#[export] Instance accountKind_eq_decision : EqDecision accountKind.
Proof. solve_decision. Defined.
Definition account_index (a : accountKind) : Z :=
  match a with receiveAccount => 0 | changeAccount => 1 end.

Record wallet := {
  kind : Kind;
  reqSigs : Z;                 (* byte *)
  masterPubs : list ExtendedKey;
  nextReceiveIndex : Z;        (* uint32 *)
  nReceiveDerived : Z;         (* uint32 *)
  nextChangeIndex : Z;         (* uint32 *)
  nChangeDerived : Z;          (* uint32 *)
  height : Z;
  hash : bytes;                (* [32]byte *)
}.

Record scriptPubkeyInfo := {
  walletIdx : nat;
  account : accountKind;
  pubkeyIdx : Z;               (* uint32 *)
}.

Record WalletConfig := {
  wc_Kind : Kind;
  wc_Reqsigs : Z;              (* byte *)
  wc_MasterPubs : list ExtendedKey;
  wc_Height : Z;
}.

(** The networks of [bitcoin.Network]. *)
Inductive Network := Mainnet | Testnet | Regtest.

#[export] Instance Network_eq_dec : EqDecision Network.
Proof. solve_decision. Defined.

(** The subscription callbacks are the closures of
    [src/electrum/handlers.go], represented by the variables they capture. *)
Inductive headerCallback := NotifyHeaders (connId : Z).
Inductive statusCallback := NotifyScriptHash (connId : Z) (sh : bytes).

(** The calls made to the callbacks, with their arguments. *)
Inductive event :=
  | HeaderEvent (cb : headerCallback) (height : Z) (header : bytes)
  | StatusEvent (cb : statusCallback) (status : bytes).

(** The state that [W] guards with its mutex.  [calls] counts the calls made to
    the Bitcoin node, and [events] are the callback calls made so far. *)
Record W := {
  repo : repository;
  net : Network;
  bestHeader : Z;
  bestHeaderHash : bytes;
  wallets : list wallet;
  scriptPubkeys : gmap bytes scriptPubkeyInfo;
  shSubs : gmap bytes (gmap Z statusCallback);
  hSubs : gmap Z headerCallback;
  calls : nat;
  events : list event;
}.

Definition upd_repo f (w : W) : W := {|
  repo := f (repo w); net := net w; bestHeader := bestHeader w;
  bestHeaderHash := bestHeaderHash w; wallets := wallets w; scriptPubkeys := scriptPubkeys w;
  shSubs := shSubs w; hSubs := hSubs w; calls := calls w; events := events w |}.
Definition set_best (h : Z) (hs : bytes) (w : W) : W := {|
  repo := repo w; net := net w; bestHeader := h;
  bestHeaderHash := hs; wallets := wallets w; scriptPubkeys := scriptPubkeys w;
  shSubs := shSubs w; hSubs := hSubs w; calls := calls w; events := events w |}.
Definition upd_wallets f (w : W) : W := {|
  repo := repo w; net := net w; bestHeader := bestHeader w;
  bestHeaderHash := bestHeaderHash w; wallets := f (wallets w); scriptPubkeys := scriptPubkeys w;
  shSubs := shSubs w; hSubs := hSubs w; calls := calls w; events := events w |}.
Definition upd_scriptPubkeys f (w : W) : W := {|
  repo := repo w; net := net w; bestHeader := bestHeader w;
  bestHeaderHash := bestHeaderHash w; wallets := wallets w; scriptPubkeys := f (scriptPubkeys w);
  shSubs := shSubs w; hSubs := hSubs w; calls := calls w; events := events w |}.
Definition upd_shSubs f (w : W) : W := {|
  repo := repo w; net := net w; bestHeader := bestHeader w;
  bestHeaderHash := bestHeaderHash w; wallets := wallets w; scriptPubkeys := scriptPubkeys w;
  shSubs := f (shSubs w); hSubs := hSubs w; calls := calls w; events := events w |}.
Definition upd_hSubs f (w : W) : W := {|
  repo := repo w; net := net w; bestHeader := bestHeader w;
  bestHeaderHash := bestHeaderHash w; wallets := wallets w; scriptPubkeys := scriptPubkeys w;
  shSubs := shSubs w; hSubs := f (hSubs w); calls := calls w; events := events w |}.
Definition tick (w : W) : W := {|
  repo := repo w; net := net w; bestHeader := bestHeader w;
  bestHeaderHash := bestHeaderHash w; wallets := wallets w; scriptPubkeys := scriptPubkeys w;
  shSubs := shSubs w; hSubs := hSubs w; calls := S (calls w); events := events w |}.
Definition emit (e : list event) (w : W) : W := {|
  repo := repo w; net := net w; bestHeader := bestHeader w;
  bestHeaderHash := bestHeaderHash w; wallets := wallets w; scriptPubkeys := scriptPubkeys w;
  shSubs := shSubs w; hSubs := hSubs w; calls := calls w; events := events w ++ e |}.

(** A call of the repository. *)
Definition on_repo {A} (m : M repository A) : M W A := zoom repo (λ r, upd_repo (λ _, r)) m.

Definition get_wallet (i : nat) : M W wallet := ws ← gets wallets; lift_outcome (index ws i).
Definition set_wallet (i : nat) (wl : wallet) : M W unit := modify (upd_wallets <[i := wl]>).

Definition set_next_receive (n : Z) (wl : wallet) : wallet := {|
  kind := kind wl; reqSigs := reqSigs wl; masterPubs := masterPubs wl;
  nextReceiveIndex := n; nReceiveDerived := nReceiveDerived wl;
  nextChangeIndex := nextChangeIndex wl; nChangeDerived := nChangeDerived wl;
  height := height wl; hash := hash wl |}.
Definition set_next_change (n : Z) (wl : wallet) : wallet := {|
  kind := kind wl; reqSigs := reqSigs wl; masterPubs := masterPubs wl;
  nextReceiveIndex := nextReceiveIndex wl; nReceiveDerived := nReceiveDerived wl;
  nextChangeIndex := n; nChangeDerived := nChangeDerived wl;
  height := height wl; hash := hash wl |}.
Definition set_receive_derived (n : Z) (wl : wallet) : wallet := {|
  kind := kind wl; reqSigs := reqSigs wl; masterPubs := masterPubs wl;
  nextReceiveIndex := nextReceiveIndex wl; nReceiveDerived := n;
  nextChangeIndex := nextChangeIndex wl; nChangeDerived := nChangeDerived wl;
  height := height wl; hash := hash wl |}.
Definition set_change_derived (n : Z) (wl : wallet) : wallet := {|
  kind := kind wl; reqSigs := reqSigs wl; masterPubs := masterPubs wl;
  nextReceiveIndex := nextReceiveIndex wl; nReceiveDerived := nReceiveDerived wl;
  nextChangeIndex := nextChangeIndex wl; nChangeDerived := n;
  height := height wl; hash := hash wl |}.
Definition set_height (h : Z) (wl : wallet) : wallet := {|
  kind := kind wl; reqSigs := reqSigs wl; masterPubs := masterPubs wl;
  nextReceiveIndex := nextReceiveIndex wl; nReceiveDerived := nReceiveDerived wl;
  nextChangeIndex := nextChangeIndex wl; nChangeDerived := nChangeDerived wl;
  height := h; hash := hash wl |}.

(** The counters of an account. *)
Definition nextIndex (acc : accountKind) (wl : wallet) : Z :=
  match acc with receiveAccount => nextReceiveIndex wl | changeAccount => nextChangeIndex wl end.
Definition nDerived (acc : accountKind) (wl : wallet) : Z :=
  match acc with receiveAccount => nReceiveDerived wl | changeAccount => nChangeDerived wl end.
Definition set_derived (acc : accountKind) : Z → wallet → wallet :=
  match acc with receiveAccount => set_receive_derived | changeAccount => set_change_derived end.

(** ** Hashes and outpoints *)

(** The text that identifies a wallet. *)
Definition walletHash_input (k : Kind) (reqsigs : Z) (masterKeys : list ExtendedKey) : bytes :=
  [z2b (kind_byte k)] ++ [z2b reqsigs] ++ (masterKeys ≫= Key).

Definition walletHash (k : Kind) (reqsigs : Z) (masterKeys : list ExtendedKey) : bytes :=
  Sha256.Sum256 (walletHash_input k reqsigs masterKeys).

(** [copy(out[:], txid[:])], then the index over the last four bytes. *)
Definition makeTxidVout (txid : bytes) (vout : Z) : bytes :=
  take 32 (copy_into (zeroes 36) txid) ++ uint32SerializeLE vout.

(** ** Deriving scripts *)

Section derive.
Context `{Bip32}.

Definition deriveScriptPubkeys (w : wallet) (acc : accountKind) (offset count : Z)
    : outcome (list bytes) :=
  accountKeys ← mapM (λ k, DeriveXpub k [account_index acc]) (masterPubs w);
  MakeMulti (kind w) (reqSigs w) offset count accountKeys.

(** [offAndCount] of [refillWallet], on uint32. *)
Definition offAndCount (next derived : Z) : Z * Z :=
  let nTarget := uint32_wrap (next + gap) in
  if nTarget <=? derived then (0, 0)
  else (derived, nTarget - derived).

(** [addToSKIdx]: the scripts are numbered from [nDerivedPrev] on. *)
Fixpoint addToSKIdx (wIdx : nat) (acc : accountKind) (nDerivedPrev : Z)
    (scripts : list bytes) (m : gmap bytes scriptPubkeyInfo) : gmap bytes scriptPubkeyInfo :=
  match scripts with
  | [] => m
  | p :: scripts =>
      addToSKIdx wIdx acc (uint32_wrap (nDerivedPrev + 1)) scripts
        (<[Sha256.Sum256 p := {| walletIdx := wIdx; account := acc;
                                pubkeyIdx := nDerivedPrev |}]> m)
  end.

(** The two halves of [refillWallet] are the same text on the fields of the
    two accounts. *)
Definition refillAccount (wIdx : nat) (acc : accountKind) : M W unit :=
  wl ← get_wallet wIdx;
  let '(offset, count) := offAndCount (nextIndex acc wl) (nDerived acc wl) in
  if bool_decide (count ≠ 0) then
    pubkeys ← lift_outcome (deriveScriptPubkeys wl acc offset count);
    modify (upd_scriptPubkeys (addToSKIdx wIdx acc (nDerived acc wl) pubkeys)) ;;
    set_wallet wIdx (set_derived acc (uint32_wrap (nDerived acc wl + count)) wl)
  else mret tt.

Definition refillWallet (wIdx : nat) : M W unit :=
  refillAccount wIdx receiveAccount ;; refillAccount wIdx changeAccount.

(** ** Wallet indexes *)

Definition walletUpdateIndexes (info : scriptPubkeyInfo) : M W unit :=
  wl ← get_wallet (walletIdx info);
  match account info with
  | receiveAccount =>
      if pubkeyIdx info <? nextReceiveIndex wl then mret tt
      else
        on_repo (updateWalletIndexes (hash wl) (uint32_wrap (pubkeyIdx info + 1))
                   (nextChangeIndex wl)) ;;
        set_wallet (walletIdx info)
          (set_next_receive (uint32_wrap (pubkeyIdx info + 1)) wl)
  | changeAccount =>
      if pubkeyIdx info <? nextChangeIndex wl then mret tt
      else
        on_repo (updateWalletIndexes (hash wl) (nextReceiveIndex wl)
                   (uint32_wrap (pubkeyIdx info + 1))) ;;
        set_wallet (walletIdx info)
          (set_next_change (uint32_wrap (pubkeyIdx info + 1)) wl)
  end.

(** ** Setting wallets up *)

(** The error of [refillWallet] is dropped, as in the code. *)
Definition ignore_error {A} (m : M W A) : M W unit :=
  λ w, match m w with
       | (Panic p, w') => (Panic p, w')
       | (OutOfFuel, w') => (OutOfFuel, w')
       | (_, w') => (Ok tt, w')
       end.

Definition setupWallet (i : nat) (wc : WalletConfig) : M W unit :=
  let whash := walletHash (wc_Kind wc) (wc_Reqsigs wc) (wc_MasterPubs wc) in
  wdata ← (λ w : W,
    match on_repo (selectWalletData whash) w with
    | (Err ErrNoRows, w') =>
        let wdata := {| wd_Hash := whash; wd_Height := wc_Height wc;
                        wd_NextReceiveIndex := 0; wd_NextChangeIndex := 0 |} in
        (on_repo (insertWalletData wdata) ;; mret wdata) w'
    | r => r
    end);
  set_wallet i {|
    kind := wc_Kind wc; reqSigs := wc_Reqsigs wc; masterPubs := wc_MasterPubs wc;
    nextReceiveIndex := wd_NextReceiveIndex wdata; nReceiveDerived := 0;
    nextChangeIndex := wd_NextChangeIndex wdata; nChangeDerived := 0;
    height := wd_Height wdata; hash := whash |} ;;
  ignore_error (refillWallet i).
End derive.
