(* ===== verification/Config.v ===== *)
(** * Config: the wallets of the environment

    Models [getWallets] and [wLoad] of [src/cmd/eps-go/main.go], with
    [KindFromString] of scriptpubkey.go and what they use of [strings] and
    [strconv].  A variable is [WALLET...=[height ]kind [reqsigs ]key key ...]. *)

From S2P Require Import Prelude Bytes Json Sha256 ScriptPubkey Base58.
From S2P Require Import Database Repository Wallet.
From Stdlib Require Import Strings.Byte.

(** ** strings *)

(** [strings.Split(s, sep)] with a separator of one byte. *)
Fixpoint Split (sep : byte) (s : bytes) : list bytes :=
  match s with
  | [] => [[]]
  | c :: s =>
      let parts := Split sep s in
      if bool_decide (c = sep) then [] :: parts
      else match parts with
           | p :: parts => (c :: p) :: parts
           | [] => [[c]]
           end
  end.

(** [strings.HasPrefix]. *)
Definition HasPrefix (s prefix : bytes) : bool := bool_decide (take (length prefix) s = prefix).

(** [strings.ToLower], as far as a comparison with ASCII text can tell: the one
    letter outside ASCII with a lower case in it is the sign of the kelvin, the
    bytes e2 84 aa (the dotted capital I is no letter of a kind). *)
Fixpoint ToLower (s : bytes) : bytes :=
  match s with
  | xe2 :: x84 :: xaa :: s => x6b :: ToLower s
  | c :: s => (if (65 <=? b2z c) && (b2z c <=? 90) then z2b (b2z c + 32) else c) :: ToLower s
  | [] => []
  end.

(** ** strconv *)

Inductive num_error := ErrSyntax | ErrRange.

(** The loop of [ParseUint]: a digit that makes the number too large ends it. *)
Fixpoint ParseUint_loop (maxVal n : Z) (s : bytes) : Z * option num_error :=
  match s with
  | [] => (n, None)
  | c :: s =>
      if isDigit c then
        let n := 10 * n + digit_value c in
        if maxVal <? n then (maxVal, Some ErrRange) else ParseUint_loop maxVal n s
      else (0, Some ErrSyntax)
  end.

(** [strconv.ParseInt(s, 10, bits)]: the value, with the error or without. *)
Definition ParseIntValue (bits : Z) (s : bytes) : Z * option num_error :=
  match s with
  | [] => (0, Some ErrSyntax)
  | c :: rest =>
      let '(neg, ds) :=
        if bool_decide (c = x2d) then (true, rest) else if bool_decide (c = x2b) then (false, rest) else (false, s) in
      match ds with
      | [] => (0, Some ErrSyntax)
      | _ =>
          match ParseUint_loop (2 ^ bits - 1) 0 ds with
          | (_, Some ErrSyntax) => (0, Some ErrSyntax)
          | (un, err) =>
              let cutoff := 2 ^ (bits - 1) in
              if negb neg && (cutoff <=? un) then (cutoff - 1, Some ErrRange)
              else if neg && (cutoff <? un) then (- cutoff, Some ErrRange)
              else ((if neg then - un else un), err)
          end
      end
  end.

(** ** wLoad *)

Definition KindFromString (data : bytes) : Kind * bool :=
  let s := ToLower data in
  if bool_decide (s = str "p2pk") then (SK_P2PK, true)
  else if bool_decide (s = str "p2pkh") then (SK_P2PKH, true)
  else if bool_decide (s = str "p2ms") then (SK_P2MS, true)
  else if bool_decide (s = str "p2sh") then (SK_P2SH_MULTISIG, true)
  else if bool_decide (s = str "p2sh_wpkh") then (SK_P2SH_WPKH, true)
  else if bool_decide (s = str "p2wpkh") then (SK_P2WPKH, true)
  else if bool_decide (s = str "p2wsh") then (SK_P2WSH_MULTISIG, true)
  else (SK_NONE, false).

Definition parsed (r : Z * option num_error) : nat :=
  match r.2 with None => 1%nat | Some _ => 0%nat end.

(** A key that does not decode panics. *)
Definition decodeKey (v : bytes) : outcome ExtendedKey :=
  match ExtendedDecodeUnchecked v with
  | Err _ => Panic "bip32.ExtendedDecodeUnchecked"
  | o => o
  end.

(** [None] is [false]: not a wallet. *)
Definition wLoad (data : bytes) : outcome (option WalletConfig) :=
  let wdata := Split x20 data in
  if bool_decide (length data < 2)%nat then Ok None
  else
    w0 ← index wdata 0;
    let height := ParseIntValue 32 w0 in
    let i := parsed height in
    kindStr ← index wdata i;
    let '(k, ok) := KindFromString kindStr in
    if negb ok then Ok None
    else
      let i := S i in
      sigStr ← index wdata i;
      let reqsigs := ParseIntValue 8 sigStr in
      let i := (i + parsed reqsigs)%nat in
      keys ← mapM decodeKey (drop i wdata);
      Ok (Some {| wc_Kind := k; wc_Reqsigs := uint8_wrap reqsigs.1; wc_MasterPubs := keys;
                  wc_Height := height.1 |}).

(** The variables of the environment, as [os.Environ] lists them. *)
Fixpoint getWallets (environ : list bytes) : outcome (list WalletConfig) :=
  match environ with
  | [] => Ok []
  | v :: environ =>
      if negb (HasPrefix v (str "WALLET")) then getWallets environ
      else
        let kv := Split x3d v in
        value ← index kv 1;
        walletConfig ← wLoad value;
        ws ← getWallets environ;
        Ok match walletConfig with Some wc => wc :: ws | None => ws end
  end.
