(* ===== verification/WalletFacts.v ===== *)
(** * WalletFacts: the index of script hashes and the gap of derived scripts

    [index_ok] says that the index holds exactly scripts of the wallets and all
    of those derived so far; [gap_ok] that every account is derived 2000
    scripts past its next index.  The operations that change wallets keep both. *)

From S2P Require Import Prelude Bytes Sha256 BitcoinTypes ScriptPubkey Database Repository.
From S2P Require Import RepositoryFacts Wallet.

(** ** Key derivation never panics *)

(** What the code relies on of [bip32]: a call returns a key or an error, and a
    key is an array of 33 bytes. *)
Class Bip32Safe `{Bip32} : Prop := {
  DeriveXpub_safe : ∀ k path, safe (DeriveXpub k path);
  DeriveXpub_key : ∀ k path k', DeriveXpub k path = Ok k' → length (Key k') = 33%nat;
  XpubFromXprv_safe : ∀ k, safe (XpubFromXprv k);
}.

Section scripts.
Context `{Bip32}.

Definition account_keys (wl : wallet) (acc : accountKind) : outcome (list ExtendedKey) :=
  accountKeys ← mapM (λ k, DeriveXpub k [account_index acc]) (masterPubs wl);
  mapM basePubKey accountKeys.

(** The script of a wallet at an index of an account. *)
Definition script_of (wl : wallet) (acc : accountKind) (idx : Z) : outcome bytes :=
  base ← account_keys wl acc;
  make_at (kind wl) (reqSigs wl) base idx.

Lemma seqZ_shift_Forall2 {B} (P : Z → B → Prop) offset count l :
  Forall2 (λ i, P (offset + i)) (seqZ 0 count) l → Forall2 P (seqZ offset count) l.
Proof.
  intros Hl. assert (seqZ offset count = Z.add offset <$> seqZ 0 count) as ->
    by (by rewrite fmap_add_seqZ, Z.add_0_r). by apply Forall2_fmap_l.
Qed.

(** A batch of scripts is the scripts of its indexes. *)
Lemma deriveScriptPubkeys_Ok wl acc offset count scripts :
  0 ≤ offset → offset + count ≤ 2 ^ 32 →
  deriveScriptPubkeys wl acc offset count = Ok scripts →
  Forall2 (λ i s, script_of wl acc i = Ok s) (seqZ offset count) scripts.
Proof.
  unfold deriveScriptPubkeys, MakeMulti, script_of, account_keys. intros Ho Hb Hd.
  apply outcome_bind_Ok in Hd as (ks & Hk & Hd). apply outcome_bind_Ok in Hd as (base & Hbase & Hd).
  rewrite Hk. run_outcome. rewrite Hbase. run_outcome.
  apply mapM_Ok in Hd. apply seqZ_shift_Forall2.
  eapply Forall2_impl; [apply Forall2_same_length_lookup_2; [by eapply Forall2_length|]|].
  2: { intros x y Hxy. exact Hxy. }
  intros i x y Hx Hy. cbv beta. pose proof (Forall2_lookup_lr _ _ _ _ _ _ Hd Hx Hy) as Hxy.
  apply lookup_seqZ in Hx as [-> Hlt]. cbv beta in Hxy.
  rewrite uint32_wrap_small in Hxy by lia. by rewrite Z.add_comm.
Qed.

Context `{!Bip32Safe}.

Lemma index_safe {A} (l : list A) i : (i < length l)%nat → safe (index l i).
Proof. intros (x & _ & ->)%index_lt. done. Qed.

Lemma multisig_checks_safe m pks : safe (multisig_checks m pks).
Proof. unfold multisig_checks. by repeat case_match. Qed.

Lemma Make_safe k m pks : pks ≠ [] → safe (Make k m pks).
Proof.
  intros Hne. assert (0 < length pks)%nat by (destruct pks; simpl; [done|lia]).
  unfold Make, p2ms, p2shMultisig, p2wshMulti.
  destruct k; try (apply safe_bind; [by apply index_safe || apply multisig_checks_safe|]);
    try done; intros ? _; unfold p2pk, p2pkh, p2shWpkh, p2wpkh; by repeat case_match.
Qed.

Lemma make_at_safe k m base idx : base ≠ [] → safe (make_at k m base idx).
Proof.
  intros Hne. unfold make_at. apply safe_bind.
  - apply safe_mapM. intros x _. apply safe_bind; [apply DeriveXpub_safe|done].
  - intros pks Hpks. apply Make_safe. intros ->. apply mapM_Ok, Forall2_length in Hpks.
    by destruct base.
Qed.

Lemma deriveScriptPubkeys_safe wl acc offset count :
  masterPubs wl ≠ [] → safe (deriveScriptPubkeys wl acc offset count).
Proof.
  intros Hne. unfold deriveScriptPubkeys, MakeMulti. apply safe_bind.
  { apply safe_mapM. intros x _. apply DeriveXpub_safe. }
  intros ks Hks. apply mapM_Ok in Hks. pose proof (Forall2_length _ _ _ Hks) as Hlen.
  apply safe_bind.
  - apply safe_mapM. intros k [i Hi]%list_elem_of_lookup.
    destruct (Forall2_lookup_r _ _ _ _ _ Hks Hi) as (x & _ & Hx%DeriveXpub_key).
    unfold basePubKey. apply safe_bind; [apply index_safe; lia|]. intros b _.
    case_bool_decide; [apply XpubFromXprv_safe|done].
  - intros base Hbase%mapM_Ok%Forall2_length. apply safe_mapM. intros idx _.
    apply make_at_safe. intros ->. destruct (masterPubs wl); [done|]. simpl in *. lia.
Qed.
End scripts.

(** ** The index *)

Lemma script_of_set_derived `{Bip32} acc n wl acc' :
  script_of (set_derived acc n wl) acc' = script_of wl acc'.
Proof. by destruct acc. Qed.

Lemma addToSKIdx_lookup i acc n scripts m sh info :
  0 ≤ n → n + length scripts ≤ 2 ^ 32 →
  addToSKIdx i acc n scripts m !! sh = Some info →
  m !! sh = Some info ∨
  ∃ (j : nat) s, scripts !! j = Some s ∧ sh = Sha256.Sum256 s ∧
    info = {| walletIdx := i; account := acc; pubkeyIdx := n + j |}.
Proof.
  revert n m. induction scripts as [|s scripts IH]; intros n m Hn Hb Hl; [by left|].
  simpl in Hl, Hb.
  assert (scripts = [] ∨ uint32_wrap (n + 1) = n + 1) as [->|Hw].
  { destruct scripts; [by left|]. right. simpl in Hb. apply uint32_wrap_small. lia. }
  - simpl in Hl. apply lookup_insert_Some in Hl as [[<- <-]|[_ Hl]]; [|by left].
    right. exists 0%nat, s. by rewrite Z.add_0_r.
  - rewrite Hw in Hl. destruct (IH (n + 1) _ ltac:(lia) ltac:(lia) Hl) as [Hm|(j & s' & Hj & -> & ->)].
    + apply lookup_insert_Some in Hm as [[<- <-]|[_ Hl']]; [|by left].
      right. exists 0%nat, s. by rewrite Z.add_0_r.
    + right. exists (S j), s'. split_and!; try done. f_equal. lia.
Qed.

Lemma addToSKIdx_mono i acc n scripts m sh :
  is_Some (m !! sh) → is_Some (addToSKIdx i acc n scripts m !! sh).
Proof.
  revert n m. induction scripts as [|s scripts IH]; intros n m Hm; simpl; [done|].
  apply IH. rewrite lookup_insert_is_Some. destruct (decide (Sha256.Sum256 s = sh)); auto.
Qed.

Lemma addToSKIdx_added i acc n scripts m s :
  s ∈ scripts → is_Some (addToSKIdx i acc n scripts m !! Sha256.Sum256 s).
Proof.
  revert n m. induction scripts as [|s' scripts IH]; intros n m; [by intros []%elem_of_nil|].
  intros [->|Hin]%elem_of_cons; simpl; [|by apply IH].
  apply addToSKIdx_mono. by rewrite lookup_insert_eq.
Qed.

(** The index of script hashes is sound and complete for the scripts derived. *)
Record index_ok `{Bip32} (w : W) : Prop := {
  ix_sound : ∀ sh info, scriptPubkeys w !! sh = Some info →
    ∃ wl s, wallets w !! walletIdx info = Some wl ∧
      script_of wl (account info) (pubkeyIdx info) = Ok s ∧ sh = Sha256.Sum256 s ∧
      0 ≤ pubkeyIdx info < nDerived (account info) wl;
  ix_complete : ∀ i wl acc idx, wallets w !! i = Some wl → 0 ≤ idx < nDerived acc wl →
    ∃ s, script_of wl acc idx = Ok s ∧ is_Some (scriptPubkeys w !! Sha256.Sum256 s);
  ix_bounds : ∀ i wl acc, wallets w !! i = Some wl →
    0 ≤ nextIndex acc wl < 2 ^ 32 ∧ 0 ≤ nDerived acc wl < 2 ^ 32;
  ix_keys : ∀ i wl, wallets w !! i = Some wl → masterPubs wl ≠ [];
}.

(** Every account is derived to the gap past its next index, as long as that
    is a 32 bit number. *)
Definition gap_ok_at (acc : accountKind) (wl : wallet) : Prop :=
  nextIndex acc wl + gap < 2 ^ 32 → nextIndex acc wl + gap ≤ nDerived acc wl.
Definition gap_ok (w : W) : Prop :=
  ∀ i wl acc, wallets w !! i = Some wl → gap_ok_at acc wl.

(** Deriving scripts of a wallet fails with errors of [E] only. *)
Definition derives `{Bip32} (E : error → Prop) (wl : wallet) : Prop :=
  ∀ acc offset count e, deriveScriptPubkeys wl acc offset count = Err e → E e.
Definition all_derive `{Bip32} (E : error → Prop) (w : W) : Prop :=
  ∀ i wl, wallets w !! i = Some wl → derives E wl.
(** It does not fail. *)
Definition never (_ : error) : Prop := False.

(** The parts of a manager that [refillWallet] leaves alone. *)
Record same_but_index (w w' : W) : Prop := {
  sb_repo : repo w' = repo w;
  sb_best : bestHeader w' = bestHeader w ∧ bestHeaderHash w' = bestHeaderHash w ∧ net w' = net w;
  sb_subs : hSubs w' = hSubs w ∧ shSubs w' = shSubs w ∧ events w' = events w ∧ calls w' = calls w;
  sb_length : length (wallets w') = length (wallets w);
  sb_grows : ∀ sh, is_Some (scriptPubkeys w !! sh) → is_Some (scriptPubkeys w' !! sh);
}.

#[export] Instance same_but_index_preorder : PreOrder same_but_index.
Proof.
  split; [by split|]. intros w1 w2 w3 [? (? & ? & ?) (? & ? & ? & ?) ? ?] [? (? & ? & ?) (? & ? & ? & ?) ? ?].
  split; [congruence|split_and!; congruence|split_and!; congruence|congruence|auto].
Qed.

Section refill.
Context `{Bip32}.

Lemma derived_set acc n wl : nDerived acc (set_derived acc n wl) = n.
Proof. by destruct acc. Qed.
Lemma derived_set_ne acc acc' n wl : acc ≠ acc' → nDerived acc' (set_derived acc n wl) = nDerived acc' wl.
Proof. by destruct acc, acc'. Qed.
Lemma next_set acc acc' n wl : nextIndex acc' (set_derived acc n wl) = nextIndex acc' wl.
Proof. by destruct acc, acc'. Qed.
Lemma masterPubs_set acc n wl : masterPubs (set_derived acc n wl) = masterPubs wl.
Proof. by destruct acc. Qed.

(** Deriving more scripts of one account. *)
Definition derived_more (i : nat) (acc : accountKind) (wl : wallet) (n : Z)
    (scripts : list bytes) (w : W) : W :=
  upd_wallets <[i := set_derived acc n wl]>
    (upd_scriptPubkeys (addToSKIdx i acc (nDerived acc wl) scripts) w).

Lemma derived_more_index_ok i acc wl n scripts w :
  index_ok w → wallets w !! i = Some wl →
  nDerived acc wl ≤ n < 2 ^ 32 →
  Forall2 (λ i s, script_of wl acc i = Ok s)
    (seqZ (nDerived acc wl) (n - nDerived acc wl)) scripts →
  index_ok (derived_more i acc wl n scripts w).
Proof.
  intros Hix Hi Hn Hs. pose proof (Forall2_length _ _ _ Hs) as Hlen. rewrite length_seqZ in Hlen.
  pose proof (lookup_lt_Some _ _ _ Hi) as Hlt.
  destruct (ix_bounds _ Hix _ _ acc Hi) as [Hnext Hder].
  split.
  - simpl. intros sh info Hl.
    apply addToSKIdx_lookup in Hl; [|lia..]. destruct Hl as [Hl|(j & s & Hj & -> & ->)].
    + destruct (ix_sound _ Hix _ _ Hl) as (wl' & s & Hw & Hsc & -> & Hb).
      destruct (decide (walletIdx info = i)) as [<-|Hne].
      * assert (wl' = wl) as -> by congruence.
        exists (set_derived acc n wl), s.
        rewrite list_lookup_insert_eq, script_of_set_derived by done.
        split_and!; try done; [lia|].
        destruct (decide (acc = account info)) as [->|]; [rewrite derived_set; lia|].
        rewrite derived_set_ne by done. lia.
      * exists wl', s. by rewrite list_lookup_insert_ne.
    + simpl. destruct (Forall2_lookup_r _ _ _ _ _ Hs Hj) as (x & Hx & Hsc).
      apply lookup_seqZ in Hx as [-> Hjn].
      exists (set_derived acc n wl), s.
      rewrite list_lookup_insert_eq, script_of_set_derived, derived_set by done.
      split_and!; try done; lia.
  - simpl. intros i' wl' acc' idx Hw Hidx.
    destruct (decide (i' = i)) as [->|Hne].
    + rewrite list_lookup_insert_eq in Hw by done. injection Hw as <-.
      rewrite script_of_set_derived.
      destruct (decide (acc = acc' ∧ nDerived acc wl ≤ idx)) as [[<- Hge]|Hold].
      * rewrite derived_set in Hidx.
        destruct (Forall2_lookup_l _ _ _ (Z.to_nat (idx - nDerived acc wl)) idx Hs) as (s & Hj & Hsc).
        { apply lookup_seqZ. lia. }
        exists s. split; [done|]. apply addToSKIdx_added. by eapply list_elem_of_lookup_2.
      * destruct (ix_complete _ Hix i wl acc' idx Hi) as (s & Hsc & Hin).
        { destruct (decide (acc = acc')) as [<-|]; [|by rewrite derived_set_ne in Hidx].
          rewrite derived_set in Hidx. destruct (decide (nDerived acc wl ≤ idx)); [tauto|lia]. }
        exists s. split; [done|]. by apply addToSKIdx_mono.
    + rewrite list_lookup_insert_ne in Hw by done.
      destruct (ix_complete _ Hix i' wl' acc' idx Hw Hidx) as (s & Hsc & Hin).
      exists s. split; [done|]. by apply addToSKIdx_mono.
  - simpl. intros i' wl' acc' Hw.
    destruct (decide (i' = i)) as [->|Hne]; [|rewrite list_lookup_insert_ne in Hw by done; by eapply ix_bounds].
    rewrite list_lookup_insert_eq in Hw by done. injection Hw as <-. rewrite next_set.
    split; [by eapply ix_bounds|].
    destruct (decide (acc = acc')) as [<-|]; [rewrite derived_set; lia|].
    rewrite derived_set_ne by done. by eapply ix_bounds.
  - simpl. intros i' wl' Hw.
    destruct (decide (i' = i)) as [->|Hne]; [|rewrite list_lookup_insert_ne in Hw by done; by eapply ix_keys].
    rewrite list_lookup_insert_eq in Hw by done. injection Hw as <-. rewrite masterPubs_set.
    by eapply ix_keys.
Qed.
End refill.

(** ** Refilling *)

(** The identity of a wallet and what the synchronisation keeps in it. *)
Definition same_config (wl wl' : wallet) : Prop :=
  kind wl' = kind wl ∧ reqSigs wl' = reqSigs wl ∧ masterPubs wl' = masterPubs wl ∧
  hash wl' = hash wl.

(** Wallet [i] may have more scripts; everything else is as it was. *)
Record refilled (i : nat) (w w' : W) : Prop := {
  rf_same : same_but_index w w';
  rf_others : ∀ j, j ≠ i → wallets w' !! j = wallets w !! j;
  rf_wallet : ∀ wl, wallets w !! i = Some wl → ∃ wl', wallets w' !! i = Some wl' ∧
    same_config wl wl' ∧ height wl' = height wl ∧
    (∀ acc, nextIndex acc wl' = nextIndex acc wl) ∧
    (∀ acc, nDerived acc wl ≤ nDerived acc wl');
}.

#[export] Instance refilled_preorder i : PreOrder (refilled i).
Proof.
  split.
  - intros w. split; [done|done|]. intros wl Hw. by exists wl.
  - intros w1 w2 w3 [H1 Ho1 Hw1] [H2 Ho2 Hw2]. split; [by etrans|intros j Hj; by rewrite Ho2, Ho1|].
    intros wl Hw. destruct (Hw1 _ Hw) as (wl2 & Hl2 & (? & ? & ? & ?) & ? & Hn2 & Hd2).
    destruct (Hw2 _ Hl2) as (wl3 & Hl3 & (? & ? & ? & ?) & ? & Hn3 & Hd3).
    exists wl3. split; [done|]. split; [split_and!; congruence|]. split; [congruence|].
    split; intros acc; [by rewrite Hn3|]. etrans; [apply Hd2|apply Hd3].
Qed.

(** What a refilled manager is, field by field. *)
Lemma refilled_eq i wl wl' w w' :
  refilled i w w' → wallets w !! i = Some wl → wallets w' !! i = Some wl' →
  wl' = set_derived changeAccount (nDerived changeAccount wl')
          (set_derived receiveAccount (nDerived receiveAccount wl') wl) ∧
  w' = upd_scriptPubkeys (λ _, scriptPubkeys w') (upd_wallets <[i := wl']> w).
Proof.
  intros [[Hr (Hb1 & Hb2 & Hn) (Hh & Hs & He & Hc) Hlen _] Hoth Hw] Hi Hi'.
  destruct (Hw _ Hi) as (wl2 & Hwl2 & (Hk & Hq & Hm & Hha) & Hht & Hnext & _).
  assert (wl2 = wl') as -> by congruence.
  pose proof (Hnext receiveAccount) as Hnr. pose proof (Hnext changeAccount) as Hnc. split.
  - destruct wl, wl'. cbn in *. by subst.
  - assert (wallets w' = <[i := wl']> (wallets w)) as Hws.
    { apply list_eq. intros j. destruct (decide (j = i)) as [->|Hne].
      - rewrite list_lookup_insert_eq; [done|]. by eapply lookup_lt_Some.
      - rewrite list_lookup_insert_ne by done. by apply Hoth. }
    destruct w, w'. cbn in *. by subst.
Qed.

(** The wallets of [w'] are those of [w], with other counters. *)
Definition same_wallets (w w' : W) : Prop :=
  ∀ i wl', wallets w' !! i = Some wl' → ∃ wl, wallets w !! i = Some wl ∧ same_config wl wl'.

Lemma derives_config `{Bip32} E wl wl' : same_config wl wl' → derives E wl → derives E wl'.
Proof.
  intros (Hk & Hr & Hm & _) Hd acc offset count e. unfold derives, deriveScriptPubkeys in *.
  rewrite Hk, Hr, Hm. apply Hd.
Qed.

Lemma same_wallets_derive `{Bip32} E w w' : same_wallets w w' → all_derive E w → all_derive E w'.
Proof.
  intros Hs Hd i wl' Hi. destruct (Hs _ _ Hi) as (wl & Hw & Hc).
  eapply derives_config; [done|by eapply Hd].
Qed.

Lemma refilled_same_wallets i w w' : refilled i w w' → same_wallets w w'.
Proof.
  intros [Hs Ho Hr] j wl' Hj. destruct (decide (j = i)) as [->|Hne].
  - destruct (lookup_lt_is_Some_2 (wallets w) i) as [wl Hw].
    { rewrite <- (sb_length _ _ Hs). by eapply lookup_lt_Some. }
    destruct (Hr _ Hw) as (wl2 & Hl2 & Hc & _). exists wl. split; [done|]. congruence.
  - rewrite Ho in Hj by done. by exists wl'.
Qed.

Lemma same_wallets_insert i wl wl' w f :
  wallets w !! i = Some wl → same_config wl wl' →
  same_wallets w (upd_wallets <[i := wl']> (upd_repo f w)).
Proof.
  intros Hi Hc j wl2 Hj. simpl in Hj. destruct (decide (j = i)) as [->|Hne].
  - rewrite list_lookup_insert_eq in Hj by by eapply lookup_lt_Some. injection Hj as <-. by exists wl.
  - rewrite list_lookup_insert_ne in Hj by done. by exists wl2.
Qed.

Lemma refilled_gap_ok i acc w w' wl wl' :
  refilled i w w' → wallets w !! i = Some wl → wallets w' !! i = Some wl' →
  gap_ok_at acc wl → gap_ok_at acc wl'.
Proof.
  intros [_ _ Hr] Hw Hw' Hg. destruct (Hr _ Hw) as (wl2 & Hl2 & _ & _ & Hn & Hd).
  assert (wl2 = wl') as -> by congruence. unfold gap_ok_at in *. rewrite Hn.
  specialize (Hd acc). lia.
Qed.

Lemma same_config_set acc n wl : same_config wl (set_derived acc n wl).
Proof. by destruct acc. Qed.

Lemma get_wallet_run i wl w : wallets w !! i = Some wl → get_wallet i w = (Ok wl, w).
Proof.
  intros Hi. unfold get_wallet. rewrite bind_run. unfold gets, lift_outcome.
  by rewrite (index_Some _ _ _ Hi).
Qed.

Section refill_spec.
Context `{Bip32Safe}.

(** The call returns, with or without an error. *)
Definition returns {A} (o : outcome A) : Prop := safe o.

Lemma derived_more_refilled i acc wl n scripts w :
  wallets w !! i = Some wl → nDerived acc wl ≤ n →
  refilled i w (derived_more i acc wl n scripts w).
Proof using Type.
  intros Hi Hn. pose proof (lookup_lt_Some _ _ _ Hi) as Hlt. split.
  - split; simpl; try done; [by rewrite length_insert|].
    intros sh Hsh. by apply addToSKIdx_mono.
  - intros j Hj. simpl. by rewrite list_lookup_insert_ne.
  - intros wl0 Hw0. assert (wl0 = wl) as -> by congruence.
    exists (set_derived acc n wl). simpl. rewrite list_lookup_insert_eq by done.
    split_and!; try done; [apply same_config_set|by destruct acc|intros acc'; apply next_set|].
    intros acc'. destruct (decide (acc = acc')) as [<-|]; [by rewrite derived_set|].
    by rewrite derived_set_ne.
Qed.

Lemma refillAccount_spec E i acc wl w :
  index_ok w → wallets w !! i = Some wl → derives E wl →
  let '(o, w') := refillAccount i acc w in
  safe o ∧ (∀ e, o = Err e → E e) ∧ index_ok w' ∧ refilled i w w' ∧
  (o = Ok tt → ∃ wl', wallets w' !! i = Some wl' ∧ gap_ok_at acc wl').
Proof.
  intros Hix Hi HE. unfold refillAccount.
  rewrite (bind_Ok_1 _ _ _ _ _ (get_wallet_run _ _ _ Hi)).
  destruct (ix_bounds _ Hix _ _ acc Hi) as [Hnext Hder].
  unfold offAndCount. pose proof (uint32_wrap_range (nextIndex acc wl + gap)) as Hr.
  destruct (Z.leb_spec (uint32_wrap (nextIndex acc wl + gap)) (nDerived acc wl)) as [Hle|Hgt].
  - rewrite bool_decide_eq_false_2 by (intros HF; by apply HF). simpl.
    split_and!; [done|done|done|done|]. intros _. exists wl. split; [done|].
    intros Hb. rewrite uint32_wrap_small in Hle; [done|]. unfold gap in *. lia.
  - rewrite bool_decide_eq_true_2 by lia. rewrite bind_run. unfold lift_outcome.
    pose proof (deriveScriptPubkeys_safe wl acc (nDerived acc wl)
      (uint32_wrap (nextIndex acc wl + gap) - nDerived acc wl) (ix_keys _ Hix _ _ Hi)) as Hsafe.
    destruct (deriveScriptPubkeys _ _ _ _) as [scripts|e| |] eqn:Hd; try done.
    2: { split_and!; try done. intros e' [= <-]. by eapply HE. }
    apply deriveScriptPubkeys_Ok in Hd; [|lia|lia].
    rewrite bind_run. unfold modify, set_wallet, modify.
    replace (nDerived acc wl + (uint32_wrap (nextIndex acc wl + gap) - nDerived acc wl))
      with (uint32_wrap (nextIndex acc wl + gap)) by lia.
    rewrite (uint32_wrap_small (uint32_wrap _)) by done.
    fold (derived_more i acc wl (uint32_wrap (nextIndex acc wl + gap)) scripts w).
    split; [done|]. split; [done|]. split; [by apply derived_more_index_ok; [..|lia|]|].
    split; [by apply derived_more_refilled; [|lia]|]. intros _.
    exists (set_derived acc (uint32_wrap (nextIndex acc wl + gap)) wl).
    split; [simpl; rewrite list_lookup_insert_eq; [done|by eapply lookup_lt_Some]|].
    intros Hb. rewrite next_set in *. rewrite derived_set.
    rewrite uint32_wrap_small; [done|]. unfold gap in *. lia.
Qed.

Lemma refillWallet_spec E i wl w :
  index_ok w → wallets w !! i = Some wl → derives E wl →
  let '(o, w') := refillWallet i w in
  safe o ∧ (∀ e, o = Err e → E e) ∧ index_ok w' ∧ refilled i w w' ∧
  (o = Ok tt → ∃ wl', wallets w' !! i = Some wl' ∧ ∀ acc, gap_ok_at acc wl').
Proof.
  intros Hix Hi HE. unfold refillWallet. rewrite bind_run.
  pose proof (refillAccount_spec E i receiveAccount wl w Hix Hi HE) as H1.
  destruct (refillAccount i receiveAccount w) as [o1 w1]. destruct H1 as (Hs1 & He1 & Hix1 & Hr1 & Hg1).
  destruct o1 as [[]|e| |]; try done.
  destruct (Hg1 eq_refl) as (wl1 & Hi1 & Hgap1).
  destruct (refilled_same_wallets _ _ _ Hr1 _ _ Hi1) as (wl0 & Hi0 & Hc1).
  assert (wl0 = wl) as -> by congruence.
  pose proof (refillAccount_spec E i changeAccount wl1 w1 Hix1 Hi1 (derives_config _ _ _ Hc1 HE)) as H2.
  destruct (refillAccount i changeAccount w1) as [o2 w2]. destruct H2 as (Hs2 & He2 & Hix2 & Hr2 & Hg2).
  split; [done|]. split; [done|]. split; [done|]. split; [by etrans|]. intros ->.
  destruct (Hg2 eq_refl) as (wl2 & Hi2 & Hgap2). exists wl2. split; [done|].
  intros [|]; [by eapply refilled_gap_ok|done].
Qed.

(** ** Wallet indexes *)

(** What [walletUpdateIndexes] does to the wallet: the next index of the
    account of the script is past it. *)
Definition next_past (info : scriptPubkeyInfo) (wl : wallet) : wallet :=
  if pubkeyIdx info <? nextIndex (account info) wl then wl
  else match account info with
       | receiveAccount => set_next_receive (pubkeyIdx info + 1) wl
       | changeAccount => set_next_change (pubkeyIdx info + 1) wl
       end.

(** The row of the wallet follows. *)
Definition next_past_db (info : scriptPubkeyInfo) (wl : wallet) (db : Database) : Database :=
  if pubkeyIdx info <? nextIndex (account info) wl then db
  else upd_wallet (alter (λ row, {|
    wr_height := wr_height row;
    wr_next_receive_index := nextReceiveIndex (next_past info wl);
    wr_next_change_index := nextChangeIndex (next_past info wl) |}) (hash wl)) db.

Definition advanced (info : scriptPubkeyInfo) (wl : wallet) (w : W) : W :=
  upd_wallets <[walletIdx info := next_past info wl]>
    (upd_repo (upd_db (next_past_db info wl)) w).

Lemma walletUpdateIndexes_run info wl w :
  wallets w !! walletIdx info = Some wl → 0 ≤ pubkeyIdx info < 2 ^ 32 - 1 →
  walletUpdateIndexes info w = (Ok tt, advanced info wl w).
Proof using Type.
  intros Hi Hp. unfold walletUpdateIndexes.
  rewrite (bind_Ok_1 _ _ _ _ _ (get_wallet_run _ _ _ Hi)).
  unfold advanced, next_past, next_past_db, next_past.
  assert (upd_wallets <[walletIdx info:=wl]> (upd_repo (upd_db (λ db, db)) w) = w) as Hid.
  { destruct w as [[? ?] ? ? ? ws ? ? ? ? ?]. unfold upd_wallets, upd_repo, upd_db. simpl in *.
    by rewrite list_insert_id. }
  rewrite uint32_wrap_small by lia.
  destruct (account info); simpl nextIndex;
    (destruct (_ <? _); [f_equal; symmetry; exact Hid|reflexivity]).
Qed.

Lemma next_past_derived info wl acc : nDerived acc (next_past info wl) = nDerived acc wl.
Proof using Type. unfold next_past. by destruct (_ <? _), (account info), acc. Qed.

Lemma next_past_config info wl : same_config wl (next_past info wl).
Proof using Type. unfold next_past. by destruct (_ <? _), (account info). Qed.

Lemma next_past_next info wl acc :
  nextIndex acc (next_past info wl) =
    if decide (acc = account info) then Z.max (nextIndex acc wl) (pubkeyIdx info + 1)
    else nextIndex acc wl.
Proof using Type.
  unfold next_past. destruct (Z.ltb_spec (pubkeyIdx info) (nextIndex (account info) wl));
    destruct (account info), acc; simpl in *; lia.
Qed.

Lemma script_of_config wl wl' acc idx :
  same_config wl wl' → script_of wl' acc idx = script_of wl acc idx.
Proof using Type.
  intros (Hk & Hr & Hm & _). unfold script_of, account_keys. by rewrite Hk, Hr, Hm.
Qed.

Lemma advanced_index_ok info wl w :
  index_ok w → wallets w !! walletIdx info = Some wl →
  0 ≤ pubkeyIdx info < nDerived (account info) wl →
  index_ok (advanced info wl w).
Proof using Type.
  intros Hix Hi Hp. pose proof (lookup_lt_Some _ _ _ Hi) as Hlt.
  assert (∀ j wl', wallets (advanced info wl w) !! j = Some wl' →
    ∃ wl0, wallets w !! j = Some wl0 ∧ same_config wl0 wl' ∧
      (∀ acc, nDerived acc wl' = nDerived acc wl0) ∧
      (∀ acc, 0 ≤ nextIndex acc wl' < 2 ^ 32)) as Hw.
  { intros j wl' Hj. simpl in Hj. destruct (decide (j = walletIdx info)) as [->|Hne].
    - rewrite list_lookup_insert_eq in Hj by done. injection Hj as <-. exists wl.
      split; [done|]. split; [apply next_past_config|]. split; [apply next_past_derived|].
      intros acc. rewrite next_past_next. pose proof (ix_bounds _ Hix _ _ acc Hi).
      pose proof (ix_bounds _ Hix _ _ (account info) Hi). case_decide; lia.
    - rewrite list_lookup_insert_ne in Hj by done. exists wl'. split; [done|].
      split; [done|]. split; [done|]. intros acc. by eapply ix_bounds. }
  split.
  - intros sh info' Hl. destruct (ix_sound _ Hix _ _ Hl) as (wl0 & s & Hw0 & Hs & -> & Hb).
    destruct (lookup_lt_is_Some_2 (wallets (advanced info wl w)) (walletIdx info')) as [wl' Hw'].
    { simpl. rewrite length_insert. by eapply lookup_lt_Some. }
    destruct (Hw _ _ Hw') as (wl1 & Hw1 & Hc & Hd & _). assert (wl1 = wl0) as -> by congruence.
    exists wl', s. rewrite (script_of_config wl0 wl') by done. by rewrite Hd.
  - intros j wl' acc idx Hj Hidx. destruct (Hw _ _ Hj) as (wl0 & Hw0 & Hc & Hd & _).
    rewrite (script_of_config wl0 wl') by done. rewrite Hd in Hidx.
    by apply (ix_complete _ Hix j wl0).
  - intros j wl' acc Hj. destruct (Hw _ _ Hj) as (wl0 & Hw0 & _ & Hd & Hb).
    split; [done|]. rewrite Hd. by eapply ix_bounds.
  - intros j wl' Hj. destruct (Hw _ _ Hj) as (wl0 & Hw0 & (_ & _ & -> & _) & _).
    by eapply ix_keys.
Qed.
(** Refilling a wallet whose scripts can be derived. *)
Lemma refillWallet_ok i wl w :
  index_ok w → wallets w !! i = Some wl → derives never wl →
  ∃ w' wl', refillWallet i w = (Ok tt, w') ∧ index_ok w' ∧ refilled i w w' ∧
    wallets w' !! i = Some wl' ∧ ∀ acc, gap_ok_at acc wl'.
Proof.
  intros Hix Hi Hd. pose proof (refillWallet_spec never i wl w Hix Hi Hd) as Hr.
  destruct (refillWallet i w) as [o w']. destruct Hr as (Hs & He & Hix' & Hrf & Hg).
  assert (o = Ok tt) as -> by (destruct o as [[]|e| |]; try done; by destruct (He _ eq_refl)).
  destruct (Hg eq_refl) as (wl' & Hwl' & Hgap). by exists w', wl'.
Qed.

End refill_spec.

(** ** Other heights *)

(** The wallets are the same but for their heights. *)
Record reheighted (w w' : W) : Prop := {
  rh_scripts : scriptPubkeys w' = scriptPubkeys w;
  rh_wallets : Forall2 (λ wl wl', ∃ k, wl' = set_height k wl) (wallets w) (wallets w');
}.

Section reheighted.
Context `{Bip32} (w w' : W).
Hypothesis Hrh : reheighted w w'.

Lemma reheighted_wallet i wl' :
  wallets w' !! i = Some wl' → ∃ wl k, wallets w !! i = Some wl ∧ wl' = set_height k wl.
Proof using Hrh.
  intros Hi. destruct (Forall2_lookup_r _ _ _ _ _ (rh_wallets _ _ Hrh) Hi) as (wl & Hwl & k & ->).
  by exists wl, k.
Qed.

Lemma reheighted_index : index_ok w → index_ok w'.
Proof using Hrh.
  intros Hix. split.
  - intros sh info Hsh. rewrite (rh_scripts _ _ Hrh) in Hsh.
    destruct (ix_sound _ Hix _ _ Hsh) as (wl & s & Hw & Hs & -> & Hb).
    destruct (Forall2_lookup_l _ _ _ _ _ (rh_wallets _ _ Hrh) Hw) as (? & Hw' & k & ->).
    exists (set_height k wl), s. split; [done|]. split; [done|]. by destruct (account info).
  - intros i wl' acc idx (wl & k & Hi & ->)%reheighted_wallet Hidx. rewrite (rh_scripts _ _ Hrh).
    apply (ix_complete _ Hix i wl acc idx Hi). by destruct acc.
  - intros i wl' acc (wl & k & Hi & ->)%reheighted_wallet. pose proof (ix_bounds _ Hix i wl acc Hi). by destruct acc.
  - intros i wl' (wl & k & Hi & ->)%reheighted_wallet. by apply (ix_keys _ Hix i wl).
Qed.

Lemma reheighted_gap : gap_ok w → gap_ok w'.
Proof using Hrh.
  intros Hg i wl' acc (wl & k & Hi & ->)%reheighted_wallet. pose proof (Hg i wl acc Hi) as Hgap.
  unfold gap_ok_at in *. by destruct acc.
Qed.

Lemma reheighted_derive E : all_derive E w → all_derive E w'.
Proof using Hrh.
  intros Hd i wl' (wl & k & Hi & ->)%reheighted_wallet. eapply derives_config; [|exact (Hd i wl Hi)]; done.
Qed.
End reheighted.

Lemma reheighted_insert i wl k w :
  wallets w !! i = Some wl → reheighted w (upd_wallets <[i := set_height k wl]> w).
Proof.
  intros Hi. split; [done|]. cbn. apply Forall2_same_length_lookup. split; [by rewrite length_insert|].
  intros j x y Hx Hy. destruct (decide (j = i)) as [->|Hne].
  - rewrite list_lookup_insert_eq in Hy by by eapply lookup_lt_Some. exists k. congruence.
  - rewrite list_lookup_insert_ne in Hy by done. exists (height x). assert (y = x) as -> by congruence. by destruct x.
Qed.

Lemma reheighted_fmap (f : wallet → Z) w :
  reheighted w (upd_wallets (fmap (λ wl, set_height (f wl) wl)) w).
Proof. split; [done|]. cbn. apply Forall2_fmap_r, Forall_Forall2_diag, Forall_forall. intros wl _. by exists (f wl). Qed.

Lemma reheighted_best k hs w w' : reheighted w w' → reheighted w (set_best k hs w').
Proof. by intros []. Qed.
