(* ===== verification/Scan.v ===== *)
(** * Scan: what processing a block does to the tables

    The invariant that every statement of [processBlock] keeps while the
    outputs and inputs of a block are processed in their order: the tables are
    consistent, nothing at or below a chosen height changes in the view that a
    rollback would leave, the index of unspent outputs agrees with its table,
    and every recorded transaction carries a Merkle branch that verifies. *)

From S2P Require Import Prelude Bytes Sha256 Merkle BitcoinTypes ScriptPubkey.
From S2P Require Import Database Repository RepositoryFacts Ledger Wallet.

(** ** Outpoints of a block *)

Fixpoint tx_outpoints (txid : bytes) (j : Z) (outs : list Output) : list bytes :=
  match outs with
  | [] => []
  | _ :: outs => makeTxidVout txid (uint32_wrap j) :: tx_outpoints txid (j + 1) outs
  end.

Definition outpoints (txs : list Transaction) : list bytes :=
  txs ≫= λ tx, tx_outpoints (Txid tx) 0 (Outputs tx).

(** A transaction with less than 2^32 outputs, of less than 2^63 satoshi each. *)
Definition tx_ok (tx : Transaction) : Prop :=
  length (Outputs tx) < 2 ^ 32 ∧ Forall (λ out, Amount out < 2 ^ 63) (Outputs tx).

(** A block of such transactions, all different. *)
Definition block_ok (b : Block) : Prop :=
  NoDup (TXIDs b) ∧ Forall tx_ok (Transactions b).

Lemma makeTxidVout_eq txid v :
  Sha256.hash32 txid → makeTxidVout txid v = txid ++ uint32SerializeLE v.
Proof.
  unfold Sha256.hash32. intros Hl. unfold makeTxidVout. f_equal. unfold copy_into, zeroes.
  rewrite length_replicate, (take_ge txid) by lia.
  by rewrite take_app_length' by done.
Qed.

Lemma length_makeTxidVout txid v : Sha256.hash32 txid → length (makeTxidVout txid v) = 36%nat.
Proof. intros Hl. rewrite makeTxidVout_eq by done. rewrite length_app. by rewrite Hl. Qed.

Lemma outpoint_txid_make txid v : Sha256.hash32 txid → outpoint_txid (makeTxidVout txid v) = txid.
Proof.
  intros Hl. unfold outpoint_txid. rewrite makeTxidVout_eq by done. by rewrite take_app_length' by done.
Qed.

Lemma makeTxidVout_inj t v t' v' :
  Sha256.hash32 t → Sha256.hash32 t' → 0 ≤ v < 2 ^ 32 → 0 ≤ v' < 2 ^ 32 →
  makeTxidVout t v = makeTxidVout t' v' → t = t' ∧ v = v'.
Proof.
  intros Ht Ht' Hv Hv'. rewrite !makeTxidVout_eq by done. intros H.
  apply app_inj_1 in H as [-> H]; [|by rewrite Ht]. split; [done|].
  by apply uint32SerializeLE_inj in H.
Qed.

Lemma elem_of_tx_outpoints tv txid j outs :
  tv ∈ tx_outpoints txid j outs ↔
  ∃ k : nat, (k < length outs)%nat ∧ tv = makeTxidVout txid (uint32_wrap (j + k)).
Proof.
  revert j. induction outs as [|o outs IH]; intros j; simpl.
  - rewrite elem_of_nil. split; [done|]. intros (k & ? & _). lia.
  - rewrite elem_of_cons, IH. split.
    + intros [->|(k & Hk & ->)]; [exists 0%nat; rewrite Z.add_0_r; split; [lia|done]|].
      exists (S k). split; [lia|]. do 2 f_equal. lia.
    + intros ([|k] & Hk & ->); [left; by rewrite Z.add_0_r|right].
      exists k. split; [lia|]. do 2 f_equal. lia.
Qed.

Lemma tx_outpoints_app txid j l1 l2 :
  tx_outpoints txid j (l1 ++ l2) = tx_outpoints txid j l1 ++ tx_outpoints txid (j + length l1) l2.
Proof.
  revert j. induction l1 as [|o l1 IH]; intros j; simpl; [by rewrite Z.add_0_r|].
  rewrite IH. do 3 f_equal. lia.
Qed.

Lemma NoDup_tx_outpoints txid j outs :
  Sha256.hash32 txid → 0 ≤ j → j + length outs ≤ 2 ^ 32 → NoDup (tx_outpoints txid j outs).
Proof.
  intros Ht. revert j. induction outs as [|o outs IH]; intros j Hj Hb; simpl; [constructor|].
  simpl in Hb. constructor; [|apply IH; lia].
  intros (k & Hk & He)%elem_of_tx_outpoints.
  apply makeTxidVout_inj in He as [_ He]; [|done|done|apply uint32_wrap_range..].
  rewrite !uint32_wrap_small in He by lia. lia.
Qed.

Lemma elem_of_outpoints tv txs :
  tv ∈ outpoints txs → ∃ tx, tx ∈ txs ∧ outpoint_txid tv = Txid tx.
Proof.
  unfold outpoints. intros (tx & Hin & Htx)%list_elem_of_bind.
  apply elem_of_tx_outpoints in Hin as (k & _ & ->). exists tx. split; [done|].
  apply outpoint_txid_make, hash32_Txid.
Qed.

Lemma NoDup_outpoints txs :
  NoDup (Txid <$> txs) → Forall tx_ok txs → NoDup (outpoints txs).
Proof.
  induction txs as [|tx txs IH]; intros Hnd Hb; [constructor|].
  inversion_clear Hnd as [|? ? Hni Hnd']. inversion_clear Hb as [|? ? [Hlt _] Hb'].
  change (outpoints (tx :: txs)) with (tx_outpoints (Txid tx) 0 (Outputs tx) ++ outpoints txs).
  apply NoDup_app. split_and!; [apply NoDup_tx_outpoints; [apply hash32_Txid|lia..]| |by apply IH].
  intros tv (k & _ & ->)%elem_of_tx_outpoints (tx' & Hin & He)%elem_of_outpoints.
  rewrite outpoint_txid_make in He by apply hash32_Txid.
  apply Hni. rewrite He. by apply list_elem_of_fmap_2.
Qed.

(** ** Recorded transactions *)

(** The row of transaction [pos] of a block. *)
Record recorded (b : Block) (pos : nat) (tx : Transaction) (row : txRow) : Prop := {
  rec_block : tr_blockhash row = Block_Hash b;
  rec_pos : tr_pos row = pos;
  rec_raw : tr_serialized row = Transaction_Serialize tx;
  rec_tx : Transactions b !! pos = Some tx;
  rec_proof : ∃ branch, tr_merkle_proof row = mjoin branch ∧
    Forall Sha256.hash32 branch ∧
    checkMerkleProof (Txid tx) pos (merkle_root (TXIDs b)) branch = true ∧
    length branch = Nat.log2_up (length (Transactions b));
}.

(** The transactions of [tx] and the rows of [scriptpubkey_tx] only grow, the
    outputs stay. *)
Record grows (db db' : Database) : Prop := {
  gr_unspent : t_unspent_output db' = t_unspent_output db;
  gr_spent : t_spent_output db' = t_spent_output db;
  gr_tx : t_tx db ⊆ t_tx db';
  gr_stx : t_scriptpubkey_tx db ⊆ t_scriptpubkey_tx db';
}.
#[export] Instance grows_preorder : PreOrder grows.
Proof. split; [by split|]. intros ??? [????] [????]. split; (congruence || by etrans). Qed.

(** ** The invariant *)

(** What the scan of a block above [h] leaves alone: the headers, and the
    tables of the ledger as a rollback to [h] would leave them. *)
Definition frame (h : Z) (db : Database) := (t_blockheader db, view h db).

Lemma frame_eq h db db' :
  t_blockheader db' = t_blockheader db → view h db' = view h db → frame h db' = frame h db.
Proof. unfold frame. by intros -> ->. Qed.

Section scan.
(** The rollback height, the height of the block and the block. *)
Context (h hh : Z) (b : Block).
Hypothesis Hlt : h < hh.

Record scan_ok (V : _) (pending : list bytes) (future : list bytes) (r : repository) : Prop := {
  sc_db : db_ok hh (r_db r);
  sc_hdr : ∃ row, t_blockheader (r_db r) !! Block_Hash b = Some row ∧ bh_height row = hh;
  sc_tx : ∀ txid row, txid ∈ TXIDs b → t_tx (r_db r) !! txid = Some row →
    ∃ pos tx, txid = Txid tx ∧ recorded b pos tx row;
  sc_frame : frame h (r_db r) = V;
  sc_fresh : ∀ tv, tv ∈ pending →
    t_unspent_output (r_db r) !! tv = None ∧ t_spent_output (r_db r) !! tv = None;
  sc_future : ∀ txid, txid ∈ future → t_tx (r_db r) !! txid = None;
  sc_sync : index_sync r;
  sc_blobs : blobs_ok (r_db r);
}.

Lemma recorded_height V pending future r txid row :
  scan_ok V pending future r → txid ∈ TXIDs b → t_tx (r_db r) !! txid = Some row →
  tx_height (r_db r) row = Some hh.
Proof using Type.
  intros Hsc Hin Hrow. destruct (sc_tx _ _ _ _ Hsc _ _ Hin Hrow) as (pos & tx & _ & Hrec).
  unfold tx_height. rewrite (rec_block _ _ _ _ Hrec).
  destruct (sc_hdr _ _ _ _ Hsc) as (hrow & -> & Hh). simpl. by rewrite Hh.
Qed.

Lemma recorded_above V pending future r txid :
  scan_ok V pending future r → txid ∈ TXIDs b → is_Some (t_tx (r_db r) !! txid) →
  tx_above (r_db r) h txid = true.
Proof using Hlt.
  intros Hsc Hin [row Hrow].
  rewrite (tx_above_false _ _ _ _ _ Hrow (recorded_height _ _ _ _ _ _ Hsc Hin Hrow)). lia.
Qed.

(** *** The statements *)

Lemma exec_total (f : Database → Database) r :
  exec (λ db, Ok (f db)) r = (Ok tt, upd_db f r).
Proof using Type. reflexivity. Qed.

Lemma insertTransaction_scan V pending future r pos tx branch :
  scan_ok V pending future r → Txid tx ∉ future →
  Transactions b !! pos = Some tx → NoDup (TXIDs b) →
  MerkleProof (TXIDs b) (Txid tx) = Ok (Z.of_nat pos, branch) →
  ∃ r', insertTransaction (Txid tx) (Block_Hash b) pos (Transaction_Serialize tx) (mjoin branch) r
      = (Ok tt, r') ∧
    scan_ok V pending future r' ∧ is_Some (t_tx (r_db r') !! Txid tx) ∧
    grows (r_db r) (r_db r').
Proof using Hlt.
  intros Hsc Hfut Hpos Hnd Hmp. unfold insertTransaction. rewrite exec_total. eexists. split; [done|].
  set (row := {| tr_blockhash := Block_Hash b; tr_pos := pos;
    tr_serialized := Transaction_Serialize tx; tr_merkle_proof := mjoin branch |}).
  assert (Txid tx ∈ TXIDs b) as Hin.
  { apply list_elem_of_lookup. exists pos. unfold TXIDs. by rewrite list_lookup_fmap, Hpos. }
  change (λ db, match t_tx db !! Txid tx with Some _ => db | None => upd_tx <[Txid tx := row]> db end)
    with (put_tx (Txid tx) row).
  destruct (t_tx (r_db r) !! Txid tx) as [row0|] eqn:Hold.
  { assert (upd_db (put_tx (Txid tx) row) r = r) as ->.
    { unfold put_tx, upd_db. rewrite Hold. by destruct r. }
    split; [done|]. split; [by rewrite Hold|done]. }
  assert (upd_db (put_tx (Txid tx) row) r = upd_db (upd_tx <[Txid tx := row]>) r) as Hr.
  { unfold put_tx, upd_db. by rewrite Hold. }
  assert (tx_height (r_db r) row = Some hh) as Hrow.
  { unfold tx_height. simpl. destruct (sc_hdr _ _ _ _ Hsc) as (hrow & -> & Hh). simpl. by rewrite Hh. }
  split; [|split; rewrite Hr; simpl; [by rewrite lookup_insert_eq|]].
  2: { split; try done. simpl. by apply insert_subseteq. }
  split.
  - simpl. by apply put_tx_db_ok; [apply Hsc|..].
  - rewrite Hr. apply Hsc.
  - rewrite Hr. simpl. intros x xrow Hx [[<- <-]|[_ Hl]]%lookup_insert_Some; [|by eapply sc_tx].
    exists pos, tx. split; [done|]. split; try done.
    destruct (MerkleProof_spec _ _ Hin) as (pos' & branch' & Hmp' & Hfp & _ & Hck & Hlen).
    rewrite Hmp in Hmp'. injection Hmp' as Hpp <-. apply Nat2Z.inj in Hpp as <-.
    exists branch. split; [done|]. split; [|split].
    + eapply MerkleProof_hash32; [|done]. apply Forall_forall. intros ? ?. by eapply hash32_TXIDs.
    + unfold checkMerkleProof. by apply bool_decide_eq_true_2.
    + rewrite Hlen. unfold TXIDs. by rewrite length_fmap.
  - cbn [r_db upd_db]. rewrite (frame_eq h (r_db r)); [apply Hsc|by rewrite put_tx_new|].
    by apply (put_tx_view h hh); [apply Hsc|..].
  - rewrite Hr. apply Hsc.
  - rewrite Hr. simpl. intros x Hx. rewrite lookup_insert_ne by (intros <-; done). by eapply sc_future.
  - rewrite Hr. apply Hsc.
  - rewrite Hr. destruct (sc_blobs _ _ _ _ Hsc) as [? ? ? Htx ?]. split; try done. simpl.
    intros x xrow [[<- <-]|[_ Hl]]%lookup_insert_Some; [|by eapply Htx].
    split; [apply hash32_Txid|apply hash32_Block_Hash].
Qed.

Lemma insertScriptPubkeyTransaction_scan V pending future r sh txid :
  scan_ok V pending future r → txid ∈ TXIDs b → is_Some (t_tx (r_db r) !! txid) → Sha256.hash32 sh →
  ∃ r', insertScriptPubkeyTransaction sh txid r = (Ok tt, r') ∧
    scan_ok V pending future r' ∧ is_Some (t_tx (r_db r') !! txid) ∧
    (sh, txid) ∈ t_scriptpubkey_tx (r_db r') ∧ grows (r_db r) (r_db r').
Proof using Hlt.
  intros Hsc Hin Htx Hsh. unfold insertScriptPubkeyTransaction. rewrite exec_total.
  eexists. split; [done|]. change (upd_scriptpubkey_tx _) with (put_stx sh txid).
  split; [|split; [done|split; [by apply elem_of_union_l, elem_of_singleton|]]].
  2: { split; try done. simpl. by apply union_subseteq_r. }
  split; try apply Hsc.
  - simpl. by apply put_stx_db_ok; [apply Hsc|].
  - rewrite (frame_eq h (r_db r)); [apply Hsc|done|]. apply put_stx_view. by eapply recorded_above.
  - destruct (sc_blobs _ _ _ _ Hsc) as [? ? ? ? Hst]. split; try done. simpl.
    intros sh' x. rewrite elem_of_union, elem_of_singleton.
    intros [[= -> ->]|Hx]; [|by apply Hst]. split; [done|by eapply hash32_TXIDs].
Qed.

Lemma insertUnspentOutput_scan V tv pending future r sat sh :
  scan_ok V (tv :: pending) future r → tv ∉ pending →
  outpoint_txid tv ∈ TXIDs b → is_Some (t_tx (r_db r) !! outpoint_txid tv) →
  Sha256.hash32 sh → length tv = 36%nat → sat < 2 ^ 63 →
  ∃ r', insertUnspentOutput tv sat sh r = (Ok tt, r') ∧
    scan_ok V pending future r' ∧
    r_db r' = upd_unspent_output
      <[tv := {| uo_satoshi := sat; uo_scriptpubkey_hash := sh |}]> (r_db r).
Proof using Hlt.
  intros Hsc Hni Hin Htx Hsh Hlen Hsat. set (row := {| uo_satoshi := sat; uo_scriptpubkey_hash := sh |}).
  destruct (sc_fresh _ _ _ _ Hsc tv) as [Hun Hsp]; [apply list_elem_of_here|].
  assert (insertUnspentOutput tv sat sh r = (Ok tt, upd_utxoIndex <[tv := to_index row]>
    (upd_db (put_unspent tv row) r))) as ->.
  { unfold insertUnspentOutput. rewrite bind_run. unfold exec.
    destruct (Z.leb_spec (2 ^ 63) sat); [lia|]. reflexivity. }
  eexists. split; [done|].
  assert (put_unspent tv row (r_db r) = upd_unspent_output <[tv := row]> (r_db r)) as Hput
    by (unfold put_unspent; by rewrite Hun).
  simpl. split; [|by rewrite Hput].
  split; simpl.
  - by apply put_unspent_db_ok; [apply Hsc|..].
  - rewrite Hput. apply Hsc.
  - rewrite Hput. apply Hsc.
  - rewrite (frame_eq h (r_db r)); [apply Hsc|by rewrite Hput|].
    apply put_unspent_view. by eapply recorded_above.
  - intros tv' Htv'. rewrite Hput. simpl. rewrite lookup_insert_ne by (intros <-; done).
    eapply sc_fresh; [done|]. by apply list_elem_of_further.
  - rewrite Hput. apply Hsc.
  - unfold index_sync. simpl. rewrite Hput. simpl. rewrite fmap_insert. f_equal. apply Hsc.
  - rewrite Hput. destruct (sc_blobs _ _ _ _ Hsc) as [? Hbu ? ? ?]. split; try done. simpl.
    intros x xrow [[<- <-]|[_ Hl]]%lookup_insert_Some; [done|by apply Hbu].
Qed.

Lemma deleteUnspentOutput_scan V pending future r tv row :
  scan_ok V pending future r → t_unspent_output (r_db r) !! tv = Some row →
  ∃ r', deleteUnspentOutput tv hh r = (Ok tt, r') ∧ scan_ok V pending future r' ∧
    r_db r' = upd_unspent_output (delete tv)
      (upd_spent_output <[tv := spend_row hh row]> (r_db r)).
Proof using Hlt.
  intros Hsc Hu.
  change (deleteUnspentOutput tv hh r) with
    (@Ok unit tt, {| r_db := spend tv hh (r_db r); utxoIndex := delete tv (utxoIndex r) |}).
  eexists. split; [done|].
  assert (spend tv hh (r_db r) = upd_unspent_output (delete tv)
    (upd_spent_output <[tv := spend_row hh row]> (r_db r))) as Hrun
    by (by apply spend_run; [apply Hsc|]).
  cbn [r_db]. split; [|by rewrite Hrun].
  split; cbn [r_db].
  - by eapply spend_db_ok; [apply Hsc|].
  - rewrite Hrun. apply Hsc.
  - rewrite Hrun. apply Hsc.
  - rewrite (frame_eq h (r_db r)); [apply Hsc|by rewrite Hrun|].
    by eapply spend_view; [apply Hsc|..].
  - intros tv' Htv'. rewrite Hrun. simpl. destruct (sc_fresh _ _ _ _ Hsc _ Htv') as [Hu' Hs'].
    assert (tv' ≠ tv) by congruence. by rewrite lookup_delete_ne, lookup_insert_ne.
  - rewrite Hrun. apply Hsc.
  - unfold index_sync. cbn [r_db utxoIndex]. rewrite Hrun. simpl. rewrite fmap_delete. f_equal. apply Hsc.
  - rewrite Hrun. destruct (sc_blobs _ _ _ _ Hsc) as [? Hbu Hbs ? ?]. split; try done; simpl.
    + intros x xrow [_ Hl]%lookup_delete_Some. by apply Hbu.
    + intros x xrow [[<- <-]|[_ Hl]]%lookup_insert_Some; [|by apply Hbs].
      simpl. by apply (Hbu _ _ Hu).
Qed.

(** Statements on the wallets, and fewer outpoints to come. *)
Lemma scan_ok_wallets V pending future r f :
  scan_ok V pending future r → scan_ok V pending future (upd_db (upd_wallet f) r).
Proof using Type. intros []. by split; try done; destruct sc_db0, sc_blobs0. Qed.

Lemma scan_ok_weaken V pending pending' future r :
  scan_ok V pending future r → (∀ tv, tv ∈ pending' → tv ∈ pending) →
  scan_ok V pending' future r.
Proof using Type. intros [] Hp. split; auto. Qed.
End scan.

(** ** What has been recorded so far *)

(** The outputs of a transaction with their outpoints. *)
Fixpoint tx_entries (txid : bytes) (j : Z) (outs : list Output) : list (bytes * (bytes * Output)) :=
  match outs with
  | [] => []
  | out :: outs => (makeTxidVout txid (uint32_wrap j), (txid, out)) :: tx_entries txid (j + 1) outs
  end.
(** The outpoints that its inputs spend. *)
Definition tx_spends (tx : Transaction) : list (bytes * bytes) :=
  (λ i, (makeTxidVout (in_Txid i) (in_Vout i), Txid tx)) <$> Inputs tx.

Definition block_entries (txs : list Transaction) : list (bytes * (bytes * Output)) :=
  txs ≫= λ tx, tx_entries (Txid tx) 0 (Outputs tx).
Definition block_spends (txs : list Transaction) : list (bytes * bytes) := txs ≫= tx_spends.

Lemma tx_entries_app txid j l1 l2 :
  tx_entries txid j (l1 ++ l2) = tx_entries txid j l1 ++ tx_entries txid (j + length l1) l2.
Proof.
  revert j. induction l1 as [|o l1 IH]; intros j; simpl; [by rewrite Z.add_0_r|].
  rewrite IH. do 3 f_equal. lia.
Qed.

Lemma tx_entries_fst txid j outs : (tx_entries txid j outs).*1 = tx_outpoints txid j outs.
Proof. revert j. induction outs; intros j; simpl; f_equal; auto. Qed.

Definition out_row (out : Output) : utxoRow :=
  {| uo_satoshi := Amount out; uo_scriptpubkey_hash := Sha256.Sum256 (ScriptPubkey out) |}.

(** The output is unspent, or spent at the height [hh] by one of the inputs. *)
Definition held (hh : Z) (ins : list (bytes * bytes)) (tv : bytes) (row : utxoRow) (db : Database) : Prop :=
  t_unspent_output db !! tv = Some row ∨
  (t_spent_output db !! tv = Some (spend_row hh row) ∧ tv ∈ ins.*1).

Definition in_history (sh txid : bytes) (db : Database) : Prop :=
  is_Some (t_tx db !! txid) ∧ (sh, txid) ∈ t_scriptpubkey_tx db.

Lemma grows_held hh ins db db' tv row : grows db db' → held hh ins tv row db → held hh ins tv row db'.
Proof. intros [Hu Hs _ _]. unfold held. by rewrite Hu, Hs. Qed.
Lemma held_app hh ins ins' tv row db : held hh ins tv row db → held hh (ins ++ ins') tv row db.
Proof. intros [Hu|[Hs Hin]]; [by left|right]. split; [done|]. rewrite fmap_app. apply elem_of_app. by left. Qed.
Lemma grows_in_history db db' sh txid : grows db db' → in_history sh txid db → in_history sh txid db'.
Proof.
  intros [_ _ Ht Hst] [[row Hr] Hin]. split; [|by apply Hst].
  exists row. by eapply lookup_weaken.
Qed.

(** [outs] and [ins] are the outputs and the spent outpoints of the block that
    have been processed; [known] are the script hashes of the index when the
    block started and [unspent0] the unspent outputs then. *)
Record progress (hh : Z) (known : gmap bytes scriptPubkeyInfo) (unspent0 : gmap bytes utxoRow)
    (outs : list (bytes * (bytes * Output))) (ins : list (bytes * bytes))
    (index : gmap bytes scriptPubkeyInfo) (db : Database) : Prop := {
  pg_known : ∀ sh, is_Some (known !! sh) → is_Some (index !! sh);
  (** Every output to a known script is held, with its transaction recorded *)
  pg_credit : ∀ tv txid out, (tv, (txid, out)) ∈ outs →
    is_Some (known !! Sha256.Sum256 (ScriptPubkey out)) →
    held hh ins tv (out_row out) db ∧ in_history (Sha256.Sum256 (ScriptPubkey out)) txid db;
  (** Every unspent output is still there, or spent by a recorded input *)
  pg_debit : ∀ tv row, unspent0 !! tv = Some row →
    (t_unspent_output db !! tv = Some row ∧ tv ∉ ins.*1) ∨
    (t_spent_output db !! tv = Some (spend_row hh row) ∧
     ∃ txid, (tv, txid) ∈ ins ∧ in_history (uo_scriptpubkey_hash row) txid db);
  (** Nothing else is unspent *)
  pg_sound : ∀ tv row, t_unspent_output db !! tv = Some row →
    unspent0 !! tv = Some row ∨
    ∃ txid out, (tv, (txid, out)) ∈ outs ∧ row = out_row out ∧
      is_Some (index !! Sha256.Sum256 (ScriptPubkey out));
}.

Section progress.
Context (hh : Z) (known : gmap bytes scriptPubkeyInfo) (unspent0 : gmap bytes utxoRow).
Implicit Types (index : gmap bytes scriptPubkeyInfo) (db : Database).
Abbreviation prog := (progress hh known unspent0).

Lemma progress_start db : t_unspent_output db = unspent0 → prog [] [] known db.
Proof.
  intros Hu. split; [done|by intros ??? []%elem_of_nil| |].
  - intros tv row Hr. left. rewrite Hu. split; [done|apply not_elem_of_nil].
  - intros tv row. rewrite Hu. by left.
Qed.

Lemma progress_grows outs ins index db db' : grows db db' → prog outs ins index db → prog outs ins index db'.
Proof.
  intros Hg [Hk Hc Hd Hs]. pose proof (gr_unspent _ _ Hg) as Hu. pose proof (gr_spent _ _ Hg) as Hsp.
  split; [done| | |].
  - intros tv txid out Hin Hkn. destruct (Hc _ _ _ Hin Hkn).
    split; [by eapply grows_held|by eapply grows_in_history].
  - intros tv row Hr. rewrite Hu, Hsp. destruct (Hd _ _ Hr) as [|(? & txid & ? & ?)]; [by left|right].
    split; [done|]. exists txid. split; [done|]. by eapply grows_in_history.
  - rewrite Hu. exact Hs.
Qed.

Lemma progress_index outs ins index index' db :
  (∀ sh, is_Some (index !! sh) → is_Some (index' !! sh)) →
  prog outs ins index db → prog outs ins index' db.
Proof.
  intros Hi [Hk Hc Hd Hs]. split; auto.
  intros tv row Hr. destruct (Hs _ _ Hr) as [|(txid & out & ? & ? & ?)]; [by left|right].
  exists txid, out. auto.
Qed.

(** An output to a script that is not in the index. *)
Lemma progress_skip_out outs ins index db tv txid out :
  index !! Sha256.Sum256 (ScriptPubkey out) = None →
  prog outs ins index db → prog (outs ++ [(tv, (txid, out))]) ins index db.
Proof.
  intros Hn [Hk Hc Hd Hs]. split; [done| |done|].
  - intros tv' txid' out' [Hin|Hin]%elem_of_app Hkn; [by apply Hc|].
    apply list_elem_of_singleton in Hin as [= -> -> ->].
    apply Hk in Hkn as [x Hx]. congruence.
  - intros tv' row Hr. destruct (Hs _ _ Hr) as [|(txid' & out' & ? & ? & ?)]; [by left|right].
    exists txid', out'. rewrite elem_of_app. auto.
Qed.

(** An output that is credited. *)
Lemma progress_credit outs ins index db tv txid out :
  t_unspent_output db !! tv = None → t_spent_output db !! tv = None →
  is_Some (index !! Sha256.Sum256 (ScriptPubkey out)) →
  in_history (Sha256.Sum256 (ScriptPubkey out)) txid db →
  prog outs ins index db →
  prog (outs ++ [(tv, (txid, out))]) ins index (upd_unspent_output <[tv := out_row out]> db).
Proof.
  intros Hu Hsp Hi Hh [Hk Hc Hd Hs]. split; [done| | |]; simpl.
  - intros tv' txid' out' [Hin|Hin]%elem_of_app Hkn.
    + destruct (Hc _ _ _ Hin Hkn) as [Hheld ?]. split; [|done].
      assert (tv' ≠ tv) by (intros ->; destruct Hheld as [|[? _]]; congruence).
      unfold held in *. simpl. by rewrite lookup_insert_ne.
    + apply list_elem_of_singleton in Hin as [= -> -> ->].
      split; [|done]. left. by apply lookup_insert_eq.
  - intros tv' row Hr. destruct (Hd _ _ Hr) as [[Hl ?]|?]; [left|by right].
    split; [|done]. rewrite lookup_insert_ne; [done|]. congruence.
  - intros tv' row [[<- <-]|[_ Hl]]%lookup_insert_Some.
    + right. exists txid, out. rewrite elem_of_app, list_elem_of_singleton. auto.
    + destruct (Hs _ _ Hl) as [|(txid' & out' & ? & ? & ?)]; [by left|right].
      exists txid', out'. rewrite elem_of_app. auto.
Qed.

(** An input that spends none of the unspent outputs. *)
Lemma progress_skip_in outs ins index db tv txid :
  t_unspent_output db !! tv = None →
  prog outs ins index db → prog outs (ins ++ [(tv, txid)]) index db.
Proof.
  intros Hn [Hk Hc Hd Hs]. split; [done| | |done].
  { intros tv' txid' out' Hin Hkn. destruct (Hc _ _ _ Hin Hkn) as [Hheld ?]. split; [|done].
    by apply held_app. }
  intros tv' row Hr. destruct (Hd _ _ Hr) as [[Hl Hni]|(? & txid' & ? & ?)].
  - left. split; [done|]. rewrite fmap_app, elem_of_app. intros [|Hin]; [done|].
    apply list_elem_of_singleton in Hin as ->. simpl in Hl. congruence.
  - right. split; [done|]. exists txid'. rewrite elem_of_app. auto.
Qed.

(** An input that is debited. *)
Lemma progress_debit outs ins index db tv txid row :
  t_unspent_output db !! tv = Some row → t_spent_output db !! tv = None →
  in_history (uo_scriptpubkey_hash row) txid db →
  prog outs ins index db →
  prog outs (ins ++ [(tv, txid)]) index
    (upd_unspent_output (delete tv) (upd_spent_output <[tv := spend_row hh row]> db)).
Proof.
  intros Hu Hsp Hh [Hk Hc Hd Hs]. split; [done| | |]; simpl.
  - intros tv' txid' out' Hin Hkn. destruct (Hc _ _ _ Hin Hkn) as [Hheld ?]. split; [|done].
    destruct (decide (tv' = tv)) as [->|Hne].
    + right. simpl. rewrite lookup_insert_eq, fmap_app, elem_of_app.
      split; [|right; apply list_elem_of_here]. destruct Hheld as [|[? _]]; congruence.
    + apply held_app. unfold held in *. simpl. by rewrite lookup_delete_ne, lookup_insert_ne.
  - intros tv' row' Hr. destruct (Hd _ _ Hr) as [[Hl Hni]|(Hl & txid' & ? & ?)].
    + destruct (decide (tv' = tv)) as [->|Hne].
      * right. rewrite lookup_insert_eq. assert (row' = row) as -> by congruence.
        split; [done|]. exists txid. rewrite elem_of_app, list_elem_of_singleton. auto.
      * left. rewrite lookup_delete_ne by done. split; [done|].
        rewrite fmap_app, elem_of_app. intros [|Hin]; [done|].
        by apply list_elem_of_singleton in Hin.
    + right. rewrite lookup_insert_ne by congruence. split; [done|].
      exists txid'. rewrite elem_of_app. auto.
  - intros tv' row' [_ Hl]%lookup_delete_Some. by apply Hs.
Qed.
End progress.
