(* ===== verification/Genesis.v ===== *)
(** * Genesis: the genesis blocks of [src/walletmanager/properties.go]

    The table of genesis headers that a synchronisation of an empty database
    starts from.  The entry of Testnet is the zero value of the struct, as in
    the code. *)

From S2P Require Import Prelude Bytes Sha256 BitcoinTypes Repository Wallet.

Definition mainnet_genesis : blockHeaderData := {|
  hd_Hash := unhex ("6fe28c0ab6f1b372c1a6a246ae63f74f931e8365e15a089c68d6190000000000");
  hd_Height := 0;
  hd_Serialized := unhex ("0100000000000000000000000000000000000000000000000000000000000000"
    +:+ "000000003ba3edfd7a7b12b27ac72c3e67768f617fc81bc3888a51323a9fb8aa"
    +:+ "4b1e5e4a29ab5f49ffff001d1dac2b7c01010000000100000000000000000000"
    +:+ "00000000000000000000000000000000000000000000ffffffff4d04ffff001d"
    +:+ "0104455468652054696d65732030332f4a616e2f32303039204368616e63656c"
    +:+ "6c6f72206f6e206272696e6b206f66207365636f6e64206261696c6f75742066"
    +:+ "6f722062616e6b73ffffffff0100f2052a01000000434104678afdb0fe554827"
    +:+ "1967f1a67130b7105cd6a828e03909a67962e0ea1f61deb649f6bc3f4cef38c4"
    +:+ "f35504e51ec112de5c384df7ba0b8d578a4c702b6bf11d5fac00000000") |}.

Definition regtest_genesis : blockHeaderData := {|
  hd_Hash := unhex ("06226e46111a0b59caaf126043eb5bbf28c34f3a5e332a1fc7b2b73cf188910f");
  hd_Height := 0;
  hd_Serialized := unhex ("0100000000000000000000000000000000000000000000000000000000000000"
    +:+ "000000003ba3edfd7a7b12b27ac72c3e67768f617fc81bc3888a51323a9fb8aa"
    +:+ "4b1e5e4adae5494dffff7f200200000001010000000100000000000000000000"
    +:+ "00000000000000000000000000000000000000000000ffffffff4d04ffff001d"
    +:+ "0104455468652054696d65732030332f4a616e2f32303039204368616e63656c"
    +:+ "6c6f72206f6e206272696e6b206f66207365636f6e64206261696c6f75742066"
    +:+ "6f722062616e6b73ffffffff0100f2052a01000000434104678afdb0fe554827"
    +:+ "1967f1a67130b7105cd6a828e03909a67962e0ea1f61deb649f6bc3f4cef38c4"
    +:+ "f35504e51ec112de5c384df7ba0b8d578a4c702b6bf11d5fac00000000") |}.

Definition genesisBlockData (n : Network) : blockHeaderData :=
  match n with
  | Mainnet => mainnet_genesis
  | Testnet => {| hd_Hash := zeroes 32; hd_Height := 0; hd_Serialized := [] |}
  | Regtest => regtest_genesis
  end.

Lemma hash32_genesis n : Sha256.hash32 (hd_Hash (genesisBlockData n)).
Proof. by destruct n; vm_compute. Qed.

Lemma genesis_height n : hd_Height (genesisBlockData n) = 0.
Proof. by destruct n. Qed.
