(* ===== verification/Sync.v ===== *)
(** * Sync: following the chain of the Bitcoin node

    Models [syncHeaders], [checkReorg], [processReorg], [syncWallets],
    [processBlock], [processOutput], [processInput] and one round of [run] of
    [src/walletmanager/walletmanager.go], with the notification of subscribers
    and [shStatus], and [sql.Execute] of
    [vendor/ncody.com/ncgo.git/database/sql/executor.go].  Logging and the
    estimate of the remaining time ([updateRemaining]) are left out. *)

From S2P Require Import Prelude Bytes Sha256 Merkle BitcoinTypes ScriptPubkey.
From S2P Require Import Database Repository Wallet Genesis.

(** ** The Bitcoin node *)

(** The replies of the node to the calls of [bitcoin.Client], and whether the
    context is found cancelled, each as a function of the number of calls made
    before: any behaviour of the node over a run is such a function. *)
Class BitcoinClient := {
  GetHeaders : nat → list bytes → bytes → outcome (list Header);
  GetBlock : nat → bytes → outcome Block;
  BroadcastWTX : nat → bytes → outcome unit;
  Cancelled : nat → bool;
}.

Definition call_node {A} (f : nat → outcome A) : M W A := λ w, (f (calls w), tick w).

(** ** Transactions of the database *)

(** [sql.Execute]: an error or a panic of the body rolls the tables back; the
    rest of the state keeps what the body did to it. *)
Definition Execute {A} (body : M W A) : M W A :=
  λ w, match body w with
       | (Ok a, w') => (Ok a, w')
       | (o, w') => (o, upd_repo (upd_db (λ _, r_db (repo w))) w')
       end.

(** ** Status of a script hash *)

Definition status_entry (t : TxData) : bytes :=
  hexEncode (reverse (td_TxidOf t)) ++ [colon] ++ decimal (td_Height t) ++ [colon].

(** [None] is the [nil] slice. *)
Definition shStatus (txs : list TxData) : option bytes :=
  match txs with
  | [] => None
  | _ => Some (Sha256.Sum256 (txs ≫= status_entry))
  end.

Definition getScriptHashStatus (sh : bytes) : M W (option bytes) :=
  hist ← on_repo (selectScriptHashHistory sh);
  mret (shStatus hist).

(** ** Notifying subscribers *)

(** The order of a range over a map is not specified. *)
Definition notifyHeaderSubscribers (h : Z) (buf : bytes) : M W unit :=
  modify (λ w,
    let buf2 := copy_into (zeroes 80) buf in
    emit ((λ r : Z * headerCallback, HeaderEvent r.2 h buf2) <$> map_to_list (hSubs w)) w).

Definition notifyScriptHashSubscribers (sh status : bytes) : M W unit :=
  modify (λ w,
    emit ((λ r : Z * statusCallback, StatusEvent r.2 status)
            <$> map_to_list (default ∅ (shSubs w !! sh))) w).

Section sync.
Context `{Bip32} `{BitcoinClient}.

(** ** Headers *)

(** The loop of [checkReorg]: [height] goes down until the node knows the
    block below it.  The panic bounds the loop, so seven rounds are enough. *)
Fixpoint checkReorg_loop (fuel : nat) (height : Z) : M W unit :=
  match fuel with
  | O => out_of_fuel
  | S fuel =>
      best ← gets bestHeader;
      if 6 <? best - (height - 1) then panic "REORG WITH DELTA > 6"
      else
        blockHashes ← on_repo (selectBlockHashesAtHeight (height - 1) 1 []);
        match blockHashes with
        | [] => panic "unreachable"
        | h0 :: _ =>
            headers ← call_node (λ n, GetHeaders n [h0] (zeroes 32));
            match headers with
            | [] => throw (ErrReorg (height - 1))
            | hdr :: _ =>
                if bool_decide (PreviousBlock hdr = h0) then throw (ErrReorg (height - 1))
                else checkReorg_loop fuel (height - 1)
            end
        end
  end.

Definition checkReorg : M W unit :=
  best ← gets bestHeader;
  if best =? 0 then mret tt else checkReorg_loop 7 best.

(** One header of a reply. *)
Definition processHeader (hdr : Header) : M W unit :=
  w ← get;
  if bool_decide (PreviousBlock hdr ≠ bestHeaderHash w) then
    checkReorg ;; throw (ErrMsg "unexpected block")
  else
    let hsh := Header_Hash hdr in
    let buf := Header_Serialize hdr in
    notifyHeaderSubscribers (bestHeader w + 1) buf ;;
    on_repo (insertBlockHeader hsh (bestHeader w + 1) buf) ;;
    modify (set_best (bestHeader w + 1) hsh).

Fixpoint syncHeaders_loop (fuel : nat) : M W unit :=
  match fuel with
  | O => out_of_fuel
  | S fuel =>
      w ← get;
      if Cancelled (calls w) then mret tt
      else
        headers ← call_node (λ n, GetHeaders n [bestHeaderHash w] (zeroes 32));
        match headers with
        | [] => mret tt
        | _ => forM headers processHeader ;; syncHeaders_loop fuel
        end
  end.

Definition syncHeaders (fuel : nat) : M W unit :=
  hd ← (λ w : W,
    match on_repo selectLastBlockHeaderData w with
    | (Err ErrNoRows, w') => (Ok (genesisBlockData (net w)), w')
    | r => r
    end);
  modify (set_best (hd_Height hd) (hd_Hash hd)) ;;
  syncHeaders_loop fuel.

(** ** Reorganisations *)

Definition processReorg (LastHeightOnChain : Z) : M W unit :=
  hashes ← on_repo (selectBlockHashesAtHeight LastHeightOnChain 1 []);
  match hashes with
  | [] => panic "unreachable"
  | h0 :: _ =>
      on_repo (deleteAllSinceBlock LastHeightOnChain) ;;
      on_repo reloadCaches ;;
      modify (upd_wallets (fmap (λ wal, set_height (Z.min LastHeightOnChain (height wal)) wal))) ;;
      modify (set_best LastHeightOnChain h0)
  end.

(** ** Blocks *)

(** The rows that [processOutput] and [processInput] both write: the
    transaction with its position and Merkle branch, and its script. *)
Definition recordTransaction (block : Block) (tx : Transaction) (txPos : Z) (sh : bytes)
    : M W unit :=
  let txid := Txid tx in
  '(pos, merkleP) ← lift_outcome (MerkleProof (TXIDs block) txid);
  (if bool_decide (pos ≠ txPos) then panic "unreachable" else mret tt) ;;
  on_repo (insertTransaction txid (Block_Hash block) txPos (Transaction_Serialize tx)
             (mjoin merkleP)) ;;
  on_repo (insertScriptPubkeyTransaction sh txid).

Definition processOutput (block : Block) (tx : Transaction) (txPos : Z) (out : Output)
    (vout : Z) (updatedSH : gset bytes) : M W (gset bytes) :=
  let sh := Sha256.Sum256 (ScriptPubkey out) in
  info ← gets (λ w, scriptPubkeys w !! sh);
  match info with
  | None => mret updatedSH
  | Some info =>
      recordTransaction block tx txPos sh ;;
      on_repo (insertUnspentOutput (makeTxidVout (Txid tx) vout) (Amount out) sh) ;;
      walletUpdateIndexes info ;;
      refillWallet (walletIdx info) ;;
      mret ({[ sh ]} ∪ updatedSH)
  end.

Definition processInput (block : Block) (height : Z) (tx : Transaction) (txPos : Z)
    (i : Input) (updatedSH : gset bytes) : M W (gset bytes) :=
  let txVout := makeTxidVout (in_Txid i) (in_Vout i) in
  utxoD ← (λ w : W,
    match on_repo (selectUnspentOutput txVout) w with
    | (Ok u, w') => (Ok (Some u), w')
    | (Err ErrNotFound, w') => (Ok None, w')
    | (Err e, w') => (Err e, w')
    | (Panic p, w') => (Panic p, w')
    | (OutOfFuel, w') => (OutOfFuel, w')
    end);
  match utxoD with
  | None => mret updatedSH
  | Some utxoD =>
      recordTransaction block tx txPos (ux_ScriptPubkeyHash utxoD) ;;
      on_repo (deleteUnspentOutput txVout height) ;;
      mret ({[ ux_ScriptPubkeyHash utxoD ]} ∪ updatedSH)
  end.

(** [for j := range l { acc, err = body(j, l[j], acc) }]. *)
Fixpoint fold_idx {A B} (i : Z) (l : list A) (body : Z → A → B → M W B) (acc : B) : M W B :=
  match l with
  | [] => mret acc
  | x :: l => acc ← body i x acc; fold_idx (i + 1) l body acc
  end.

Definition processTransaction (block : Block) (height : Z) (i : Z) (tx : Transaction)
    (updatedSH : gset bytes) : M W (gset bytes) :=
  updatedSH ← fold_idx 0 (Outputs tx)
    (λ j out, processOutput block tx i out (uint32_wrap j)) updatedSH;
  fold_idx 0 (Inputs tx) (λ _ inp, processInput block height tx i inp) updatedSH.

Definition raiseWalletHeight (height_ : Z) (i : nat) : M W unit :=
  wl ← get_wallet i;
  if height_ <=? height wl then mret tt
  else
    on_repo (updateWalletHeight (hash wl) height_) ;;
    set_wallet i (set_height height_ wl).

(** [copy(status2[:], status)] of a status that may be [nil]. *)
Definition notifyStatus (sh : bytes) : M W unit :=
  status ← getScriptHashStatus sh;
  notifyScriptHashSubscribers sh (copy_into (zeroes 32) (default [] status)).

Definition processBlock (block : Block) (height : Z) : M W unit :=
  updatedSH ← fold_idx 0 (Transactions block) (processTransaction block height) ∅;
  n ← gets (λ w, length (wallets w));
  forM (seq 0 n) (raiseWalletHeight height) ;;
  forM (elements updatedSH) notifyStatus.

(** ** Wallets *)

(** The blocks of one page of hashes; the height of the next block. *)
Fixpoint syncPage (hbuf : list bytes) (height : Z) : M W Z :=
  match hbuf with
  | [] => mret height
  | bh :: hbuf =>
      block ← call_node (λ n, GetBlock n bh);
      Execute (processBlock block height) ;;
      syncPage hbuf (height + 1)
  end.

Definition page_size : Z := 2000.

Fixpoint syncWallets_loop (fuel : nat) (height : Z) : M W unit :=
  match fuel with
  | O => out_of_fuel
  | S fuel =>
      best ← gets bestHeader;
      if best <? height then mret tt
      else
        hbuf ← on_repo (selectBlockHashesAtHeight height page_size []);
        height ← syncPage hbuf height;
        syncWallets_loop fuel height
  end.

Definition min_height (wl : wallet) (ws : list wallet) : Z :=
  foldl (λ h w, Z.min h (height w)) (height wl) (wl :: ws).

Definition syncWallets (fuel : nat) : M W unit :=
  w ← get;
  match wallets w with
  | [] => mret tt
  | wl :: ws =>
      let h := min_height wl ws in
      if bestHeader w <=? h then mret tt else syncWallets_loop fuel (h + 1)
  end.

(** One round of [run]: the first one, and the one of every tick. *)
Definition syncRound (fuel : nat) : M W unit :=
  (λ w : W,
    match syncHeaders fuel w with
    | (Err (ErrReorg h), w') => processReorg h w'
    | r => r
    end) ;;
  syncWallets fuel.
End sync.
