(* ===== verification/HeaderSync.v ===== *)
(** * HeaderSync: what following the headers of the node does

    Invariants of [syncHeaders] against any node, and its result against a node
    that serves one chain: it reaches the tip, and it finds the fork point of a
    reorganisation. *)

From S2P Require Import Prelude Bytes Sha256 BitcoinTypes ScriptPubkey.
From S2P Require Import Database Repository RepositoryFacts Ledger Chain Wallet Genesis Sync.

(** ** Running repository calls on the manager *)

Lemma upd_repo_id w : upd_repo (λ _, repo w) w = w.
Proof. by destruct w. Qed.

Lemma on_repo_read {A} (m : M repository A) w o :
  m (repo w) = (o, repo w) → on_repo m w = (o, w).
Proof. intros H. unfold on_repo, zoom. by rewrite H, upd_repo_id. Qed.

Lemma on_repo_query {A} (q : Database → outcome A) w :
  on_repo (query q) w = (q (r_db (repo w)), w).
Proof. by apply on_repo_read. Qed.

Lemma preserves_query (I : W → Prop) {A} (q : Database → outcome A) : preserves I (on_repo (query q)).
Proof. intros w. by rewrite on_repo_query. Qed.

#[export] Hint Resolve preserves_query : preserve.

(** ** State of the header synchronisation *)

Definition genesis_hash (w : W) : bytes := hd_Hash (genesisBlockData (net w)).

(** The header table is a chain and the manager's best header is its tip. *)
Record tip_ok (rows : list (bytes * headerRow)) (w : W) : Prop := {
  tip_chain : chain_ok (genesis_hash w) (r_db (repo w)) rows;
  tip_height : bestHeader w = length rows;
  tip_is_last : bestHeaderHash w = tip_hash (genesis_hash w) rows;
}.

(** The row that is stored for a header at a height. *)
Definition header_row (h : Z) (hdr : Header) : bytes * headerRow :=
  (Header_Hash hdr, {| bh_height := h; bh_serialized := take 80 (Header_Serialize hdr) |}).

Fixpoint rows_of (h : Z) (C : list Header) : list (bytes * headerRow) :=
  match C with
  | [] => []
  | hdr :: C => header_row h hdr :: rows_of (h + 1) C
  end.

(** Headers that form a chain from a hash. *)
Fixpoint linked_headers (prev : bytes) (C : list Header) : Prop :=
  match C with
  | [] => True
  | hdr :: C => header_ok hdr ∧ PreviousBlock hdr = prev ∧ linked_headers (Header_Hash hdr) C
  end.

Lemma length_rows_of h C : length (rows_of h C) = length C.
Proof. revert h. induction C; intros; simpl; auto. Qed.

Lemma rows_of_fst h C : (rows_of h C).*1 = Header_Hash <$> C.
Proof. revert h. induction C; intros; simpl; f_equal; auto. Qed.

Lemma rows_of_app h C D : rows_of h (C ++ D) = rows_of h C ++ rows_of (h + length C) D.
Proof.
  revert h. induction C as [|x C IH]; intros h; simpl; [by rewrite Z.add_0_r|].
  rewrite IH. by replace (h + 1 + length C) with (h + S (length C)) by lia.
Qed.

Lemma rows_of_take h C n : rows_of h (take n C) = take n (rows_of h C).
Proof. revert h n. induction C as [|hdr C IH]; intros h [|n]; simpl; [done..|]. by rewrite IH. Qed.

Lemma rows_of_lookup h C (i : nat) : rows_of h C !! i = header_row (h + i) <$> C !! i.
Proof.
  revert h i. induction C as [|x C IH]; intros h [|i]; try done; simpl.
  - by rewrite Z.add_0_r.
  - rewrite IH. by replace (h + 1 + i) with (h + S i) by lia.
Qed.

Lemma linked_headers_app g C D :
  linked_headers g (C ++ D) ↔ linked_headers g C ∧ linked_headers (tip_hash g (rows_of 1 C)) D.
Proof.
  revert g. generalize 1. induction C as [|x C IH]; intros h g; simpl; [tauto|].
  unfold header_row. rewrite tip_hash_cons, (IH (h + 1)). tauto.
Qed.

Lemma header_row_linked g hdr :
  header_ok hdr → PreviousBlock hdr = g →
  length (take 80 (Header_Serialize hdr)) = 80%nat ∧
  prev_of (take 80 (Header_Serialize hdr)) = g ∧
  Header_Hash hdr = doubleSha256 (take 80 (Header_Serialize hdr)).
Proof.
  intros Hok <-. rewrite take80_Header_Serialize by done. destruct Hok as [Hp Hm]. split_and!.
  - by rewrite length_header80.
  - unfold prev_of, header80. rewrite drop_app_length' by done.
    by rewrite take_app_length' by done.
  - done.
Qed.

Lemma linked_rows_of g h C : linked_headers g C → linked g h (rows_of h C).
Proof.
  revert g h. induction C as [|hdr C IH]; intros g h; [done|]. intros (Hok & Hp & HC). simpl.
  destruct (header_row_linked g hdr Hok Hp) as (? & ? & ?). split_and!; auto.
Qed.

(** ** One header *)

Lemma insertBlockHeader_run hs h buf r :
  (80 ≤ length buf)%nat →
  insertBlockHeader hs h buf r =
    match t_blockheader (r_db r) !! hs with
    | Some _ => (Err (ErrConstraint "blockheader"), r)
    | None => (Ok tt, upd_db (upd_blockheader
                <[hs := {| bh_height := h; bh_serialized := take 80 buf |}]>) r)
    end.
Proof.
  intros Hl. unfold insertBlockHeader. rewrite bool_decide_eq_false_2 by lia.
  unfold exec, insert_row. by destruct (t_blockheader (r_db r) !! hs).
Qed.

Lemma chain_ok_snoc g db rows hdr :
  chain_ok g db rows → header_ok hdr → PreviousBlock hdr = tip_hash g rows →
  t_blockheader db !! Header_Hash hdr = None →
  chain_ok g (upd_blockheader <[Header_Hash hdr := (header_row (length rows + 1) hdr).2]> db)
    (rows ++ [header_row (length rows + 1) hdr]).
Proof.
  intros [Hp Hk] Hok Hprev Hn. split.
  - unfold header_rows in *. cbn [t_blockheader upd_blockheader].
    rewrite map_to_list_insert by done. change (Header_Hash hdr, _) with (header_row (length rows + 1) hdr).
    rewrite <- Permutation_cons_append. by apply perm_skip.
  - apply linked_app. split; [done|].
    destruct (header_row_linked _ hdr Hok Hprev) as (? & ? & ?).
    simpl. split_and!; auto. lia.
Qed.

Lemma Header_Serialize_length hdr : header_ok hdr → (80 ≤ length (Header_Serialize hdr))%nat.
Proof.
  intros [Hp Hm]. unfold Header_Serialize. rewrite length_app, length_header80 by done. simpl. lia.
Qed.

Section headers.
Context `{Bip32} `{BitcoinClient}.

(** The arrays of the headers of a reply have their Go length. *)
Definition typed_headers : Prop :=
  ∀ n l stop hs, GetHeaders n l stop = Ok hs → Forall header_ok hs.

Lemma preserves_call_node (I : W → Prop) {A} (f : nat → outcome A) :
  (∀ w, I w → I (tick w)) → preserves I (call_node f).
Proof. intros HI w Hw. by apply HI. Qed.

Lemma preserves_checkReorg (I : W → Prop) :
  (∀ w, I w → I (tick w)) → preserves I checkReorg.
Proof.
  intros HI. unfold checkReorg. apply preserves_bind; [auto with preserve|]. intros best.
  destruct (best =? 0); [auto with preserve|]. generalize 7%nat best. intros fuel.
  induction fuel as [|fuel IH]; intros h; simpl; [auto with preserve|].
  apply preserves_bind; [auto with preserve|]. intros b.
  destruct (6 <? _); [auto with preserve|].
  apply preserves_bind; [apply preserves_query|]. intros [|h0 l]; [auto with preserve|].
  apply preserves_bind; [by apply preserves_call_node|]. intros [|hdr hs]; [auto with preserve|].
  case_bool_decide; auto with preserve.
Qed.

(** [checkReorg] only reads: the state changes in the call counter. *)
Lemma checkReorg_state w : ∃ n, ((checkReorg w).2) = Nat.iter n tick w.
Proof.
  apply (preserves_checkReorg (λ w', ∃ n, w' = Nat.iter n tick w)); [|by exists 0%nat].
  intros w' [n ->]. by exists (S n).
Qed.

Lemma iter_tick n w : repo (Nat.iter n tick w) = repo w ∧ net (Nat.iter n tick w) = net w ∧
  bestHeader (Nat.iter n tick w) = bestHeader w ∧
  bestHeaderHash (Nat.iter n tick w) = bestHeaderHash w ∧
  events (Nat.iter n tick w) = events w.
Proof. induction n; simpl; auto. Qed.

Lemma tip_ok_tick rows w : tip_ok rows w → tip_ok rows (tick w).
Proof. intros [? ? ?]. by split. Qed.

(** A header that extends the tip. *)
Lemma processHeader_new rows w hdr :
  tip_ok rows w → header_ok hdr → PreviousBlock hdr = bestHeaderHash w →
  t_blockheader (r_db (repo w)) !! Header_Hash hdr = None →
  ∃ w', processHeader hdr w = (Ok tt, w') ∧
    tip_ok (rows ++ [header_row (length rows + 1) hdr]) w' ∧
    genesis_hash w' = genesis_hash w ∧ calls w' = calls w.
Proof.
  intros [Hc Hh Ht] Hok Hp Hn. unfold processHeader.
  rewrite (bind_Ok_1 _ _ _ w w) by done.
  rewrite bool_decide_eq_false_2 by (intros ?; done).
  eexists. split; [|split; [|split]].
  - rewrite bind_run. unfold notifyHeaderSubscribers, modify at 1.
    rewrite bind_run. unfold on_repo, zoom. simpl repo.
    rewrite insertBlockHeader_run by by apply Header_Serialize_length.
    change (repo (emit _ w)) with (repo w).
    rewrite Hn. reflexivity.
  - split; [|rewrite length_app; simpl; lia|unfold header_row; by rewrite tip_hash_snoc].
    cbn -[take Header_Serialize]. rewrite Hh. apply chain_ok_snoc; [done..| |done]. by rewrite Hp.
  - done.
  - done.
Qed.

(** A header whose block is in the table already. *)
Lemma processHeader_known w hdr :
  header_ok hdr → PreviousBlock hdr = bestHeaderHash w →
  is_Some (t_blockheader (r_db (repo w)) !! Header_Hash hdr) →
  ∃ evs, processHeader hdr w = (Err (ErrConstraint "blockheader"), emit evs w).
Proof.
  intros Hok Hp [row Hn]. unfold processHeader.
  rewrite (bind_Ok_1 _ _ _ w w) by done.
  rewrite bool_decide_eq_false_2 by (intros ?; done).
  eexists. rewrite bind_run. unfold notifyHeaderSubscribers, modify at 1.
  rewrite bind_run. unfold on_repo, zoom.
  change (repo (emit _ w)) with (repo w).
  rewrite insertBlockHeader_run by by apply Header_Serialize_length.
  rewrite Hn. by destruct w.
Qed.

(** A header that does not extend the tip. *)
Lemma processHeader_mismatch w hdr :
  PreviousBlock hdr ≠ bestHeaderHash w →
  processHeader hdr w = (checkReorg ;; throw (ErrMsg "unexpected block")) w.
Proof.
  intros Hp. unfold processHeader. rewrite (bind_Ok_1 _ _ _ w w) by done.
  by rewrite bool_decide_eq_true_2.
Qed.

(** The rows only grow at the tip. *)
Definition extends (g : bytes) (rows0 : list (bytes * headerRow)) (w : W) : Prop :=
  genesis_hash w = g ∧ ∃ rows, rows0 `prefix_of` rows ∧ tip_ok rows w.

Lemma processHeader_extends g rows0 hdr :
  header_ok hdr → preserves (extends g rows0) (processHeader hdr).
Proof.
  intros Hok w (Hg & rows & Hpre & Htip).
  destruct (decide (PreviousBlock hdr = bestHeaderHash w)) as [Hp|Hp].
  - destruct (t_blockheader (r_db (repo w)) !! Header_Hash hdr) eqn:E.
    + destruct (processHeader_known w hdr Hok Hp) as [evs ->]; [by eexists|].
      split; [done|]. exists rows. split; [done|]. by destruct Htip.
    + destruct (processHeader_new rows w hdr Htip Hok Hp E) as (w' & -> & Htip' & Hg' & _).
      split; [by rewrite <- Hg|]. eexists. split; [|done]. by apply prefix_app_r.
  - rewrite processHeader_mismatch by done.
    apply (preserves_bind (extends g rows0)); [|auto with preserve|].
    + apply preserves_checkReorg. intros w' (? & rs & ? & ?).
      split; [done|]. exists rs. split; [done|]. by apply tip_ok_tick.
    + split; [done|]. by exists rows.
Qed.

Lemma syncHeaders_loop_extends g rows0 fuel :
  typed_headers → preserves (extends g rows0) (syncHeaders_loop fuel).
Proof.
  intros Hty. induction fuel as [|fuel IH]; intros w Hw; simpl; [exact Hw|].
  rewrite (bind_Ok_1 get _ w w w) by done.
  destruct (Cancelled (calls w)); [exact Hw|].
  rewrite bind_run. unfold call_node.
  destruct (GetHeaders (calls w) [bestHeaderHash w] (zeroes 32)) as [hs| | |] eqn:E.
  all: assert (extends g rows0 (tick w)) as Hw' by
    (destruct Hw as (? & rs & ? & ?); split; [done|]; exists rs; split; [done|by apply tip_ok_tick]).
  2-4: exact Hw'.
  destruct hs as [|hdr hs]; [exact Hw'|].
  apply (preserves_bind (extends g rows0)); [|intros _; apply IH|done].
  apply preserves_forM. intros x Hx. apply processHeader_extends.
  pose proof (Hty _ _ _ _ E) as Hall. rewrite Forall_forall in Hall. by apply Hall.
Qed.

(** An invariant of the headers one by one is one of the synchronisation. *)
Lemma preserves_syncHeaders (I : W → Prop) fuel :
  (∀ w, I w → I (tick w)) → (∀ k hs, preserves I (modify (set_best k hs))) →
  (∀ hdr, preserves I (processHeader hdr)) → preserves I (syncHeaders fuel).
Proof.
  intros Ht Hb Hp. unfold syncHeaders. apply preserves_bind.
  { intros w Hw. unfold selectLastBlockHeaderData. rewrite on_repo_query.
    by destruct (query_row _ ≫= _) as [|[]| |]. }
  intros hd. apply preserves_bind; [apply Hb|]. intros _.
  induction fuel as [|fuel IH]; simpl; [auto with preserve|].
  apply preserves_bind; [auto with preserve|]. intros w.
  destruct (Cancelled (calls w)); [auto with preserve|].
  apply preserves_bind; [by apply preserves_call_node|]. intros [|hdr hs]; [auto with preserve|].
  apply preserves_bind; [|auto]. apply preserves_forM. intros x _. apply Hp.
Qed.

(** The state in which the loop starts. *)
Lemma syncHeaders_start rows w fuel :
  chain_ok (genesis_hash w) (r_db (repo w)) rows →
  ∃ w0, tip_ok rows w0 ∧ genesis_hash w0 = genesis_hash w ∧
    w0 = set_best (length rows) (tip_hash (genesis_hash w) rows) w ∧
    syncHeaders fuel w = syncHeaders_loop fuel w0.
Proof.
  intros Hc. exists (set_best (length rows) (tip_hash (genesis_hash w) rows) w).
  split; [by split|]. split; [done|]. split; [done|].
  unfold syncHeaders. rewrite bind_run.
  rewrite (on_repo_read _ _ _ (selectLastBlockHeaderData_chain Hc (repo w) eq_refl)).
  unfold tip_hash, genesis_hash.
  destruct (last rows) as [[hs row]|] eqn:E.
  - reflexivity.
  - rewrite bind_run. unfold modify. rewrite genesis_height.
    apply last_None in E as ->. reflexivity.
Qed.
End headers.

(** ** A node that serves one chain *)

(** The reply to [getheaders] with one block hash: the headers after that
    block, or after the genesis block when the hash is not on the chain, 2000
    at most. *)
Definition node_headers (g : bytes) (C : list Header) (loc : bytes) : list Header :=
  let pos := default 0%nat (fst <$> list_find (loc =.) (g :: (Header_Hash <$> C))) in
  take 2000 (drop pos C).

(** A running node on the best chain [C]: a chain from the genesis block,
    without two blocks of the same hash. *)
Class ServesChain `{BitcoinClient} (g : bytes) (C : list Header) : Prop := {
  serves_headers : ∀ n loc, GetHeaders n [loc] (zeroes 32) = Ok (node_headers g C loc);
  serves_running : ∀ n, Cancelled n = false;
  serves_linked : linked_headers g C;
  serves_distinct : NoDup (g :: (Header_Hash <$> C));
}.

Lemma node_headers_known g C i loc :
  NoDup (g :: (Header_Hash <$> C)) → (g :: (Header_Hash <$> C)) !! i = Some loc →
  node_headers g C loc = take 2000 (drop i C).
Proof.
  intros Hnd Hi. unfold node_headers.
  rewrite (proj2 (list_find_Some (loc =.) (g :: (Header_Hash <$> C)) i loc)); [done|].
  split_and!; [done|done|]. intros j y Hj Hlt <-.
  pose proof (NoDup_lookup _ _ _ _ Hnd Hi Hj). lia.
Qed.

Lemma node_headers_unknown g C loc :
  loc ∉ g :: (Header_Hash <$> C) → node_headers g C loc = take 2000 C.
Proof.
  intros Hni. unfold node_headers.
  rewrite (proj2 (list_find_None (loc =.) (g :: (Header_Hash <$> C)))); [done|].
  apply Forall_forall. intros x Hx <-. done.
Qed.

(** The tip of the first [k] headers is entry [k] of the chain with its genesis. *)
Lemma tip_hash_take g h C k :
  (k ≤ length C)%nat →
  (g :: (Header_Hash <$> C)) !! k = Some (tip_hash g (rows_of h (take k C))).
Proof.
  intros Hk. destruct k as [|k]; [done|]. simpl.
  destruct (lookup_lt_is_Some_2 C k) as [x Hx]; [lia|].
  rewrite (take_S_r _ _ _ Hx), rows_of_app, list_lookup_fmap, Hx. simpl.
  unfold header_row. by rewrite tip_hash_snoc.
Qed.

Lemma header_lookup_None g db rows hs :
  chain_ok g db rows → hs ∉ rows.*1 → t_blockheader db !! hs = None.
Proof.
  intros [Hp _] Hni. apply eq_None_not_Some. intros [row Hr]. apply Hni.
  apply elem_of_map_to_list in Hr. fold (header_rows db) in Hr. rewrite Hp in Hr.
  apply list_elem_of_fmap. by exists (hs, row).
Qed.

Lemma header_lookup_Some g db rows hs row :
  chain_ok g db rows → t_blockheader db !! hs = Some row ↔ (hs, row) ∈ rows.
Proof. intros [Hp _]. rewrite <- elem_of_map_to_list. fold (header_rows db). by rewrite Hp. Qed.

Section serves.
Context `{Bip32} `{BitcoinClient} {g : bytes} {C : list Header} `{!ServesChain g C}.

(** A page of headers that extends the tip is stored whole. *)
Lemma forM_processHeader P D w :
  tip_ok (rows_of 1 P) w → genesis_hash w = g →
  linked_headers g (P ++ D) → NoDup (Header_Hash <$> (P ++ D)) →
  ∃ w', forM D processHeader w = (Ok tt, w') ∧ tip_ok (rows_of 1 (P ++ D)) w' ∧
    genesis_hash w' = g ∧ calls w' = calls w.
Proof using Type.
  revert P w. induction D as [|hdr D IH]; intros P w Ht Hg Hl Hnd.
  - exists w. rewrite app_nil_r. done.
  - pose proof Hl as (_ & Hok & Hprev & _)%linked_headers_app.
    destruct (processHeader_new _ w hdr Ht Hok) as (w1 & Hrun & Ht1 & Hg1 & Hc1).
    + destruct Ht as [_ _ ->]. by rewrite Hg.
    + eapply header_lookup_None; [apply Ht|]. rewrite rows_of_fst.
      rewrite fmap_app in Hnd. apply NoDup_app in Hnd as (_ & Hd & _).
      intros Hin. apply (Hd _ Hin), list_elem_of_here.
    + rewrite length_rows_of in Ht1.
      replace (P ++ hdr :: D) with ((P ++ [hdr]) ++ D) in * by by rewrite <- app_assoc.
      destruct (IH (P ++ [hdr]) w1) as (w' & Hrun' & Ht' & Hg' & Hc').
      * rewrite rows_of_app. cbn [rows_of].
        by replace (1 + length P) with (length P + 1) by lia.
      * congruence.
      * done.
      * done.
      * exists w'. simpl. rewrite (bind_Ok_1 _ _ _ _ _ Hrun), Hrun'. by rewrite Hc', Hc1.
Qed.

(** From a prefix of the node's chain the loop reaches the tip. *)
Lemma syncHeaders_loop_serves k fuel w :
  tip_ok (rows_of 1 (take k C)) w → genesis_hash w = g → (k ≤ length C)%nat →
  (length C - k < fuel)%nat →
  ∃ w', syncHeaders_loop fuel w = (Ok tt, w') ∧ tip_ok (rows_of 1 C) w' ∧ genesis_hash w' = g.
Proof using ServesChain0.
  revert k w. induction fuel as [|fuel IH]; intros k w Ht Hg Hk Hf; [lia|].
  simpl. rewrite (bind_Ok_1 get _ w w w) by done. rewrite serves_running.
  pose proof Ht as [_ _ Htip]. rewrite Htip, Hg.
  rewrite bind_run. unfold call_node. rewrite serves_headers.
  rewrite (node_headers_known g C k) by (apply serves_distinct || by apply tip_hash_take).
  destruct (take 2000 (drop k C)) as [|hdr hs] eqn:Hpage.
  - assert (k = length C) as ->.
    { apply (f_equal length) in Hpage. rewrite length_take, length_drop in Hpage. cbn [length] in Hpage. lia. }
    rewrite firstn_all in Ht. exists (tick w). split; [done|]. by split; [apply tip_ok_tick|].
  - rewrite <- Hpage.
    set (k' := (k + length (take 2000 (drop k C)))%nat).
    assert (take k C ++ take 2000 (drop k C) = take k' C) as Happ.
    { unfold k'. rewrite take_take_drop, length_take, length_drop.
      destruct (decide (2000 ≤ length C - k)%nat); [f_equal; lia|].
      rewrite (take_ge C (k + 2000)) by lia. symmetry. apply take_ge. lia. }
    assert (k' ≤ length C)%nat as Hk' by (unfold k'; rewrite length_take, length_drop; lia).
    assert (k < k')%nat as Hlt by (unfold k'; rewrite Hpage; simpl; lia).
    destruct (forM_processHeader (take k C) (take 2000 (drop k C)) (tick w))
      as (w1 & Hrun & Ht1 & Hg1 & _).
    + by apply tip_ok_tick.
    + done.
    + rewrite Happ. pose proof serves_linked as Hl. rewrite <- (take_drop k' C) in Hl.
      by apply linked_headers_app in Hl as [? _].
    + rewrite Happ. pose proof serves_distinct as Hnd. apply NoDup_cons in Hnd as [_ Hnd].
      rewrite <- (take_drop k' C), fmap_app in Hnd. by apply NoDup_app in Hnd as [? _].
    + rewrite (bind_Ok_1 _ _ _ _ _ Hrun). rewrite Happ in Ht1.
      apply (IH k'); try done. lia.
Qed.

Lemma syncHeaders_serves k fuel w :
  genesis_hash w = g → (k ≤ length C)%nat →
  chain_ok g (r_db (repo w)) (rows_of 1 (take k C)) → (length C - k < fuel)%nat →
  ∃ w', syncHeaders fuel w = (Ok tt, w') ∧ tip_ok (rows_of 1 C) w' ∧ genesis_hash w' = g.
Proof using ServesChain0.
  intros Hgw Hk Hc Hf. rewrite <- Hgw in Hc.
  destruct (syncHeaders_start _ w fuel Hc) as (w0 & Ht & Hg & _ & ->).
  apply (syncHeaders_loop_serves k fuel w0 Ht); congruence || done.
Qed.

(** *** Reorganisations *)

(** Going down through blocks that are not on the node's chain. *)
Lemma checkReorg_walk rows (a fuel : nat) H' w :
  tip_ok rows w → genesis_hash w = g → C ≠ [] →
  (∀ j : nat, H' - a ≤ j ≤ H' - 1 → ∃ hs, rows.*1 !! Nat.pred j = Some hs ∧
    hs ∉ g :: (Header_Hash <$> C)) →
  1 ≤ H' - a → length rows - (H' - a) ≤ 6 →
  checkReorg_loop (a + fuel) H' w = checkReorg_loop fuel (H' - a) (Nat.iter a tick w).
Proof using ServesChain0.
  revert H' w. induction a as [|a IH]; intros H' w Ht Hg HC Hst H1 H6.
  - simpl. by rewrite Z.sub_0_r.
  - simpl Nat.add. cbn [checkReorg_loop].
    rewrite (bind_Ok_1 (gets _) _ w (bestHeader w) w) by done.
    pose proof Ht as [Hc Hh _]. rewrite Hh.
    destruct (Z.ltb_spec 6 (length rows - (H' - 1))); [lia|].
    destruct (Hst (Z.to_nat (H' - 1))) as (hs & Hl & Hni); [lia|].
    rewrite (bind_Ok_1 _ _ w [hs] w).
    2: { apply on_repo_read. erewrite (selectBlockHashesAtHeight_chain Hc) by (done || lia).
         do 2 f_equal. replace (Z.to_nat (H' - 1 - 1)) with (Nat.pred (Z.to_nat (H' - 1))) by lia.
         by rewrite (drop_S _ _ _ Hl). }
    rewrite bind_run. unfold call_node. rewrite serves_headers, node_headers_unknown by done.
    assert (∃ hdr C', C = hdr :: C') as (hdr & C' & HC') by (destruct C; [done|by eauto]).
    pose proof serves_linked as Hlk. rewrite HC' in Hlk |- *. destruct Hlk as (_ & Hprev & _).
    change (take 2000 (hdr :: C')) with (hdr :: take 1999 C').
    cbn iota. rewrite bool_decide_eq_false_2.
    2: { rewrite Hprev. intros ->. apply Hni, list_elem_of_here. }
    rewrite IH.
    + rewrite Nat.iter_succ_r. f_equal. lia.
    + by apply tip_ok_tick.
    + done.
    + done.
    + intros j Hj. apply Hst. lia.
    + lia.
    + lia.
Qed.

(** The state of a reorganisation: the table has the first [f] blocks of the
    node's chain, then blocks that are not on it. *)
Record forked (f : nat) (stale : list (bytes * headerRow)) (w : W) : Prop := {
  fork_tip : tip_ok (rows_of 1 (take f C) ++ stale) w;
  fork_net : genesis_hash w = g;
  fork_len : (f ≤ length C)%nat;
  fork_some : C ≠ [];
  fork_stale : ∀ hs, hs ∈ stale.*1 → hs ∉ g :: (Header_Hash <$> C);
}.

Lemma forked_stale_lookup f stale w (j : nat) :
  forked f stale w → (f < j ≤ f + length stale)%nat →
  ∃ hs, (rows_of 1 (take f C) ++ stale).*1 !! Nat.pred j = Some hs ∧
    hs ∉ g :: (Header_Hash <$> C).
Proof using Type.
  intros Hf Hj. pose proof (fork_len _ _ _ Hf).
  destruct (lookup_lt_is_Some_2 stale (Nat.pred j - f)) as [[hs row] Hl]; [lia|].
  exists hs. split.
  - rewrite list_lookup_fmap, lookup_app_r by (rewrite length_rows_of, length_take; lia).
    rewrite length_rows_of, length_take, Nat.min_l by lia. by rewrite Hl.
  - apply (fork_stale _ _ _ Hf). apply list_elem_of_fmap. exists (hs, row).
    split; [done|]. by eapply list_elem_of_lookup_2.
Qed.

Lemma length_forked f stale w :
  forked f stale w → length (rows_of 1 (take f C) ++ stale) = (f + length stale)%nat.
Proof using Type.
  intros Hf. pose proof (fork_len _ _ _ Hf).
  rewrite length_app, length_rows_of, length_take. lia.
Qed.

(** The round of the loop that finds the fork. *)
Lemma checkReorg_loop_found f stale w w' fuel :
  forked f stale w → tip_ok (rows_of 1 (take f C) ++ stale) w' →
  (1 ≤ f)%nat → length stale ≤ 6 → genesis_hash w' = g →
  checkReorg_loop (S fuel) (f + 1) w' = (Err (ErrReorg f), tick w').
Proof using ServesChain0.
  intros Hf Ht H1 H6 Hg. cbn [checkReorg_loop].
  rewrite (bind_Ok_1 (gets _) _ w' (bestHeader w') w') by done.
  pose proof Ht as [Hc Hh _]. rewrite Hh, (length_forked _ _ _ Hf).
  destruct (Z.ltb_spec 6 ((f + length stale)%nat - (f + 1 - 1))); [lia|].
  pose proof (fork_len _ _ _ Hf) as Hlen.
  assert ((rows_of 1 (take f C) ++ stale).*1 !! Nat.pred f
    = Some (tip_hash g (rows_of 1 (take f C)))) as Hl.
  { pose proof (tip_hash_take g 1 C f Hlen) as Hl.
    destruct f as [|f]; [lia|]. simpl Nat.pred. simpl in Hl.
    rewrite fmap_app, rows_of_fst, lookup_app_l
      by (rewrite length_fmap, length_take; lia).
    rewrite list_lookup_fmap, lookup_take_lt by lia. rewrite <- Hl. by rewrite list_lookup_fmap. }
  rewrite (bind_Ok_1 _ _ w' [tip_hash g (rows_of 1 (take f C))] w').
  2: { apply on_repo_read. erewrite (selectBlockHashesAtHeight_chain Hc) by (done || lia).
       do 2 f_equal. replace (Z.to_nat (f + 1 - 1 - 1)) with (Nat.pred f) by lia.
       by rewrite (drop_S _ _ _ Hl). }
  rewrite bind_run. unfold call_node. rewrite serves_headers.
  rewrite (node_headers_known g C f) by (apply serves_distinct || by apply tip_hash_take).
  pose proof serves_linked as Hlk. rewrite <- (take_drop f C) in Hlk.
  apply linked_headers_app in Hlk as [_ Hlk].
  destruct (drop f C) as [|hdr D].
  - rewrite take_nil. unfold throw. by replace (f + 1 - 1) with (Z.of_nat f) by lia.
  - destruct Hlk as (_ & Hp & _). change (take 2000 (hdr :: D)) with (hdr :: take 1999 D).
    cbn iota. rewrite bool_decide_eq_true_2 by done.
    unfold throw. by replace (f + 1 - 1) with (Z.of_nat f) by lia.
Qed.

Lemma iter_tick_tip rows n w : tip_ok rows w → tip_ok rows (Nat.iter n tick w).
Proof using Type. induction n; simpl; auto using tip_ok_tick. Qed.

Lemma checkReorg_found f stale w :
  forked f stale w → (1 ≤ f)%nat → (1 ≤ length stale ≤ 6)%nat →
  checkReorg w = (Err (ErrReorg f), Nat.iter (length stale) tick w).
Proof using ServesChain0.
  intros Hf H1 Hs. unfold checkReorg.
  rewrite (bind_Ok_1 (gets _) _ w (bestHeader w) w) by done.
  pose proof (fork_tip _ _ _ Hf) as [_ Hh _]. rewrite Hh, (length_forked _ _ _ Hf).
  destruct (Z.eqb_spec (f + length stale)%nat 0); [lia|].
  replace 7%nat with ((length stale - 1) + S (7 - length stale))%nat by lia.
  rewrite (checkReorg_walk (rows_of 1 (take f C) ++ stale)).
  - replace ((f + length stale)%nat - (length stale - 1)%nat) with (f + 1) by lia.
    rewrite (checkReorg_loop_found f stale w) by
      (done || lia || (apply iter_tick_tip, (fork_tip _ _ _ Hf))
       || (unfold genesis_hash; rewrite (proj1 (proj2 (iter_tick _ _))); apply (fork_net _ _ _ Hf))).
    rewrite <- Nat.iter_succ. by replace (S (length stale - 1)) with (length stale) by lia.
  - apply Hf.
  - apply Hf.
  - apply Hf.
  - intros j Hj. apply (forked_stale_lookup f stale w); [done|lia].
  - lia.
  - rewrite (length_forked _ _ _ Hf). lia.
Qed.

(** A round of [syncHeaders] at a fork asks the node once, then looks for
    the fork. *)
Lemma syncHeaders_loop_forked f stale w fuel :
  forked f stale w → stale ≠ [] →
  syncHeaders_loop (S fuel) w =
    (checkReorg ;; throw (ErrMsg "unexpected block")) (tick w).
Proof using ServesChain0.
  intros Hf Hs. cbn [syncHeaders_loop].
  rewrite (bind_Ok_1 get _ w w w) by done. rewrite serves_running.
  rewrite bind_run. unfold call_node. rewrite serves_headers.
  assert (bestHeaderHash w ∈ stale.*1) as Htip.
  { pose proof (fork_tip _ _ _ Hf) as [_ _ ->].
    destruct stale as [|x l] using rev_ind; [done|]. destruct x as [hs row].
    rewrite app_assoc, tip_hash_snoc, fmap_app. apply elem_of_app. right. apply list_elem_of_here. }
  pose proof (fork_stale _ _ _ Hf _ Htip) as Hni.
  rewrite node_headers_unknown by done.
  pose proof (fork_some _ _ _ Hf) as HC. pose proof serves_linked as Hlk.
  destruct C as [|hdr D]; [done|]. destruct Hlk as (_ & Hp & _).
  change (take 2000 (hdr :: D)) with (hdr :: take 1999 D). cbn [forM].
  rewrite bind_assoc, bind_run, processHeader_mismatch.
  - rewrite bind_run. by destruct (checkReorg (tick w)) as [[] ?].
  - rewrite Hp. change (bestHeaderHash (tick w)) with (bestHeaderHash w).
    intros E. apply Hni. rewrite <- E. apply list_elem_of_here.
Qed.

Lemma forked_tick f stale w : forked f stale w → forked f stale (tick w).
Proof using Type. intros [? ? ? ? ?]. split; try done. by apply tip_ok_tick. Qed.

(** [syncHeaders] reports the fork, and has only asked the node. *)
Lemma syncHeaders_forks f stale fuel w :
  genesis_hash w = g → chain_ok g (r_db (repo w)) (rows_of 1 (take f C) ++ stale) →
  (1 ≤ f ≤ length C)%nat → (1 ≤ length stale ≤ 6)%nat →
  (∀ hs, hs ∈ stale.*1 → hs ∉ g :: (Header_Hash <$> C)) →
  ∃ w', syncHeaders (S fuel) w = (Err (ErrReorg f), w') ∧ repo w' = repo w ∧ genesis_hash w' = g.
Proof using ServesChain0.
  intros Hg Hc Hf Hs Hst. rewrite <- Hg in Hc.
  destruct (syncHeaders_start _ w (S fuel) Hc) as (w0 & Ht & Hg0 & -> & ->).
  set (w0 := set_best _ _ w) in *.
  assert (forked f stale w0) as Hfork.
  { split; try done; [lia|]. intros E. rewrite E in Hf. simpl in Hf. lia. }
  rewrite (syncHeaders_loop_forked f stale) by (done || by intros ->; simpl in Hs; lia).
  rewrite bind_run, (checkReorg_found f stale) by (by apply forked_tick || lia).
  eexists. split; [done|]. split; [by rewrite (proj1 (iter_tick _ _))|].
  unfold genesis_hash in *. rewrite (proj1 (proj2 (iter_tick _ _))). exact Hg.
Qed.
End serves.
