(* ===== verification/Manager.v ===== *)
(** * Manager: starting the wallet manager

    Models [New] of [src/walletmanager/walletmanager.go], from the database and
    the configured wallets to the manager on which [run] is started, and shows
    what [setupWallet] leaves of every wallet: the invariants of [WalletFacts],
    the heights of the rows, and tables that are otherwise unchanged. *)

From S2P Require Import Prelude Bytes Sha256 BitcoinTypes ScriptPubkey Database Repository.
From S2P Require Import RepositoryFacts Wallet WalletFacts Genesis Sync HeaderSync.

(** ** New *)

(** The elements of [make([]wallet, n)]. *)
Definition zero_wallet : wallet := {|
  kind := SK_NONE; reqSigs := 0; masterPubs := []; nextReceiveIndex := 0; nReceiveDerived := 0;
  nextChangeIndex := 0; nChangeDerived := 0; height := 0; hash := zeroes 32 |}.

(** The struct literal, on the repository of [newRepository]. *)
Definition blank_manager (r : repository) (n : Network) (count : nat) : W := {|
  repo := r; net := n; bestHeader := 0; bestHeaderHash := zeroes 32;
  wallets := replicate count zero_wallet; scriptPubkeys := ∅; shSubs := ∅; hSubs := ∅;
  calls := 0; events := [] |}.

Section new.
Context `{Bip32}.

Fixpoint setupWallets (i : nat) (configs : list WalletConfig) : M W unit :=
  match configs with
  | [] => mret tt
  | wc :: configs => setupWallet i wc ;; setupWallets (S i) configs
  end.

(** The manager is returned with an error, too: the rows that have been inserted
    stay in the database. *)
Definition New (db : Database) (configs : list WalletConfig) (n : Network) : outcome unit * W :=
  let '(o, r) := newRepository db in
  let w := blank_manager r n (length configs) in
  match o with
  | Ok _ => setupWallets 0 configs w
  | _ => (o, w)
  end.
End new.

(** ** One wallet *)

Definition config_hash (wc : WalletConfig) : bytes :=
  walletHash (wc_Kind wc) (wc_Reqsigs wc) (wc_MasterPubs wc).

(** The row of a wallet that the database does not know, *)
Definition fresh_row (wc : WalletConfig) : walletRow :=
  {| wr_height := wc_Height wc; wr_next_receive_index := 0; wr_next_change_index := 0 |}.
(** the row that the wallet starts from, *)
Definition setup_row (wc : WalletConfig) (db : Database) : walletRow :=
  default (fresh_row wc) (t_wallet db !! config_hash wc).
(** and the database with that row. *)
Definition setup_db (wc : WalletConfig) (db : Database) : Database :=
  match t_wallet db !! config_hash wc with
  | Some _ => db
  | None => upd_wallet <[config_hash wc := fresh_row wc]> db
  end.

(** The wallet that [setupWallet] stores before it derives scripts. *)
Definition loaded_wallet (wc : WalletConfig) (row : walletRow) : wallet := {|
  kind := wc_Kind wc; reqSigs := wc_Reqsigs wc; masterPubs := wc_MasterPubs wc;
  nextReceiveIndex := wr_next_receive_index row; nReceiveDerived := 0;
  nextChangeIndex := wr_next_change_index row; nChangeDerived := 0;
  height := wr_height row; hash := config_hash wc |}.

Lemma setupWallet_run `{Bip32} i wc w :
  setupWallet i wc w =
    ignore_error (refillWallet i)
      (upd_wallets <[i := loaded_wallet wc (setup_row wc (r_db (repo w)))]>
        (upd_repo (upd_db (setup_db wc)) w)).
Proof.
  unfold setupWallet. fold (config_hash wc). rewrite bind_run.
  unfold selectWalletData. rewrite on_repo_query. unfold setup_row, setup_db.
  destruct (t_wallet (r_db (repo w)) !! config_hash wc) as [row|] eqn:E.
  - cbn [default]. unfold upd_repo, upd_db. rewrite E. by destruct w as [[]].
  - rewrite bind_run. unfold on_repo, zoom, insertWalletData, exec, insert_row. cbn [wd_Hash].
    rewrite E. run_outcome. cbn [default]. unfold upd_repo at 2, upd_db at 2. by rewrite E.
Qed.

(** The wallet as it is set up: its configuration, and what its row says. *)
Definition starts_from (wc : WalletConfig) (row : walletRow) (wl : wallet) : Prop :=
  same_config (loaded_wallet wc row) wl ∧ height wl = wr_height row ∧
  nextReceiveIndex wl = wr_next_receive_index row ∧ nextChangeIndex wl = wr_next_change_index row.

Definition rows_ok (db : Database) : Prop :=
  ∀ hs row, t_wallet db !! hs = Some row →
    0 ≤ wr_next_receive_index row < 2 ^ 32 ∧ 0 ≤ wr_next_change_index row < 2 ^ 32.

Lemma rows_ok_setup wc db : rows_ok db → rows_ok (setup_db wc db).
Proof.
  intros Hr. unfold setup_db. destruct (t_wallet db !! config_hash wc); [done|].
  intros hs row Hl. cbn [t_wallet upd_wallet] in Hl.
  apply lookup_insert_Some in Hl as [[_ <-]|[_ Hl]]; [simpl; lia|by eapply Hr].
Qed.

Lemma rows_ok_row wc db : rows_ok db →
  0 ≤ wr_next_receive_index (setup_row wc db) < 2 ^ 32 ∧ 0 ≤ wr_next_change_index (setup_row wc db) < 2 ^ 32.
Proof.
  intros Hr. unfold setup_row. destruct (t_wallet db !! config_hash wc) as [row|] eqn:E; [by eapply Hr|simpl; lia].
Qed.

(** *** The wallets that are not set up yet *)

(** [refillWallet] looks at its own wallet only. *)
Definition append_wallets (l : list wallet) : W → W := upd_wallets (λ ws, ws ++ l).

Lemma refillAccount_frame `{Bip32} i acc l w :
  (i < length (wallets w))%nat →
  refillAccount i acc (append_wallets l w) =
    let '(o, w') := refillAccount i acc w in (o, append_wallets l w').
Proof.
  intros Hi. destruct (lookup_lt_is_Some_2 _ _ Hi) as [wl Hwl]. unfold refillAccount.
  rewrite (bind_Ok_1 _ _ _ _ _ (get_wallet_run i wl w Hwl)).
  rewrite (bind_Ok_1 _ _ _ _ _ (get_wallet_run i wl (append_wallets l w)
    ltac:(simpl; by apply lookup_app_l_Some))).
  destruct (offAndCount _ _) as [offset count]. case_bool_decide; [|done].
  rewrite !bind_run. unfold lift_outcome.
  destruct (deriveScriptPubkeys wl acc offset count) as [scripts|e|why|]; try done.
  rewrite !bind_run. unfold modify, set_wallet, modify, append_wallets, upd_wallets, upd_scriptPubkeys.
  cbn. by rewrite insert_app_l.
Qed.

Lemma refillAccount_length `{Bip32} i acc w :
  length (wallets (refillAccount i acc w).2) = length (wallets w).
Proof.
  unfold refillAccount. rewrite bind_run. unfold get_wallet. rewrite bind_run. cbn [gets lift_outcome].
  destruct (index (wallets w) i) as [wl|e|why|]; try done. cbn.
  destruct (offAndCount _ _) as [offset count]. case_bool_decide; [|done].
  rewrite bind_run. unfold lift_outcome.
  destruct (deriveScriptPubkeys wl acc offset count); try done.
  rewrite !bind_run. unfold modify, set_wallet, modify, upd_wallets, upd_scriptPubkeys. cbn.
  by rewrite length_insert.
Qed.

Lemma refillWallet_frame `{Bip32} i l w :
  (i < length (wallets w))%nat →
  refillWallet i (append_wallets l w) =
    let '(o, w') := refillWallet i w in (o, append_wallets l w').
Proof.
  intros Hi. unfold refillWallet. rewrite !bind_run, refillAccount_frame by done.
  pose proof (refillAccount_length i receiveAccount w) as Hl.
  destruct (refillAccount i receiveAccount w) as [[[]|e|why|] w1]; try done.
  apply refillAccount_frame. cbn [snd] in Hl. lia.
Qed.

(** *** Setting up one wallet *)

Definition set_wallets (l : list wallet) : W → W := upd_wallets (λ _, l).

Lemma append_wallets_derive `{Bip32} E wl w :
  all_derive E w → derives E wl → all_derive E (append_wallets [wl] w).
Proof.
  intros Hd Hwl i x Hi. cbn [append_wallets upd_wallets wallets] in Hi.
  apply lookup_app_Some in Hi as [Hi|[_ Hi]]; [by eapply Hd|].
  apply list_lookup_singleton_Some in Hi as [_ <-]. done.
Qed.

(** A wallet with no scripts can follow wallets that are set up. *)
Lemma append_index_ok `{Bip32} wl w :
  index_ok w → (∀ acc, nDerived acc wl = 0) → (∀ acc, 0 ≤ nextIndex acc wl < 2 ^ 32) →
  masterPubs wl ≠ [] → index_ok (append_wallets [wl] w).
Proof.
  intros Hix Hd Hn Hm. split; cbn [append_wallets upd_wallets wallets scriptPubkeys].
  - intros sh info Hl. destruct (ix_sound _ Hix _ _ Hl) as (wl' & s & Hw & Hrest).
    exists wl', s. split; [by apply lookup_app_l_Some|done].
  - intros i x acc idx Hi Hidx. apply lookup_app_Some in Hi as [Hi|[_ Hi]]; [by eapply ix_complete|].
    apply list_lookup_singleton_Some in Hi as [_ <-]. rewrite Hd in Hidx. lia.
  - intros i x acc Hi. apply lookup_app_Some in Hi as [Hi|[_ Hi]]; [by eapply ix_bounds|].
    apply list_lookup_singleton_Some in Hi as [_ <-]. rewrite Hd. split; [done|lia].
  - intros i x Hi. apply lookup_app_Some in Hi as [Hi|[_ Hi]]; [by eapply ix_keys|].
    by apply list_lookup_singleton_Some in Hi as [_ <-].
Qed.

(** The configuration of a wallet whose scripts can be derived. *)
Definition config_ok `{Bip32} (wc : WalletConfig) : Prop :=
  wc_MasterPubs wc ≠ [] ∧ derives never (loaded_wallet wc (fresh_row wc)).

(** The manager serves nobody yet. *)
Record idle (n : Network) (w : W) : Prop := {
  idle_net : net w = n;
  idle_headers : hSubs w = ∅;
  idle_scripts : shSubs w = ∅;
  idle_events : events w = [];
  idle_calls : calls w = 0%nat;
}.

(** The wallets [l] are set up; the others are still to come. *)
Record prepared `{Bip32} (n : Network) (l : list wallet) (w : W) : Prop := {
  pr_index : index_ok (set_wallets l w);
  pr_gap : gap_ok (set_wallets l w);
  pr_derive : all_derive never (set_wallets l w);
  pr_rows : rows_ok (r_db (repo w));
  pr_idle : idle n w;
}.

Lemma set_append l l2 w : wallets w = l → set_wallets l (append_wallets l2 w) = w.
Proof. intros <-. unfold set_wallets, append_wallets, upd_wallets. cbn. by destruct w. Qed.

Lemma setupWallet_spec `{Bip32Safe} n wc w l1 x l2 :
  prepared n l1 w → wallets w = l1 ++ x :: l2 → config_ok wc →
  ∃ w' wl, setupWallet (length l1) wc w = (Ok tt, w') ∧ wallets w' = (l1 ++ [wl]) ++ l2 ∧
    prepared n (l1 ++ [wl]) w' ∧ starts_from wc (setup_row wc (r_db (repo w))) wl ∧
    repo w' = upd_db (setup_db wc) (repo w).
Proof.
  intros [Hix Hg Hder Hrows Hidle] Hws [Hne Hd]. rewrite setupWallet_run.
  set (row := setup_row wc (r_db (repo w))). set (wl0 := loaded_wallet wc row).
  pose proof (rows_ok_row wc _ Hrows) as [Hr1 Hr2]. fold row in Hr1, Hr2.
  set (v := append_wallets [wl0] (set_wallets l1 (upd_repo (upd_db (setup_db wc)) w))).
  assert (upd_wallets <[length l1 := wl0]> (upd_repo (upd_db (setup_db wc)) w) = append_wallets l2 v) as ->.
  { unfold v, append_wallets, set_wallets, upd_wallets, upd_repo. cbn. rewrite Hws.
    rewrite insert_app_r_alt, Nat.sub_diag by done. cbn. by rewrite <- (assoc_L (++)). }
  assert (index_ok v) as Hix'.
  { apply append_index_ok; [by destruct Hix; split|by intros []|by intros []|done]. }
  assert (wallets v !! length l1 = Some wl0) as Hv by (cbn; by rewrite lookup_app_r, Nat.sub_diag by done).
  assert (derives never wl0) as Hd0 by by apply (derives_config never (loaded_wallet wc (fresh_row wc))).
  assert (length (wallets v) = S (length l1)) as Hlv by (cbn; rewrite length_app; simpl; lia).
  destruct (refillWallet_ok (length l1) wl0 v Hix' Hv Hd0) as (v' & wl & Hrun & Hix2 & Hrf & Hwl & Hgap).
  unfold ignore_error. rewrite refillWallet_frame, Hrun by lia.
  destruct (rf_wallet _ _ _ Hrf _ Hv) as (wl' & Hwl' & Hcfg & Hh & Hn & _).
  assert (wl' = wl) as -> by congruence.
  assert (wallets v' = l1 ++ [wl]) as Hws'.
  { apply list_eq. intros j. destruct (decide (j = length l1)) as [->|Hj].
    - rewrite Hwl. by rewrite lookup_app_r, Nat.sub_diag by done.
    - rewrite (rf_others _ _ _ Hrf j Hj). cbn. destruct (decide (j < length l1)%nat).
      + by rewrite !lookup_app_l by done.
      + rewrite !lookup_ge_None_2; [done|rewrite length_app; simpl; lia..]. }
  pose proof (rf_same _ _ _ Hrf) as [Hrepo (_ & _ & Hnet) (Hh1 & Hh2 & Hev & Hcl) _ _].
  exists (append_wallets l2 v'), wl. split; [done|].
  split; [cbn; by rewrite Hws'|]. split; [|split].
  2: { split; [done|]. split; [done|]. by split; [apply (Hn receiveAccount)|apply (Hn changeAccount)]. }
  2: { cbn. by rewrite Hrepo. }
  split; rewrite ?set_append by done; try done.
  - intros j y acc Hy. destruct (decide (j = length l1)) as [->|Hj]; [by simplify_eq|].
    rewrite (rf_others _ _ _ Hrf j Hj) in Hy. cbn in Hy.
    apply lookup_app_Some in Hy as [Hy|[Hge Hy]]; [by eapply Hg|].
    apply list_lookup_singleton_Some in Hy as [Hz _]. lia.
  - eapply same_wallets_derive; [by eapply refilled_same_wallets|]. by apply append_wallets_derive.
  - cbn. rewrite Hrepo. by apply rows_ok_setup.
  - destruct Hidle. split; cbn; by rewrite ?Hnet, ?Hh1, ?Hh2, ?Hev, ?Hcl.
Qed.

(** *** All wallets *)

(** The database on which the wallets have been set up. *)
Definition setup_all (configs : list WalletConfig) (db : Database) : Database :=
  foldl (λ db wc, setup_db wc db) db configs.

Lemma setup_db_row wc db : t_wallet (setup_db wc db) !! config_hash wc = Some (setup_row wc db).
Proof.
  unfold setup_db, setup_row. destruct (t_wallet db !! config_hash wc) as [row|] eqn:E; [done|].
  cbn. by rewrite lookup_insert_eq.
Qed.

Lemma setup_db_keeps wc db hs row :
  t_wallet db !! hs = Some row → t_wallet (setup_db wc db) !! hs = Some row.
Proof.
  intros Hl. unfold setup_db. destruct (t_wallet db !! config_hash wc) eqn:E; [done|].
  cbn. rewrite lookup_insert_ne; [done|]. by intros <-; congruence.
Qed.

Lemma setup_all_keeps configs db hs row :
  t_wallet db !! hs = Some row → t_wallet (setup_all configs db) !! hs = Some row.
Proof.
  revert db. induction configs as [|wc configs IH]; intros db Hl; [done|].
  by apply IH, setup_db_keeps.
Qed.

(** Only the table of wallets changes. *)
Definition same_tables (db db' : Database) : Prop := ∃ m, db' = upd_wallet (λ _, m) db.
Lemma setup_all_tables configs db : same_tables db (setup_all configs db).
Proof.
  revert db. induction configs as [|wc configs IH]; intros db; [exists (t_wallet db); by destruct db|].
  destruct (IH (setup_db wc db)) as [m Hm]. exists m. cbn [setup_all foldl]. fold (setup_all configs (setup_db wc db)).
  rewrite Hm. unfold setup_db. by destruct (t_wallet db !! config_hash wc).
Qed.

(** A wallet is as its row says. *)
Definition resumed (db : Database) (wc : WalletConfig) (wl : wallet) : Prop :=
  ∃ row, t_wallet db !! config_hash wc = Some row ∧ starts_from wc row wl.

Lemma setupWallets_spec `{Bip32Safe} n configs w l1 :
  prepared n l1 w → wallets w = l1 ++ replicate (length configs) zero_wallet →
  Forall config_ok configs →
  ∃ w' wls, setupWallets (length l1) configs w = (Ok tt, w') ∧ wallets w' = l1 ++ wls ∧
    prepared n (l1 ++ wls) w' ∧ repo w' = upd_db (setup_all configs) (repo w) ∧
    Forall2 (resumed (r_db (repo w'))) configs wls.
Proof.
  revert w l1. induction configs as [|wc configs IH]; intros w l1 Hp Hws Hc; cbn [setupWallets].
  { exists w, []. cbn [length replicate] in Hws. rewrite app_nil_r in *. split_and!; try done.
    unfold upd_db, setup_all. cbn. by destruct (repo w). }
  apply Forall_cons in Hc as [Hc0 Hc].
  destruct (setupWallet_spec n wc w l1 _ _ Hp Hws Hc0) as (w1 & wl & Hrun & Hws1 & Hp1 & Hst & Hr1).
  rewrite (bind_Ok_1 _ _ _ _ _ Hrun).
  destruct (IH w1 (l1 ++ [wl]) Hp1 Hws1 Hc) as (w2 & wls & Hrun2 & Hws2 & Hp2 & Hr2 & Hall).
  rewrite length_app, Nat.add_1_r in Hrun2. rewrite <- (assoc_L (++)) in Hws2, Hp2.
  exists w2, (wl :: wls). split; [done|]. split; [done|]. split; [done|].
  split; [by rewrite Hr2, Hr1|]. constructor; [|done].
  exists (setup_row wc (r_db (repo w))). split; [|done].
  rewrite Hr2, Hr1. apply setup_all_keeps, setup_db_row.
Qed.

(** *** The manager that [New] returns *)

Lemma newRepository_run db :
  blobs_ok db →
  newRepository db = (Ok tt, {| r_db := db; utxoIndex := to_index <$> t_unspent_output db |}).
Proof.
  intros Hb. unfold newRepository. rewrite loadUtxoIndex_ok by done. unfold upd_utxoIndex. cbn.
  by rewrite (right_id_L ∅ (∪)).
Qed.

(** The manager is ready for its first round. *)
Record started `{Bip32} (n : Network) (db : Database) (configs : list WalletConfig) (w : W) : Prop := {
  st_repo : repo w = {| r_db := setup_all configs db; utxoIndex := to_index <$> t_unspent_output db |};
  st_wallets : Forall2 (resumed (setup_all configs db)) configs (wallets w);
  st_index : index_ok w;
  st_gap : gap_ok w;
  st_derive : all_derive never w;
  st_idle : idle n w;
}.

Lemma New_run `{Bip32Safe} n db configs :
  blobs_ok db → rows_ok db → Forall config_ok configs →
  ∃ w, New db configs n = (Ok tt, w) ∧ started n db configs w.
Proof.
  intros Hb Hr Hc. unfold New. rewrite newRepository_run by done.
  set (w0 := blank_manager _ n (length configs)).
  assert (prepared n [] w0) as Hp.
  { split; [|by intros []|by intros []|done|done].
    split; cbn; [intros sh info; by rewrite lookup_empty|by intros []..]. }
  destruct (setupWallets_spec n configs w0 [] Hp eq_refl Hc) as (w & wls & Hrun & Hws & [] & Hrepo & Hall).
  cbn [app] in Hws. subst wls. exists w. split; [done|].
  assert (set_wallets (wallets w) w = w) as Hw by (by destruct w). cbn [app] in *. rewrite Hw in *.
  split; try done. by rewrite Hrepo in Hall.
Qed.

(** The heights of the wallets, and the height from which the scan starts. *)
Definition starting_heights (configs : list WalletConfig) (db : Database) : list Z :=
  (λ wc, wr_height (setup_row wc (setup_all configs db))) <$> configs.
Definition lowest (heights : list Z) : Z :=
  match heights with [] => 0 | x :: _ => foldl Z.min x heights end.

Lemma resumed_height db wc wl : resumed db wc wl → height wl = wr_height (setup_row wc db).
Proof. intros (row & Hr & _ & -> & _). unfold setup_row. by rewrite Hr. Qed.

Lemma resumed_heights db configs wls :
  Forall2 (resumed db) configs wls → height <$> wls = (λ wc, wr_height (setup_row wc db)) <$> configs.
Proof.
  induction 1 as [|wc wl configs wls Hr _ IH]; [done|]. rewrite !fmap_cons, IH.
  by rewrite (resumed_height _ _ _ Hr).
Qed.

Lemma foldl_min_height x wls : foldl (λ h w, Z.min h (height w)) x wls = foldl Z.min x (height <$> wls).
Proof. revert x. induction wls as [|wl wls IH]; intros x; [done|]. apply IH. Qed.

Lemma started_min_height `{Bip32} n db configs w wl ws :
  started n db configs w → wallets w = wl :: ws →
  min_height wl ws = lowest (starting_heights configs db).
Proof.
  intros Hs Hw. pose proof (resumed_heights _ _ _ (st_wallets _ _ _ _ Hs)) as Hh. rewrite Hw in Hh.
  unfold min_height, starting_heights. rewrite foldl_min_height, <- Hh. done.
Qed.

(** *** A restart *)

Lemma started_repo `{Bip32} {n db configs w} :
  started n db configs w → r_db (repo w) = setup_all configs db ∧ index_sync (repo w).
Proof.
  intros [-> _ _ _ _ _]. split; [done|]. unfold index_sync. cbn.
  by destruct (setup_all_tables configs db) as [m ->].
Qed.

Lemma setup_all_blobs configs db : blobs_ok db → blobs_ok (setup_all configs db).
Proof. destruct (setup_all_tables configs db) as [m ->]. by intros []. Qed.

Lemma setup_all_rows configs db : rows_ok db → rows_ok (setup_all configs db).
Proof.
  revert db. induction configs as [|wc configs IH]; intros db Hr; [done|]. by apply IH, rows_ok_setup.
Qed.

(** The rows are there. *)
Lemma setup_all_row configs wc db :
  wc ∈ configs → is_Some (t_wallet (setup_all configs db) !! config_hash wc).
Proof.
  revert db. induction configs as [|wc' configs IH]; intros db; [by intros []%elem_of_nil|].
  intros [->|Hin]%elem_of_cons; [|by apply IH].
  exists (setup_row wc' db). cbn [setup_all foldl]. apply setup_all_keeps, setup_db_row.
Qed.

Lemma setup_all_id configs db :
  Forall (λ wc, is_Some (t_wallet db !! config_hash wc)) configs → setup_all configs db = db.
Proof.
  induction 1 as [|wc configs [row Hr] _ IH]; [done|]. cbn [setup_all foldl].
  assert (setup_db wc db = db) as -> by (unfold setup_db; by rewrite Hr). exact IH.
Qed.

Lemma setup_all_again configs db : setup_all configs (setup_all configs db) = setup_all configs db.
Proof. apply setup_all_id, Forall_forall. intros wc Hin. by apply setup_all_row. Qed.

(** Two wallets of the same configuration, at the same height and indexes. *)
Definition same_start (wl wl' : wallet) : Prop :=
  same_config wl wl' ∧ height wl' = height wl ∧ ∀ acc, nextIndex acc wl' = nextIndex acc wl.

Lemma resumed_same db configs wls wls' :
  Forall2 (resumed db) configs wls → Forall2 (resumed db) configs wls' → Forall2 same_start wls wls'.
Proof.
  intros Hw. revert wls'. induction Hw as [|wc wl configs wls (row & Hr & Hs) _ IH]; intros wls' Hw'.
  - by inversion Hw'.
  - apply Forall2_cons_inv_l in Hw' as (wl' & wls2 & (row' & Hr' & Hs') & Hw' & ->).
    constructor; [|by apply IH]. assert (row' = row) as -> by congruence.
    destruct Hs as ((? & ? & ? & ?) & ? & ? & ?), Hs' as ((? & ? & ? & ?) & ? & ? & ?).
    split; [split_and!; congruence|]. split; [congruence|]. intros []; simpl; congruence.
Qed.
