(* ===== verification/Queries.v ===== *)
(** * Queries: what the wallet manager answers

    The exported methods of [W] in [src/walletmanager/walletmanager.go] that
    the Electrum handlers call: block headers, balance, history, unspent
    outputs and status of a script hash, raw transactions, Merkle proofs and
    the broadcast of a transaction.  Each runs under the mutex once the first
    synchronisation is complete, so it is one step on the state. *)

From S2P Require Import Prelude Bytes Sha256 Merkle BitcoinTypes Deserialize ScriptPubkey.
From S2P Require Import Database Repository RepositoryFacts Ledger Chain Wallet Scan Genesis Sync.
From S2P Require Import HeaderSync.

(** ** Definitions *)

(** [genesisBlockData[w.net].Serialized[:80]]; the slice of Testnet is nil. *)
Definition genesis_header : M W bytes :=
  n ← gets net;
  let s := hd_Serialized (genesisBlockData n) in
  if bool_decide (length s < 80)%nat then panic "slice bounds out of range" else mret (take 80 s).

Definition GetBlockHeader (h : Z) : M W bytes :=
  if h =? 0 then genesis_header
  else on_repo (selectRawBlockHeaderByHeight h).

(** [headers[:len(headers)-1]]. *)
Definition drop_last {A} (l : list A) : list A := take (length l - 1) l.

(** The error of the query is looked at after the genesis block is inserted. *)
Definition GetBlockHeaders (h limit : Z) : M W (list bytes) := λ w,
  let '(o, w) := on_repo (selectRawBlockHeadersByHeight h limit) w in
  let headers := match o with Ok hs => hs | _ => [] end in
  (headers ← (if h =? 0 then
                g ← genesis_header;
                let headers := g :: headers in
                mret (if limit <? length headers then drop_last headers else headers)
              else mret headers);
   match o with
   | Ok _ => mret headers
   | Err e => throw e
   | Panic p => panic p
   | OutOfFuel => out_of_fuel
   end) w.

Definition GetTipHeader : M W (Z * bytes) := on_repo selectLastBlockHeaderHeightAndRaw.

(** The confirmed and the unconfirmed balance. *)
Definition GetScriptHashBalance (sh : bytes) : M W (Z * Z) :=
  known ← gets (λ w, scriptPubkeys w !! sh);
  match known with
  | None => mret (0, 0)
  | Some _ => conf ← on_repo (selectScriptHashBalance sh); mret (conf, 0)
  end.

Definition GetScriptHashHistory (sh : bytes) : M W (list TxData) :=
  on_repo (selectScriptHashHistory sh).

Definition GetScriptHashUnspent (sh : bytes) : M W (list UtxoData) :=
  on_repo (selectScriptHashUnspent sh).

Definition GetScriptHashStatus (sh : bytes) : M W (option bytes) := getScriptHashStatus sh.

(** The error of the node comes after the id is computed, and with it; the
    caller looks at the error. *)
Definition BroadcastTX `{BitcoinClient} (rawTx : bytes) : M W bytes :=
  tx ← lift_outcome (Transaction_Deserialize rawTx).1;
  let txid := Txid tx in
  call_node (λ n, BroadcastWTX n rawTx) ;;
  mret txid.

Definition GetRawTx (txid : bytes) : M W bytes := on_repo (selectRawTransaction txid).

(** The loop that cuts a stored branch into hashes; [data[i:i+32]] past the end
    of the data panics. *)
Fixpoint splitBranch (fuel : nat) (data : bytes) : outcome (list bytes) :=
  match fuel, data with
  | _, [] => Ok []
  | O, _ => OutOfFuel
  | S fuel, _ =>
      if bool_decide (length data < 32)%nat then Panic "slice bounds out of range"
      else rest ← splitBranch fuel (drop 32 data); Ok (take 32 data :: rest)
  end.
Definition split_branch (data : bytes) : outcome (list bytes) := splitBranch (length data) data.

Record MerkleData := { md_Merkle : list bytes; md_Pos : Z }.
Record MerkleFromPosData := { mp_Merkle : list bytes; mp_Txid : bytes }.

Definition GetTransactionMerkle (txid : bytes) : M W MerkleData :=
  txData ← on_repo (selectTransactionFromTxid txid);
  branch ← lift_outcome (split_branch (td_MerkleProof txData));
  mret {| md_Merkle := branch; md_Pos := td_Pos txData |}.

Definition GetTransactionMerkleFromPos (h pos : Z) : M W MerkleFromPosData :=
  txData ← on_repo (selectTransactionFromHeightPos h pos);
  branch ← lift_outcome (split_branch (td_MerkleProof txData));
  mret {| mp_Merkle := branch; mp_Txid := td_Txid txData |}.

(** ** Branches *)

Lemma splitBranch_join fuel branch :
  Forall Sha256.hash32 branch → (length (mjoin branch) ≤ fuel)%nat →
  splitBranch fuel (mjoin branch) = Ok branch.
Proof.
  intros Hf. revert fuel. induction Hf as [|x branch Hx Hf IH]; intros fuel Hl; [by destruct fuel|].
  unfold Sha256.hash32 in Hx. change (mjoin (x :: branch)) with (x ++ mjoin branch) in *.
  rewrite length_app in Hl.
  destruct fuel as [|fuel]; [lia|]. destruct x as [|c x]; [simpl in Hx; lia|].
  cbn [app splitBranch]. rewrite bool_decide_eq_false_2.
  2: { cbn [length] in *. rewrite length_app. lia. }
  change (c :: x ++ mjoin branch) with ((c :: x) ++ mjoin branch).
  rewrite drop_app_length' by done. rewrite IH by (cbn [length] in Hl; lia).
  run_outcome. by rewrite take_app_length' by done.
Qed.

Lemma split_branch_join branch : Forall Sha256.hash32 branch → split_branch (mjoin branch) = Ok branch.
Proof. intros. by apply splitBranch_join. Qed.

(** ** Headers *)

Lemma genesis_header_run w :
  net w ≠ Testnet → genesis_header w = (Ok (take 80 (hd_Serialized (genesisBlockData (net w)))), w).
Proof.
  intros Hn. unfold genesis_header. rewrite (bind_Ok_1 (gets _) _ w (net w) w) by done.
  rewrite bool_decide_eq_false_2; [done|].
  destruct (net w); [|done|]; vm_compute; lia.
Qed.

Lemma genesis_header_Testnet w :
  net w = Testnet → genesis_header w = (Panic "slice bounds out of range", w).
Proof.
  intros Hn. unfold genesis_header. rewrite (bind_Ok_1 (gets _) _ w (net w) w) by done.
  rewrite Hn, bool_decide_eq_true_2; [done|vm_compute; lia].
Qed.

Definition header_list (w : W) (rows : list (bytes * headerRow)) : list bytes :=
  take 80 (hd_Serialized (genesisBlockData (net w))) :: ((λ r : bytes * headerRow, bh_serialized r.2) <$> rows).

Lemma selectRawBlockHeadersByHeight_chain g rows h n r :
  chain_ok g (r_db r) rows →
  selectRawBlockHeadersByHeight h n r =
    (Ok (sql_limit n ((λ r : bytes * headerRow, bh_serialized r.2) <$> drop (Z.to_nat (h - 1)) rows)), r).
Proof.
  intros Hc. unfold selectRawBlockHeadersByHeight. rewrite query_run. f_equal.
  rewrite (headers_from_rows Hc). rewrite (mapM_Ok_total _ (λ r, bh_serialized r.2)).
  - f_equal. unfold sql_limit. destruct (n <? 0); [done|]. by rewrite fmap_take.
  - intros [hs row] Hin. unfold scan_blob. rewrite bool_decide_eq_true_2; [done|].
    destruct Hc as [_ Hk].
    assert ((hs, row) ∈ rows) as Hr.
    { unfold sql_limit in Hin. destruct (n <? 0); eapply elem_of_drop_of; [done|].
      by eapply elem_of_take_of. }
    apply list_elem_of_lookup in Hr as [i Hi].
    by destruct (linked_lookup _ _ _ _ _ _ Hk Hi) as (_ & ? & _).
Qed.

(** ** Sums over the unspent outputs of a script *)

Definition unspent_of (db : Database) (sh : bytes) : gmap bytes utxoRow :=
  filter (λ r, uo_scriptpubkey_hash r.2 = sh) (t_unspent_output db).

Definition satoshi_sum (m : gmap bytes utxoRow) : Z :=
  foldr (λ r s, uo_satoshi r.2 + s) 0 (map_to_list m).

Lemma satoshi_sum_perm l k :
  l ≡ₚ k → foldr (λ (r : bytes * utxoRow) s, uo_satoshi r.2 + s) 0 l
         = foldr (λ (r : bytes * utxoRow) s, uo_satoshi r.2 + s) 0 k.
Proof. induction 1; simpl; lia. Qed.

Lemma satoshi_sum_insert m tv row :
  m !! tv = None → satoshi_sum (<[tv := row]> m) = uo_satoshi row + satoshi_sum m.
Proof.
  intros Hn. unfold satoshi_sum. rewrite (satoshi_sum_perm _ _ (map_to_list_insert m tv row Hn)). done.
Qed.

Lemma uint64_wrap_add_l a b : uint64_wrap (uint64_wrap a + b) = uint64_wrap (a + b).
Proof. unfold uint64_wrap. by rewrite Z.add_mod_idemp_l. Qed.

(** The amounts that the index in memory has for a script. *)
Definition index_sum (m : gmap bytes utxoData2) (sh : bytes) : Z :=
  foldr (λ (e : bytes * utxoData2) s, u2_Satoshi e.2 + s) 0
    (map_to_list (filter (λ e, u2_ScriptPubkeyHash e.2 = sh) m)).

Lemma index_sum_insert m sh tv u :
  m !! tv = None → index_sum (<[tv := u]> m) sh =
    (if decide (u2_ScriptPubkeyHash u = sh) then u2_Satoshi u else 0) + index_sum m sh.
Proof.
  intros Hn. unfold index_sum. case_decide as He.
  - rewrite map_filter_insert_True by done.
    assert (∀ l k : list (bytes * utxoData2), l ≡ₚ k →
      foldr (λ e s, u2_Satoshi e.2 + s) 0 l = foldr (λ e s, u2_Satoshi e.2 + s) 0 k) as Hp
      by (induction 1; simpl; lia).
    by rewrite (Hp _ _ (map_to_list_insert _ _ _ (proj2 (map_lookup_filter_None _ _ _) (or_introl Hn)))).
  - rewrite map_filter_insert_False by done. by rewrite delete_id.
Qed.

(** The loop over the index is the sum modulo 2^64. *)
Lemma balance_fold sh m :
  map_fold (λ _ (v : utxoData2) out,
    if bool_decide (u2_ScriptPubkeyHash v ≠ sh) then out
    else uint64_wrap (out + u2_Satoshi v)) 0 m
  = uint64_wrap (index_sum m sh).
Proof.
  induction m as [|tv u m Hn IH] using map_ind.
  - unfold index_sum. by rewrite map_fold_empty, map_filter_empty, map_to_list_empty.
  - rewrite map_fold_insert_L, IH, index_sum_insert; [|done| |done].
    + case_decide as He.
      * rewrite bool_decide_eq_false_2 by (intros HF; by apply HF). rewrite uint64_wrap_add_l. f_equal. lia.
      * by rewrite bool_decide_eq_true_2.
    + intros tv1 tv2 v1 v2 out _ _ _. repeat case_bool_decide; try done.
      rewrite !uint64_wrap_add_l. f_equal. lia.
Qed.

(** When the index is the table, the sum is that of the rows of the script. *)
Lemma index_sum_table m sh :
  index_sum (to_index <$> m) sh = satoshi_sum (filter (λ r, uo_scriptpubkey_hash r.2 = sh) m).
Proof.
  induction m as [|tv row m Hn IH] using map_ind.
  - unfold index_sum. by rewrite fmap_empty, !map_filter_empty.
  - rewrite fmap_insert, index_sum_insert, IH by (by rewrite lookup_fmap, Hn).
    cbn [to_index u2_ScriptPubkeyHash u2_Satoshi]. case_decide as He.
    + rewrite map_filter_insert_True by done.
      rewrite satoshi_sum_insert; [done|]. apply map_lookup_filter_None. by left.
    + rewrite map_filter_insert_False by done. by rewrite delete_id.
Qed.

Lemma selectScriptHashBalance_index sh r :
  selectScriptHashBalance sh r = (Ok (uint64_wrap (index_sum (utxoIndex r) sh)), r).
Proof. unfold selectScriptHashBalance, gets. by rewrite balance_fold. Qed.

Lemma selectScriptHashBalance_run sh r :
  index_sync r →
  selectScriptHashBalance sh r = (Ok (uint64_wrap (satoshi_sum (unspent_of (r_db r) sh))), r).
Proof.
  intros Hs. by rewrite selectScriptHashBalance_index, Hs, index_sum_table.
Qed.

(** The balance of a script in the index. *)
Lemma GetScriptHashBalance_run sh w :
  index_sync (repo w) → is_Some (scriptPubkeys w !! sh) →
  GetScriptHashBalance sh w =
    (Ok (uint64_wrap (satoshi_sum (unspent_of (r_db (repo w)) sh)), 0), w).
Proof.
  intros Hs [info Hi]. unfold GetScriptHashBalance.
  rewrite (bind_Ok_1 (gets _) _ w (scriptPubkeys w !! sh) w) by done. rewrite Hi, bind_run.
  by rewrite (on_repo_read _ _ _ (selectScriptHashBalance_run sh (repo w) Hs)).
Qed.

(** ** Unspent outputs *)

Definition unspent_list (db : Database) (sh : bytes) : list UtxoData :=
  (λ row : (Z * Z) * (bytes * Z),
    {| ud_Height := row.1.1; ud_TxPos := row.1.2; ud_Txid := row.2.1; ud_Satoshi := row.2.2 |})
    <$> order_by2 fst (unspent_rows db sh).

Lemma selectScriptHashUnspent_ok sh r :
  blobs_ok (r_db r) → selectScriptHashUnspent sh r = (Ok (unspent_list (r_db r) sh), r).
Proof.
  intros Hb. unfold selectScriptHashUnspent. rewrite query_run. f_equal.
  apply mapM_Ok_total. intros [[height pos] [txid sat]] Hin. rewrite elem_of_order_by2 in Hin.
  unfold unspent_rows in Hin. apply list_elem_of_omap in Hin as ([tv row] & Hin & Hx). simpl in Hx.
  case_bool_decide; [|done]. apply elem_of_map_to_list in Hin.
  destruct (t_tx (r_db r) !! outpoint_txid tv); [|done]. simpl in Hx.
  destruct (tx_height (r_db r) _); [|done]. injection Hx as _ _ <- _.
  cbn [fst snd]. unfold scan_blob. rewrite bool_decide_eq_true_2; [done|].
  destruct (blobs_unspent _ Hb _ _ Hin) as [Hl _]. unfold outpoint_txid. rewrite length_take. lia.
Qed.

(** Every unspent output is joined with its transaction and its block, so the
    listed amounts are those of the table. *)
Lemma unspent_rows_sum top db sh :
  db_ok top db →
  foldr (λ (r : (Z * Z) * (bytes * Z)) s, r.2.2 + s) 0 (unspent_rows db sh) = satoshi_sum (unspent_of db sh).
Proof.
  intros Hok. unfold unspent_rows, satoshi_sum, unspent_of.
  rewrite (satoshi_sum_perm (map_to_list (filter _ _))
    (filter (λ r : bytes * utxoRow, uo_scriptpubkey_hash r.2 = sh) (map_to_list (t_unspent_output db)))).
  2: { rewrite map_filter_alt, map_to_list_to_map; [done|].
       eapply sublist_NoDup; [apply (NoDup_fst_map_to_list (t_unspent_output db))|].
       apply fmap_sublist, sublist_filter. }
  assert (∀ r, r ∈ map_to_list (t_unspent_output db) → t_unspent_output db !! r.1 = Some r.2) as Hall.
  { intros [tv row]. by rewrite elem_of_map_to_list. }
  induction (map_to_list (t_unspent_output db)) as [|[tv row] l IH]; [done|].
  assert (∀ r, r ∈ l → t_unspent_output db !! r.1 = Some r.2) as Hall'.
  { intros r Hr. by apply Hall, list_elem_of_further. }
  specialize (IH Hall'). pose proof (Hall (tv, row) (list_elem_of_here _ _)) as Hrow. simpl in Hrow.
  cbn [omap list_omap]. cbn [fst snd].
  destruct (ok_unspent _ _ Hok _ _ Hrow) as [trow Ht].
  destruct (ok_tx _ _ Hok _ _ Ht) as (h' & Hh & _).
  case_bool_decide as He.
  - rewrite Ht. cbn [mbind option_bind]. rewrite Hh. cbn [mbind option_bind].
    rewrite filter_cons_True by done. cbn [foldr snd fst]. by rewrite IH.
  - rewrite filter_cons_False by done. exact IH.
Qed.

Lemma unspent_list_sum db sh :
  foldr (λ u s, ud_Satoshi u + s) 0 (unspent_list db sh) =
  foldr (λ (r : (Z * Z) * (bytes * Z)) s, r.2.2 + s) 0 (unspent_rows db sh).
Proof.
  unfold unspent_list. trans (foldr (λ (r : (Z * Z) * (bytes * Z)) s, r.2.2 + s) 0
    (order_by2 fst (unspent_rows db sh))).
  - induction (order_by2 fst (unspent_rows db sh)) as [|x l IH]; [done|].
    rewrite fmap_cons. cbn [foldr ud_Satoshi]. by rewrite IH.
  - pose proof (order_by2_perm fst (unspent_rows db sh)) as Hp. revert Hp.
    generalize (order_by2 fst (unspent_rows db sh)). generalize (unspent_rows db sh). intros k l0 Hp.
    induction Hp as [|x l l' _ IH|x y l|l l' l'' _ IH1 _ IH2];
      cbn [foldr]; lia.
Qed.
