(* ===== verification/Rounds.v ===== *)
(** * Rounds: the invariants of a round of [run]

    [RoundInvariant] is the interface of an invariant of the recorded
    transactions and of the subscribers: what it says has to survive the few
    primitive changes that a synchronisation makes to them.  The client of the
    interface gets that a whole round of [run] keeps the invariant, whatever the
    node replies and wherever the round stops. *)

From S2P Require Import Prelude Bytes Sha256 Merkle BitcoinTypes ScriptPubkey.
From S2P Require Import Database Repository RepositoryFacts Wallet Genesis Sync HeaderSync.

(** ** The interface *)

Definition txs (w : W) : gmap bytes txRow := t_tx (r_db (repo w)).

(** Nothing changes but wallets, headers, outputs and the number of calls. *)
Record same_outside (w w' : W) : Prop := {
  so_net : net w' = net w;
  so_hSubs : hSubs w' = hSubs w;
  so_shSubs : shSubs w' = shSubs w;
  so_events : events w' = events w;
}.

#[export] Instance same_outside_preorder : PreOrder same_outside.
Proof. split; [by split|]. intros w1 w2 w3 [] []. split; congruence. Qed.

Class RoundInvariant (I : W → Prop) := {
  (** Transactions may be deleted, or brought back from an earlier state. *)
  round_frame w w' : same_outside w w' → txs w' ⊆ txs w → I w → I w';
  round_restore w w' : same_outside w w' → (∃ w0, I w0 ∧ txs w' = txs w0) → I w → I w';
  (** A transaction is recorded with a Merkle branch. *)
  round_record w w' txid row branch : same_outside w w' →
    Forall Sha256.hash32 branch → tr_merkle_proof row = mjoin branch →
    txs w' = <[txid := row]> (txs w) → I w → I w';
  (** Subscribers are called. *)
  round_header h buf : preserves I (notifyHeaderSubscribers h buf);
  round_script sh status : preserves I (notifyScriptHashSubscribers sh status);
}.

(** ** Statements that record no transaction *)

Definition keeps_tx {A} (m : M repository A) : Prop := ∀ r, t_tx (r_db (m r).2) ⊆ t_tx (r_db r).

Lemma keeps_bind {A B} (m : M repository A) (k : A → M repository B) :
  keeps_tx m → (∀ a, keeps_tx (k a)) → keeps_tx (m ≫= k).
Proof.
  intros Hm Hk r. rewrite bind_run. specialize (Hm r). destruct (m r) as [[] r1]; try done; simpl in *.
  etrans; [apply Hk|done].
Qed.

Lemma keeps_exec stmt :
  (∀ db db', stmt db = Ok db' → t_tx db' ⊆ t_tx db) → keeps_tx (exec stmt).
Proof. intros H r. unfold exec. destruct (stmt (r_db r)) eqn:E; [by apply H in E|done..]. Qed.

Lemma keeps_query {A} (q : Database → outcome A) : keeps_tx (query q).
Proof. by intros r. Qed.

Lemma keeps_modify f : (∀ r, r_db (f r) = r_db r) → keeps_tx (modify f).
Proof. intros H r. simpl. by rewrite H. Qed.

Create HintDb keeps.
#[export] Hint Resolve keeps_query keeps_modify : keeps.
#[export] Hint Extern 2 (keeps_tx _) => apply keeps_query : keeps.

Lemma keeps_updateWalletIndexes h a b : keeps_tx (updateWalletIndexes h a b).
Proof. apply keeps_exec. by intros db db' [= <-]. Qed.
Lemma keeps_updateWalletHeight h k : keeps_tx (updateWalletHeight h k).
Proof. apply keeps_exec. by intros db db' [= <-]. Qed.
Lemma keeps_insertBlockHeader hs h buf : keeps_tx (insertBlockHeader hs h buf).
Proof.
  unfold insertBlockHeader. case_bool_decide; [by intros r|]. apply keeps_exec.
  intros db db' (hd & _ & [= <-])%outcome_bind_Ok. done.
Qed.
Lemma keeps_insertScriptPubkeyTransaction sh txid : keeps_tx (insertScriptPubkeyTransaction sh txid).
Proof. apply keeps_exec. by intros db db' [= <-]. Qed.
Lemma keeps_insertUnspentOutput tv sat sh : keeps_tx (insertUnspentOutput tv sat sh).
Proof.
  apply keeps_bind; [|intros []; by apply keeps_modify]. apply keeps_exec. intros db db'.
  destruct (_ <=? _); [done|]. intros [= <-]. by destruct (t_unspent_output db !! tv).
Qed.
Lemma keeps_deleteUnspentOutput tv h : keeps_tx (deleteUnspentOutput tv h).
Proof.
  apply keeps_bind; [|intros []; by apply keeps_modify]. apply keeps_exec. intros db db' [= <-].
  by destruct (t_unspent_output db !! tv), (t_spent_output db !! tv).
Qed.
Lemma keeps_reloadCaches : keeps_tx reloadCaches.
Proof.
  apply keeps_bind; [by apply keeps_modify|]. intros [].
  apply keeps_bind; [apply keeps_query|]. intros utxos. by apply keeps_modify.
Qed.
Lemma keeps_deleteAllSinceBlock h : keeps_tx (deleteAllSinceBlock h).
Proof.
  apply keeps_exec. intros db db' (db1 & H1 & [= <-])%outcome_bind_Ok. unfold restore_spent_above in H1.
  case_bool_decide; [|done]. injection H1 as <-. exact (map_filter_subseteq _ (t_tx db)).
Qed.
#[export] Hint Resolve keeps_updateWalletIndexes keeps_updateWalletHeight keeps_insertBlockHeader
  keeps_insertScriptPubkeyTransaction keeps_insertUnspentOutput keeps_deleteUnspentOutput
  keeps_reloadCaches keeps_deleteAllSinceBlock : keeps.

(** ** A round *)

Section round.
Context `{Bip32} `{BitcoinClient} (I : W → Prop) `{!RoundInvariant I}.

Lemma round_modify f :
  (∀ w, same_outside w (f w) ∧ repo (f w) = repo w) → preserves I (modify f).
Proof.
  intros Hf w Hw. destruct (Hf w) as [Hs Hr]. apply (round_frame w); [done| |done].
  unfold txs. simpl. by rewrite Hr.
Qed.

Lemma round_on_repo {A} (m : M repository A) : keeps_tx m → preserves I (on_repo m).
Proof.
  intros Hm w Hw. unfold on_repo, zoom. specialize (Hm (repo w)). destruct (m (repo w)) as [o r].
  by apply (round_frame w).
Qed.

Lemma round_tick w : I w → I (tick w).
Proof. by apply round_frame. Qed.

Lemma round_call_node {A} (f : nat → outcome A) : preserves I (call_node f).
Proof. apply preserves_call_node, round_tick. Qed.

Lemma round_catch {A B} (m : M W A) (k : outcome A → M W B) :
  preserves I m → (∀ o, preserves I (k o)) → preserves I (λ w, let '(o, w') := m w in k o w').
Proof. intros Hm Hk w Hw. specialize (Hm w Hw). destruct (m w) as [o w']. by apply Hk. Qed.

Lemma round_set_wallet i wl : preserves I (set_wallet i wl).
Proof. by apply round_modify. Qed.

Lemma round_get_wallet i : preserves I (get_wallet i).
Proof. unfold get_wallet. auto with preserve. Qed.

Hint Resolve round_on_repo round_call_node round_set_wallet round_get_wallet : preserve.
Hint Resolve round_header round_script : preserve.
Hint Extern 2 (keeps_tx _) => solve [auto with keeps] : preserve.

(** Split a block of calls into its calls. *)
Ltac step_calls :=
  repeat first
    [ by auto with preserve
    | apply preserves_bind; [|intros ?]
    | apply round_modify; by intros
    | progress cbv beta zeta
    | case_match ].

Lemma round_processHeader hdr : preserves I (processHeader hdr).
Proof.
  unfold processHeader. apply preserves_bind; [auto with preserve|]. intros w.
  case_bool_decide; [apply preserves_bind; [apply preserves_checkReorg, round_tick|auto with preserve]|].
  step_calls.
Qed.

Lemma round_syncHeaders fuel : preserves I (syncHeaders fuel).
Proof.
  apply preserves_syncHeaders; [apply round_tick|intros k hs; by apply round_modify|].
  apply round_processHeader.
Qed.

Lemma round_processReorg h : preserves I (processReorg h).
Proof. unfold processReorg, selectBlockHashesAtHeight. step_calls. Qed.

Lemma round_refillAccount i acc : preserves I (refillAccount i acc).
Proof. unfold refillAccount. step_calls. Qed.

Lemma round_refillWallet i : preserves I (refillWallet i).
Proof. unfold refillWallet. apply preserves_bind; intros; apply round_refillAccount. Qed.

Lemma round_walletUpdateIndexes info : preserves I (walletUpdateIndexes info).
Proof. unfold walletUpdateIndexes. step_calls. Qed.

Lemma TXIDs_hash32 b : Forall Sha256.hash32 (TXIDs b).
Proof. apply Forall_fmap, Forall_forall. intros tx _. apply hash32_Txid. Qed.

Lemma round_recordTransaction b tx pos sh : preserves I (recordTransaction b tx pos sh).
Proof.
  intros w Hw. unfold recordTransaction. rewrite bind_run. unfold lift_outcome at 1.
  destruct (MerkleProof (TXIDs b) (Txid tx)) as [[p br]|e|why|] eqn:E; [|done..].
  pose proof (MerkleProof_hash32 _ _ _ _ (TXIDs_hash32 b) E) as Hbr.
  revert w Hw. change (preserves I
    ((if bool_decide (p ≠ pos) then panic "unreachable" else mret tt) ;;
     on_repo (insertTransaction (Txid tx) (Block_Hash b) pos (Transaction_Serialize tx) (mjoin br)) ;;
     on_repo (insertScriptPubkeyTransaction sh (Txid tx)))).
  apply preserves_bind; [case_bool_decide; auto with preserve|]. intros [].
  apply preserves_bind; [|intros []; auto with preserve].
  intros w Hw. unfold on_repo, zoom, insertTransaction, exec. cbn [fst snd].
  destruct (t_tx (r_db (repo w)) !! Txid tx) as [row|] eqn:Et.
  - by apply (round_frame w).
  - apply (round_record w _ (Txid tx) {| tr_blockhash := Block_Hash b; tr_pos := pos;
      tr_serialized := Transaction_Serialize tx; tr_merkle_proof := mjoin br |} br); done.
Qed.

Hint Resolve round_refillWallet round_walletUpdateIndexes round_recordTransaction : preserve.

Lemma round_processOutput b tx pos out j acc : preserves I (processOutput b tx pos out j acc).
Proof. unfold processOutput. step_calls. Qed.

Lemma round_processInput b h tx pos i acc : preserves I (processInput b h tx pos i acc).
Proof.
  unfold processInput. apply preserves_bind; [|intros ?; step_calls].
  intros w Hw. assert (keeps_tx (selectUnspentOutput (makeTxidVout (in_Txid i) (in_Vout i)))) as Hk.
  { intros r. unfold selectUnspentOutput. rewrite bind_run. cbn [gets]. by destruct (utxoIndex r !! _). }
  pose proof (round_on_repo _ Hk w Hw) as Hr.
  destruct (on_repo (selectUnspentOutput _) w) as [[| [] | |] w']; exact Hr.
Qed.

Lemma round_fold_idx {A B} i (l : list A) (body : Z → A → B → M W B) acc :
  (∀ j x acc, preserves I (body j x acc)) → preserves I (fold_idx i l body acc).
Proof.
  intros Hb. revert i acc. induction l as [|x l IH]; intros i acc; simpl; [auto with preserve|].
  apply preserves_bind; auto.
Qed.

Lemma round_processBlock b h : preserves I (processBlock b h).
Proof.
  unfold processBlock. apply preserves_bind.
  - apply round_fold_idx. intros j tx acc. unfold processTransaction.
    apply preserves_bind; [|intros ?]; apply round_fold_idx; intros.
    + apply round_processOutput.
    + apply round_processInput.
  - intros updatedSH. apply preserves_bind; [auto with preserve|]. intros n.
    apply preserves_bind; [|intros _]; apply preserves_forM; intros x _.
    + unfold raiseWalletHeight. step_calls.
    + unfold notifyStatus, getScriptHashStatus. step_calls.
Qed.

Lemma round_Execute {A} (m : M W A) : preserves I m → preserves I (Execute m).
Proof.
  intros Hm w Hw. specialize (Hm w Hw). unfold Execute.
  destruct (m w) as [[] w1]; [done|..]; (apply (round_restore w1); [done|by exists w|done]).
Qed.

Lemma round_syncPage hbuf h : preserves I (syncPage hbuf h).
Proof.
  revert h. induction hbuf as [|bh hbuf IH]; intros h; simpl; [auto with preserve|].
  apply preserves_bind; [auto with preserve|]. intros b.
  apply preserves_bind; [apply round_Execute, round_processBlock|auto].
Qed.

Lemma round_syncWallets fuel : preserves I (syncWallets fuel).
Proof.
  unfold syncWallets. apply preserves_bind; [auto with preserve|]. intros w.
  destruct (wallets w) as [|wl ws]; [auto with preserve|].
  destruct (_ <=? _); [auto with preserve|]. generalize (min_height wl ws + 1). intros h.
  revert h. induction fuel as [|fuel IH]; intros h; simpl; [auto with preserve|].
  apply preserves_bind; [auto with preserve|]. intros best.
  destruct (best <? h); [auto with preserve|].
  apply preserves_bind; [auto with preserve|]. intros hbuf.
  apply preserves_bind; [apply round_syncPage|auto].
Qed.

Lemma round_syncRound fuel : preserves I (syncRound fuel).
Proof.
  unfold syncRound. apply preserves_bind; [|intros _; apply round_syncWallets].
  intros w Hw. pose proof (round_syncHeaders fuel w Hw) as Hr.
  destruct (syncHeaders fuel w) as [[|[]| |] w']; try exact Hr. by apply round_processReorg.
Qed.
End round.
