(* ===== verification/Subscriptions.v ===== *)
(** * Subscriptions: who is told about new headers and scripts

    [HeadersSubscribe], [ScriptHashSubscribe] and [UnsubscribeAll] of
    [src/walletmanager/walletmanager.go], and what the synchronisation sends to
    the subscribers. *)

From S2P Require Import Prelude Bytes Sha256 Merkle BitcoinTypes ScriptPubkey.
From S2P Require Import Database Repository RepositoryFacts Wallet Genesis Sync HeaderSync Rounds.

(** ** Definitions *)

Definition HeadersSubscribe (id : Z) (cb : headerCallback) : M W unit :=
  modify (upd_hSubs <[id := cb]>).

Definition ScriptHashSubscribe (id : Z) (sh : bytes) (cb : statusCallback) : M W unit :=
  modify (upd_shSubs (λ subs, <[sh := <[id := cb]> (default ∅ (subs !! sh))]> subs)).

(** The subscriptions of a script hash are removed with the last of them. *)
Definition remove_subscriber (id : Z) (m : gmap Z statusCallback) : option (gmap Z statusCallback) :=
  let m := delete id m in
  if bool_decide (m = ∅) then None else Some m.

Definition UnsubscribeAll (id : Z) : M W unit :=
  modify (upd_hSubs (delete id)) ;;
  modify (upd_shSubs (omap (remove_subscriber id))) ;;
  modify (upd_hSubs (delete id)).

(** ** Subscribers and events *)

(** The connection that a call of a callback writes to. *)
Definition owner (e : event) : Z :=
  match e with
  | HeaderEvent (NotifyHeaders id) _ _ => id
  | StatusEvent (NotifyScriptHash id _) _ => id
  end.

(** The callbacks are those that the handlers of a connection register under
    its id. *)
Record subs_ok (w : W) : Prop := {
  so_headers : ∀ id cb, hSubs w !! id = Some cb → cb = NotifyHeaders id;
  so_scripts : ∀ sh m id cb, shSubs w !! sh = Some m → m !! id = Some cb → cb = NotifyScriptHash id sh;
}.

Definition unsubscribed (id : Z) (w : W) : Prop :=
  hSubs w !! id = None ∧ ∀ sh m, shSubs w !! sh = Some m → m !! id = None.

(** No event of the connection since the events [evs0]. *)
Record silent (id : Z) (evs0 : list event) (w : W) : Prop := {
  si_ok : subs_ok w;
  si_un : unsubscribed id w;
  si_events : ∃ l, events w = evs0 ++ l ∧ Forall (λ e, owner e ≠ id) l;
}.

Lemma silent_same id evs0 w w' :
  hSubs w' = hSubs w → shSubs w' = shSubs w → events w' = events w →
  silent id evs0 w → silent id evs0 w'.
Proof.
  intros Hh Hs He [[H1 H2] [H3 H4] H5]. split.
  - split; [by rewrite Hh|by rewrite Hs].
  - split; [by rewrite Hh|by rewrite Hs].
  - by rewrite He.
Qed.

Lemma silent_emit id evs0 w l : silent id evs0 w → Forall (λ e, owner e ≠ id) l → silent id evs0 (emit l w).
Proof.
  intros [[? ?] [? ?] (l0 & He & Hl)] Hf. split; [by split|by split|].
  exists (l0 ++ l). simpl. rewrite He, app_assoc. split; [done|]. by apply Forall_app.
Qed.

(** The subscribers of a header or of a script are those of their own ids. *)
Lemma header_event_owner w h buf e :
  subs_ok w → e ∈ ((λ r : Z * headerCallback, HeaderEvent r.2 h buf) <$> map_to_list (hSubs w)) →
  is_Some (hSubs w !! owner e).
Proof.
  intros [Hh _] ([i cb] & -> & Hin)%list_elem_of_fmap. apply elem_of_map_to_list in Hin. cbn [snd].
  rewrite (Hh _ _ Hin). simpl. by eexists.
Qed.

Lemma script_event_owner w sh status e :
  subs_ok w → e ∈ ((λ r : Z * statusCallback, StatusEvent r.2 status)
    <$> map_to_list (default ∅ (shSubs w !! sh))) →
  ∃ m, shSubs w !! sh = Some m ∧ is_Some (m !! owner e).
Proof.
  intros [_ Hs] ([i cb] & -> & Hin)%list_elem_of_fmap. apply elem_of_map_to_list in Hin. cbn [snd] in *.
  destruct (shSubs w !! sh) as [m|] eqn:E; simpl in Hin; [|by rewrite lookup_empty in Hin].
  exists m. rewrite (Hs _ _ _ _ E Hin). split; [done|]. by eexists.
Qed.

(** Silence is an invariant of a round. *)
#[export] Instance silent_round id evs0 : RoundInvariant (silent id evs0).
Proof.
  split.
  - intros w w' [] _. by apply silent_same.
  - intros w w' [] _. by apply silent_same.
  - intros w w' txid row branch [] _ _ _. by apply silent_same.
  - intros h buf w Hw. unfold notifyHeaderSubscribers, modify. apply silent_emit; [done|].
    apply Forall_forall. intros e He <-. apply header_event_owner in He; [|apply Hw].
    destruct Hw as [_ [Hn _] _]. rewrite Hn in He. by destruct He.
  - intros sh status w Hw. unfold notifyScriptHashSubscribers, modify. apply silent_emit; [done|].
    apply Forall_forall. intros e He <-. apply script_event_owner in He as (m & Hm & Hi); [|apply Hw].
    destruct Hw as [_ [_ Hn] _]. rewrite (Hn _ _ Hm) in Hi. by destruct Hi.
Qed.

Lemma silent_syncRound `{Bip32} `{BitcoinClient} id evs0 fuel : preserves (silent id evs0) (syncRound fuel).
Proof. apply (round_syncRound (silent id evs0)). Qed.

(** ** Subscribing and unsubscribing *)

Lemma UnsubscribeAll_run id w :
  UnsubscribeAll id w =
    (Ok tt, upd_shSubs (omap (remove_subscriber id)) (upd_hSubs (delete id) w)).
Proof.
  unfold UnsubscribeAll, modify. rewrite (bind_run _ _ w). rewrite (bind_run _ _ (upd_hSubs _ w)).
  unfold upd_hSubs, upd_shSubs. cbn -[delete omap]. by rewrite delete_delete_eq.
Qed.

Lemma remove_subscriber_lookup id m m' :
  remove_subscriber id m = Some m' → m' = delete id m ∧ m' ≠ ∅.
Proof. unfold remove_subscriber. case_bool_decide; [done|]. by intros [= <-]. Qed.

Lemma unsubscribed_after id w : unsubscribed id (UnsubscribeAll id w).2.
Proof.
  rewrite UnsubscribeAll_run. split; simpl; [apply lookup_delete_eq|].
  intros sh m Hm. rewrite lookup_omap in Hm.
  destruct (shSubs w !! sh) as [m0|]; [|done]. simpl in Hm.
  apply remove_subscriber_lookup in Hm as [-> _]. apply lookup_delete_eq.
Qed.

Lemma subs_ok_Unsubscribe id w : subs_ok w → subs_ok (UnsubscribeAll id w).2.
Proof.
  intros [Hh Hs]. rewrite UnsubscribeAll_run. split; simpl.
  - intros i cb [_ Hi]%lookup_delete_Some. by apply Hh.
  - intros sh m i cb Hm Hi. rewrite lookup_omap in Hm.
    destruct (shSubs w !! sh) as [m0|] eqn:E; [|done]. simpl in Hm.
    apply remove_subscriber_lookup in Hm as [-> _].
    apply lookup_delete_Some in Hi as [_ Hi]. by eapply Hs.
Qed.
