(* ===== verification/Electrum.v ===== *)
(** * Electrum: the handlers of the protocol

    Models [src/electrum/handlers.go] and the dispatch of
    [src/electrum/electrum.go].  A handler gets the connection and the raw
    request, calls the wallet manager, and leaves the raw JSON of its result, or
    an error, on which the server closes the connection.  The pool of buffers
    is left out: a buffer is cleared before it is used. *)

From S2P Require Import Prelude Bytes Json Sha256 Merkle BitcoinTypes Deserialize ScriptPubkey.
From S2P Require Import Database Repository Wallet Genesis Sync Queries Subscriptions.
From Stdlib Require Import Strings.Byte.

(** ** Requests *)

(** A raw field that is absent is empty. *)
Record Request := {
  rq_JsonRPC : bytes;
  rq_Id : bytes;
  rq_Method : bytes;
  rq_Params : bytes;
}.

Record Ctx := {
  ConnId : Z;      (* uint32 *)
  ctx_Request : Request;
}.

Definition Params (ctx : Ctx) : bytes := rq_Params (ctx_Request ctx).

(** [if err != nil { return err }] after a decoding. *)
Definition check_err (err : option error) : M W unit :=
  match err with Some e => throw e | None => mret tt end.

(** A call whose error is not looked at: its value is then the zero value. *)
Definition drop_err {A} (zero : A) (m : M W A) : M W A := λ w,
  match m w with
  | (Err _, w') => (Ok zero, w')
  | r => r
  end.

Definition hexString (bs : bytes) : bytes := quote (hexEncode bs).

(** [slices.Reverse] of a hash and [hex.EncodeToString]. *)
Definition hashString (h : bytes) : bytes := hexString (reverse h).

Definition parseScriptHash (ctx : Ctx) : M W bytes :=
  let '(params, err) := UnmarshalSlice decode_string [] (Params ctx) in
  check_err err ;;
  match params with
  | [] => throw (ErrMsg "protocol violation")
  | p :: _ =>
      if bool_decide (length p ≠ 64)%nat then throw (ErrMsg "protocol violation")
      else shs ← lift_outcome (hexDecode p); mret (copy_into (zeroes 32) (reverse shs))
  end.

(** The id of a transaction in the first parameter. *)
Definition parseTxid (param : bytes) : M W bytes :=
  let '(txidStr, err) := Unmarshal decode_string [] param in
  check_err err ;;
  txidS ← lift_outcome (hexDecode txidStr);
  mret (copy_into (zeroes 32) (reverse txidS)).

(** ** Headers *)

Definition blockHeaderHandler (ctx : Ctx) : M W bytes :=
  let '(params, err) := UnmarshalSlice decode_int 0 (Params ctx) in
  check_err err ;;
  match params with
  | [] => throw (ErrMsg "bad params")
  | height :: _ => header ← GetBlockHeader height; mret (hexString header)
  end.

Definition max_headers : Z := 2016.

Definition headersResult (headers : list bytes) : bytes :=
  json_object [member "hex" (hexString (mjoin headers));
               member "count" (decimal (length headers));
               member "max" (decimal max_headers)].

(** The error of the decoding is not looked at. *)
Definition blockHeadersHandler (ctx : Ctx) : M W bytes :=
  let '(params, _) := UnmarshalSlice decode_int 0 (Params ctx) in
  match params with
  | startHeight :: count :: _ =>
      headers ← GetBlockHeaders startHeight (count `min` max_headers);
      mret (headersResult headers)
  | _ => throw (ErrMsg "protocol violation")
  end.

Definition headersSubscribeHandler (ctx : Ctx) : M W bytes :=
  '(height, h) ← GetTipHeader;
  HeadersSubscribe (ConnId ctx) (NotifyHeaders (ConnId ctx)) ;;
  mret (json_object [member "hex" (hexString h); member "height" (decimal height)]).

(** ** Script hashes *)

Definition scriptHashGetBalanceHandler (ctx : Ctx) : M W bytes :=
  sh ← parseScriptHash ctx;
  '(conf, unconf) ← GetScriptHashBalance sh;
  mret (json_object [member "confirmed" (decimal conf); member "unconfirmed" (decimal unconf)]).

Definition historyItem (t : TxData) : bytes :=
  json_object [member "tx_hash" (hashString (td_TxidOf t)); member "height" (decimal (td_Height t))].

(** [res] is a nil slice when there is no history, which is marshalled as
    [null]. *)
Definition scriptHashGetHistoryHandler (ctx : Ctx) : M W bytes :=
  sh ← parseScriptHash ctx;
  hist ← GetScriptHashHistory sh;
  match hist with
  | [] => mret (str "null")
  | _ => mret (json_array (historyItem <$> hist))
  end.

Definition scriptHashGetMempoolHandler (ctx : Ctx) : M W bytes := mret (str "[]").

Definition unspentItem (u : UtxoData) : bytes :=
  json_object [member "height" (decimal (ud_Height u)); member "tx_pos" (decimal (ud_TxPos u));
               member "tx_hash" (hashString (ud_Txid u)); member "value" (decimal (ud_Satoshi u))].

(** The error of the wallet manager is dropped; the list is then empty. *)
Definition scriptHashListUnspentHandler (ctx : Ctx) : M W bytes :=
  sh ← parseScriptHash ctx;
  unspentD ← drop_err [] (GetScriptHashUnspent sh);
  mret (json_array (unspentItem <$> unspentD)).

Definition scriptHashSubscribeHandler (ctx : Ctx) : M W bytes :=
  sh ← parseScriptHash ctx;
  status ← GetScriptHashStatus sh;
  ScriptHashSubscribe (ConnId ctx) sh (NotifyScriptHash (ConnId ctx) sh) ;;
  mret (match status with None => str "null" | Some status => hexString status end).

Definition scriptHashUnsubscribeHandler (ctx : Ctx) : M W bytes := mret (str "false").

(** ** Transactions *)

Definition transactionGetHandler (ctx : Ctx) : M W bytes :=
  let '(params, err) := UnmarshalSlice decode_raw [] (Params ctx) in
  check_err err ;;
  match params with
  | [] => throw (ErrMsg "bad param len")
  | p :: _ =>
      if bool_decide (length p ≠ 64 + 2)%nat then throw (ErrMsg "bad param len")
      else txid ← parseTxid p; raw ← GetRawTx txid; mret (hexString raw)
  end.

Definition merkleResult (height : Z) (m : MerkleData) : bytes :=
  json_object [member "block_height" (decimal height); member "pos" (decimal (md_Pos m));
               member "merkle" (json_array (hashString <$> md_Merkle m))].

(** The error of [GetTransactionMerkle] is overwritten. *)
Definition transactionGetMerkleHandler (ctx : Ctx) : M W bytes :=
  let '(params, err) := UnmarshalSlice decode_raw [] (Params ctx) in
  check_err err ;;
  match params with
  | p0 :: p1 :: _ =>
      if bool_decide (length p0 ≠ 64 + 2)%nat then throw (ErrMsg "bad params")
      else
        let '(txHash, err) := Unmarshal decode_string [] p0 in
        check_err err ;;
        let '(height, err) := Unmarshal decode_int 0 p1 in
        check_err err ;;
        txidB ← lift_outcome (hexDecode txHash);
        merkle ← drop_err {| md_Merkle := []; md_Pos := 0 |}
                   (GetTransactionMerkle (copy_into (zeroes 32) (reverse txidB)));
        mret (merkleResult height merkle)
  | _ => throw (ErrMsg "bad params")
  end.

Definition idFromPosResult (m : MerkleFromPosData) : bytes :=
  json_object [member "tx_hash" (hashString (mp_Txid m));
               member "merkle" (json_array (hashString <$> mp_Merkle m))].

Definition transactionIdFromPosHandler (ctx : Ctx) : M W bytes :=
  '(params, bad) ← lift_outcome (pointer_elements 3 (Params ctx));
  let '(height, bad0) := pointer decode_int 0 (params !! 0%nat) in
  let '(txpos, bad1) := pointer decode_int 0 (params !! 1%nat) in
  let '(merkle, bad2) := pointer decode_bool false (params !! 2%nat) in
  check_err (type_error (bad || bad0 || bad1 || bad2)) ;;
  if bool_decide (length params < 2)%nat then throw (ErrMsg "bad params")
  else
    mrk ← GetTransactionMerkleFromPos height txpos;
    mret (if merkle then idFromPosResult mrk else hashString (mp_Txid mrk)).

Section broadcast.
Context `{BitcoinClient}.

Definition transactionBroadcastHandler (ctx : Ctx) : M W bytes :=
  let '(params, err) := UnmarshalSlice decode_string [] (Params ctx) in
  check_err err ;;
  match params with
  | [] => throw (ErrMsg "bad param len")
  | p :: _ =>
      rawTx ← lift_outcome (hexDecode p);
      txid ← BroadcastTX rawTx;
      mret (hashString txid)
  end.
End broadcast.

(** ** Constant answers *)

Definition estimateFeeHandler (ctx : Ctx) : M W bytes := mret (str "0.0001").
Definition blockchainRelayFeeHandler (ctx : Ctx) : M W bytes := mret (str "0.00001000").
Definition mempoolGetFeeHistogramHandler (ctx : Ctx) : M W bytes := mret (str "[]").
Definition mempoolGetInfo (ctx : Ctx) : M W bytes :=
  mret (json_object [member "mempoolminfee" (str "0.00001");
                     member "minrelaytxfee" (str "0.00001");
                     member "incrementalrelayfee" (str "0.00001")]).
Definition serverBannerHandler (ctx : Ctx) : M W bytes := mret (quote (str "eps-go")).
Definition serverDonationAddressHandler (ctx : Ctx) : M W bytes := mret (quote (str "none")).
Definition serverPeersSubscribeHandler (ctx : Ctx) : M W bytes := mret (str "[]").
Definition pingHandler (ctx : Ctx) : M W bytes := mret (str "null").

Definition serverVersionHandler (ctx : Ctx) : M W bytes :=
  '(params, bad) ← lift_outcome (pointer_elements 2 (Params ctx));
  let '(clientName, bad0) := pointer decode_string [] (params !! 0%nat) in
  let '(protoVersion, bad1) := pointer decode_string [] (params !! 1%nat) in
  check_err (type_error (bad || bad0 || bad1)) ;;
  if bool_decide (protoVersion ≠ str "1.4") then throw (ErrMsg "bad client version")
  else mret ([x5b] ++ quote (str "eps-go") ++ str ", " ++ quote (str "1.4") ++ [x5d]).

(** ** Dispatch *)

Section mux.
Context `{BitcoinClient}.

Definition defaultHandlers : list (string * (Ctx → M W bytes)) := [
  ("blockchain.block.header", blockHeaderHandler);
  ("blockchain.block.headers", blockHeadersHandler);
  ("blockchain.estimatefee", estimateFeeHandler);
  ("blockchain.headers.subscribe", headersSubscribeHandler);
  ("blockchain.scripthash.get_balance", scriptHashGetBalanceHandler);
  ("blockchain.scripthash.get_history", scriptHashGetHistoryHandler);
  ("blockchain.scripthash.get_mempool", scriptHashGetMempoolHandler);
  ("blockchain.scripthash.listunspent", scriptHashListUnspentHandler);
  ("blockchain.scripthash.subscribe", scriptHashSubscribeHandler);
  ("blockchain.scripthash.unsubscribe", scriptHashUnsubscribeHandler);
  ("blockchain.transaction.broadcast", transactionBroadcastHandler);
  ("blockchain.transaction.get", transactionGetHandler);
  ("blockchain.transaction.get_merkle", transactionGetMerkleHandler);
  ("blockchain.transaction.id_from_pos", transactionIdFromPosHandler);
  ("blockchain.relayfee", blockchainRelayFeeHandler);
  ("mempool.get_fee_histogram", mempoolGetFeeHistogramHandler);
  ("mempool.get_info", mempoolGetInfo);
  ("server.banner", serverBannerHandler);
  ("server.donation_address", serverDonationAddressHandler);
  ("server.peers.subscribe", serverPeersSubscribeHandler);
  ("server.ping", pingHandler);
  ("server.version", serverVersionHandler)]%string.

(** [h.handlers[m]]. *)
Fixpoint lookup_handler (m : bytes) (hs : list (string * (Ctx → M W bytes)))
    : option (Ctx → M W bytes) :=
  match hs with
  | [] => None
  | (name, h) :: hs => if bool_decide (m = str name) then Some h else lookup_handler m hs
  end.

Definition OnRequest (ctx : Ctx) : M W bytes :=
  let '(m, err) := Unmarshal decode_string [] (rq_Method (ctx_Request ctx)) in
  check_err err ;;
  match lookup_handler m defaultHandlers with
  | None => throw (ErrMsg "unknown method")
  | Some handler => handler ctx
  end.
End mux.

Definition OnConnect (connId : Z) : M W unit := mret tt.
Definition OnDisconnect (connId : Z) : M W unit := UnsubscribeAll connId.

(** ** Notifications *)

(** The method and the parameters of the notification that a callback sends. *)
Definition notification (e : event) : bytes * bytes :=
  match e with
  | HeaderEvent _ height header =>
      (quote (str "blockchain.headers.subscribe"),
       json_array [json_object [member "height" (decimal height); member "hex" (hexString header)]])
  | StatusEvent (NotifyScriptHash _ sh) status =>
      (quote (str "blockchain.scripthash.subscribe"),
       json_array [hashString sh; hexString status])
  end.
