(* ===== verification/ElectrumFacts.v ===== *)
(** * ElectrumFacts: requests, and what a handler can do

    How a well-formed request is decoded, and the judgement [answers]: a handler
    leaves the ledger and the wallets alone, does not panic outside a given
    set of panics, and its answer is a JSON value. *)

From S2P Require Import Prelude Bytes Json JsonFacts Sha256 Merkle BitcoinTypes Deserialize ScriptPubkey.
From S2P Require Import Database Repository RepositoryFacts Wallet Genesis Sync HeaderSync Queries.
From S2P Require Import Subscriptions Electrum.
From Stdlib Require Import Strings.Byte.

(** ** Requests *)

(** A client that asks for a method with scalar parameters. *)
Record asks (ctx : Ctx) (name : string) (params : list bytes) : Prop := {
  asks_method : rq_Method (ctx_Request ctx) = quote (str name);
  asks_params : Params ctx = json_array params;
  asks_scalars : Forall scalar params;
}.

Lemma hexString_scalar bs : scalar (hexString bs).
Proof. apply scalar_quote, hexEncode_plain. Qed.
Lemma hashString_scalar h : scalar (hashString h).
Proof. apply hexString_scalar. Qed.
Create HintDb scalar.
#[export] Hint Resolve hexString_scalar hashString_scalar scalar_decimal : scalar.

Lemma decode_hexString bs : decode_string (hexString bs) = Stored (hexEncode bs).
Proof. apply decode_quote, hexEncode_plain. Qed.

Lemma length_hexString bs : length (hexString bs) = (2 * length bs + 2)%nat.
Proof. unfold hexString, quote. rewrite !length_app, length_hexEncode. simpl. lia. Qed.

Section dispatch.
Context `{BitcoinClient}.

(** The method of a request chooses its handler. *)
Lemma OnRequest_method ctx name params h w :
  asks ctx name params → Forall plain (str name) →
  lookup_handler (str name) defaultHandlers = Some h → OnRequest ctx w = h ctx w.
Proof.
  intros [Hm _ _] Hp Hl. unfold OnRequest. rewrite Hm, Unmarshal_scalar by by apply scalar_quote.
  rewrite decode_quote by done. cbn [stored mismatch type_error]. rewrite Hl. by rewrite bind_run.
Qed.
End dispatch.

(** The script hash of a request, as the client renders it. *)
Lemma parseScriptHash_run ctx name sh params w :
  asks ctx name (hashString sh :: params) → existsb (mismatch ∘ decode_string) params = false →
  Sha256.hash32 sh → parseScriptHash ctx w = (Ok sh, w).
Proof.
  intros [_ Hp Hs] Hd Hl. unfold parseScriptHash. rewrite Hp.
  assert (decode_string (hashString sh) = Stored (hexEncode (reverse sh))) as E by apply decode_hexString.
  rewrite UnmarshalSlice_array; [|done|].
  2: { cbn [existsb]. unfold compose at 1. by rewrite E. }
  rewrite fmap_cons. change ((stored [] ∘ decode_string) (hashString sh)) with
    (stored [] (decode_string (hashString sh))). rewrite E. cbn [stored].
  rewrite bind_run. cbn [check_err mret M_ret]. rewrite bool_decide_eq_false_2.
  - rewrite bind_run. unfold lift_outcome. rewrite hexDecode_hexEncode, reverse_involutive.
    unfold mret, M_ret. by rewrite copy_into_full.
  - rewrite length_hexEncode, length_reverse, Hl. by intros ?.
Qed.

(** The id of a transaction, as the client renders it. *)
Lemma parseTxid_run txid w : Sha256.hash32 txid → parseTxid (hashString txid) w = (Ok txid, w).
Proof.
  intros Hl. unfold parseTxid. rewrite Unmarshal_scalar by auto with scalar.
  unfold hashString. rewrite decode_hexString. cbn [stored mismatch type_error].
  rewrite bind_run. cbn [check_err mret M_ret]. rewrite bind_run. unfold lift_outcome.
  rewrite hexDecode_hexEncode, reverse_involutive. unfold mret, M_ret. by rewrite copy_into_full.
Qed.

(** ** Answers *)

(** What no request changes. *)
Record same_ledger (w w' : W) : Prop := {
  sl_repo : repo w' = repo w;
  sl_net : net w' = net w;
  sl_best : bestHeader w' = bestHeader w ∧ bestHeaderHash w' = bestHeaderHash w;
  sl_wallets : wallets w' = wallets w;
  sl_index : scriptPubkeys w' = scriptPubkeys w;
  sl_events : events w' = events w;
}.

#[export] Instance same_ledger_preorder : PreOrder same_ledger.
Proof.
  split; [by split|]. intros w1 w2 w3 [] []. split; try congruence. split; intuition congruence.
Qed.

(** The Merkle branches in the table are lists of hashes. *)
Definition proofs_ok (db : Database) : Prop :=
  ∀ txid row, t_tx db !! txid = Some row →
    ∃ branch, Forall Sha256.hash32 branch ∧ tr_merkle_proof row = mjoin branch.

(** A manager that can serve clients. *)
Definition serving (w : W) : Prop := proofs_ok (r_db (repo w)).

Lemma serving_same w w' : same_ledger w w' → serving w → serving w'.
Proof. intros [Hr _ _ _ _ _]. unfold serving. by rewrite Hr. Qed.

(** The panics of a request: a count of inputs, outputs or witnesses that no
    memory holds, and on Testnet the header of the genesis block, which the
    program does not have. *)
Definition request_panic (n : Network) (why : string) : Prop :=
  why = "makeslice: len out of range"%string ∨
  (n = Testnet ∧ why = "slice bounds out of range"%string).

(** What a request of the connection [id] changes: no ledger, and no subscriber
    but its own. *)
Record own_change (id : Z) (w w' : W) : Prop := {
  oc_ledger : same_ledger w w';
  oc_subs : subs_ok w → subs_ok w';
  oc_other j : j ≠ id → unsubscribed j w → unsubscribed j w';
}.

#[export] Instance own_change_preorder id : PreOrder (own_change id).
Proof. split; [by split|]. intros w1 w2 w3 [] []. split; [by etrans|auto|auto]. Qed.

Lemma own_change_same id w w' :
  same_ledger w w' → hSubs w' = hSubs w → shSubs w' = shSubs w → own_change id w w'.
Proof.
  intros Hl Hh Hs. split; [done| |].
  - intros []. split; by rewrite ?Hh, ?Hs.
  - intros j _ []. split; by rewrite ?Hh, ?Hs.
Qed.

(** From a manager that can serve clients: only the own subscribers change, no
    panic but those above, an end, and a result with [Q]. *)
Definition answers {A} (id : Z) (Q : A → Prop) (m : M W A) : Prop :=
  ∀ w, serving w → own_change id w (m w).2 ∧
    match (m w).1 with
    | Ok a => Q a
    | Err _ => True
    | Panic why => request_panic (net w) why
    | OutOfFuel => False
    end.

Definition any {A} (_ : A) : Prop := True.

Section answers.
Context {id : Z}.

Lemma answers_ret {A} (Q : A → Prop) a : Q a → answers id Q (mret a).
Proof. intros Ha w _. by split. Qed.

Lemma answers_throw {A} (Q : A → Prop) e : answers id Q (throw e).
Proof. intros w _. by split. Qed.

Lemma answers_gets {A} (f : W → A) : answers id any (gets f).
Proof. intros w _. by split. Qed.

Lemma answers_bind {A B} (R : A → Prop) (Q : B → Prop) (m : M W A) (k : A → M W B) :
  answers id R m → (∀ a, R a → answers id Q (k a)) → answers id Q (m ≫= k).
Proof.
  intros Hm Hk w Hw. destruct (Hm w Hw) as [Hs Ho]. rewrite bind_run.
  destruct (m w) as [[a|e|why|] w1]; simpl in *; try done.
  destruct (Hk a Ho w1 (serving_same _ _ (oc_ledger _ _ _ Hs) Hw)) as [Hs' Ho']. split; [by etrans|].
  by rewrite (sl_net _ _ (oc_ledger _ _ _ Hs)) in Ho'.
Qed.

Lemma answers_lift {A} (o : outcome A) : safe o → answers id any (lift_outcome o).
Proof. intros Ho w _. split; [done|]. by destruct o. Qed.

Lemma answers_query {A} (q : Database → outcome A) :
  (∀ db, safe (q db)) → answers id any (on_repo (query q)).
Proof. intros Hq w _. rewrite on_repo_query. split; [done|]. specialize (Hq (r_db (repo w))). by destruct (q _). Qed.

Lemma answers_subscribe f :
  (∀ w, own_change id w (f w)) → answers id any (modify f).
Proof. intros Hf w _. by split. Qed.

Lemma answers_weaken {A} (Q : A → Prop) m : answers id Q m → answers id any m.
Proof. intros Hm w Hw. destruct (Hm w Hw) as [Hs Ho]. split; [done|]. by destruct (m w).1. Qed.

Lemma answers_drop_err {A} (zero : A) m : answers id any m → answers id any (drop_err zero m).
Proof. intros Hm w Hw. specialize (Hm w Hw). unfold drop_err. by destruct (m w) as [[] w']. Qed.

Lemma answers_check_err err : answers id any (check_err err).
Proof. destruct err; [apply answers_throw|by apply answers_ret]. Qed.
End answers.

Create HintDb answers.
#[export] Hint Resolve answers_ret answers_throw answers_gets answers_query answers_subscribe answers_lift
  answers_drop_err answers_check_err : answers.
#[export] Hint Extern 0 (any _) => exact I : answers.

(** Split a handler into its calls. *)
Ltac answer_calls :=
  repeat first
    [ progress cbv beta zeta
    | solve [auto with answers]
    | match goal with |- answers _ _ (mbind _ _) => eapply (answers_bind any); [|intros ? _] end
    | match goal with |- answers _ _ (match ?x with _ => _ end) => destruct x end ].

(** ** The queries of the wallet manager *)

Lemma hexDecode_safe s : safe (hexDecode s).
Proof.
  induction s as [s IH] using (induction_ltof1 _ (@length byte)). unfold ltof in IH.
  destruct s as [|a [|b s]]; cbn [hexDecode]; [done|by destruct (fromHexChar a)|].
  destruct (fromHexChar a), (fromHexChar b); try done.
  apply safe_bind; [apply IH; simpl; lia|done].
Qed.

Lemma scan_blob_spec n b : scan_blob n b = Ok b ∨ ∃ e, scan_blob n b = Err e.
Proof. unfold scan_blob. case_bool_decide; eauto. Qed.

Lemma scan_blob_safe n b : safe (scan_blob n b).
Proof. unfold scan_blob. by case_bool_decide. Qed.

Lemma query_row_safe {A} (rows : list A) : safe (query_row rows).
Proof. by destruct rows. Qed.

Create HintDb safe.
#[export] Hint Resolve hexDecode_safe scan_blob_safe query_row_safe : safe.
#[export] Hint Resolve hexDecode_safe : answers.

(** Split a query into its steps. *)
Ltac safe_steps :=
  repeat first
    [ exact I
    | solve [auto with safe]
    | apply safe_bind; [|intros ? _]
    | apply safe_mapM; intros ? _
    | match goal with |- safe (match ?x with _ => _ end) => destruct x end ].

(** The hashes of a stored branch. *)
Lemma answers_branch {id} (data : bytes) :
  (∃ branch, Forall Sha256.hash32 branch ∧ data = mjoin branch) →
  answers id any (lift_outcome (split_branch data)).
Proof. intros (branch & Hf & ->). apply answers_lift. by rewrite split_branch_join. Qed.

Section queries.
Context {id : Z}.

Lemma answers_genesis_header : answers id any genesis_header.
Proof.
  intros w _. destruct (decide (net w = Testnet)) as [Hn|Hn].
  - rewrite genesis_header_Testnet by done. split; [done|]. by right.
  - by rewrite genesis_header_run.
Qed.

Lemma answers_GetBlockHeader h : answers id any (GetBlockHeader h).
Proof.
  unfold GetBlockHeader. case_match; [apply answers_genesis_header|].
  apply answers_query. intros db. safe_steps.
Qed.

Lemma answers_GetBlockHeaders h limit : answers id any (GetBlockHeaders h limit).
Proof.
  intros w Hw. unfold GetBlockHeaders, selectRawBlockHeadersByHeight. rewrite on_repo_query.
  assert (∀ db, safe (mapM (λ row : bytes * headerRow, scan_blob 80 (bh_serialized row.2))
    (sql_limit limit (headers_from h db)))) as Hsafe by (intros db; safe_steps).
  specialize (Hsafe (r_db (repo w))). destruct (h =? 0).
  - destruct (decide (net w = Testnet)) as [Hn|Hn].
    + rewrite bind_assoc, bind_run, genesis_header_Testnet by done. split; [done|]. by right.
    + rewrite bind_assoc, (bind_Ok_1 _ _ _ _ _ (genesis_header_run w Hn)), bind_run.
      unfold mret, M_ret. by destruct (mapM _ _).
  - rewrite bind_run. unfold mret, M_ret. by destruct (mapM _ _).
Qed.

Lemma answers_GetTipHeader : answers id any GetTipHeader.
Proof. apply answers_query. intros db. safe_steps. Qed.

Lemma answers_balance sh : answers id any (GetScriptHashBalance sh).
Proof. unfold GetScriptHashBalance. answer_calls. intros w _. split; [by apply own_change_same|done]. Qed.

Lemma answers_history sh : answers id any (GetScriptHashHistory sh).
Proof. apply answers_query. intros db. safe_steps. Qed.

Lemma answers_unspent sh : answers id any (GetScriptHashUnspent sh).
Proof. apply answers_query. intros db. safe_steps. Qed.

Lemma answers_status sh : answers id any (GetScriptHashStatus sh).
Proof. unfold GetScriptHashStatus, getScriptHashStatus. answer_calls. apply answers_history. Qed.

(** The subscriptions of a connection carry its id. *)
Lemma answers_HeadersSubscribe : answers id any (HeadersSubscribe id (NotifyHeaders id)).
Proof.
  apply answers_subscribe. intros w. split; [by split| |].
  - intros [Hh Hs]. split; [|exact Hs]. intros i cb. cbn [hSubs upd_hSubs]. intros Hi.
    apply lookup_insert_Some in Hi as [[<- <-]|[_ Hi]]; [done|by apply Hh].
  - intros j Hj [H1 H2]. split; [|exact H2]. cbn [hSubs upd_hSubs]. by rewrite lookup_insert_ne.
Qed.

Lemma answers_ScriptHashSubscribe sh : answers id any (ScriptHashSubscribe id sh (NotifyScriptHash id sh)).
Proof.
  apply answers_subscribe. intros w. split; [by split| |].
  - intros [Hh Hs]. split; [exact Hh|]. intros sh' m i cb. cbn [shSubs upd_shSubs]. intros Hm Hi.
    apply lookup_insert_Some in Hm as [[<- <-]|[_ Hm]]; [|by eapply Hs].
    apply lookup_insert_Some in Hi as [[<- <-]|[_ Hi]]; [done|].
    destruct (shSubs w !! sh) as [m|] eqn:E; simpl in Hi; [by eapply Hs|by rewrite lookup_empty in Hi].
  - intros j Hj [H1 H2]. split; [exact H1|]. intros sh' m. cbn [shSubs upd_shSubs]. intros Hm.
    apply lookup_insert_Some in Hm as [[<- <-]|[_ Hm]]; [|by eapply H2]. rewrite lookup_insert_ne by done.
    destruct (shSubs w !! sh) as [m|] eqn:E; simpl; [by eapply H2|apply lookup_empty].
Qed.

Lemma answers_raw txid : answers id any (GetRawTx txid).
Proof. apply answers_query. intros db. safe_steps. Qed.

Lemma answers_merkle txid : answers id any (GetTransactionMerkle txid).
Proof.
  unfold GetTransactionMerkle. eapply (answers_bind (λ t : transactionData,
    ∃ branch, Forall Sha256.hash32 branch ∧ td_MerkleProof t = mjoin branch)).
  - intros w Hw. unfold selectTransactionFromTxid. rewrite on_repo_query. split; [done|]. cbn [fst].
    destruct (t_tx _ !! txid) as [row|] eqn:E; [|done].
    destruct (scan_blob_spec 32 (tr_blockhash row)) as [->|[e ->]]; run_outcome; [|done]. by eapply Hw.
  - intros t Ht. eapply (answers_bind any); [by apply answers_branch|]. auto with answers.
Qed.

Lemma answers_merkle_from_pos h pos : answers id any (GetTransactionMerkleFromPos h pos).
Proof.
  unfold GetTransactionMerkleFromPos. eapply (answers_bind (λ t : transactionData,
    ∃ branch, Forall Sha256.hash32 branch ∧ td_MerkleProof t = mjoin branch)).
  - intros w Hw. unfold selectTransactionFromHeightPos. rewrite on_repo_query. split; [done|]. cbn [fst].
    destruct (filter _ _) as [|[txid row] l] eqn:E; [done|]. cbn [query_row]. run_outcome.
    destruct (scan_blob_spec 32 txid) as [->|[e ->]]; run_outcome; [|done].
    destruct (scan_blob_spec 32 (tr_blockhash row)) as [->|[e ->]]; run_outcome; [|done]. apply (Hw txid row).
    apply elem_of_map_to_list. eapply list_elem_of_filter. rewrite E. apply list_elem_of_here.
  - intros t Ht. eapply (answers_bind any); [by apply answers_branch|]. auto with answers.
Qed.
End queries.

#[export] Hint Resolve answers_GetBlockHeader answers_GetBlockHeaders answers_GetTipHeader answers_balance
  answers_history answers_unspent answers_status answers_raw answers_merkle answers_merkle_from_pos
  answers_HeadersSubscribe answers_ScriptHashSubscribe : answers.

Lemma answers_BroadcastTX `{BitcoinClient} id rawTx :
  (∀ n raw, safe (BroadcastWTX n raw)) → answers id any (BroadcastTX rawTx).
Proof.
  intros Hb. unfold BroadcastTX. eapply (answers_bind any).
  - intros w _. split; [done|]. unfold lift_outcome. cbn [fst].
    pose proof (reads_ends _ Transaction_Deserialize_reads rawTx) as He.
    pose proof (reads_panic _ Transaction_Deserialize_reads rawTx) as Hp.
    destruct (Transaction_Deserialize rawTx).1; [done|done| |done]. left. by apply Hp.
  - intros tx _. eapply (answers_bind any); [|auto with answers].
    intros w _. split; [by apply own_change_same|]. specialize (Hb (calls w) rawTx).
    unfold call_node. cbn [fst]. by destruct (BroadcastWTX _ _).
Qed.

(** ** The results *)

(** A JSON value that is not deeply nested. *)
Definition json (v : bytes) : Prop := value 3 v.

Lemma scalar_json x : scalar x → json x.
Proof. intros [Hv _ _]. by apply (value_weaken 0); [lia|]. Qed.

Lemma json_valid v : json v → checkValid v = true.
Proof. by apply value_valid. Qed.

(** A member with a plain name. *)
Definition members_ok (d : nat) (ms : list (string * bytes)) : Prop :=
  Forall (λ m : string * bytes, Forall plain (str m.1) ∧ value d m.2) ms.

Lemma plain_name s : forallb (λ c, negb (bool_decide (c = x22)) && negb (bool_decide (c = x5c)) &&
  (32 <=? b2z c) && (b2z c <? 128)) (str s) = true → Forall plain (str s).
Proof. apply str_plain. Qed.

Lemma scalar_value_any d x : scalar x → value d x.
Proof. intros [Hv _ _]. apply (value_weaken 0); [lia|done]. Qed.
#[export] Hint Resolve scalar_value_any : scalar.

Ltac solve_members :=
  repeat (apply Forall_cons; split; [split; [by apply plain_name|]|]); [..|by apply Forall_nil]; cbn [snd];
  auto with scalar.

Lemma value_hashes hs : value 1 (json_array (hashString <$> hs)).
Proof. apply value_array, Forall_fmap, Forall_forall. intros h _. unfold compose. auto with scalar. Qed.

Lemma headersResult_json headers : json (headersResult headers).
Proof.
  apply (value_weaken 1); [lia|].
  apply (value_object 0 [("hex", hexString (mjoin headers)); ("count", decimal (length headers));
    ("max", decimal max_headers)]%string); [done|]. solve_members.
Qed.

Lemma tipResult_json h height :
  json (json_object [member "hex" (hexString h); member "height" (decimal height)]).
Proof.
  apply (value_weaken 1); [lia|].
  apply (value_object 0 [("hex", hexString h); ("height", decimal height)]%string); [done|]. solve_members.
Qed.

Lemma balanceResult_json conf unconf :
  json (json_object [member "confirmed" (decimal conf); member "unconfirmed" (decimal unconf)]).
Proof.
  apply (value_weaken 1); [lia|].
  apply (value_object 0 [("confirmed", decimal conf); ("unconfirmed", decimal unconf)]%string); [done|].
  solve_members.
Qed.

Lemma historyItem_value t : value 1 (historyItem t).
Proof.
  apply (value_object 0 [("tx_hash", hashString (td_TxidOf t)); ("height", decimal (td_Height t))]%string);
    [done|]. solve_members.
Qed.

Lemma unspentItem_value u : value 1 (unspentItem u).
Proof.
  apply (value_object 0 [("height", decimal (ud_Height u)); ("tx_pos", decimal (ud_TxPos u));
    ("tx_hash", hashString (ud_Txid u)); ("value", decimal (ud_Satoshi u))]%string); [done|]. solve_members.
Qed.

Lemma items_json {A} (f : A → bytes) l : (∀ x, value 1 (f x)) → json (json_array (f <$> l)).
Proof.
  intros Hf. apply (value_weaken 2); [lia|]. apply value_array, Forall_fmap, Forall_forall.
  intros x _. apply Hf.
Qed.

Lemma merkleResult_json height m : json (merkleResult height m).
Proof.
  apply (value_weaken 2); [lia|].
  apply (value_object 1 [("block_height", decimal height); ("pos", decimal (md_Pos m));
    ("merkle", json_array (hashString <$> md_Merkle m))]%string); [done|]. solve_members. apply value_hashes.
Qed.

Lemma idFromPosResult_json m : json (idFromPosResult m).
Proof.
  apply (value_weaken 2); [lia|].
  apply (value_object 1 [("tx_hash", hashString (mp_Txid m));
    ("merkle", json_array (hashString <$> mp_Merkle m))]%string); [done|]. solve_members. apply value_hashes.
Qed.

#[export] Hint Resolve scalar_json headersResult_json tipResult_json balanceResult_json
  historyItem_value unspentItem_value items_json merkleResult_json idFromPosResult_json : answers.
#[export] Hint Resolve hexString_scalar hashString_scalar : answers.

(** The constant answers: the scanner ends in a state that a value may end in. *)
Definition value_end (stack : list parseState) (st : scanner) : Prop :=
  ∀ c s, stateEndValue stack c = Some s → scan_step st c = Some s.

Lemma value_literal (n : nat) (v : bytes) :
  (∀ stack, ∃ st, scan_run (Scanner BeginValue stack) v = Some st ∧ value_end stack st) →
  (∃ c v', v = c :: v' ∧ isSpace c = false ∧ c ≠ x5d) → value n v.
Proof.
  intros Hr Hh. split; [|done]. intros stack c s _ Hc. rewrite scan_run_app.
  destruct (Hr stack) as (st & -> & He). cbn [mbind option_bind scan_run]. by rewrite (He _ _ Hc).
Qed.

Lemma literal_ends stack : value_end stack (Scanner EndValue stack).
Proof. by intros c s H. Qed.

Lemma fraction_ends stack : value_end stack (Scanner Dot0 stack).
Proof.
  intros c s H. pose proof (stateEndValue_ends _ _ _ H) as (Hd & _ & H1 & H2).
  cbn [scan_step]. rewrite Hd, <- H. clear H. by destruct c.
Qed.

Lemma null_value n : value n (str "null").
Proof. apply value_literal; [|by do 2 eexists]. intros stack. eexists. split; [reflexivity|apply literal_ends]. Qed.

Lemma false_value n : value n (str "false").
Proof. apply value_literal; [|by do 2 eexists]. intros stack. eexists. split; [reflexivity|apply literal_ends]. Qed.

Ltac solve_fraction :=
  apply value_literal; [|by do 2 eexists]; intros stack; eexists; split; [reflexivity|apply fraction_ends].

Lemma fee_value n : value n (str "0.0001").
Proof. solve_fraction. Qed.
Lemma relayfee_value n : value n (str "0.00001000").
Proof. solve_fraction. Qed.
Lemma mempool_value n : value n (str "0.00001").
Proof. solve_fraction. Qed.
Lemma empty_list_json : json (str "[]").
Proof. apply (value_weaken 1); [lia|]. by apply (value_array 0 []). Qed.

Lemma plain_quote_json s : forallb (λ c, negb (bool_decide (c = x22)) && negb (bool_decide (c = x5c)) &&
  (32 <=? b2z c) && (b2z c <? 128)) (str s) = true → json (quote (str s)).
Proof. intros. by apply scalar_json, scalar_quote, str_plain. Qed.

Lemma infoResult_json :
  json (json_object [member "mempoolminfee" (str "0.00001"); member "minrelaytxfee" (str "0.00001");
                     member "incrementalrelayfee" (str "0.00001")]).
Proof.
  apply (value_weaken 1); [lia|].
  apply (value_object 0 [("mempoolminfee", str "0.00001"); ("minrelaytxfee", str "0.00001");
    ("incrementalrelayfee", str "0.00001")]%string); [done|]. solve_members; apply mempool_value.
Qed.

(** The answer to [server.version] has a space before its second element. *)
Lemma versionResult_json :
  json ([x5b] ++ quote (str "eps-go") ++ str ", " ++ quote (str "1.4") ++ [x5d]).
Proof.
  split; [|by do 2 eexists]. intros stack c s Hd Hc.
  rewrite <- !(assoc_L (++)). cbn [app scan_run scan_step stateBeginValue isSpace].
  rewrite push_ok by lia.
  trans (scan_run (pop (parseArrayValue :: stack)) [c]); [reflexivity|by apply pop_run].
Qed.

#[export] Hint Resolve null_value false_value fee_value relayfee_value empty_list_json
  infoResult_json versionResult_json : answers.
#[export] Hint Extern 2 (json (quote (str _))) => apply plain_quote_json; reflexivity : answers.
#[export] Hint Extern 1 (json (match ?x with _ => _ end)) => destruct x : answers.
#[export] Hint Extern 3 (json _) => progress unfold json : answers.

(** ** The handlers *)

Section handlers.
Context {id : Z}.

Lemma answers_ScriptHash ctx : answers id any (parseScriptHash ctx).
Proof. unfold parseScriptHash. answer_calls. Qed.

Lemma answers_Txid p : answers id any (parseTxid p).
Proof. unfold parseTxid. answer_calls. Qed.
Hint Resolve answers_ScriptHash answers_Txid : answers.

Lemma answers_header ctx : answers id json (blockHeaderHandler ctx).
Proof. unfold blockHeaderHandler. answer_calls. Qed.

Lemma answers_headers ctx : answers id json (blockHeadersHandler ctx).
Proof. unfold blockHeadersHandler. answer_calls. Qed.

Lemma answers_get_balance ctx : answers id json (scriptHashGetBalanceHandler ctx).
Proof. unfold scriptHashGetBalanceHandler. answer_calls. Qed.

Lemma answers_get_history ctx : answers id json (scriptHashGetHistoryHandler ctx).
Proof. unfold scriptHashGetHistoryHandler. answer_calls. Qed.

Lemma answers_listunspent ctx : answers id json (scriptHashListUnspentHandler ctx).
Proof. unfold scriptHashListUnspentHandler. answer_calls. Qed.

Lemma answers_get ctx : answers id json (transactionGetHandler ctx).
Proof. unfold transactionGetHandler. answer_calls. Qed.

Lemma answers_get_merkle ctx : answers id json (transactionGetMerkleHandler ctx).
Proof. unfold transactionGetMerkleHandler. answer_calls. Qed.

Lemma pointer_elements_safe n data : safe (pointer_elements n data).
Proof. unfold pointer_elements. safe_steps. Qed.
Hint Resolve pointer_elements_safe : answers.

Lemma answers_id_from_pos ctx : answers id json (transactionIdFromPosHandler ctx).
Proof. unfold transactionIdFromPosHandler. answer_calls. Qed.

Lemma answers_version ctx : answers id json (serverVersionHandler ctx).
Proof. unfold serverVersionHandler. answer_calls. Qed.

Lemma answers_constant (h : Ctx → M W bytes) ctx :
  h ∈ [estimateFeeHandler; scriptHashGetMempoolHandler; scriptHashUnsubscribeHandler;
       blockchainRelayFeeHandler; mempoolGetFeeHistogramHandler; mempoolGetInfo; serverBannerHandler;
       serverDonationAddressHandler; serverPeersSubscribeHandler; pingHandler] →
  answers id json (h ctx).
Proof.
  intros Hh. repeat (apply elem_of_cons in Hh as [->|Hh]; [apply answers_ret; auto with answers|]).
  by apply elem_of_nil in Hh.
Qed.
End handlers.
#[export] Hint Resolve answers_ScriptHash answers_Txid : answers.

Lemma answers_headers_subscribe ctx : answers (ConnId ctx) json (headersSubscribeHandler ctx).
Proof. unfold headersSubscribeHandler. answer_calls. Qed.

Lemma answers_script_subscribe ctx : answers (ConnId ctx) json (scriptHashSubscribeHandler ctx).
Proof. unfold scriptHashSubscribeHandler. answer_calls. Qed.

Lemma answers_broadcast `{BitcoinClient} id ctx :
  (∀ n raw, safe (BroadcastWTX n raw)) → answers id json (transactionBroadcastHandler ctx).
Proof.
  intros Hb. unfold transactionBroadcastHandler.
  assert (∀ raw, answers id any (BroadcastTX raw)) as HB by (intros; by apply answers_BroadcastTX).
  answer_calls.
Qed.

#[export] Hint Resolve answers_header answers_headers answers_headers_subscribe answers_get_balance
  answers_get_history answers_listunspent answers_script_subscribe answers_get answers_get_merkle
  answers_id_from_pos answers_version answers_broadcast : answers.

(** Every handler of the table. *)
Lemma lookup_handler_all `{BitcoinClient} (P : (Ctx → M W bytes) → Prop) hs m h :
  Forall (λ e : string * (Ctx → M W bytes), P e.2) hs → lookup_handler m hs = Some h → P h.
Proof.
  induction 1 as [|[name h'] hs Hp Hs IH]; [done|]. cbn [lookup_handler].
  case_bool_decide; [by intros [= <-]|done].
Qed.

Lemma answers_handlers `{BitcoinClient} m h ctx :
  (∀ n raw, safe (BroadcastWTX n raw)) →
  lookup_handler m defaultHandlers = Some h → answers (ConnId ctx) json (h ctx).
Proof.
  intros Hb. apply (lookup_handler_all (λ h, answers (ConnId ctx) json (h ctx))).
  repeat (apply Forall_cons; split; [cbn [snd]; first [solve [auto with answers]
    | apply answers_constant; repeat (apply elem_of_cons; first [by left|right]) ]|]).
  by apply Forall_nil.
Qed.

Lemma answers_OnRequest `{BitcoinClient} ctx :
  (∀ n raw, safe (BroadcastWTX n raw)) → answers (ConnId ctx) json (OnRequest ctx).
Proof.
  intros Hb. unfold OnRequest. destruct (Unmarshal _ _ _) as [m err].
  eapply (answers_bind any); [auto with answers|]. intros _ _.
  destruct (lookup_handler m defaultHandlers) as [h|] eqn:E; [by eapply answers_handlers|auto with answers].
Qed.
