(* ===== verification/System.v ===== *)
(** * System: clients and synchronisation, interleaved

    The goroutines of the connections and the one of [run] share the wallet
    manager, which every exported method locks.  A step of the system is one
    critical section: a round of [run], or one call of the wallet manager by the
    handler of a connection.  All handlers make one such call but the two that
    subscribe, which make two: they read, unlock, and then register.

    The server names connections by a counter that its goroutines share, so that
    two connections can have one id ([connections_share_id] in [ServerTheorems]):
    the system holds the accepted connections in a list, and a new one takes any
    id, also one in use. *)

From S2P Require Import Prelude Bytes Json JsonFacts Sha256 BitcoinTypes ScriptPubkey.
From S2P Require Import Database Repository Wallet Genesis Sync Queries Rounds.
From S2P Require Import Subscriptions Electrum ElectrumFacts.

(** ** Handlers, one critical section at a time *)

(** What a subscribing handler has read before it registers. *)
Inductive pending :=
  | PendingHeaders (height : Z) (h : bytes)
  | PendingScript (sh : bytes) (status : option bytes).

Section sections.
Context `{BitcoinClient}.

Definition first_call (ctx : Ctx) : M W (bytes + pending) :=
  let '(m, err) := Unmarshal decode_string [] (rq_Method (ctx_Request ctx)) in
  check_err err ;;
  if bool_decide (m = str "blockchain.headers.subscribe") then
    '(height, h) ← GetTipHeader; mret (inr (PendingHeaders height h))
  else if bool_decide (m = str "blockchain.scripthash.subscribe") then
    sh ← parseScriptHash ctx;
    status ← GetScriptHashStatus sh;
    mret (inr (PendingScript sh status))
  else
    match lookup_handler m defaultHandlers with
    | None => throw (ErrMsg "unknown method")
    | Some handler => result ← handler ctx; mret (inl result)
    end.

Definition second_call (ctx : Ctx) (p : pending) : M W bytes :=
  match p with
  | PendingHeaders height h =>
      HeadersSubscribe (ConnId ctx) (NotifyHeaders (ConnId ctx)) ;;
      mret (json_object [member "hex" (hexString h); member "height" (decimal height)])
  | PendingScript sh status =>
      ScriptHashSubscribe (ConnId ctx) sh (NotifyScriptHash (ConnId ctx) sh) ;;
      mret (match status with None => str "null" | Some status => hexString status end)
  end.

(** With nothing between the two, they are [OnRequest]. *)
Lemma OnRequest_sections ctx w :
  OnRequest ctx w =
    (r ← first_call ctx; match r with inl result => mret result | inr p => second_call ctx p end) w.
Proof.
  unfold OnRequest, first_call. destruct (Unmarshal _ _ _) as [m err].
  rewrite bind_assoc, !bind_run. destruct (check_err err w) as [[[]| | |] w1]; try done.
  case_bool_decide as H1; [|case_bool_decide as H2].
  - subst m. change (lookup_handler (str "blockchain.headers.subscribe") defaultHandlers)
      with (Some headersSubscribeHandler). unfold headersSubscribeHandler.
    rewrite bind_assoc, !bind_run. by destruct (GetTipHeader w1) as [[[? ?]| | |] ?].
  - subst m. change (lookup_handler (str "blockchain.scripthash.subscribe") defaultHandlers)
      with (Some scriptHashSubscribeHandler). unfold scriptHashSubscribeHandler.
    rewrite bind_assoc, !bind_run. destruct (parseScriptHash ctx w1) as [[sh| | |] w2]; try done.
    rewrite bind_assoc, !bind_run. by destruct (GetScriptHashStatus sh w2) as [[| | |] ?].
  - destruct (lookup_handler m defaultHandlers) as [h|]; [|done].
    rewrite bind_assoc, !bind_run. by destruct (h ctx w1) as [[| | |] ?].
Qed.
End sections.

(** ** The system *)

Inductive conn_state :=
  | Idle
  | Subscribing (ctx : Ctx) (p : pending)  (* between the two critical sections *)
  | Leaving                                (* a handler has returned an error *)
  | Gone.                                  (* [OnDisconnect] has returned *)

(** What a connection is sent. *)
Inductive message :=
  | Result (id : Z) (result : bytes)
  | Called (e : event).

Definition addressee (m : message) : Z :=
  match m with Result id _ => id | Called e => owner e end.

Record system := {
  sy_w : W;
  sy_conns : list (Z * conn_state);   (* every connection that was accepted, with its id *)
  sy_running : bool;             (* [run] has not returned *)
  sy_log : list message;
}.

(** The events of a critical section. *)
Definition called (w w' : W) : list message := Called <$> drop (length (events w)) (events w').

Definition after (s : system) (w : W) (running : bool) : system := {|
  sy_w := w; sy_conns := sy_conns s; sy_running := running;
  sy_log := sy_log s ++ called (sy_w s) w |}.

Definition connect (id : Z) (s : system) : system := {|
  sy_w := sy_w s; sy_conns := sy_conns s ++ [(id, Idle)]; sy_running := sy_running s; sy_log := sy_log s |}.

Definition set_conn (k : nat) (id : Z) (c : conn_state) (s : system) : system := {|
  sy_w := sy_w s; sy_conns := <[k := (id, c)]> (sy_conns s); sy_running := sy_running s; sy_log := sy_log s |}.

Definition send (m : message) (s : system) : system := {|
  sy_w := sy_w s; sy_conns := sy_conns s; sy_running := sy_running s; sy_log := sy_log s ++ [m] |}.

Section steps.
Context `{Bip32} `{BitcoinClient}.

(** A panic ends the process: it has no step. *)
Inductive sys_step : system → system → Prop :=
  | step_round s fuel w' :
      sy_running s = true → syncRound fuel (sy_w s) = (Ok tt, w') →
      sys_step s (after s w' true)
  | step_round_fails s fuel e w' :
      sy_running s = true → syncRound fuel (sy_w s) = (Err e, w') →
      sys_step s (after s w' false)
  | step_stops s :                (* the context of [run] is done: [Close], or a signal *)
      sy_running s = true → sys_step s (after s (sy_w s) false)
  | step_connect s id : sys_step s (connect id s)
  | step_request s k ctx result w' :
      sy_conns s !! k = Some (ConnId ctx, Idle) → first_call ctx (sy_w s) = (Ok (inl result), w') →
      sys_step s (send (Result (ConnId ctx) result) (after s w' (sy_running s)))
  | step_request_reads s k ctx p w' :
      sy_conns s !! k = Some (ConnId ctx, Idle) → first_call ctx (sy_w s) = (Ok (inr p), w') →
      sys_step s (set_conn k (ConnId ctx) (Subscribing ctx p) (after s w' (sy_running s)))
  | step_subscribes s k ctx p result w' :
      sy_conns s !! k = Some (ConnId ctx, Subscribing ctx p) →
      second_call ctx p (sy_w s) = (Ok result, w') →
      sys_step s (set_conn k (ConnId ctx) Idle
                    (send (Result (ConnId ctx) result) (after s w' (sy_running s))))
  | step_request_fails s k ctx e w' :
      sy_conns s !! k = Some (ConnId ctx, Idle) → first_call ctx (sy_w s) = (Err e, w') →
      sys_step s (set_conn k (ConnId ctx) Leaving (after s w' (sy_running s)))
  | step_disconnect s k id w' :
      (sy_conns s !! k = Some (id, Idle) ∨ sy_conns s !! k = Some (id, Leaving)) →
      OnDisconnect id (sy_w s) = (Ok tt, w') →
      sys_step s (set_conn k id Gone (after s w' (sy_running s))).

(** The server starts with no connection, on a manager that can serve. *)
Record sys_init (s : system) : Prop := {
  init_serving : serving (sy_w s);
  init_headers : hSubs (sy_w s) = ∅;
  init_scripts : shSubs (sy_w s) = ∅;
  init_conns : sy_conns s = [];
}.

Definition reachable (s : system) : Prop := ∃ s0, sys_init s0 ∧ rtc sys_step s0 s.

(** ** The invariant *)

(** Every connection with the id is gone. *)
Definition absent (id : Z) (s : system) : Prop := ∀ k c, sy_conns s !! k = Some (id, c) → c = Gone.

(** An id that no connection has, or only such as are gone, is not subscribed. *)
Record sys_inv (s : system) : Prop := {
  inv_serving : serving (sy_w s);
  inv_subs : subs_ok (sy_w s);
  inv_unsubscribed id : absent id s → unsubscribed id (sy_w s);
}.
End steps.

(** ** Invariants of the critical sections *)

(** A property of the subscribers alone is an invariant of a round. *)
Lemma subs_invariant (I : W → Prop) :
  (∀ w w', hSubs w' = hSubs w → shSubs w' = shSubs w → I w → I w') → RoundInvariant I.
Proof.
  intros HI. split.
  - intros w w' [] _. by apply HI.
  - intros w w' [] _. by apply HI.
  - intros w w' txid row branch [] _ _ _. by apply HI.
  - intros h buf w. by apply HI.
  - intros sh status w. by apply HI.
Qed.

Lemma subs_ok_same w w' : hSubs w' = hSubs w → shSubs w' = shSubs w → subs_ok w → subs_ok w'.
Proof. intros Hh Hs []. split; by rewrite ?Hh, ?Hs. Qed.

#[export] Instance subs_ok_round : RoundInvariant subs_ok.
Proof. apply subs_invariant, subs_ok_same. Qed.

(** The connection [id] is not subscribed. *)
Definition quiet (id : Z) (w : W) : Prop := subs_ok w ∧ unsubscribed id w.

Lemma quiet_same id w w' : hSubs w' = hSubs w → shSubs w' = shSubs w → quiet id w → quiet id w'.
Proof.
  intros Hh Hs [H1 [H2 H3]]. split; [by apply (subs_ok_same w)|]. split; by rewrite ?Hh, ?Hs.
Qed.

#[export] Instance quiet_round id : RoundInvariant (quiet id).
Proof. apply subs_invariant, quiet_same. Qed.

#[export] Instance serving_round : RoundInvariant serving.
Proof.
  split; unfold serving, proofs_ok.
  - intros w w' _ Ht H2 txid row Hr. apply (H2 txid). by apply (lookup_weaken _ _ _ _ Hr).
  - intros w w' _ (w0 & H2 & Ht) _ txid row Hr. apply (H2 txid). unfold txs in Ht. by rewrite <- Ht.
  - intros w w' txid row branch _ Hb Hm Ht H2 txid' row' Hr. unfold txs in Ht. rewrite Ht in Hr.
    apply lookup_insert_Some in Hr as [[_ <-]|[_ Hr]]; [by exists branch|by apply (H2 txid')].
  - by intros h buf w.
  - by intros sh status w.
Qed.

(** The critical sections of a request. *)
Section requests.
Context `{BitcoinClient}.
Hypothesis node_safe : ∀ n raw, safe (BroadcastWTX n raw).

(** A result that is complete is valid JSON. *)
Definition settled (r : bytes + pending) : Prop :=
  match r with inl result => json result | inr _ => True end.

Lemma answers_first_call ctx : answers (ConnId ctx) settled (first_call ctx).
Proof using node_safe.
  unfold first_call. destruct (Unmarshal _ _ _) as [m err].
  eapply (answers_bind any); [auto with answers|]. intros _ _.
  destruct (bool_decide _); [answer_calls; by apply answers_ret|].
  destruct (bool_decide _); [answer_calls; by apply answers_ret|].
  destruct (lookup_handler m defaultHandlers) as [h|] eqn:E; [|auto with answers].
  eapply (answers_bind json); [by eapply answers_handlers|intros result Hj; by apply answers_ret].
Qed.

Lemma answers_second_call ctx p : answers (ConnId ctx) json (second_call ctx p).
Proof using Type. destruct p; unfold second_call; answer_calls. Qed.

Lemma answers_OnDisconnect id w : (OnDisconnect id w).1 = Ok tt ∧ same_ledger w (OnDisconnect id w).2 ∧
  unsubscribed id (OnDisconnect id w).2 ∧ (subs_ok w → subs_ok (OnDisconnect id w).2) ∧
  ∀ j, unsubscribed j w → unsubscribed j (OnDisconnect id w).2.
Proof using Type.
  unfold OnDisconnect. split_and!; [by rewrite UnsubscribeAll_run|by rewrite UnsubscribeAll_run|
    apply unsubscribed_after|apply subs_ok_Unsubscribe|].
  intros j [H1 H2]. rewrite UnsubscribeAll_run. split; simpl.
  - apply lookup_delete_None. by right.
  - intros sh m Hm. rewrite lookup_omap in Hm. destruct (shSubs w !! sh) as [m0|] eqn:E; [|done].
    simpl in Hm. apply remove_subscriber_lookup in Hm as [-> _]. apply lookup_delete_None. right. by eapply H2.
Qed.
End requests.

(** ** What every step keeps *)

Section invariant.
Context `{Bip32} `{BitcoinClient}.
Hypothesis node_safe : ∀ n raw, safe (BroadcastWTX n raw).

(** A critical section of a live connection subscribes at most its id. *)
Lemma inv_after k id c s w' running :
  sys_inv s → sy_conns s !! k = Some (id, c) → c ≠ Gone →
  own_change id (sy_w s) w' → sys_inv (after s w' running).
Proof using Type.
  intros [H1 H2 H3] Hc Hg [Hl Hs Ho]. split; cbn [sy_w after].
  - by eapply serving_same.
  - by apply Hs.
  - intros j Hj. apply Ho; [|by apply H3]. intros ->. by apply Hg, (Hj k).
Qed.

Lemma inv_send m s : sys_inv s → sys_inv (send m s).
Proof using Type. by intros [H1 H2 H3]. Qed.

Lemma absent_set_conn j k id c c0 s :
  sy_conns s !! k = Some (id, c0) → absent j (set_conn k id c s) → j ≠ id → absent j s.
Proof using Type.
  intros Hk Hj Hne i c' Hi. apply (Hj i). cbn [sy_conns set_conn].
  rewrite list_lookup_insert_ne; [done|]. intros ->. rewrite Hk in Hi. by injection Hi as [= ->].
Qed.

Lemma inv_set_conn k id c c0 s :
  sys_inv s → sy_conns s !! k = Some (id, c0) → (c = Gone → unsubscribed id (sy_w s)) →
  sys_inv (set_conn k id c s).
Proof using Type.
  intros [H1 H2 H3] Hk Hg. split; [exact H1|exact H2|]; cbn [sy_w set_conn].
  intros j Hj. destruct (decide (j = id)) as [->|Hne].
  - apply Hg, (Hj k). apply list_lookup_insert_eq. by eapply lookup_lt_Some.
  - apply H3. by eapply absent_set_conn.
Qed.

Lemma absent_connect j id s : absent j (connect id s) ↔ absent j s ∧ j ≠ id.
Proof using Type.
  unfold absent. cbn [sy_conns connect]. split.
  - intros Hj. split.
    + intros k c Hk. apply (Hj k). by apply lookup_app_l_Some.
    + intros ->. specialize (Hj (length (sy_conns s)) Idle). rewrite lookup_app_r, Nat.sub_diag in Hj by done.
      by specialize (Hj eq_refl).
  - intros [Hj Hne] k c Hk. apply lookup_app_Some in Hk as [Hk|[_ Hk]]; [by eapply Hj|].
    apply list_lookup_singleton_Some in Hk as [_ [= <- <-]]. done.
Qed.

Lemma inv_round s o w' fuel running :
  sys_inv s → syncRound fuel (sy_w s) = (o, w') → sys_inv (after s w' running).
Proof using Type.
  intros [H1 H2 H3] Hr.
  pose proof (round_syncRound serving fuel _ H1) as Hs. pose proof (round_syncRound subs_ok fuel _ H2) as Hk.
  rewrite Hr in Hs, Hk. split; cbn [sy_w after]; [done|done|].
  intros id Hid. pose proof (round_syncRound (quiet id) fuel _ (conj H2 (H3 id Hid))) as [_ Hq].
  by rewrite Hr in Hq.
Qed.

Lemma first_call_change s ctx o w' :
  sys_inv s → first_call ctx (sy_w s) = (o, w') → own_change (ConnId ctx) (sy_w s) w'.
Proof using node_safe.
  intros [H1 _ _] Hf. pose proof (answers_first_call node_safe ctx _ H1) as [Hc _]. by rewrite Hf in Hc.
Qed.

Lemma second_call_change s ctx p o w' :
  sys_inv s → second_call ctx p (sy_w s) = (o, w') → own_change (ConnId ctx) (sy_w s) w'.
Proof using Type.
  intros [H1 _ _] Hf. pose proof (answers_second_call ctx p _ H1) as [Hc _]. by rewrite Hf in Hc.
Qed.

Lemma inv_disconnect k id c s w' :
  sys_inv s → sy_conns s !! k = Some (id, c) → OnDisconnect id (sy_w s) = (Ok tt, w') →
  sys_inv (set_conn k id Gone (after s w' (sy_running s))).
Proof using Type.
  intros [H1 H2 H3] Hc Hf. destruct (answers_OnDisconnect id (sy_w s)) as (_ & Hl & Hu & Hok & Hj).
  rewrite Hf in *. cbn [snd] in *. apply (inv_set_conn _ _ _ c); [|done|done].
  split; cbn [sy_w after]; [by eapply serving_same|by apply Hok|]. intros j Hg. by apply Hj, H3.
Qed.

Lemma inv_step s s' : sys_inv s → sys_step s s' → sys_inv s'.
Proof using node_safe.
  intros Hi Hstep. destruct Hstep as
    [s fuel w' Hr Hs|s fuel e w' Hr Hs|s Hr|s id|s k ctx result w' Hc Hf|s k ctx p w' Hc Hf
    |s k ctx p result w' Hc Hf|s k ctx e w' Hc Hf|s k id w' Hc Hf].
  - by eapply inv_round.
  - by eapply inv_round.
  - by destruct Hi.
  - destruct Hi as [H1 H2 H3]. split; [exact H1|exact H2|]. intros j Hj.
    apply absent_connect in Hj as [Hj _]. by apply H3.
  - apply inv_send, (inv_after k (ConnId ctx) Idle); [done..|by eapply first_call_change].
  - eapply inv_set_conn; [|exact Hc|done].
    apply (inv_after k (ConnId ctx) Idle); [done..|by eapply first_call_change].
  - eapply inv_set_conn; [|exact Hc|done].
    apply inv_send, (inv_after k (ConnId ctx) (Subscribing ctx p)); [done..|by eapply second_call_change].
  - eapply inv_set_conn; [|exact Hc|done].
    apply (inv_after k (ConnId ctx) Idle); [done..|by eapply first_call_change].
  - destruct Hc as [Hc|Hc]; by eapply inv_disconnect.
Qed.

Lemma inv_init s : sys_init s → sys_inv s.
Proof using Type.
  intros [H1 H2 H3 H4]. split; [done| |].
  - split; rewrite ?H2, ?H3; intros *; by rewrite lookup_empty.
  - intros id _. split; [by rewrite H2|]. intros sh m. by rewrite H3, lookup_empty.
Qed.

Lemma reachable_inv s : reachable s → sys_inv s.
Proof using node_safe.
  intros (s0 & Hi & Hr). apply inv_init in Hi. induction Hr as [|s0 s1 s2 H1 _ IH]; [done|].
  apply IH. by eapply inv_step.
Qed.

(** ** Silence *)

Lemma called_same w w' : events w' = events w → called w w' = [].
Proof using Type. intros E. unfold called. by rewrite E, drop_all. Qed.

Lemma called_round id fuel w o w' :
  quiet id w → syncRound fuel w = (o, w') → Forall (λ m, addressee m ≠ id) (called w w').
Proof using Type.
  intros [H1 H2] Hr. pose proof (round_syncRound (silent id (events w)) fuel w) as Hq.
  rewrite Hr in Hq. destruct Hq as [_ _ (l & He & Hl)].
  { split; [done|done|]. exists []. by rewrite app_nil_r. }
  cbn [snd] in He. unfold called. rewrite He, drop_app_length. apply Forall_fmap. exact Hl.
Qed.

(** The ids of the connections, in the order they were accepted. *)
Definition ids (s : system) : list Z := (sy_conns s).*1.

Lemma ids_set_conn k id c c0 s : sy_conns s !! k = Some (id, c0) → ids (set_conn k id c s) = ids s.
Proof using Type.
  intros Hk. unfold ids. cbn [sy_conns set_conn]. rewrite list_fmap_insert. apply list_insert_id.
  by rewrite list_lookup_fmap, Hk.
Qed.

Lemma ids_step s s' : sys_step s s' → ids s' = ids s ∨ ∃ id, s' = connect id s.
Proof using Type.
  destruct 1 as
    [s fuel w' Hr Hs|s fuel e w' Hr Hs|s Hr|s id|s k ctx result w' Hc Hf|s k ctx p w' Hc Hf
    |s k ctx p result w' Hc Hf|s k ctx e w' Hc Hf|s k id w' Hc Hf];
    [by left|by left|by left|by right; exists id|by left|..]; left.
  - exact (ids_set_conn k _ _ _ (after s w' (sy_running s)) Hc).
  - exact (ids_set_conn k _ _ _ (send (Result (ConnId ctx) result) (after s w' (sy_running s))) Hc).
  - exact (ids_set_conn k _ _ _ (after s w' (sy_running s)) Hc).
  - destruct Hc as [Hc|Hc]; exact (ids_set_conn k _ _ _ (after s w' (sy_running s)) Hc).
Qed.

Lemma ids_connect id s : ids (connect id s) = ids s ++ [id].
Proof using Type. unfold ids. cbn [sy_conns connect]. by rewrite fmap_app. Qed.

Lemma ids_steps s s' : rtc sys_step s s' → ids s `prefix_of` ids s'.
Proof using Type.
  induction 1 as [|s1 s2 s3 H1 _ IH]; [done|]. etrans; [|exact IH].
  apply ids_step in H1 as [->|[id ->]]; [done|]. rewrite ids_connect. by apply prefix_app_r.
Qed.

(** The ids that are new after a step and those that follow it. *)
Lemma new_step id s s' l :
  sys_step s s' → ids s' `prefix_of` l → id ∉ drop (length (sy_conns s)) l →
  s' ≠ connect id s ∧ id ∉ drop (length (sy_conns s')) l.
Proof using Type.
  rewrite <- !(length_fmap fst (sy_conns _)). fold (ids s) (ids s').
  intros Hstep [m ->] Hnew. apply ids_step in Hstep as [E|[j ->]].
  - rewrite E in *. split; [|done]. intros ->. rewrite ids_connect in E.
    apply (f_equal length) in E. rewrite length_app in E. simpl in E. lia.
  - rewrite ids_connect in *. rewrite <- (assoc_L (++)), drop_app_length in Hnew. rewrite drop_app_length.
    apply not_elem_of_app in Hnew as [Hj Hm]. split; [|done]. intros E. apply Hj.
    injection E as E. apply app_inv_head in E as [= ->]. by apply list_elem_of_singleton.
Qed.

(** A step writes nothing to an id that is absent, and it stays so unless a new
    connection takes it. *)
Lemma absent_step id s s' :
  sys_inv s → absent id s → sys_step s s' → s' ≠ connect id s →
  absent id s' ∧ ∃ l, sy_log s' = sy_log s ++ l ∧ Forall (λ m, addressee m ≠ id) l.
Proof using node_safe.
  intros Hi Hg Hstep Hnew.
  assert (∀ t k j c c0, sy_conns t = sy_conns s → sy_conns s !! k = Some (j, c0) → c0 ≠ Gone →
    j ≠ id ∧ absent id (set_conn k j c t)) as Hlive.
  { intros t k j c c0 Ht Hk Hc0. assert (j ≠ id) as Hne by (intros ->; by apply Hc0, (Hg k)).
    split; [done|]. intros i c' Hl. cbn [sy_conns set_conn] in Hl.
    apply list_lookup_insert_Some in Hl as [(_ & [= <- <-] & _)|[_ Hl]]; [done|]. rewrite Ht in Hl. by eapply Hg. }
  destruct Hstep as
    [s fuel w' Hr Hs|s fuel e w' Hr Hs|s Hr|s j|s k ctx result w' Hc Hf|s k ctx p w' Hc Hf
    |s k ctx p result w' Hc Hf|s k ctx e w' Hc Hf|s k j w' Hc Hf];
    cbn [sy_log after send set_conn connect].
  - split; [done|]. eexists. split; [done|]. eapply called_round; [|done].
    split; [apply Hi|by apply (inv_unsubscribed _ Hi)].
  - split; [done|]. eexists. split; [done|]. eapply called_round; [|done].
    split; [apply Hi|by apply (inv_unsubscribed _ Hi)].
  - split; [done|]. rewrite called_same by done. by exists [].
  - split; [apply absent_connect; split; [done|by intros ->]|]. exists []. by rewrite app_nil_r.
  - destruct (Hlive s k (ConnId ctx) Idle Idle) as [Hne _]; [done..|]. split; [done|].
    apply first_call_change in Hf as [Hl _ _]; [|done].
    rewrite called_same, app_nil_r by apply Hl. eexists. split; [done|]. by apply Forall_singleton.
  - split; [by eapply Hlive|]. apply first_call_change in Hf as [Hl _ _]; [|done].
    rewrite called_same by apply Hl. by exists [].
  - edestruct (Hlive (send (Result (ConnId ctx) result) (after s w' (sy_running s))) k (ConnId ctx) Idle)
      as [Hne Ha]; [done|exact Hc|done|]. split; [exact Ha|].
    apply second_call_change in Hf as [Hl _ _]; [|done].
    rewrite called_same, app_nil_r by apply Hl. eexists. split; [done|]. by apply Forall_singleton.
  - split; [by eapply Hlive|]. apply first_call_change in Hf as [Hl _ _]; [|done].
    rewrite called_same by apply Hl. by exists [].
  - split; [destruct Hc as [Hc|Hc]; by eapply Hlive|].
    destruct (answers_OnDisconnect j (sy_w s)) as (_ & Hl & _). rewrite Hf in Hl.
    rewrite called_same by apply Hl. by exists [].
Qed.
End invariant.
