(* ===== verification/LifeCycle.v ===== *)
(** * LifeCycle: the first round of [run], [WaitInit] and [Close]

    Models the channels [initCompleted] and [done] of [src/walletmanager/walletmanager.go]:
    [New] starts the goroutine of [run], and every exported method waits for the
    end of its first round.  From then on the manager is the one of [System].  A
    connection that is accepted earlier is counted from its first critical
    section on. *)

From S2P Require Import Prelude Bytes Sha256 BitcoinTypes ScriptPubkey Database Repository.
From S2P Require Import RepositoryFacts Wallet WalletFacts Genesis Sync HeaderSync Manager Queries Rounds.
From S2P Require Import Subscriptions Electrum ElectrumFacts System.

(** ** Nobody is subscribed before there is a server *)

Definition nobody (w : W) : Prop := hSubs w = ∅ ∧ shSubs w = ∅.

#[export] Instance nobody_round : RoundInvariant nobody.
Proof.
  split.
  - intros w w' [_ Hh Hs _] _ [? ?]. split; congruence.
  - intros w w' [_ Hh Hs _] _ [? ?]. split; congruence.
  - intros w w' txid row branch [_ Hh Hs _] _ _ _ [? ?]. split; congruence.
  - by intros h buf w [? ?].
  - by intros sh status w [? ?].
Qed.

(** ** Phases *)

Inductive life :=
  | Starting (w : W)             (* [run] is in its first round *)
  | Failed (w : W) (e : error)   (* [run] has returned the error of its first round *)
  | Serving (s : system).        (* the first round is over *)

Section life.
Context `{Bip32} `{BitcoinClient}.

(** The manager with the server in front of it. *)
Definition serve (w : W) : system :=
  {| sy_w := w; sy_conns := []; sy_running := true; sy_log := [] |}.

Inductive life_step : life → life → Prop :=
  | first_round w fuel w' :
      syncRound fuel w = (Ok tt, w') → life_step (Starting w) (Serving (serve w'))
  | first_round_fails w fuel e w' :
      syncRound fuel w = (Err e, w') → life_step (Starting w) (Failed w' e)
  | serving_step s s' : sys_step s s' → life_step (Serving s) (Serving s').

(** The channels that are closed. *)
Definition initCompleted (l : life) : bool := match l with Serving _ => true | _ => false end.
Definition done (l : life) : bool :=
  match l with Starting _ => false | Failed _ _ => true | Serving s => negb (sy_running s) end.

(** The selects of [WaitInit] and of [Close]: [Close] has cancelled the context,
    and [run] goes on until it looks at it. *)
Definition WaitInit (l : life) (ctx_done : bool) : outcome unit → Prop :=
  select_or_timeout (initCompleted l) ctx_done (ErrMsg "timed out while initializing").

Definition Close (l : life) (ctx_done : bool) : outcome unit → Prop :=
  select_or_timeout (done l) ctx_done (ErrMsg "timed out while closing").

(** ** What the first round decides *)

Lemma WaitInit_ok l ctx_done : WaitInit l ctx_done (Ok tt) ↔ initCompleted l = true.
Proof. apply select_ok. Qed.
Lemma Close_ok l ctx_done : Close l ctx_done (Ok tt) ↔ done l = true.
Proof. apply select_ok. Qed.

Lemma failed_stays w e l : rtc life_step (Failed w e) l → l = Failed w e.
Proof. intros Hs. by inversion_clear Hs as [|? ? ? Hstep]; [|inversion Hstep]. Qed.

Lemma serving_steps s l : rtc life_step (Serving s) l → ∃ s', l = Serving s' ∧ rtc sys_step s s'.
Proof.
  intros Hs. remember (Serving s) as l0 eqn:E. revert s E.
  induction Hs as [l|l0 l1 l2 Hstep _ IH]; intros s ->; [by exists s|].
  inversion Hstep as [| |s0 s1 Hs1]; subst. destruct (IH s1 eq_refl) as (s' & -> & Hr).
  exists s'. split; [done|]. by eapply rtc_l.
Qed.

Lemma WaitInit_serving l : WaitInit l false (Ok tt) ↔ ∃ s, l = Serving s.
Proof.
  rewrite WaitInit_ok. destruct l as [| |s]; split; try done; try (by intros [? ?]). intros _. by exists s.
Qed.

(** What the first round has been, from what the manager is. *)
Lemma life_outcome w l :
  rtc life_step (Starting w) l →
  match l with
  | Starting w0 => w0 = w
  | Failed w' e => ∃ fuel, syncRound fuel w = (Err e, w')
  | Serving s => ∃ fuel w', syncRound fuel w = (Ok tt, w') ∧ rtc sys_step (serve w') s
  end.
Proof.
  intros Hs. inversion_clear Hs as [|? l1 ? Hstep Hs']; [done|].
  inversion Hstep as [w0 fuel w' Hr|w0 fuel e w' Hr|]; subst.
  - apply serving_steps in Hs' as (s & -> & Hs). by exists fuel, w'.
  - apply failed_stays in Hs' as ->. by exists fuel.
Qed.

(** A manager that [New] has returned serves as in [System], once it serves. *)
Lemma started_reachable n db configs w s :
  started n db configs w → proofs_ok db →
  rtc life_step (Starting w) (Serving s) → reachable s.
Proof.
  intros Hst Hp Hs. inversion_clear Hs as [|? l1 ? Hstep Hs'].
  inversion Hstep as [w0 fuel w' Hr|w0 fuel e w' Hr|]; subst; [|by apply failed_stays in Hs'].
  apply serving_steps in Hs' as (s' & [= ->] & Hs). exists (serve w'). split; [|done].
  pose proof (started_repo Hst) as [Hdb _]. destruct Hst as [_ _ _ _ _ [Hnet Hh Hsc _ _]].
  assert (serving w) as Hw.
  { unfold serving. rewrite Hdb. by destruct (setup_all_tables configs db) as [m ->]. }
  pose proof (round_syncRound serving fuel w Hw) as Hw'.
  pose proof (round_syncRound nobody fuel w (conj Hh Hsc)) as [Hh' Hs']. rewrite Hr in Hw', Hh', Hs'.
  by split.
Qed.
End life.
