(* ===== verification/Server.v ===== *)
(** * Server: the goroutines of a connection

    Models [connHandler], [read], [write], [rpcLoop] and [Notify] of
    [src/jsonrpc/server.go], and [trySend] of [src/jsonrpc/types.go], as a step
    relation: four goroutines that share channels of capacity one, a context and
    a socket.  A step is one operation on what is shared.  The client and the
    node are the environment: any request may be decoded at any time, any write
    to the socket may fail, and the server may be closed.  The decoding and the
    encoding of a message are one step each; logging is left out. *)

From S2P Require Import Prelude Bytes Electrum.

(** ** What the goroutines share *)

Record Response := {
  rs_Id : bytes;
  rs_Result : bytes;
}.
Record Notification := {
  nt_Method : bytes;
  nt_Params : bytes;
}.

(** A message on the socket. *)
Inductive frame :=
  | ResponseFrame (r : Response)
  | NotificationFrame (n : Notification).

(** The calls of the [ServerHandler], in their order. *)
Inductive call :=
  | OnConnectCall
  | OnRequestCall (r : Request)
  | OnDisconnectCall.

(** The [ServerHandler] of the server, as far as a connection can tell: the
    results that its [OnRequest] may leave for a request.  It may also return an
    error on any request. *)
Class ServerHandler := { may_answer : Request → bytes → Prop }.

Inductive conn_error := EOF | IOError | HandlerError.

Record shared := {
  reqC : list Request;
  resC : list Response;
  notC : list Notification;
  errC : list conn_error;
  cancelled : bool;          (* [ctx.Err() != nil] *)
  closed : bool;             (* [conn.Close()] was called *)
  registered : bool;         (* in [s.connections] *)
  received : list Request;   (* what [dec.Decode] has returned *)
  written : list frame;      (* what [enc.Encode] has sent *)
  handled : list call;
}.

Definition set_reqC v (s : shared) : shared := {|
  reqC := v; resC := resC s; notC := notC s; errC := errC s; cancelled := cancelled s; closed := closed s;
  registered := registered s; received := received s; written := written s; handled := handled s |}.
Definition set_resC v (s : shared) : shared := {|
  reqC := reqC s; resC := v; notC := notC s; errC := errC s; cancelled := cancelled s; closed := closed s;
  registered := registered s; received := received s; written := written s; handled := handled s |}.
Definition set_notC v (s : shared) : shared := {|
  reqC := reqC s; resC := resC s; notC := v; errC := errC s; cancelled := cancelled s; closed := closed s;
  registered := registered s; received := received s; written := written s; handled := handled s |}.
Definition set_errC v (s : shared) : shared := {|
  reqC := reqC s; resC := resC s; notC := notC s; errC := v; cancelled := cancelled s; closed := closed s;
  registered := registered s; received := received s; written := written s; handled := handled s |}.
Definition cancel (s : shared) : shared := {|
  reqC := reqC s; resC := resC s; notC := notC s; errC := errC s; cancelled := true; closed := closed s;
  registered := registered s; received := received s; written := written s; handled := handled s |}.
Definition connClose (s : shared) : shared := {|
  reqC := reqC s; resC := resC s; notC := notC s; errC := errC s; cancelled := cancelled s; closed := true;
  registered := registered s; received := received s; written := written s; handled := handled s |}.
Definition unregister (s : shared) : shared := {|
  reqC := reqC s; resC := resC s; notC := notC s; errC := errC s; cancelled := cancelled s; closed := closed s;
  registered := false; received := received s; written := written s; handled := handled s |}.
Definition receive r (s : shared) : shared := {|
  reqC := reqC s; resC := resC s; notC := notC s; errC := errC s; cancelled := cancelled s; closed := closed s;
  registered := registered s; received := received s ++ [r]; written := written s; handled := handled s |}.
Definition put_frame f (s : shared) : shared := {|
  reqC := reqC s; resC := resC s; notC := notC s; errC := errC s; cancelled := cancelled s; closed := closed s;
  registered := registered s; received := received s; written := written s ++ [f]; handled := handled s |}.
Definition call_handler c (s : shared) : shared := {|
  reqC := reqC s; resC := resC s; notC := notC s; errC := errC s; cancelled := cancelled s; closed := closed s;
  registered := registered s; received := received s; written := written s; handled := handled s ++ [c] |}.

(** [make(chan T, 1)]. *)
Definition capacity : nat := 1.

(** [trySend]: the channel after it, and whether the value was sent. *)
Definition trySend {A} (c : list A) (v : A) : list A * bool :=
  if bool_decide (length c < capacity)%nat then (c ++ [v], true) else (c, false).

Definition report (e : conn_error) (s : shared) : shared := set_errC (trySend (errC s) e).1 s.

(** [Notify] for this connection; the error is [None] when it was sent. *)
Definition Notify (n : Notification) (s : shared) : shared * option error :=
  if registered s then
    let '(c, ok) := trySend (notC s) n in
    (set_notC c s, if ok then None else Some (ErrMsg "sending notification would block"))
  else (s, Some (ErrMsg "no resource associated with connId")).

(** ** The reader *)

(** The decoder may return a request that it has buffered after the socket is
    closed. *)
Inductive reader_pc :=
  | ReaderTop                 (* the condition of the loop *)
  | Decoding
  | Passing (r : Request)     (* at [reqC <- r] *)
  | ReaderDone.

Inductive read_step : reader_pc * shared → reader_pc * shared → Prop :=
  | read_cancelled s : cancelled s = true → read_step (ReaderTop, s) (ReaderDone, s)
  | read_again s : cancelled s = false → read_step (ReaderTop, s) (Decoding, s)
  | read_request s r : read_step (Decoding, s) (Passing r, receive r s)
  | read_fails s e : read_step (Decoding, s) (ReaderDone, report e s)
  | read_passes s r :
      (length (reqC s) < capacity)%nat →
      read_step (Passing r, s) (ReaderTop, set_reqC (reqC s ++ [r]) s).

(** ** The writer *)

Inductive writer_pc :=
  | WriterTop
  | Selecting
  | Encoding (f : frame)
  | WriterDone.

(** A [select] takes any of the cases that are ready. *)
Inductive write_step : writer_pc * shared → writer_pc * shared → Prop :=
  | write_cancelled s : cancelled s = true → write_step (WriterTop, s) (WriterDone, s)
  | write_again s : cancelled s = false → write_step (WriterTop, s) (Selecting, s)
  | write_response s r rest :
      resC s = r :: rest → write_step (Selecting, s) (Encoding (ResponseFrame r), set_resC rest s)
  | write_notification s n rest :
      notC s = n :: rest → write_step (Selecting, s) (Encoding (NotificationFrame n), set_notC rest s)
  | write_done s : cancelled s = true → write_step (Selecting, s) (WriterDone, s)
  | write_encodes s f : closed s = false → write_step (Encoding f, s) (WriterTop, put_frame f s)
  | write_fails s f e : write_step (Encoding f, s) (WriterDone, report e s).

(** ** The loop of calls *)

Inductive loop_pc :=
  | Connecting
  | LoopTop
  | Waiting
  | Handling (r : Request)
  | Responding (r : Response)   (* at [resC <- c.Response] *)
  | Disconnecting (err : bool)
  | Reporting (err : bool)
  | LoopDone.

(** ** The connection *)

Inductive main_pc :=
  | Watching        (* the select on [errC] and [ctx.Done()] *)
  | Stopping        (* the server closes: at most five seconds for [wg.Wait()] *)
  | Awaiting        (* [<-done] after the five seconds *)
  | Returning       (* the deferred calls, up to [wg.Wait()] *)
  | Returned.

Record conn := {
  co_shared : shared;
  co_reader : reader_pc;
  co_writer : writer_pc;
  co_loop : loop_pc;
  co_main : main_pc;
}.

Definition all_done (c : conn) : Prop :=
  co_reader c = ReaderDone ∧ co_writer c = WriterDone ∧ co_loop c = LoopDone.

Definition set_main pc s (c : conn) : conn := {|
  co_shared := s; co_reader := co_reader c; co_writer := co_writer c; co_loop := co_loop c; co_main := pc |}.

(** The deferred calls: out of the table, cancel, wait, close. *)
Definition deferred (s : shared) : shared := cancel (unregister s).

(** ** The steps *)

Section handler.
Context {handler : ServerHandler}.

Inductive loop_step : loop_pc * shared → loop_pc * shared → Prop :=
  | loop_connects s : loop_step (Connecting, s) (LoopTop, call_handler OnConnectCall s)
  | loop_cancelled s : cancelled s = true → loop_step (LoopTop, s) (Disconnecting false, s)
  | loop_again s : cancelled s = false → loop_step (LoopTop, s) (Waiting, s)
  | loop_breaks s : cancelled s = true → loop_step (Waiting, s) (Disconnecting false, s)
  | loop_takes s r rest :
      reqC s = r :: rest →
      loop_step (Waiting, s) (Handling r, call_handler (OnRequestCall r) (set_reqC rest s))
  | loop_answers s r result :
      may_answer r result →
      loop_step (Handling r, s) (Responding {| rs_Id := rq_Id r; rs_Result := result |}, s)
  | loop_fails s r : loop_step (Handling r, s) (Disconnecting true, s)
  | loop_responds s r :
      (length (resC s) < capacity)%nat →
      loop_step (Responding r, s) (LoopTop, set_resC (resC s ++ [r]) s)
  | loop_disconnects s err :
      loop_step (Disconnecting err, s) (Reporting err, call_handler OnDisconnectCall s)
  | loop_reports s err :
      loop_step (Reporting err, s) (LoopDone, if (err : bool) then report HandlerError s else s).

Inductive own_step : conn → conn → Prop :=
  | by_reader s s' pc pc' w l m :
      read_step (pc, s) (pc', s') →
      own_step {| co_shared := s; co_reader := pc; co_writer := w; co_loop := l; co_main := m |}
                {| co_shared := s'; co_reader := pc'; co_writer := w; co_loop := l; co_main := m |}
  | by_writer s s' pc pc' r l m :
      write_step (pc, s) (pc', s') →
      own_step {| co_shared := s; co_reader := r; co_writer := pc; co_loop := l; co_main := m |}
                {| co_shared := s'; co_reader := r; co_writer := pc'; co_loop := l; co_main := m |}
  | by_loop s s' pc pc' r w m :
      loop_step (pc, s) (pc', s') →
      own_step {| co_shared := s; co_reader := r; co_writer := w; co_loop := pc; co_main := m |}
                {| co_shared := s'; co_reader := r; co_writer := w; co_loop := pc'; co_main := m |}
  | main_error c e rest :
      co_main c = Watching → errC (co_shared c) = e :: rest →
      own_step c (set_main Returning (deferred (connClose (cancel (set_errC rest (co_shared c))))) c)
  | main_cancelled c :
      co_main c = Watching → cancelled (co_shared c) = true → own_step c (set_main Stopping (co_shared c) c)
  | main_stopped c :
      co_main c = Stopping → all_done c → own_step c (set_main Returning (deferred (co_shared c)) c)
  | main_timeout c :
      co_main c = Stopping → own_step c (set_main Awaiting (connClose (co_shared c)) c)
  | main_done c :
      co_main c = Awaiting → all_done c → own_step c (set_main Returning (deferred (co_shared c)) c)
  | main_returns c :
      co_main c = Returning → all_done c → own_step c (set_main Returned (connClose (co_shared c)) c).

Inductive conn_step : conn → conn → Prop :=
  | conn_own c c' : own_step c c' → conn_step c c'
  | env_close c :
      cancelled (co_shared c) = false → conn_step c (set_main (co_main c) (cancel (co_shared c)) c)
  | env_notify c n :
      registered (co_shared c) = true → conn_step c (set_main (co_main c) (Notify n (co_shared c)).1 c).

(** No goroutine of the connection has a step, whatever the client does. *)
Definition stuck (c : conn) : Prop := ∀ c', ¬ own_step c c'.

(** [connHandler] when its goroutines have been started. *)
Definition conn_start : conn := {|
  co_shared := {| reqC := []; resC := []; notC := []; errC := []; cancelled := false; closed := false;
                  registered := true; received := []; written := []; handled := [] |};
  co_reader := ReaderTop; co_writer := WriterTop; co_loop := Connecting; co_main := Watching |}.

Definition conn_reachable (c : conn) : Prop := rtc conn_step conn_start c.

End handler.

(** ** Accepting connections *)

(** [run]: the goroutine of a connection reads the variable [connId] when it
    starts, and the loop increments the variable after it has started the
    goroutine. *)
Inductive accept_pc := Accepting | Incrementing.

Record acceptor := {
  ac_pc : accept_pc;
  ac_connId : Z;             (* uint32 *)
  ac_spawned : nat;          (* goroutines that have not read [connId] yet *)
  ac_started : list Z;       (* the ids that [connHandler] was called with *)
}.

Inductive accept_step : acceptor → acceptor → Prop :=
  | accept_spawns a :
      ac_pc a = Accepting →
      accept_step a {| ac_pc := Incrementing; ac_connId := ac_connId a; ac_spawned := S (ac_spawned a);
                       ac_started := ac_started a |}
  | accept_increments a :
      ac_pc a = Incrementing →
      accept_step a {| ac_pc := Accepting; ac_connId := uint32_wrap (ac_connId a + 1);
                       ac_spawned := ac_spawned a; ac_started := ac_started a |}
  | accept_starts a n :
      ac_spawned a = S n →
      accept_step a {| ac_pc := ac_pc a; ac_connId := ac_connId a; ac_spawned := n;
                       ac_started := ac_started a ++ [ac_connId a] |}.

Definition accept_start : acceptor :=
  {| ac_pc := Accepting; ac_connId := 0; ac_spawned := 0; ac_started := [] |}.

(** ** Starting and closing *)

(** [NewServer]: the results of [net.ResolveTCPAddr] and of [net.ListenTCP] are
    given. *)
Definition NewServer (resolved listening : outcome unit) : outcome acceptor :=
  resolved ;; listening ;; Ok accept_start.

(** [Close] and [Wait], when [s.done] is closed or not. *)
Definition Close (done ctx_done : bool) : outcome unit → Prop :=
  select_or_timeout done ctx_done (ErrMsg "context canceled").
Definition Wait (done ctx_done : bool) : Prop := done = true ∨ ctx_done = true.
