(* ===== verification/ServerFacts.v ===== *)
(** * ServerFacts: the invariant of a connection

    Where the requests and the responses of a connection are, which calls the
    handler has seen, and what the end of a goroutine implies. *)

From S2P Require Import Prelude Bytes Electrum Server.

(** ** Where the messages are *)

Definition call_request (c : call) : option Request :=
  match c with OnRequestCall r => Some r | _ => None end.
Definition frame_response (f : frame) : option Response :=
  match f with ResponseFrame r => Some r | _ => None end.

(** The requests that the handler was called with. *)
Definition requests (s : shared) : list Request := omap call_request (handled s).
(** The responses on the socket. *)
Definition responses (s : shared) : list Response := omap frame_response (written s).

Definition at_reader (pc : reader_pc) : list Request :=
  match pc with Passing r => [r] | _ => [] end.
Definition at_writer (pc : writer_pc) : list Response :=
  match pc with Encoding (ResponseFrame r) => [r] | _ => [] end.
Definition at_loop (pc : loop_pc) : list Response :=
  match pc with Responding r => [r] | _ => [] end.

(** The requests that are not answered: the one at the handler, or none, or that
    on which the loop ended. *)
Definition unanswered (pc : loop_pc) (rest : list Request) : Prop :=
  match pc with
  | Handling r => rest = [r]
  | Disconnecting true | Reporting true | LoopDone => (length rest ≤ 1)%nat
  | _ => rest = []
  end.

Definition lost_ok (pc : writer_pc) (lost : list Response) : Prop :=
  match pc with WriterDone => True | _ => lost = [] end.

(** The calls that the handler has seen when the loop is at a place. *)
Definition calls_ok (pc : loop_pc) (calls : list call) : Prop :=
  match pc with
  | Connecting => calls = []
  | Reporting _ | LoopDone => ∃ rs, calls = OnConnectCall :: (OnRequestCall <$> rs) ++ [OnDisconnectCall]
  | _ => ∃ rs, calls = OnConnectCall :: (OnRequestCall <$> rs)
  end.

(** A goroutine ends only when the connection does. *)
Definition ending (s : shared) : Prop := cancelled s = true ∨ errC s ≠ [].

Ltac open_shared := unfold requests, responses in *; cbn [co_shared co_reader co_writer co_loop co_main reqC resC notC errC cancelled closed
  registered received written handled set_reqC set_resC set_notC set_errC cancel connClose unregister receive
  put_frame call_handler report set_main deferred] in *.

Section handler.
Context {handler : ServerHandler}.

(** A response that the handler gave to the request, under its id. *)
Definition answers_request (r : Request) (res : Response) : Prop :=
  rs_Id res = rq_Id r ∧ may_answer r (rs_Result res).

Record conn_inv (c : conn) : Prop := {
  ci_reqC : (length (reqC (co_shared c)) ≤ capacity)%nat;
  ci_resC : (length (resC (co_shared c)) ≤ capacity)%nat;
  ci_notC : (length (notC (co_shared c)) ≤ capacity)%nat;
  ci_errC : (length (errC (co_shared c)) ≤ capacity)%nat;
  ci_received : received (co_shared c) =
    requests (co_shared c) ++ reqC (co_shared c) ++ at_reader (co_reader c);
  ci_responses : ∃ lost answered rest,
    requests (co_shared c) = answered ++ rest ∧
    Forall2 answers_request answered
      (responses (co_shared c) ++ lost ++ at_writer (co_writer c) ++ resC (co_shared c)
         ++ at_loop (co_loop c)) ∧
    lost_ok (co_writer c) lost ∧ unanswered (co_loop c) rest;
  ci_calls : calls_ok (co_loop c) (handled (co_shared c));
  ci_reader : co_reader c = ReaderDone → ending (co_shared c);
  ci_writer : co_writer c = WriterDone → ending (co_shared c);
  ci_loop : match co_loop c with
            | Disconnecting false | Reporting false => cancelled (co_shared c) = true
            | LoopDone => ending (co_shared c)
            | _ => True
            end;
  ci_main : co_main c ≠ Watching → cancelled (co_shared c) = true;
  ci_registered : registered (co_shared c) = true ↔ co_main c ≠ Returning ∧ co_main c ≠ Returned;
  ci_returned : co_main c = Returned → all_done c;
}.

Lemma inv_start : conn_inv conn_start.
Proof.
  split; simpl; try done; try (unfold capacity; lia). exists [], [], []. by repeat split.
Qed.

(** ** [trySend] *)

Lemma trySend_length {A} (c : list A) v : (length c ≤ capacity)%nat → (length (trySend c v).1 ≤ capacity)%nat.
Proof.
  unfold trySend, capacity. intros Hl. case_bool_decide; [|done]. simpl. rewrite length_app. simpl. lia.
Qed.

Lemma trySend_nonempty {A} (c : list A) v : (trySend c v).1 ≠ [].
Proof.
  unfold trySend, capacity. case_bool_decide as H; simpl; [by destruct c|]. intros ->. apply H. simpl. lia.
Qed.

Lemma ending_report e s : ending (report e s).
Proof. right. apply trySend_nonempty. Qed.

(** ** The steps *)

Lemma Forall2_same {A B} (R : A → B → Prop) l k k' : Forall2 R l k → k' = k → Forall2 R l k'.
Proof. by intros HF ->. Qed.

Lemma inv_reader s s' pc pc' w l m :
  read_step (pc, s) (pc', s') →
  conn_inv {| co_shared := s; co_reader := pc; co_writer := w; co_loop := l; co_main := m |} →
  conn_inv {| co_shared := s'; co_reader := pc'; co_writer := w; co_loop := l; co_main := m |}.
Proof.
  intros Hs [H1 H2 H3 H4 H5 H6 H7 H8 H9 H10 H11 H12 H13]. open_shared.
  inversion Hs; subst; clear Hs; split; open_shared; try done.
  all: try (by intros; left). all: try (by intros Hm; apply H13 in Hm as (? & _)).
  - rewrite app_nil_r in H5. by rewrite H5, <- (assoc_L (++)).
  - by apply trySend_length.
  - intros _. apply ending_report.
  - intros Hw. apply ending_report.
  - destruct l as [| | | | |[]|[]|]; try done. apply ending_report.
  - rewrite length_app. simpl. unfold capacity in *. lia.
  - by rewrite H5, app_nil_r.
Qed.

Lemma inv_writer s s' pc pc' r l m :
  write_step (pc, s) (pc', s') →
  conn_inv {| co_shared := s; co_reader := r; co_writer := pc; co_loop := l; co_main := m |} →
  conn_inv {| co_shared := s'; co_reader := r; co_writer := pc'; co_loop := l; co_main := m |}.
Proof.
  intros Hs [H1 H2 H3 H4 H5 H6 H7 H8 H9 H10 H11 H12 H13]. open_shared.
  destruct H6 as (lost & answered & rest' & E & HF & Hl & Hu).
  inversion Hs as [| |? x rest Hx|? x rest Hx| | |]; subst; clear Hs; split; open_shared; try done.
  all: try (by intros; left). all: try (by intros Hm; apply H13 in Hm as (_ & ? & _)).
  all: try (by exists lost, answered, rest').
  - (* a response is taken *) rewrite Hx in H2. simpl in *. unfold capacity in *. lia.
  - exists lost, answered, rest'. split_and!; try done. rewrite Hx in HF. cbn [at_writer].
    simpl in Hl. by subst lost.
  - rewrite Hx in H3. simpl in *. unfold capacity in *. lia.
  - (* a frame is written *) simpl in Hl. subst lost. exists [], answered, rest'. split_and!; try done.
    eapply Forall2_same; [exact HF|]. rewrite omap_app.
    destruct f as [x|x]; cbn [at_writer omap list_omap frame_response];
      by rewrite ?app_nil_r, ?app_nil_l, <- ?(assoc_L (++)).
  - by apply trySend_length.
  - exists (lost ++ at_writer (Encoding f)), answered, rest'. split_and!; try done.
    eapply Forall2_same; [exact HF|]. by rewrite <- !(assoc_L (++)).
  - intros _. apply ending_report.
  - intros _. apply ending_report.
  - destruct l as [| | | | |[]|[]|]; try done. apply ending_report.
Qed.

Lemma inv_loop s s' pc pc' r w m :
  loop_step (pc, s) (pc', s') →
  conn_inv {| co_shared := s; co_reader := r; co_writer := w; co_loop := pc; co_main := m |} →
  conn_inv {| co_shared := s'; co_reader := r; co_writer := w; co_loop := pc'; co_main := m |}.
Proof.
  intros Hs [H1 H2 H3 H4 H5 H6 H7 H8 H9 H10 H11 H12 H13]. open_shared.
  destruct H6 as (lost & answered & rest' & E & HF & Hl & Hu).
  inversion Hs as [| | | |? r0 rest Hr|? r0 result Ha|? r0|? r0 Hr|? err|? err]; subst; clear Hs;
    try match goal with |- context [if ?e then _ else _] => destruct e end;
    split; open_shared; try done.
  all: try (by intros Hm; apply H13 in Hm as (_ & _ & ?)).
  all: try (by exists lost, answered, rest').
  - (* connects *) by rewrite omap_app, app_nil_r.
  - exists lost, answered, rest'. by rewrite omap_app, app_nil_r.
  - exists []. simpl in H7. by rewrite H7.
  - (* takes *) rewrite Hr in H1. simpl in *. unfold capacity in *. lia.
  - rewrite omap_app, H5, Hr. by rewrite <- !(assoc_L (++)).
  - exists lost, answered, [r0]. split_and!; try done. rewrite omap_app, E. simpl in Hu.
    by rewrite Hu, app_nil_r.
  - destruct H7 as [rs Hrs]. exists (rs ++ [r0]). rewrite Hrs, fmap_app. done.
  - (* answers *) simpl in Hu. subst rest'. exists lost, (answered ++ [r0]), [].
    rewrite app_nil_r. split_and!; try done. cbn [at_loop] in *. rewrite app_nil_r in HF.
    assert (answers_request r0 {| rs_Id := rq_Id r0; rs_Result := result |}) as Hr by done.
    eapply Forall2_same; [apply (Forall2_app HF (List.Forall2_cons _ _ Hr (List.Forall2_nil _)))|].
    by rewrite <- !(assoc_L (++)).
  - (* fails *) exists lost, answered, rest'. split_and!; try done. simpl in *. subst rest'. simpl. lia.
  - (* responds *) rewrite length_app. simpl. unfold capacity in *. lia.
  - exists lost, answered, rest'. split_and!; try done. cbn [at_loop]. by rewrite app_nil_r.
  - (* disconnects *) by rewrite omap_app, app_nil_r.
  - exists lost, answered, rest'. split_and!; try done. by rewrite omap_app, app_nil_r.
  - destruct H7 as [rs Hrs]. exists rs. by rewrite Hrs.
  - (* reports *) by apply trySend_length.
  - intros _. apply ending_report.
  - intros _. apply ending_report.
  - apply ending_report.
  - exists lost, answered, rest'. split_and!; try done. simpl in *. subst rest'. simpl. lia.
  - by left.
Qed.

(** The steps of [connHandler] and of the environment change no message. *)
Lemma inv_same s pc c :
  conn_inv c →
  reqC s = reqC (co_shared c) → resC s = resC (co_shared c) → received s = received (co_shared c) →
  written s = written (co_shared c) → handled s = handled (co_shared c) →
  (length (notC s) ≤ capacity)%nat → (length (errC s) ≤ capacity)%nat →
  (ending (co_shared c) → ending s) → (cancelled (co_shared c) = true → cancelled s = true) →
  (pc ≠ Watching → cancelled s = true) →
  (registered s = true ↔ pc ≠ Returning ∧ pc ≠ Returned) →
  (pc = Returned → all_done c) →
  conn_inv (set_main pc s c).
Proof.
  destruct c as [s0 r w l m]. intros [H1 H2 H3 H4 H5 H6 H7 H8 H9 H10 H11 H12 H13] E1 E2 E3 E4 E5 Hn He Hend Hc Hm Hr Ha.
  open_shared. split; open_shared; rewrite ?E1, ?E2, ?E3, ?E4, ?E5; try done; auto.
  destruct l as [| | | | |[]|[]|]; auto.
Qed.

Lemma ending_cancelled s s' : cancelled s' = true → ending s → ending s'.
Proof. by left. Qed.

Lemma inv_conn_step c c' : conn_step c c' → conn_inv c → conn_inv c'.
Proof.
  intros Hs Hi. destruct Hs as [c c' Hs|c Hc|c n Hr];
    [destruct Hs as [s s' pc pc' w l m Hs|s s' pc pc' r l m Hs|s s' pc pc' r w m Hs
      |c e rest Hm He|c Hm Hc|c Hm Hd|c Hm|c Hm Hd|c Hm Hd]|..].
  - by eapply inv_reader.
  - by eapply inv_writer.
  - by eapply inv_loop.
  - apply inv_same; try done; try apply Hi; try (by left).
    + pose proof (ci_errC _ Hi) as Hl. rewrite He in Hl. simpl in *. unfold capacity in *. lia.
    + split; [done|]. by intros [? _].
  - apply inv_same; try done; try apply Hi.
    + split; [by intros _|]. intros _. apply (ci_registered _ Hi). by rewrite Hm.
  - apply inv_same; try done; try apply Hi; try (by left).
    split; [done|]. by intros [? _].
  - pose proof (ci_main _ Hi) as Hc. rewrite Hm in Hc.
    apply inv_same; try done; try apply Hi; auto.
    split; [by intros _|]. intros _. apply (ci_registered _ Hi). by rewrite Hm.
  - apply inv_same; try done; try apply Hi; try (by left).
    split; [done|]. by intros [? _].
  - pose proof (ci_main _ Hi) as Hc. rewrite Hm in Hc.
    apply inv_same; try done; try apply Hi; auto.
    pose proof (ci_registered _ Hi) as Hr. rewrite Hm in Hr.
    split; [|by intros [_ ?]]. cbn [registered connClose]. intros HF. apply Hr in HF as [HF _]. done.
  - apply inv_same; try done; try apply Hi; try (by left).
  - unfold Notify. rewrite Hr. pose proof (trySend_length (notC (co_shared c)) n (ci_notC _ Hi)) as Hl.
    destruct (trySend _ n) as [q ok]. apply inv_same; try done; try apply Hi.
Qed.

Lemma reachable_conn_inv c : conn_reachable c → conn_inv c.
Proof.
  intros Hr. pose proof inv_start as Hi. revert Hi.
  induction Hr as [|c0 c1 c2 H1 _ IH]; [done|]. intros Hi. apply IH. by eapply inv_conn_step.
Qed.

(** The responses on the socket answer the first requests of the client. *)
Lemma responses_answer c :
  conn_reachable c →
  ∃ answered, answered `prefix_of` received (co_shared c) ∧
    Forall2 answers_request answered (responses (co_shared c)).
Proof.
  intros Hi%reachable_conn_inv. destruct (ci_responses _ Hi) as (lost & answered & rest & E & HF & _).
  apply Forall2_app_inv_r in HF as (l1 & l2 & HF & _ & ->). exists l1. split; [|exact HF].
  rewrite (ci_received _ Hi), E, <- !(assoc_L (++)). by eexists.
Qed.

Lemma omap_calls (rs : list Request) : omap call_request (OnRequestCall <$> rs) = rs.
Proof. induction rs as [|r rs IH]; [done|]. rewrite fmap_cons. cbn. f_equal. exact IH. Qed.

(** The requests in a sequence of calls of the protocol. *)
Lemma requests_calls s (rs : list Request) tl :
  handled s = OnConnectCall :: (OnRequestCall <$> rs) ++ tl → omap call_request tl = [] → requests s = rs.
Proof.
  intros E Htl. unfold requests. rewrite E. change (OnConnectCall :: ?l) with ([OnConnectCall] ++ l).
  by rewrite !omap_app, Htl, omap_calls, app_nil_r.
Qed.

(** ** Where a goroutine blocks *)

Lemma reader_blocked r s :
  (∀ p, ¬ read_step (r, s) p) → (length (reqC s) ≤ capacity)%nat →
  r = ReaderDone ∨ ∃ q, r = Passing q ∧ length (reqC s) = capacity.
Proof.
  intros H Hl. destruct r as [| |q|]; [|..|by left].
  - exfalso. destruct (cancelled s) eqn:E; eapply H; [by constructor|by apply read_again].
  - exfalso. eapply H. by apply (read_fails _ EOF).
  - right. exists q. split; [done|]. destruct (decide (length (reqC s) < capacity)%nat); [|lia].
    exfalso. eapply H. by apply read_passes.
Qed.

Lemma writer_blocked w s :
  (∀ p, ¬ write_step (w, s) p) →
  w = WriterDone ∨ (w = Selecting ∧ resC s = [] ∧ cancelled s = false).
Proof.
  intros H. destruct w as [| |f|]; [|..|by left].
  - exfalso. destruct (cancelled s) eqn:E; eapply H; [by constructor|by apply write_again].
  - right. split; [done|]. split.
    + destruct (resC s) eqn:E; [done|]. exfalso. eapply H. by eapply write_response.
    + destruct (cancelled s) eqn:E; [|done]. exfalso. eapply H. by apply write_done.
  - exfalso. eapply H. by apply (write_fails _ f IOError).
Qed.

Lemma loop_blocked l s :
  (∀ p, ¬ loop_step (l, s) p) → (length (resC s) ≤ capacity)%nat →
  l = LoopDone ∨ (l = Waiting ∧ cancelled s = false ∧ reqC s = []) ∨
  ∃ q, l = Responding q ∧ length (resC s) = capacity.
Proof.
  intros H Hl. destruct l as [| | |q|q|err|err|]; [..|by left].
  - exfalso. eapply H. apply loop_connects.
  - exfalso. destruct (cancelled s) eqn:E; eapply H; [by constructor|by apply loop_again].
  - right. left. split; [done|]. split.
    + destruct (cancelled s) eqn:E; [|done]. exfalso. eapply H. by apply loop_breaks.
    + destruct (reqC s) eqn:E; [done|]. exfalso. eapply H. by eapply loop_takes.
  - exfalso. eapply H. by apply loop_fails.
  - right. right. exists q. split; [done|]. destruct (decide (length (resC s) < capacity)%nat); [|lia].
    exfalso. eapply H. by apply loop_responds.
  - exfalso. eapply H. apply loop_disconnects.
  - exfalso. eapply H. apply loop_reports.
Qed.

(** Some goroutine is always ready to start the end of an idle connection, and
    [connHandler] notices it. *)
Lemma main_blocked c :
  conn_inv c → stuck c →
  co_main c = Returned ∨
  ((co_main c = Awaiting ∨ co_main c = Returning) ∧ cancelled (co_shared c) = true ∧ ¬ all_done c) ∨
  (co_main c = Watching ∧ ¬ ending (co_shared c)).
Proof.
  intros Hi Hs. pose proof (ci_main _ Hi) as Hm. destruct (co_main c) eqn:E.
  - right. right. split; [done|]. intros [Hc|He].
    + eapply Hs. by apply main_cancelled.
    + destruct (errC (co_shared c)) eqn:E'; [done|]. eapply Hs. by eapply main_error.
  - exfalso. eapply Hs. by apply main_timeout.
  - right. left. split; [by left|]. split; [by apply Hm|]. intros Hd. eapply Hs. by apply main_done.
  - right. left. split; [by right|]. split; [by apply Hm|]. intros Hd. eapply Hs. by apply main_returns.
  - by left.
Qed.

End handler.

(** ** Executions *)

(** Two hang.  Three requests at once, and an error of the handler on the first. *)
Definition reader_hangs (r1 r2 r3 : Request) : conn := {|
  co_shared := {| reqC := [r2]; resC := []; notC := []; errC := []; cancelled := true; closed := true;
                  registered := false; received := [r1; r2; r3]; written := [];
                  handled := [OnConnectCall; OnRequestCall r1; OnDisconnectCall] |};
  co_reader := Passing r3; co_writer := WriterDone; co_loop := LoopDone; co_main := Returning |}.

(** The socket is closed while the handler is at the second request; the writer
    leaves the first response in the channel. *)
Definition loop_hangs (r1 r2 : Request) (x1 x2 : bytes) : conn := {|
  co_shared := {| reqC := []; resC := [{| rs_Id := rq_Id r1; rs_Result := x1 |}]; notC := []; errC := [];
                  cancelled := true; closed := true; registered := false; received := [r1; r2];
                  written := []; handled := [OnConnectCall; OnRequestCall r1; OnRequestCall r2] |};
  co_reader := ReaderDone; co_writer := WriterDone;
  co_loop := Responding {| rs_Id := rq_Id r2; rs_Result := x2 |}; co_main := Returning |}.

Section executions.
Context {handler : ServerHandler}.

(** The next step of a goroutine. *)
Tactic Notation "go" uconstr(who) uconstr(what) :=
  eapply rtc_l; [apply conn_own; eapply who; eapply what; first [reflexivity|eassumption|simpl; unfold capacity; lia]|];
  open_shared; cbn [trySend length fst app capacity].

Lemma reader_hangs_reachable r1 r2 r3 : conn_reachable (reader_hangs r1 r2 r3).
Proof.
  unfold conn_reachable, conn_start.
  go by_loop loop_connects. go by_loop loop_again.
  go by_reader read_again. go by_reader (read_request _ r1). go by_reader read_passes.
  go by_loop loop_takes.
  go by_reader read_again. go by_reader (read_request _ r2). go by_reader read_passes.
  go by_reader read_again. go by_reader (read_request _ r3).
  go by_loop loop_fails. go by_loop loop_disconnects. go by_loop loop_reports.
  eapply rtc_l; [apply conn_own; by eapply main_error|]. open_shared.
  go by_writer write_cancelled. apply rtc_refl.
Qed.

Lemma loop_hangs_reachable r1 r2 x1 x2 :
  may_answer r1 x1 → may_answer r2 x2 → conn_reachable (loop_hangs r1 r2 x1 x2).
Proof.
  intros. unfold conn_reachable, conn_start.
  go by_loop loop_connects. go by_loop loop_again. go by_writer write_again.
  go by_reader read_again. go by_reader (read_request _ r1). go by_reader read_passes.
  go by_loop loop_takes. go by_loop (loop_answers _ _ x1). go by_loop loop_responds. go by_loop loop_again.
  go by_reader read_again. go by_reader (read_request _ r2). go by_reader read_passes.
  go by_loop loop_takes.
  go by_reader read_again. go by_reader (read_fails _ EOF).
  eapply rtc_l; [apply conn_own; by eapply main_error|]. open_shared.
  go by_writer write_done. go by_loop (loop_answers _ _ x2). apply rtc_refl.
Qed.

(** One that ends: a request that is answered and one that the handler refuses. *)
Definition served (r1 r2 : Request) (x1 : bytes) : conn := {|
  co_shared := {| reqC := []; resC := []; notC := []; errC := []; cancelled := true; closed := true;
                  registered := false; received := [r1; r2];
                  written := [ResponseFrame {| rs_Id := rq_Id r1; rs_Result := x1 |}];
                  handled := [OnConnectCall; OnRequestCall r1; OnRequestCall r2; OnDisconnectCall] |};
  co_reader := ReaderDone; co_writer := WriterDone; co_loop := LoopDone; co_main := Returned |}.

Lemma served_reachable r1 r2 x1 : may_answer r1 x1 → conn_reachable (served r1 r2 x1).
Proof.
  intros. unfold conn_reachable, conn_start.
  go by_loop loop_connects. go by_loop loop_again. go by_writer write_again.
  go by_reader read_again. go by_reader (read_request _ r1). go by_reader read_passes.
  go by_loop loop_takes. go by_loop (loop_answers _ _ x1). go by_loop loop_responds. go by_loop loop_again.
  go by_writer write_response. go by_writer write_encodes.
  go by_reader read_again. go by_reader (read_request _ r2). go by_reader read_passes.
  go by_loop loop_takes. go by_loop loop_fails. go by_loop loop_disconnects. go by_loop loop_reports.
  eapply rtc_l; [apply conn_own; by eapply main_error|]. open_shared.
  go by_writer write_cancelled. go by_reader read_cancelled.
  eapply rtc_l; [apply conn_own, main_returns; [done|by split_and!]|]. apply rtc_refl.
Qed.

(** No step at all is left, not even of the environment. *)
Definition hangs (c : conn) : Prop := ∀ c', ¬ conn_step c c'.

Lemma hangs_stuck c : hangs c → stuck c.
Proof. intros H c' Hs. eapply H. by apply conn_own. Qed.

Ltac no_step :=
  intros c' Hs; inversion Hs as [? ? Ho|? Hc|? ? Hr]; subst; [|done|done];
  inversion Ho; subst;
  repeat match goal with
  | H : read_step _ _ |- _ => inversion H; subst; clear H
  | H : write_step _ _ |- _ => inversion H; subst; clear H
  | H : loop_step _ _ |- _ => inversion H; subst; clear H
  | H : all_done _ |- _ => destruct H as (? & ? & ?)
  end; simpl in *; unfold capacity in *; first [done|lia].

Lemma reader_hangs_forever r1 r2 r3 : hangs (reader_hangs r1 r2 r3).
Proof. no_step. Qed.

Lemma loop_hangs_forever r1 r2 x1 x2 : hangs (loop_hangs r1 r2 x1 x2).
Proof. no_step. Qed.
End executions.
