(* ===== verification/Startup.v ===== *)
(** * Startup: the program from its configuration to its end

    Models [cfgInit] and [dirname] of [src/config.go] (with the [env], [dotenv]
    and [xdg] packages it calls), [OpenDB] and [MustOpenDB] of [src/db.go],
    [ListenAndServe] of [src/electrum/electrum.go], and [run] of
    [src/cmd/eps-go/main.go], which puts the parts together.  What the outside
    world replies is given: the variables that a configuration file sets (in the
    order in which Go visits the parsed map), whether a file can be written, the
    migrations, the database, the connection to the node and the listener. *)

From S2P Require Import Prelude Bytes Json Sha256 ScriptPubkey Database Repository Wallet Config.
From S2P Require Import Genesis Sync HeaderSync Manager Electrum Server.
From Stdlib Require Import Strings.Byte.

(** ** The environment *)

Definition environ := list (bytes * bytes).

Fixpoint LookupEnv (env : environ) (key : bytes) : option bytes :=
  match env with
  | [] => None
  | (k, v) :: env => if bool_decide (k = key) then Some v else LookupEnv env key
  end.

Definition Getenv (env : environ) (key : bytes) : bytes := default [] (LookupEnv env key).

Definition EnvOrDefault (env : environ) (key def : bytes) : bytes :=
  let v := Getenv env key in if bool_decide (v = []) then def else v.

(** The keys and values that [os.Setenv] takes. *)
Definition settable (key value : bytes) : bool :=
  bool_decide (key ≠ [] ∧ (x3d ∉ key) ∧ (x00 ∉ key) ∧ (x00 ∉ value)).

Fixpoint put_env (key value : bytes) (env : environ) : environ :=
  match env with
  | [] => [(key, value)]
  | (k, v) :: env => if bool_decide (k = key) then (k, value) :: env else (k, v) :: put_env key value env
  end.

Definition Setenv (key value : bytes) (env : environ) : environ :=
  if settable key value then put_env key value env else env.

(** [os.Environ]. *)
Definition Environ (env : environ) : list bytes := (λ kv, kv.1 ++ [x3d] ++ kv.2) <$> env.

(** [dotenv.Load] of one file: what is set stays; [None] is a file that cannot
    be read or parsed. *)
Definition loadFile (vars : option environ) (env : environ) : environ :=
  match vars with
  | None => env
  | Some vars =>
      foldl (λ env' kv, if bool_decide (kv.1 ∈ env.*1) then env' else Setenv kv.1 kv.2 env') env vars
  end.

(** ** cfgInit *)

Definition appName : bytes := str "eps-go".

Record Dirs := {
  XDGDataHome : bytes;
  XDGConfigHome : bytes;
  XDGStateHome : bytes;
  XDGCacheHome : bytes;
}.

(** [os.UserHomeDir] is [$HOME]. *)
Definition GetDirs (env : environ) : outcome Dirs :=
  let homeDir := Getenv env (str "HOME") in
  if bool_decide (homeDir = []) then Err (ErrMsg "$HOME is not defined")
  else
    let dir key sub := EnvOrDefault env (str key) (homeDir ++ str sub) ++ str "/" ++ appName in
    Ok {| XDGDataHome := dir "XDG_DATA_HOME" "/.local/share";
          XDGConfigHome := dir "XDG_CONFIG_HOME" "/.config";
          XDGStateHome := dir "XDG_STATE_HOME" "/.local/state";
          XDGCacheHome := dir "XDG_CACHE_HOME" "/.cache" |}%string.

(** [getEnv]. *)
Definition getEnv (env : environ) (key : bytes) : outcome bytes :=
  match LookupEnv env key with
  | Some v => Ok v
  | None => Err (ErrMsg "undefined env")
  end.

(** [strings.LastIndex(arg, "/")]: its place counted from the end. *)
Fixpoint upto_slash (rev : bytes) : option bytes :=
  match rev with
  | [] => None
  | c :: rev => if bool_decide (c = x2f) then Some rev else upto_slash rev
  end.

Definition dirname (arg : bytes) : bytes :=
  match upto_slash (reverse arg) with
  | None => str "."
  | Some [] => str "/"
  | Some rest => reverse rest
  end.

Definition NetworkFromString (ns : bytes) : Network :=
  if bool_decide (ToLower ns = str "mainnet") then Mainnet
  else if bool_decide (ToLower ns = str "testnet") then Testnet
  else Regtest.

Record Config := {
  SqliteDBPath : bytes;
  LogLevel : bytes;
  MigrateFresh : bytes;
  BTCNodeAddr : bytes;
  XDGDirs : Dirs;
  ListenAddress : bytes;
  ConfigFile : bytes;
  cfg_Network : Network;
}.

Section config.
(** The variables of a file, and whether it can be written. *)
Context (read_vars : bytes → option environ) (WriteFile : bytes → outcome unit).

(** The environment is changed for the calls that follow, too. *)
Definition cfgInit (arg0 : bytes) (env : environ) : outcome (Config * environ) :=
  dirs ← GetDirs env;
  let ConfigFile := EnvOrDefault env (str "CONFIG_FILE") (XDGConfigHome dirs ++ str "/eps-go.conf") in
  let env := loadFile (read_vars (dirname arg0 ++ str "/eps-go.conf")) env in
  let env := loadFile (read_vars ConfigFile) env in
  match WriteFile (ConfigFile ++ str ".example") with
  | Err _ => Panic "os.WriteFile"
  | o =>
      o ;;
      Ok ({| SqliteDBPath := EnvOrDefault env (str "SQLITE_DB_PATH") (XDGDataHome dirs ++ str "/db.sqlite3");
             LogLevel := EnvOrDefault env (str "LOG_LEVEL") (str "INFO");
             MigrateFresh := Getenv env (str "MIGRATE_FRESH");
             BTCNodeAddr := EnvOrDefault env (str "BTC_NODE_ADDR") (str "127.0.0.1:8333");
             XDGDirs := dirs;
             ListenAddress := EnvOrDefault env (str "LISTEN_ADDRESS") (str "127.0.0.1:50002");
             ConfigFile := ConfigFile;
             cfg_Network := NetworkFromString (EnvOrDefault env (str "BTC_NETWORK") (str "mainnet")) |}, env)
  end.
End config.

(** ** OpenDB *)

Definition FlagMigrateFresh : Z := Z.shiftl 1 0.
Definition FlagMigrateAllowUpgrade : Z := Z.shiftl 1 1.

Section database.
Context (LoadFromEmbedFS : outcome unit) (Migrate : bytes → Z → outcome Z) (sqliteNew : bytes → outcome Database).

Definition OpenDB (dbFilePath : bytes) (migratorFlag : Z) : outcome Database :=
  LoadFromEmbedFS ;;
  Migrate dbFilePath migratorFlag ;;
  sqliteNew dbFilePath.

(** The path is not that of the settings. *)
Definition MustOpenDB (cfg : Config) : outcome Database :=
  let dbFilePath := XDGDataHome (XDGDirs cfg) ++ str "/db.sqlite3" in
  let flag :=
    if bool_decide (MigrateFresh cfg = str "1") then Z.lor FlagMigrateAllowUpgrade FlagMigrateFresh
    else FlagMigrateAllowUpgrade in
  match OpenDB dbFilePath flag with
  | Err _ => Panic "must"
  | o => o
  end.
End database.

(** ** ListenAndServe *)

(** The server may have ended by itself, or end between [Wait] and [Close]. *)
Inductive ListenAndServe (resolved listening : outcome unit) (done_waiting done_closing ctx_done : bool)
    : outcome unit → Prop :=
  | listen_fails e :
      NewServer resolved listening = Err e →
      ListenAndServe resolved listening done_waiting done_closing ctx_done (Err e)
  | listen_serves a o :
      NewServer resolved listening = Ok a → Wait done_waiting ctx_done →
      (done_waiting = true → done_closing = true) → Close done_closing ctx_done o →
      ListenAndServe resolved listening done_waiting done_closing ctx_done o.

(** ** run *)

Section run.
Context `{Bip32}.
Context (read_vars : bytes → option environ) (WriteFile : bytes → outcome unit).
Context (LoadFromEmbedFS : outcome unit) (Migrate : bytes → Z → outcome Z) (sqliteNew : bytes → outcome Database).
Context (Start : bytes → Network → outcome unit).

(** The settings, and the manager that the server is given: [None] is [nil]. *)
Definition start_up (arg0 : bytes) (env : environ) : outcome (Config * option W) :=
  '(cfg, env) ← cfgInit read_vars WriteFile arg0 env;
  wallets ← getWallets (Environ env);
  if bool_decide (length wallets = 0%nat) then Err (ErrMsg "no wallets to track")
  else
    db ← OpenDB LoadFromEmbedFS Migrate sqliteNew (SqliteDBPath cfg) FlagMigrateAllowUpgrade;
    Start (BTCNodeAddr cfg) (cfg_Network cfg) ;;
    match New db wallets (cfg_Network cfg) with
    | (Ok _, w) => Ok (cfg, Some w)
    | (Err _, _) => Ok (cfg, None)        (* the error is overwritten *)
    | (Panic why, _) => Panic why
    | (OutOfFuel, _) => OutOfFuel
    end.

(** The deferred [w.Close] of a nil manager panics. *)
Inductive run (arg0 : bytes) (env : environ) (resolved listening : outcome unit)
    (done_waiting done_closing ctx_done : bool) : outcome unit → Prop :=
  | run_fails e :
      start_up arg0 env = Err e →
      run arg0 env resolved listening done_waiting done_closing ctx_done (Err e)
  | run_panics why :
      start_up arg0 env = Panic why →
      run arg0 env resolved listening done_waiting done_closing ctx_done (Panic why)
  | run_serves cfg w o :
      start_up arg0 env = Ok (cfg, Some w) →
      ListenAndServe resolved listening done_waiting done_closing ctx_done o →
      run arg0 env resolved listening done_waiting done_closing ctx_done o
  | run_nil cfg o :
      start_up arg0 env = Ok (cfg, None) →
      ListenAndServe resolved listening done_waiting done_closing ctx_done o →
      run arg0 env resolved listening done_waiting done_closing ctx_done
        (Panic "invalid memory address or nil pointer dereference").
End run.
