(* ===== verification/Client.v ===== *)
(** * Client: the JSON-RPC client

    Models [NewClient], [Close], [Send], [run], [write], [read] and [notify] of
    [src/jsonrpc/client.go] in the style of [Server]: goroutines that share
    channels of capacity one, a context, a socket and the channel [done], and any
    number of callers of [Send].  A step is one operation on what is shared; the
    server at the other end is the environment. *)

From S2P Require Import Prelude Bytes Electrum Server.

Module Client.

(** ** NewClient *)

(** [clientFlags]. *)
Definition TLS : Z := Z.shiftl 1 0.
Definition TLSNoVerify : Z := Z.shiftl 1 1.

Inductive transport := Plain | Verified | Unverified.

(** How the connection is wrapped. *)
Definition wrap (Flags : Z) : transport :=
  if bool_decide (Z.land Flags (Z.lor TLS TLSNoVerify) = Z.lor TLS TLSNoVerify) then Unverified
  else if bool_decide (Z.land Flags TLS ≠ 0) then Verified
  else Plain.

(** ** What the goroutines share *)

Record shared := {
  reqC : list Request;
  resC : list Response;
  notC : list Notification;
  errC : list conn_error;
  cancelled : bool;              (* [ctx.Err() != nil] *)
  closed : bool;                 (* [conn.Close()] was called *)
  done : bool;                   (* [c.done] is closed *)
  sent : list Request;           (* what [enc.Encode] has sent *)
  decoded : list frame;          (* what [dec.Decode] has returned *)
  notified : list Notification;  (* the calls of [opts.NHandler] *)
}.

Definition set_reqC v (s : shared) : shared := {|
  reqC := v; resC := resC s; notC := notC s; errC := errC s; cancelled := cancelled s; closed := closed s;
  done := done s; sent := sent s; decoded := decoded s; notified := notified s |}.
Definition set_resC v (s : shared) : shared := {|
  reqC := reqC s; resC := v; notC := notC s; errC := errC s; cancelled := cancelled s; closed := closed s;
  done := done s; sent := sent s; decoded := decoded s; notified := notified s |}.
Definition set_notC v (s : shared) : shared := {|
  reqC := reqC s; resC := resC s; notC := v; errC := errC s; cancelled := cancelled s; closed := closed s;
  done := done s; sent := sent s; decoded := decoded s; notified := notified s |}.
Definition set_errC v (s : shared) : shared := {|
  reqC := reqC s; resC := resC s; notC := notC s; errC := v; cancelled := cancelled s; closed := closed s;
  done := done s; sent := sent s; decoded := decoded s; notified := notified s |}.
Definition cancel (s : shared) : shared := {|
  reqC := reqC s; resC := resC s; notC := notC s; errC := errC s; cancelled := true; closed := closed s;
  done := done s; sent := sent s; decoded := decoded s; notified := notified s |}.
Definition connClose (s : shared) : shared := {|
  reqC := reqC s; resC := resC s; notC := notC s; errC := errC s; cancelled := cancelled s; closed := true;
  done := done s; sent := sent s; decoded := decoded s; notified := notified s |}.
Definition close_done (s : shared) : shared := {|
  reqC := reqC s; resC := resC s; notC := notC s; errC := errC s; cancelled := cancelled s; closed := closed s;
  done := true; sent := sent s; decoded := decoded s; notified := notified s |}.
Definition encode r (s : shared) : shared := {|
  reqC := reqC s; resC := resC s; notC := notC s; errC := errC s; cancelled := cancelled s; closed := closed s;
  done := done s; sent := sent s ++ [r]; decoded := decoded s; notified := notified s |}.
Definition decode f (s : shared) : shared := {|
  reqC := reqC s; resC := resC s; notC := notC s; errC := errC s; cancelled := cancelled s; closed := closed s;
  done := done s; sent := sent s; decoded := decoded s ++ [f]; notified := notified s |}.
Definition nhandler n (s : shared) : shared := {|
  reqC := reqC s; resC := resC s; notC := notC s; errC := errC s; cancelled := cancelled s; closed := closed s;
  done := done s; sent := sent s; decoded := decoded s; notified := notified s ++ [n] |}.

Definition report (e : conn_error) (s : shared) : shared := set_errC (trySend (errC s) e).1 s.

(** ** The goroutines *)

Inductive writer_pc :=
  | WriterTop                  (* the condition of the loop *)
  | Selecting
  | Encoding (r : Request)
  | WriterDone.

Inductive write_step : writer_pc * shared → writer_pc * shared → Prop :=
  | write_cancelled s : cancelled s = true → write_step (WriterTop, s) (WriterDone, s)
  | write_again s : cancelled s = false → write_step (WriterTop, s) (Selecting, s)
  | write_takes s r rest :
      reqC s = r :: rest → write_step (Selecting, s) (Encoding r, set_reqC rest s)
  | write_done s : cancelled s = true → write_step (Selecting, s) (WriterDone, s)
  | write_encodes s r : closed s = false → write_step (Encoding r, s) (WriterTop, encode r s)
  | write_fails s r e : write_step (Encoding r, s) (WriterDone, report e s).

(** A message with an [id] is a response, any other a notification. *)
Inductive reader_pc :=
  | ReaderTop
  | Decoding
  | Passing (f : frame)        (* at [resC <- res] or [notC <- not] *)
  | ReaderDone.

Inductive read_step : reader_pc * shared → reader_pc * shared → Prop :=
  | read_cancelled s : cancelled s = true → read_step (ReaderTop, s) (ReaderDone, s)
  | read_again s : cancelled s = false → read_step (ReaderTop, s) (Decoding, s)
  | read_frame s f : read_step (Decoding, s) (Passing f, decode f s)
  | read_fails s e : read_step (Decoding, s) (ReaderDone, report e s)
  | read_response s r :
      (length (resC s) < capacity)%nat →
      read_step (Passing (ResponseFrame r), s) (ReaderTop, set_resC (resC s ++ [r]) s)
  | read_notification s n :
      (length (notC s) < capacity)%nat →
      read_step (Passing (NotificationFrame n), s) (ReaderTop, set_notC (notC s ++ [n]) s).

Inductive notifier_pc := Listening | NotifierDone.

Inductive notify_step : notifier_pc * shared → notifier_pc * shared → Prop :=
  | notify_done s : cancelled s = true → notify_step (Listening, s) (NotifierDone, s)
  | notify_calls s n rest :
      notC s = n :: rest → notify_step (Listening, s) (Listening, nhandler n (set_notC rest s)).

Inductive main_pc :=
  | Watching                   (* the select on [errC] and [ctx.Done()] *)
  | Joining                    (* the deferred [wg.Wait()] *)
  | Returned.                  (* and [close(c.done)] *)

(** [Send], from the caller's side. *)
Inductive call_state :=
  | Sending
  | Receiving
  | Got (r : Response)
  | Stopped.                   (* the error of a stopped client *)

Record client := {
  cl_shared : shared;
  cl_writer : writer_pc;
  cl_reader : reader_pc;
  cl_notifier : notifier_pc;
  cl_main : main_pc;
  cl_calls : list (Request * call_state);  (* in the order of the calls *)
}.

Definition set_main m s (c : client) : client := {|
  cl_shared := s; cl_writer := cl_writer c; cl_reader := cl_reader c; cl_notifier := cl_notifier c;
  cl_main := m; cl_calls := cl_calls c |}.
Definition set_calls l s (c : client) : client := {|
  cl_shared := s; cl_writer := cl_writer c; cl_reader := cl_reader c; cl_notifier := cl_notifier c;
  cl_main := cl_main c; cl_calls := l |}.

Definition joined (c : client) : Prop :=
  cl_writer c = WriterDone ∧ cl_reader c = ReaderDone ∧ cl_notifier c = NotifierDone.

(** After the select: cancel, and close the connection. *)
Inductive run_step : client → client → Prop :=
  | run_error c e rest :
      cl_main c = Watching → errC (cl_shared c) = e :: rest →
      run_step c (set_main Joining (connClose (cancel (set_errC rest (cl_shared c)))) c)
  | run_cancelled c :
      cl_main c = Watching → cancelled (cl_shared c) = true →
      run_step c (set_main Joining (connClose (cancel (cl_shared c))) c)
  | run_joins c :
      cl_main c = Joining → joined c → run_step c (set_main Returned (close_done (cl_shared c)) c).

Inductive send_step (c : client) : client → Prop :=
  | send_starts r : send_step c (set_calls (cl_calls c ++ [(r, Sending)]) (cl_shared c) c)
  | send_passes i r :
      cl_calls c !! i = Some (r, Sending) → (length (reqC (cl_shared c)) < capacity)%nat →
      send_step c (set_calls (<[i := (r, Receiving)]> (cl_calls c))
        (set_reqC (reqC (cl_shared c) ++ [r]) (cl_shared c)) c)
  | send_receives i r res rest :
      cl_calls c !! i = Some (r, Receiving) → resC (cl_shared c) = res :: rest →
      send_step c (set_calls (<[i := (r, Got res)]> (cl_calls c)) (set_resC rest (cl_shared c)) c)
  | send_stopped i r st :
      cl_calls c !! i = Some (r, st) → st = Sending ∨ st = Receiving → done (cl_shared c) = true →
      send_step c (set_calls (<[i := (r, Stopped)]> (cl_calls c)) (cl_shared c) c).

Inductive client_step : client → client → Prop :=
  | by_writer s s' pc pc' r n m l :
      write_step (pc, s) (pc', s') →
      client_step
        {| cl_shared := s; cl_writer := pc; cl_reader := r; cl_notifier := n; cl_main := m; cl_calls := l |}
        {| cl_shared := s'; cl_writer := pc'; cl_reader := r; cl_notifier := n; cl_main := m; cl_calls := l |}
  | by_reader s s' pc pc' w n m l :
      read_step (pc, s) (pc', s') →
      client_step
        {| cl_shared := s; cl_writer := w; cl_reader := pc; cl_notifier := n; cl_main := m; cl_calls := l |}
        {| cl_shared := s'; cl_writer := w; cl_reader := pc'; cl_notifier := n; cl_main := m; cl_calls := l |}
  | by_notifier s s' pc pc' w r m l :
      notify_step (pc, s) (pc', s') →
      client_step
        {| cl_shared := s; cl_writer := w; cl_reader := r; cl_notifier := pc; cl_main := m; cl_calls := l |}
        {| cl_shared := s'; cl_writer := w; cl_reader := r; cl_notifier := pc'; cl_main := m; cl_calls := l |}
  | by_run c c' : run_step c c' → client_step c c'
  | by_send c c' : send_step c c' → client_step c c'
  | by_Close c : client_step c (set_main (cl_main c) (cancel (cl_shared c)) c).

(** [NewClient] when its goroutines have been started. *)
Definition client_start : client := {|
  cl_shared := {| reqC := []; resC := []; notC := []; errC := []; cancelled := false; closed := false;
                  done := false; sent := []; decoded := []; notified := [] |};
  cl_writer := WriterTop; cl_reader := ReaderTop; cl_notifier := Listening; cl_main := Watching;
  cl_calls := [] |}.

Definition client_reachable (c : client) : Prop := rtc client_step client_start c.

(** [NewClient]: the result of [net.Dial] is given. *)
Definition NewClient (dialed : outcome unit) (Flags : Z) : outcome (transport * client) :=
  dialed ;; Ok (wrap Flags, client_start).

(** [Close], after it has cancelled the context. *)
Definition Close (c : client) (ctx_done : bool) : outcome unit → Prop :=
  select_or_timeout (done (cl_shared c)) ctx_done (ErrMsg "jsonrpc client stop timeout reached").

End Client.
