(* ===== verification/ClientTheorems.v ===== *)
(** * ClientTheorems: what a caller of [Send] is given *)

From S2P Require Import Prelude Bytes Electrum Server ServerFacts Client.
Import Client.

(** ** Calls one at a time, and a server that answers in order *)

Definition unfinished (st : call_state) : Prop := st = Sending ∨ st = Receiving.

(** No call is made before the one before it has returned. *)
Definition one_at_a_time (c : client) : Prop :=
  ∀ i x, cl_calls c !! i = Some x → unfinished x.2 → S i = length (cl_calls c).

Definition responses_of (s : shared) : list Response := omap frame_response (decoded s).

(** The server answers the requests in their order, under their ids. *)
Definition answered_in_order (c : client) : Prop :=
  (rs_Id <$> responses_of (cl_shared c)) `prefix_of` (rq_Id <$> sent (cl_shared c)).

Definition orderly_step (c c' : client) : Prop :=
  client_step c c' ∧ one_at_a_time c' ∧ answered_in_order c'.

(** ** Where the messages are *)

Definition passed_request (x : Request * call_state) : option Request :=
  match x.2 with Sending => None | _ => Some x.1 end.
Definition got_response (x : Request * call_state) : option Response :=
  match x.2 with Got r => Some r | _ => None end.

Definition at_writer (pc : writer_pc) : list Request :=
  match pc with Encoding r => [r] | _ => [] end.
Definition at_reader (pc : reader_pc) : list Response :=
  match pc with Passing (ResponseFrame r) => [r] | _ => [] end.
Definition lost_ok (pc : writer_pc) (lost : list Request) : Prop :=
  match pc with WriterDone => True | _ => lost = [] end.

(** No call of [Send] was told that the client has stopped. *)
Definition none_stopped (c : client) : Prop := ∀ i x, cl_calls c !! i = Some x → x.2 ≠ Stopped.

Lemma none_stopped_send c c' :
  done (cl_shared c) = false → send_step c c' → none_stopped c → none_stopped c'.
Proof.
  intros Hd Hs Hn i x Hx. destruct Hs as [r|j r Hj _|j r res rest Hj _|j r st _ _ Hdone]; [| | |congruence];
    cbn [cl_calls set_calls] in Hx.
  - apply lookup_app_Some in Hx as [Hx|[_ Hx]]; [by eapply Hn|].
    by apply list_lookup_singleton_Some in Hx as [_ <-].
  - apply list_lookup_insert_Some in Hx as [(_ & <- & _)|[_ Hx]]; [done|by eapply Hn].
  - apply list_lookup_insert_Some in Hx as [(_ & <- & _)|[_ Hx]]; [done|by eapply Hn].
Qed.

Record client_inv (c : client) : Prop := {
  iv_requests : ∃ lost, omap passed_request (cl_calls c) =
    sent (cl_shared c) ++ lost ++ at_writer (cl_writer c) ++ reqC (cl_shared c) ∧
    lost_ok (cl_writer c) lost;
  iv_responses : responses_of (cl_shared c) =
    omap got_response (cl_calls c) ++ resC (cl_shared c) ++ at_reader (cl_reader c);
  iv_running : none_stopped c;
}.

Ltac open_client := unfold responses_of in *;
  cbn [cl_shared cl_writer cl_reader cl_notifier cl_main cl_calls reqC resC notC errC cancelled closed done
    sent decoded notified set_reqC set_resC set_notC set_errC cancel connClose close_done encode decode nhandler
    report set_main set_calls] in *.

Lemma inv_by_writer s s' pc pc' r n m l :
  write_step (pc, s) (pc', s') →
  client_inv {| cl_shared := s; cl_writer := pc; cl_reader := r; cl_notifier := n; cl_main := m; cl_calls := l |} →
  client_inv {| cl_shared := s'; cl_writer := pc'; cl_reader := r; cl_notifier := n; cl_main := m; cl_calls := l |}.
Proof.
  intros Hs [(lost & Hq & Hl) Hr Hn].
  inversion Hs as [| |? x rest Hx| |? x|? x e]; subst; clear Hs; split; open_client; try done;
    try (by exists lost); cbn [lost_ok at_writer app] in *; try subst lost.
  - exists []. by rewrite Hq, Hx.
  - exists []. by rewrite Hq, <- (assoc_L (++)).
  - exists [x]. by rewrite Hq.
Qed.

Lemma inv_by_reader s s' pc pc' w n m l :
  read_step (pc, s) (pc', s') →
  client_inv {| cl_shared := s; cl_writer := w; cl_reader := pc; cl_notifier := n; cl_main := m; cl_calls := l |} →
  client_inv {| cl_shared := s'; cl_writer := w; cl_reader := pc'; cl_notifier := n; cl_main := m; cl_calls := l |}.
Proof.
  intros Hs [Hq Hr Hn].
  inversion Hs as [| |? f| |? x Hx|? x Hx]; subst; clear Hs; split; open_client; try done;
    cbn [at_reader] in *.
  - rewrite omap_app, Hr, app_nil_r, <- (assoc_L (++)). by destruct f.
  - by rewrite Hr, app_nil_r.
Qed.

(** The call that is under way is the last one. *)
Lemma last_call (l : list (Request * call_state)) i x :
  l !! i = Some x → S i = length l → ∃ l1, l = l1 ++ [x] ∧ ∀ y, <[i := y]> l = l1 ++ [y].
Proof.
  intros Hx Hi. exists (take i l). pose proof (take_drop_middle _ _ _ Hx) as Hl.
  rewrite (drop_ge l (S i)) in Hl by lia. split; [done|]. intros y.
  rewrite <- Hl at 1. rewrite insert_app_r_alt by (rewrite length_take; lia).
  rewrite length_take, Nat.min_l, Nat.sub_diag by lia. done.
Qed.

Lemma inv_by_send c c' :
  done (cl_shared c) = false → one_at_a_time c → send_step c c' → client_inv c → client_inv c'.
Proof.
  intros Hd Ho Hs [(lost & Hq & Hl) Hr Hn].
  split; [| |by eapply none_stopped_send];
    destruct Hs as [r|i r Hi Hlen|i r res rest Hi Hrc|i r st Hi Hst Hdone]; try congruence; open_client.
  - exists lost. by rewrite omap_app, app_nil_r.
  - destruct (last_call _ _ _ Hi) as (l1 & Hl1 & Hins); [by eapply Ho; [|left]|].
    exists lost. rewrite Hins, omap_app. rewrite Hl1, omap_app in Hq. cbn in *. rewrite app_nil_r in Hq.
    rewrite Hq. by rewrite !(assoc_L (++)).
  - destruct (last_call _ _ _ Hi) as (l1 & Hl1 & Hins); [by eapply Ho; [|right]|].
    exists lost. rewrite Hins, omap_app. by rewrite Hl1, omap_app in Hq.
  - by rewrite omap_app, app_nil_r.
  - destruct (last_call _ _ _ Hi) as (l1 & Hl1 & Hins); [by eapply Ho; [|left]|].
    rewrite Hins, omap_app. rewrite Hl1, omap_app in Hr. done.
  - destruct (last_call _ _ _ Hi) as (l1 & Hl1 & Hins); [by eapply Ho; [|right]|].
    rewrite Hins, omap_app. rewrite Hl1, omap_app, Hrc in Hr. cbn in *. rewrite app_nil_r in Hr.
    by rewrite Hr, <- !(assoc_L (++)).
Qed.

Lemma done_stays c c' : client_step c c' → done (cl_shared c') = false → done (cl_shared c) = false.
Proof.
  intros Hs. destruct Hs as [s s' pc pc' r n m l Hs|s s' pc pc' w n m l Hs|s s' pc pc' w r m l Hs|c c' Hs|c c' Hs|c];
    try (by inversion Hs); done.
Qed.

Lemma orderly_inv c :
  rtc orderly_step client_start c → done (cl_shared c) = false →
  client_inv c ∧ one_at_a_time c ∧ answered_in_order c.
Proof.
  revert c. apply (rtc_ind_r (λ c, done (cl_shared c) = false →
    client_inv c ∧ one_at_a_time c ∧ answered_in_order c) client_start).
  { intros _. split; [split; [by exists []|done|by intros i x Hx%list_elem_of_lookup_2%elem_of_nil]|].
    split; [by intros i x Hx%list_elem_of_lookup_2%elem_of_nil|by exists []]. }
  intros c c' _ (Hs & Ho' & Ha') IH Hd.
  destruct (IH (done_stays _ _ Hs Hd)) as (Hi & Ho & _). split; [|done].
  pose proof (done_stays _ _ Hs Hd) as Hd0.
  destruct Hs as [s s' pc pc' r n m l Hs|s s' pc pc' w n m l Hs|s s' pc pc' w r m l Hs|c c' Hs|c c' Hs|c].
  - by eapply inv_by_writer.
  - by eapply inv_by_reader.
  - destruct Hi as [Hq Hr Hn]. inversion Hs; subst; by split.
  - destruct Hi as [Hq Hr Hn]. inversion Hs; subst; by split.
  - by eapply inv_by_send.
  - destruct Hi as [Hq Hr Hn]. by split.
Qed.

(** ** Answers *)

(** C19: as long as the client runs, calls of [Send] that are made one after
    another, to a server that answers the requests in their order, each return
    the response to their own request, whatever notifications come in between
    and however the goroutines are scheduled. *)
Theorem Send_answers c i req res :
  rtc orderly_step client_start c → done (cl_shared c) = false →
  cl_calls c !! i = Some (req, Got res) → rs_Id res = rq_Id req.
Proof.
  intros Hc Hd Hi. destruct (orderly_inv c Hc Hd) as ([(lost & Hq & _) Hr Hn] & Ho & [ids Hids]).
  assert (∀ (j : nat) x, (j < i)%nat → cl_calls c !! j = Some x → ∃ r, x.2 = Got r) as Hgot.
  { intros j x Hj Hx. apply lookup_lt_Some in Hi.
    destruct x as [q [| |r|]]; [| |by exists r|by destruct (Hn _ _ Hx)];
      (assert (S j = length (cl_calls c)) by (eapply Ho; [done|]; by (left + right))); lia. }
  assert (omap got_response (cl_calls c) !! i = Some res) as H1.
  { eapply omap_lookup_all; [|done|done]. intros j x Hj Hx. destruct (Hgot j x Hj Hx) as [r Hx2].
    unfold got_response. by rewrite Hx2. }
  assert (omap passed_request (cl_calls c) !! i = Some req) as H2.
  { eapply omap_lookup_all; [|done|done]. intros j x Hj Hx. destruct (Hgot j x Hj Hx) as [r Hx2].
    unfold passed_request. by rewrite Hx2. }
  assert (responses_of (cl_shared c) !! i = Some res) as H3 by (rewrite Hr; by apply lookup_app_l_Some).
  assert ((rq_Id <$> sent (cl_shared c)) !! i = Some (rs_Id res)) as H4.
  { rewrite Hids. apply lookup_app_l_Some. by rewrite list_lookup_fmap, H3. }
  rewrite list_lookup_fmap in H4. destruct (sent (cl_shared c) !! i) as [q|] eqn:E; [|done].
  injection H4 as <-. rewrite Hq, lookup_app_l in H2 by by eapply lookup_lt_Some.
  congruence.
Qed.

(** One step of an execution that is written down. *)
Ltac settle := first [reflexivity|eassumption|simpl; unfold capacity; lia].
Tactic Notation "turn" uconstr(who) uconstr(what) :=
  eapply rtc_l; [eapply who; eapply what; settle|];
  open_client; cbn [trySend length fst app capacity insert list_insert].

Lemma few_calls c : (length (cl_calls c) ≤ 1)%nat → one_at_a_time c.
Proof. intros Hl i x Hx _. apply lookup_lt_Some in Hx. lia. Qed.

Tactic Notation "orderly" uconstr(who) uconstr(what) :=
  eapply rtc_l; [split; [eapply who; eapply what; settle|
    split; [apply few_calls; simpl; lia|first [by exists []|by eexists [_]]]]|];
  open_client; cbn [trySend length fst app capacity insert list_insert].

(** A request that was sent and answered, with a notification on the way. *)
Definition answered (q : Request) (n : Notification) (x : bytes) : client :=
  let res := {| rs_Id := rq_Id q; rs_Result := x |} in {|
  cl_shared := {| reqC := []; resC := []; notC := [n]; errC := []; cancelled := false; closed := false;
                  done := false; sent := [q]; decoded := [NotificationFrame n; ResponseFrame res];
                  notified := [] |};
  cl_writer := WriterTop; cl_reader := ReaderTop; cl_notifier := Listening; cl_main := Watching;
  cl_calls := [(q, Got res)] |}.

Lemma answered_orderly q n x : rtc orderly_step client_start (answered q n x).
Proof.
  unfold client_start.
  orderly by_send (send_starts _ q). orderly by_send (send_passes _ 0).
  orderly by_writer write_again. orderly by_writer write_takes. orderly by_writer write_encodes.
  orderly by_reader read_again. orderly by_reader (read_frame _ (NotificationFrame n)).
  orderly by_reader read_notification.
  orderly by_reader read_again.
  orderly by_reader (read_frame _ (ResponseFrame {| rs_Id := rq_Id q; rs_Result := x |})).
  orderly by_reader read_response. orderly by_send (send_receives _ 0). apply rtc_refl.
Qed.

Definition asking (id : string) : Request :=
  {| rq_JsonRPC := []; rq_Id := str id; rq_Method := []; rq_Params := [] |}.
Definition news : Notification := {| nt_Method := []; nt_Params := [] |}.

Lemma Send_answers_witness :
  let c := answered (asking "1") news [] in
  ∃ res, cl_calls c !! 0%nat = Some (asking "1", Got res) ∧ rs_Id res = rq_Id (asking "1").
Proof.
  eexists. split; [reflexivity|].
  apply (Send_answers (answered (asking "1") news []) 0 (asking "1")); [|reflexivity|reflexivity].
  apply answered_orderly.
Defined.

(** ** Calls at the same time *)

(** The caller that waited first may be overtaken. *)
Definition swapped (q1 q2 : Request) (x1 x2 : bytes) : client :=
  let r1 := {| rs_Id := rq_Id q1; rs_Result := x1 |} in
  let r2 := {| rs_Id := rq_Id q2; rs_Result := x2 |} in {|
  cl_shared := {| reqC := []; resC := []; notC := []; errC := []; cancelled := false; closed := false;
                  done := false; sent := [q1; q2]; decoded := [ResponseFrame r1; ResponseFrame r2];
                  notified := [] |};
  cl_writer := WriterTop; cl_reader := ReaderTop; cl_notifier := Listening; cl_main := Watching;
  cl_calls := [(q1, Got r2); (q2, Got r1)] |}.

Lemma swapped_reachable q1 q2 x1 x2 : client_reachable (swapped q1 q2 x1 x2).
Proof.
  unfold client_reachable, client_start.
  turn by_send (send_starts _ q1). turn by_send (send_starts _ q2).
  turn by_send (send_passes _ 0). turn by_writer write_again. turn by_writer write_takes.
  turn by_writer write_encodes. turn by_send (send_passes _ 1). turn by_writer write_again.
  turn by_writer write_takes. turn by_writer write_encodes.
  turn by_reader read_again.
  turn by_reader (read_frame _ (ResponseFrame {| rs_Id := rq_Id q1; rs_Result := x1 |})).
  turn by_reader read_response. turn by_send (send_receives _ 1).
  turn by_reader read_again.
  turn by_reader (read_frame _ (ResponseFrame {| rs_Id := rq_Id q2; rs_Result := x2 |})).
  turn by_reader read_response. turn by_send (send_receives _ 0). apply rtc_refl.
Qed.

(** [Send] does not look at the id of the response: two calls at the same time
    can be given each other's response, although the server answered both in
    order and under their ids. *)
Theorem concurrent_sends_swap :
  ∃ c q1 q2 r1 r2, client_reachable c ∧ answered_in_order c ∧
    cl_calls c = [(q1, Got r2); (q2, Got r1)] ∧ rs_Id r1 = rq_Id q1 ∧ rs_Id r2 = rq_Id q2 ∧
    rq_Id q1 ≠ rq_Id q2.
Proof.
  eexists (swapped (asking "1") (asking "2") [] []), (asking "1"), (asking "2"), _, _.
  split; [apply swapped_reachable|]. split; [by exists []|]. by repeat split.
Qed.

(** ** Where the client hangs *)

(** The reader holds a notification, the channel is full, and the goroutine
    that empties it has ended. *)
Record hung (c : client) : Prop := {
  hg_reader : ∃ n, cl_reader c = Passing (NotificationFrame n);
  hg_full : length (notC (cl_shared c)) = capacity;
  hg_notifier : cl_notifier c = NotifierDone;
  hg_main : cl_main c ≠ Returned;
  hg_done : done (cl_shared c) = false;
}.

Lemma hung_step c c' : hung c → client_step c c' → hung c'.
Proof.
  intros [[n Hr] Hf Hn Hm Hd] Hs.
  destruct Hs as [s s' pc pc' r k m l Hs|s s' pc pc' w k m l Hs|s s' pc pc' w r m l Hs|c c' Hs|c c' Hs|c];
    cbn [cl_shared cl_writer cl_reader cl_notifier cl_main cl_calls] in *; subst.
  - inversion Hs; subst; split; try done; by exists n.
  - inversion Hs; subst. lia.
  - inversion Hs.
  - inversion Hs as [? e rest|?|? Hj [_ [Hj2 _]]]; subst; [split; try done; by exists n..|congruence].
  - inversion Hs; subst; split; try done; by exists n.
  - split; try done; by exists n.
Qed.

(** The reader sends on [notC] without a select on [ctx.Done()]: there is an
    execution after which the client, however it goes on, never ends: [Close]
    can only time out, and no [Send] that waits is ever told that the client has
    stopped. *)
Theorem client_close_hangs :
  ∃ c, client_reachable c ∧ cancelled (cl_shared c) = true ∧
    ∀ c', rtc client_step c c' → (∀ ctx_done, ¬ Close c' ctx_done (Ok tt)) ∧ none_stopped c'.
Proof.
  eexists. split; [|split].
  - unfold client_reachable, client_start.
    turn by_reader read_again. turn by_reader (read_frame _ (NotificationFrame news)).
    turn by_reader read_notification. turn by_reader read_again.
    eapply rtc_l; [apply by_Close|]. open_client.
    turn by_notifier notify_done. turn by_reader (read_frame _ (NotificationFrame news)). apply rtc_refl.
  - reflexivity.
  - match goal with |- ∀ c', rtc _ ?c c' → _ => set (c0 := c) end. intros c' Hc'.
    assert (hung c' ∧ none_stopped c') as [[_ _ _ _ Hd] ?].
    2: { split; [|done]. intros ctx_done Hcl%select_ok. congruence. }
    assert (hung c0) as H0 by (split; try done; by eexists).
    assert (none_stopped c0) as H1 by (by intros i x Hx%list_elem_of_lookup_2%elem_of_nil). clearbody c0.
    induction Hc' as [|c0 c1 c2 Hs _ IH]; [done|]. apply IH; [by eapply hung_step|].
    pose proof (hg_done _ H0) as Hd. destruct Hs as [| | |? ? Hs|? ? Hs|]; [done..| | |done].
    + by inversion Hs; subst.
    + by eapply none_stopped_send.
Qed.
