(* ===== verification/Reorg.v ===== *)
(** * Reorg: rolling the manager back to the fork

    [processReorg] on a database whose header table is a chain: which headers,
    ledger rows, cached outputs and wallet heights are left. *)

From S2P Require Import Prelude Bytes Sha256 BitcoinTypes ScriptPubkey.
From S2P Require Import Database Repository RepositoryFacts Ledger Chain Wallet Genesis Sync HeaderSync.

(** ** The tables after a rollback *)

Lemma rolled_back_headers g h db rows :
  chain_ok g db rows → 0 ≤ h → chain_ok g (rolled_back h db) (take (Z.to_nat h) rows).
Proof.
  intros [Hp Hk] Hh. split.
  - unfold header_rows, rolled_back in *. cbn [t_blockheader].
    rewrite map_filter_alt, map_to_list_to_map.
    + rewrite Hp. apply reflexive_eq.
      rewrite <- (take_drop (Z.to_nat h) rows) at 1. rewrite filter_app.
      rewrite <- (take_drop (Z.to_nat h) rows) in Hk.
      assert (∀ x, x ∈ take (Z.to_nat h) rows → header_above h x.2 = false) as H1.
      { intros [hs r] [i Hi]%list_elem_of_lookup. apply linked_app in Hk as [Hk _].
        destruct (linked_lookup _ _ _ _ _ _ Hk Hi) as [Hr _].
        apply lookup_lt_Some in Hi. rewrite length_take in Hi. unfold header_above. simpl. lia. }
      assert (∀ x, x ∈ drop (Z.to_nat h) rows → header_above h x.2 = true) as H2.
      { intros [hs r] [i Hi]%list_elem_of_lookup. apply linked_app in Hk as [_ Hk].
        destruct (linked_lookup _ _ _ _ _ _ Hk Hi) as [Hr _].
        apply lookup_lt_Some in Hi. rewrite length_drop in Hi. rewrite length_take_le in Hr by lia.
        unfold header_above. simpl. lia. }
      clear -H1 H2. revert H1 H2. generalize (take (Z.to_nat h) rows) (drop (Z.to_nat h) rows).
      intros l1 l2 H1 H2.
      assert (filter (λ r : bytes * headerRow, header_above h r.2 = false) l1 = l1) as ->.
      { apply filter_all. exact H1. }
      assert (filter (λ r : bytes * headerRow, header_above h r.2 = false) l2 = []) as ->.
      { apply filter_none. intros x Hx. rewrite H2; done. }
      by rewrite app_nil_r.
    + eapply sublist_NoDup; [apply (NoDup_fst_map_to_list (t_blockheader db))|].
      apply fmap_sublist, sublist_filter.
  - rewrite <- (take_drop (Z.to_nat h) rows) in Hk. by apply linked_app in Hk as [? _].
Qed.

Lemma rolled_back_blobs_ok h db : blobs_ok db → blobs_ok (rolled_back h db).
Proof.
  intros Hb. split; unfold rolled_back; simpl.
  - intros hs row [Hr _]%map_lookup_filter_Some. by eapply blobs_header.
  - intros tv row [Hu _]%map_lookup_filter_Some.
    apply lookup_union_Some_raw in Hu as [Hu|[_ Hu]]; [|by eapply blobs_unspent].
    rewrite lookup_fmap, fmap_Some in Hu. destruct Hu as (s & Hs & ->).
    apply spent_above_lookup in Hs as [Hs _]. by apply (blobs_spent _ Hb).
  - intros tv row [Hs _]%map_lookup_filter_Some. by eapply blobs_spent.
  - intros txid row [Ht _]%map_lookup_filter_Some. by eapply blobs_tx.
  - intros sh txid [_ Hin]%elem_of_filter. by eapply blobs_stx.
Qed.

(** ** [processReorg] *)

(** The manager after the rollback to height [h]. *)
Definition rolled_back_W (h : Z) (tip : bytes) (w : W) : W :=
  let db := rolled_back h (r_db (repo w)) in
  set_best h tip
    (upd_wallets (fmap (λ wal, set_height (Z.min h (height wal)) wal))
      (upd_repo (λ _, {| r_db := db; utxoIndex := to_index <$> t_unspent_output db |}) w)).

Section reorg.
Context `{Bip32} `{BitcoinClient}.

Lemma processReorg_run top rows h w :
  chain_ok (genesis_hash w) (r_db (repo w)) rows →
  db_ok top (r_db (repo w)) → blobs_ok (r_db (repo w)) →
  1 ≤ h ≤ length rows →
  processReorg h w =
    (Ok tt, rolled_back_W h (tip_hash (genesis_hash w) (take (Z.to_nat h) rows)) w).
Proof.
  intros Hc Hok Hb Hh. unfold processReorg.
  destruct (lookup_lt_is_Some_2 rows (Z.to_nat (h - 1))) as [[hs row] Hl]; [lia|].
  assert (tip_hash (genesis_hash w) (take (Z.to_nat h) rows) = hs) as ->.
  { replace (Z.to_nat h) with (S (Z.to_nat (h - 1))) by lia.
    by rewrite (take_S_r _ _ _ Hl), tip_hash_snoc. }
  rewrite (bind_Ok_1 _ _ w [hs] w).
  2: { apply on_repo_read. rewrite (selectBlockHashesAtHeight_chain Hc) by (done || lia).
       do 2 f_equal. change (Z.to_nat 1) with 1%nat.
       by rewrite (drop_S _ hs (Z.to_nat (h - 1))) by by rewrite list_lookup_fmap, Hl. }
  rewrite bind_run. unfold on_repo at 1, zoom. rewrite (deleteAllSinceBlock_ok top) by done.
  rewrite bind_run. unfold on_repo, zoom. cbn [repo upd_repo].
  rewrite reloadCaches_ok by by apply rolled_back_blobs_ok.
  reflexivity.
Qed.

(** Back at the common blocks. *)
Lemma processReorg_forks top C stale (f : nat) w :
  let rows := rows_of 1 (take f C) in
  chain_ok (genesis_hash w) (r_db (repo w)) (rows ++ stale) →
  db_ok top (r_db (repo w)) → blobs_ok (r_db (repo w)) → (1 ≤ f ≤ length C)%nat →
  processReorg f w = (Ok tt, rolled_back_W f (tip_hash (genesis_hash w) rows) w) ∧
  chain_ok (genesis_hash w) (rolled_back f (r_db (repo w))) rows.
Proof.
  intros rows Hc Hok Hb Hf.
  assert (take (Z.to_nat f) (rows ++ stale) = rows) as Htake.
  { unfold rows. rewrite Nat2Z.id, take_app_le by (rewrite length_rows_of, length_take; lia).
    apply take_ge. rewrite length_rows_of, length_take. lia. }
  pose proof (processReorg_run top (rows ++ stale) f w Hc Hok Hb) as Hrun.
  pose proof (rolled_back_headers _ f _ _ Hc ltac:(lia)) as Hh. rewrite Htake in Hrun, Hh. split; [|done].
  apply Hrun. unfold rows. rewrite length_app, length_rows_of, length_take. lia.
Qed.
End reorg.
