(* ===== verification/BlockScan.v ===== *)
(** * BlockScan: [processBlock] keeps the invariant of the scan

    The statements of [Scan] composed the way [processOutput], [processInput]
    and [processBlock] call them, with the wallets' script index growing while
    the block is processed. *)

From S2P Require Import Prelude Bytes Sha256 Merkle BitcoinTypes ScriptPubkey.
From S2P Require Import Database Repository RepositoryFacts Chain Ledger Wallet WalletFacts Scan.
From S2P Require Import Genesis Sync HeaderSync.

(** ** Running calls *)

Lemma on_repo_ok {A} (m : M repository A) w a r' :
  m (repo w) = (Ok a, r') → on_repo m w = (Ok a, upd_repo (λ _, r') w).
Proof. intros Hm. unfold on_repo, zoom. by rewrite Hm. Qed.

Lemma index_ok_repo `{Bip32} f w : index_ok w → index_ok (upd_repo f w).
Proof. intros []. by split. Qed.
Lemma gap_ok_repo f w : gap_ok w → gap_ok (upd_repo f w).
Proof. done. Qed.

Section fold.
Context {A B : Type}.

(** A loop that carries an accumulator, with an invariant of the number of
    elements done. *)
Lemma triple_fold_idx E (I : nat → W → Prop) (l : list A) (body : Z → A → B → M W B) i acc :
  (∀ (n : nat) x acc, l !! n = Some x → triple E (I n) (body (i + n) x acc) (λ _, I (S n))) →
  triple E (I 0%nat) (fold_idx i l body acc) (λ _, I (length l)).
Proof.
  revert I i acc. induction l as [|x l IH]; intros I i acc Hb; simpl; [by apply triple_ret|].
  eapply triple_bind.
  - pose proof (Hb 0%nat x acc eq_refl) as H0. rewrite Z.add_0_r in H0. exact H0.
  - intros acc'. apply (IH (λ n, I (S n))). intros n y acc'' Hy.
    pose proof (Hb (S n) y acc'' Hy) as Hn.
    by replace (i + 1 + n) with (i + S n) by lia.
Qed.
End fold.

Section block.
Context `{Bip32Safe} `{BitcoinClient}.
(** The errors that the derivation of scripts may return. *)
Context (E : error → Prop).
Context (h hh : Z) (b : Block).
Hypothesis Hlt : h < hh.
Hypothesis Hblock : block_ok b.
Context (V : gmap bytes headerRow *
  (gmap bytes utxoRow * gmap bytes stxoRow * gmap bytes txRow * gset (bytes * bytes))).
Context (known : gmap bytes scriptPubkeyInfo) (unspent0 : gmap bytes utxoRow).
Context (future : list bytes).
Hypothesis Hfuture : ∀ txid, txid ∈ TXIDs b → txid ∉ future.
Context (nwallets : nat).

Record blk (pending : list bytes) (outs : list (bytes * (bytes * Output)))
    (ins : list (bytes * bytes)) (w : W) : Prop := {
  bk_scan : scan_ok h hh b V pending future (repo w);
  bk_prog : progress hh known unspent0 outs ins (scriptPubkeys w) (r_db (repo w));
  bk_index : index_ok w;
  bk_gap : gap_ok w;
  bk_derive : all_derive E w;
  bk_wallets : length (wallets w) = nwallets;
}.

(** *** Recording a transaction *)

Lemma recordTransaction_run pending tx (pos : nat) sh w :
  scan_ok h hh b V pending future (repo w) →
  Transactions b !! pos = Some tx → Sha256.hash32 sh →
  ∃ r', recordTransaction b tx pos sh w = (Ok tt, upd_repo (λ _, r') w) ∧
    scan_ok h hh b V pending future r' ∧ in_history sh (Txid tx) (r_db r') ∧
    grows (r_db (repo w)) (r_db r').
Proof.
  intros Hsc Hpos Hsh. destruct Hblock as [Hnd _].
  assert (TXIDs b !! pos = Some (Txid tx)) as Htxids by (unfold TXIDs; by rewrite list_lookup_fmap, Hpos).
  assert (Txid tx ∈ TXIDs b) as Hin by by eapply list_elem_of_lookup_2.
  destruct (MerkleProof_spec _ _ Hin) as (pos' & branch & Hmp & Hfp & _).
  rewrite (findPos_NoDup _ _ _ Hnd Htxids) in Hfp. apply Nat2Z.inj in Hfp as <-.
  unfold recordTransaction. rewrite Hmp. rewrite bind_run. unfold lift_outcome.
  rewrite bool_decide_eq_false_2 by (intros HF; by apply HF).
  rewrite (bind_Ok_1 (mret tt) _ w tt w) by done.
  destruct (insertTransaction_scan h hh b Hlt V pending future (repo w) pos tx branch)
    as (r1 & Hr1 & Hsc1 & Htx1 & Hg1); auto.
  rewrite (bind_Ok_1 _ _ _ _ _ (on_repo_ok _ _ _ _ Hr1)).
  destruct (insertScriptPubkeyTransaction_scan h hh b Hlt V pending future r1 sh (Txid tx))
    as (r2 & Hr2 & Hsc2 & Htx2 & Hst2 & Hg2); auto.
  exists r2. split; [|split; [done|split; [done|by etrans]]].
  by rewrite (on_repo_ok _ (upd_repo (λ _, r1) w) _ _ Hr2).
Qed.

(** *** Outputs *)

Lemma advanced_scan pending info wl w :
  scan_ok h hh b V pending future (repo w) →
  scan_ok h hh b V pending future (repo (advanced info wl w)).
Proof.
  intros Hsc. unfold advanced. simpl. unfold next_past_db.
  destruct (_ <? _); [by destruct (repo w)|by apply scan_ok_wallets].
Qed.

Lemma next_past_db_grows info wl db : grows db (next_past_db info wl db).
Proof. unfold next_past_db. destruct (_ <? _); [done|by split]. Qed.

Lemma processOutput_triple pending outs ins tx (pos : nat) out (j : Z) updatedSH :
  Transactions b !! pos = Some tx →
  makeTxidVout (Txid tx) j ∉ pending → Amount out < 2 ^ 63 →
  triple E (blk (makeTxidVout (Txid tx) j :: pending) outs ins)
    (processOutput b tx pos out j updatedSH)
    (λ _, blk pending (outs ++ [(makeTxidVout (Txid tx) j, (Txid tx, out))]) ins).
Proof.
  intros Hpos Hni Hamt w [Hsc Hpg Hix Hgap Hder Hlen]. set (tv := makeTxidVout (Txid tx) j) in *.
  set (sh := Sha256.Sum256 (ScriptPubkey out)).
  unfold processOutput. fold sh. rewrite (bind_Ok_1 _ _ w (scriptPubkeys w !! sh) w) by done.
  destruct (scriptPubkeys w !! sh) as [info|] eqn:Hinfo.
  2: { split; try done; [|by apply progress_skip_out].
       eapply scan_ok_weaken; [done|]. intros. by apply list_elem_of_further. }
  destruct (recordTransaction_run _ tx pos sh w Hsc Hpos) as (r1 & Hrun1 & Hsc1 & Hh1 & Hg1).
  { apply Sha256.length_Sum256. }
  rewrite (bind_Ok_1 _ _ _ _ _ Hrun1).
  destruct (sc_fresh _ _ _ _ _ _ _ Hsc1 tv) as [Hu1 Hs1]; [apply list_elem_of_here|].
  destruct (insertUnspentOutput_scan h hh b Hlt V tv pending future r1 (Amount out) sh)
    as (r2 & Hrun2 & Hsc2 & Hdb2); try done.
  { unfold tv. rewrite outpoint_txid_make by apply hash32_Txid.
    eapply list_elem_of_lookup_2. unfold TXIDs. by rewrite list_lookup_fmap, Hpos. }
  { unfold tv. rewrite outpoint_txid_make by apply hash32_Txid. apply Hh1. }
  { apply Sha256.length_Sum256. }
  { apply length_makeTxidVout, hash32_Txid. }
  rewrite (bind_Ok_1 _ _ _ _ _ (on_repo_ok _ (upd_repo (λ _, r1) w) _ _ Hrun2)).
  set (w2 := upd_repo (λ _, r2) (upd_repo (λ _, r1) w)).
  destruct (ix_sound _ Hix _ _ Hinfo) as (wl & s & Hwl & _ & _ & Hidx).
  pose proof (ix_bounds _ Hix _ _ (account info) Hwl) as [_ Hbd].
  rewrite (bind_Ok_1 _ _ w2 tt (advanced info wl w2)) by (apply walletUpdateIndexes_run; [done|lia]).
  assert (index_ok w2) as Hix2 by by apply index_ok_repo, index_ok_repo.
  assert (index_ok (advanced info wl w2)) as Hix3 by by apply advanced_index_ok.
  assert (wallets (advanced info wl w2) !! walletIdx info = Some (next_past info wl)) as Hwl3.
  { simpl. apply list_lookup_insert_eq. by eapply lookup_lt_Some. }
  assert (same_wallets w2 (advanced info wl w2)) as Hsw3.
  { apply (same_wallets_insert _ wl _ w2); [done|apply next_past_config]. }
  assert (derives E (next_past info wl)) as HE3.
  { eapply derives_config; [apply next_past_config|]. by eapply Hder. }
  pose proof (refillWallet_spec E _ _ _ Hix3 Hwl3 HE3) as Hrf. rewrite bind_run.
  destruct (refillWallet (walletIdx info) (advanced info wl w2)) as [o w4].
  destruct Hrf as (Hsafe & He4 & Hix4 & Hr4 & Hg4).
  destruct o as [[]|e| |]; try done; [|by apply He4].
  destruct (Hg4 eq_refl) as (wl4 & Hwl4 & Hgap4). pose proof Hr4 as [Hsame Hoth _].
  assert (progress hh known unspent0 (outs ++ [(tv, (Txid tx, out))]) ins (scriptPubkeys w)
    (r_db (repo (advanced info wl w2)))) as Hpg3.
  { eapply progress_grows; [apply next_past_db_grows|]. simpl. rewrite Hdb2.
    change {| uo_satoshi := Amount out; uo_scriptpubkey_hash := sh |} with (out_row out).
    apply progress_credit; [done|done|by eexists|done|]. by eapply progress_grows. }
  split.
  - rewrite (sb_repo _ _ Hsame). by apply advanced_scan.
  - rewrite (sb_repo _ _ Hsame). eapply progress_index; [|exact Hpg3]. apply Hsame.
  - done.
  - intros i wl' acc Hi. destruct (decide (i = walletIdx info)) as [->|Hne].
    + assert (wl' = wl4) as -> by congruence. apply Hgap4.
    + rewrite Hoth in Hi by done. simpl in Hi. rewrite list_lookup_insert_ne in Hi by done.
      by eapply Hgap.
  - eapply same_wallets_derive; [by eapply refilled_same_wallets|].
    by eapply same_wallets_derive.
  - rewrite (sb_length _ _ Hsame). simpl. by rewrite length_insert.
Qed.

(** *** Inputs *)

Lemma selectUnspentOutput_run tv r :
  index_sync r →
  selectUnspentOutput tv r =
    (match t_unspent_output (r_db r) !! tv with
     | Some row => Ok {| ux_TxidVout := tv; ux_Satoshi := uo_satoshi row;
                         ux_ScriptPubkeyHash := uo_scriptpubkey_hash row |}
     | None => Err ErrNotFound
     end, r).
Proof.
  intros Hs. unfold selectUnspentOutput. rewrite bind_run. unfold gets.
  rewrite Hs, lookup_fmap. by destruct (t_unspent_output (r_db r) !! tv).
Qed.

Lemma processInput_triple pending outs ins tx (pos : nat) i updatedSH :
  Transactions b !! pos = Some tx →
  triple E (blk pending outs ins) (processInput b hh tx pos i updatedSH)
    (λ _, blk pending outs (ins ++ [(makeTxidVout (in_Txid i) (in_Vout i), Txid tx)])).
Proof.
  intros Hpos w [Hsc Hpg Hix Hgap Hder Hlen]. unfold processInput.
  set (tv := makeTxidVout (in_Txid i) (in_Vout i)).
  rewrite bind_run. rewrite (on_repo_read _ _ _ (selectUnspentOutput_run tv _ (sc_sync _ _ _ _ _ _ _ Hsc))).
  destruct (t_unspent_output (r_db (repo w)) !! tv) as [row|] eqn:Hu.
  2: { split; try done. by apply progress_skip_in. }
  cbn [ux_ScriptPubkeyHash].
  destruct (recordTransaction_run _ tx pos (uo_scriptpubkey_hash row) w Hsc Hpos)
    as (r1 & Hrun1 & Hsc1 & Hh1 & Hg1).
  { by apply (blobs_unspent _ (sc_blobs _ _ _ _ _ _ _ Hsc) _ _ Hu). }
  rewrite (bind_Ok_1 _ _ _ _ _ Hrun1).
  assert (t_unspent_output (r_db r1) !! tv = Some row) as Hu1 by by rewrite (gr_unspent _ _ Hg1).
  destruct (deleteUnspentOutput_scan h hh b Hlt V pending future r1 tv row Hsc1 Hu1)
    as (r2 & Hrun2 & Hsc2 & Hdb2).
  rewrite (bind_Ok_1 _ _ _ _ _ (on_repo_ok _ (upd_repo (λ _, r1) w) _ _ Hrun2)).
  split; try done.
  - simpl. rewrite Hdb2. apply progress_debit; [done| |done|by eapply progress_grows].
    apply (spend_unspent_None hh tv row); [apply Hsc1|done].
  - by apply index_ok_repo, index_ok_repo.
Qed.

(** *** Transactions *)

Lemma take_length_lt {A} (l : list A) (n : nat) x : l !! n = Some x → length (take n l) = n.
Proof. intros Hx%lookup_lt_Some. rewrite length_take. lia. Qed.

Lemma tx_outpoints_drop txid outs (n : nat) o :
  outs !! n = Some o →
  tx_outpoints txid n (drop n outs) =
    makeTxidVout txid (uint32_wrap n) :: tx_outpoints txid (S n) (drop (S n) outs).
Proof.
  intros Ho. rewrite (drop_S _ _ _ Ho). simpl. do 2 f_equal. lia.
Qed.

Lemma tx_entries_take txid outs (n : nat) o :
  outs !! n = Some o →
  tx_entries txid 0 (take (S n) outs) =
    tx_entries txid 0 (take n outs) ++ [(makeTxidVout txid (uint32_wrap n), (txid, o))].
Proof.
  intros Ho. rewrite (take_S_r _ _ _ Ho), tx_entries_app, (take_length_lt _ _ _ Ho). done.
Qed.

Lemma processOutputs_triple (pos : nat) tx rest before ins updatedSH :
  Transactions b !! pos = Some tx → NoDup (outpoints (tx :: rest)) → tx_ok tx →
  triple E (blk (outpoints (tx :: rest)) before ins)
    (fold_idx 0 (Outputs tx) (λ j out, processOutput b tx pos out (uint32_wrap j)) updatedSH)
    (λ _, blk (outpoints rest) (before ++ tx_entries (Txid tx) 0 (Outputs tx)) ins).
Proof.
  change (outpoints (tx :: rest)) with (tx_outpoints (Txid tx) 0 (Outputs tx) ++ outpoints rest).
  intros Hpos Hnd [_ Hamt].
  eapply triple_consequence; [apply (triple_fold_idx E (λ n,
    blk (tx_outpoints (Txid tx) n (drop n (Outputs tx)) ++ outpoints rest)
      (before ++ tx_entries (Txid tx) 0 (take n (Outputs tx))) ins))| |].
  - intros n out acc Ho.
    rewrite (tx_outpoints_drop _ _ _ _ Ho), (tx_entries_take _ _ _ _ Ho), app_assoc, Z.add_0_l.
    cbn [app]. apply processOutput_triple; [done| |].
    2: { rewrite Forall_forall in Hamt. apply Hamt. by eapply list_elem_of_lookup_2. }
    rewrite <- (take_drop n (Outputs tx)), tx_outpoints_app, (take_length_lt _ _ _ Ho), Z.add_0_l,
      (tx_outpoints_drop _ _ _ _ Ho), <- app_assoc in Hnd.
    apply NoDup_app in Hnd as (_ & _ & Hnd). by apply NoDup_cons in Hnd as [? _].
  - intros w. rewrite drop_0. cbn [take tx_entries]. by rewrite app_nil_r.
  - intros ? w. by rewrite firstn_all, drop_all.
Qed.

Lemma processInputs_triple (pos : nat) tx pending outs before updatedSH :
  Transactions b !! pos = Some tx →
  triple E (blk pending outs before)
    (fold_idx 0 (Inputs tx) (λ _ inp, processInput b hh tx pos inp) updatedSH)
    (λ _, blk pending outs (before ++ tx_spends tx)).
Proof.
  intros Hpos.
  eapply triple_consequence; [apply (triple_fold_idx E (λ n,
    blk pending outs (before ++ take n (tx_spends tx))))| |].
  - intros n inp acc Hi.
    erewrite (take_S_r (tx_spends tx) n) by (unfold tx_spends; rewrite list_lookup_fmap, Hi; done).
    rewrite app_assoc. by apply processInput_triple.
  - intros w. by rewrite app_nil_r.
  - intros ? w. rewrite take_ge; [done|]. unfold tx_spends. by rewrite length_fmap.
Qed.

(** The transactions of the block before position [n], and from it on. *)
Definition blk_at (n : nat) : W → Prop :=
  blk (outpoints (drop n (Transactions b))) (block_entries (take n (Transactions b)))
    (block_spends (take n (Transactions b))).

Lemma processTransaction_triple (pos : nat) tx updatedSH :
  Transactions b !! pos = Some tx →
  triple E (blk_at pos) (processTransaction b hh pos tx updatedSH) (λ _, blk_at (S pos)).
Proof.
  intros Hpos. unfold processTransaction, blk_at.
  rewrite (drop_S _ _ _ Hpos), (take_S_r _ _ _ Hpos).
  unfold block_entries, block_spends. rewrite !bind_app. cbn [mbind list_bind]. rewrite !app_nil_r.
  eapply triple_bind; [apply processOutputs_triple; [done| |]|].
  2: { destruct Hblock as [_ Hb]. rewrite Forall_forall in Hb. apply Hb. by eapply list_elem_of_lookup_2. }
  - destruct Hblock as [Hnd Hb]. unfold TXIDs in Hnd.
    rewrite <- (take_drop_middle _ _ _ Hpos) in Hnd, Hb.
    rewrite fmap_app in Hnd. apply NoDup_app in Hnd as (_ & _ & Hnd).
    apply Forall_app in Hb as [_ Hb]. by apply NoDup_outpoints.
  - intros acc. by apply processInputs_triple.
Qed.

Lemma processTransactions_triple :
  triple E (blk_at 0) (fold_idx 0 (Transactions b) (processTransaction b hh) ∅)
    (λ _, blk_at (length (Transactions b))).
Proof.
  apply triple_fold_idx. intros n tx acc Htx. by apply processTransaction_triple.
Qed.

(** *** Heights and notifications *)

Lemma blk_wallet_row pending outs ins f w :
  blk pending outs ins w → blk pending outs ins (upd_repo (upd_db (upd_wallet f)) w).
Proof.
  intros [Hsc Hpg Hix Hgap Hder Hlen]. split; try done.
  - by apply scan_ok_wallets.
  - eapply progress_grows; [|done]. by split.
  - by apply index_ok_repo.
Qed.

Lemma raiseWalletHeight_triple pending outs ins i :
  (i < nwallets)%nat →
  triple E (blk pending outs ins) (raiseWalletHeight hh i) (λ _, blk pending outs ins).
Proof.
  intros Hi w Hb. destruct (lookup_lt_is_Some_2 (wallets w) i) as [wl Hwl]; [by rewrite (bk_wallets _ _ _ _ Hb)|].
  unfold raiseWalletHeight. rewrite (bind_Ok_1 _ _ _ _ _ (get_wallet_run _ _ _ Hwl)).
  destruct (hh <=? height wl); [done|].
  apply (blk_wallet_row _ _ _ (alter (λ row, {| wr_height := hh;
    wr_next_receive_index := wr_next_receive_index row;
    wr_next_change_index := wr_next_change_index row |}) (hash wl))) in Hb.
  match type of Hb with blk _ _ _ ?w1 => pose proof (reheighted_insert i wl hh w1 Hwl) as Hrh end.
  destruct Hb as [Hsc Hpg Hix Hgap Hder Hlen]. split; try done.
  - by apply (reheighted_index _ _ Hrh).
  - by apply (reheighted_gap _ _ Hrh).
  - by apply (reheighted_derive _ _ Hrh).
  - cbn in *. by rewrite length_insert.
Qed.

Lemma notifyStatus_triple pending outs ins sh :
  triple E (blk pending outs ins) (notifyStatus sh) (λ _, blk pending outs ins).
Proof.
  intros w [Hsc Hpg Hix Hgap Hder Hlen]. unfold notifyStatus, getScriptHashStatus.
  rewrite bind_assoc, bind_run.
  rewrite (on_repo_read _ _ _ (selectScriptHashHistory_ok sh _ (sc_blobs _ _ _ _ _ _ _ Hsc))).
  split; try done. by destruct Hix.
Qed.

(** What follows the transactions of a block. *)
Lemma heights_and_status_triple (pending : list bytes) (outs : list (bytes * (bytes * Output)))
    (ins : list (bytes * bytes)) (updatedSH : gset bytes) :
  triple E (blk pending outs ins)
    (n ← gets (λ w, length (wallets w)); forM (seq 0 n) (raiseWalletHeight hh) ;;
     forM (elements updatedSH) notifyStatus)
    (λ _, blk pending outs ins).
Proof.
  set (I := blk pending outs ins).
  eapply (triple_bind _ _ _ (λ n w, n = nwallets ∧ I w)).
  { apply triple_gets. intros w Hw. split; [by apply Hw|done]. }
  intros n. apply triple_pure. intros ->.
  apply (triple_bind _ _ _ (λ _, I)).
  - eapply triple_consequence; [apply (triple_forM (λ l w, Forall (λ i, i < nwallets)%nat l ∧ I w))| |].
    + intros i l. apply triple_pure. intros Hall. inversion_clear Hall as [|? ? Hi Hl].
      eapply triple_consequence; [by apply raiseWalletHeight_triple|done|]. intros ? w Hw. done.
    + intros w Hw. split; [|done]. apply Forall_forall. intros i Hi. apply elem_of_seq in Hi. lia.
    + by intros ? w [_ ?].
  - intros []. apply (triple_forM (λ _, I)). intros sh l. apply notifyStatus_triple.
Qed.

(** [processBlock] never panics; when it returns without an error the whole
    block is in the tables. *)
Lemma processBlock_triple :
  triple E (blk_at 0) (processBlock b hh)
    (λ _, blk [] (block_entries (Transactions b)) (block_spends (Transactions b))).
Proof.
  unfold processBlock. eapply triple_bind; [apply processTransactions_triple|]. intros updatedSH.
  unfold blk_at. rewrite drop_all, firstn_all. apply heights_and_status_triple.
Qed.
End block.

(** ** Several blocks *)

(** The manager is ready for the blocks [bs] from height [hh] on: the tables
    are consistent up to the height below, the blocks are in the header table,
    and their transactions are new and all different. *)
Record ready `{Bip32} (E : error → Prop) (h hh : Z) V (bs : list Block) (w : W) : Prop := {
  rd_db : db_ok (hh - 1) (r_db (repo w));
  rd_frame : frame h (r_db (repo w)) = V;
  rd_headers : ∀ (i : nat) b, bs !! i = Some b →
    ∃ row, t_blockheader (r_db (repo w)) !! Block_Hash b = Some row ∧ bh_height row = hh + i;
  rd_outputs : Forall (λ b, Forall tx_ok (Transactions b)) bs;
  rd_txids : NoDup (bs ≫= TXIDs);
  rd_fresh : ∀ txid, txid ∈ bs ≫= TXIDs → t_tx (r_db (repo w)) !! txid = None;
  rd_sync : index_sync (repo w);
  rd_blobs : blobs_ok (r_db (repo w));
  rd_index : index_ok w;
  rd_gap : gap_ok w;
  rd_derive : all_derive E w;
}.

Section blocks.
Context `{Bip32Safe} `{BitcoinClient} {E : error → Prop}.

Lemma ready_block_ok h hh V b bs w : ready E h hh V (b :: bs) w → block_ok b.
Proof.
  intros Hr. pose proof (rd_txids _ _ _ _ _ _ Hr) as Hnd. pose proof (rd_outputs _ _ _ _ _ _ Hr) as Ho.
  inversion_clear Ho. split; [|done]. rewrite bind_cons in Hnd. by apply NoDup_app in Hnd as [? _].
Qed.

Lemma ready_future h hh V b bs w :
  ready E h hh V (b :: bs) w → ∀ txid, txid ∈ TXIDs b → txid ∉ bs ≫= TXIDs.
Proof.
  intros Hr. pose proof (rd_txids _ _ _ _ _ _ Hr) as Hnd. rewrite bind_cons in Hnd.
  by apply NoDup_app in Hnd as (_ & ? & _).
Qed.

Lemma ready_start h hh V b bs w :
  ready E h hh V (b :: bs) w →
  blk_at E h hh b V (scriptPubkeys w) (t_unspent_output (r_db (repo w))) (bs ≫= TXIDs)
    (length (wallets w)) 0 w.
Proof.
  intros Hr. pose proof Hr as [Hdb Hfr Hhd Hout Hnd Hfresh Hsync Hblobs Hix Hgap Hder].
  rewrite bind_cons in Hfresh. unfold blk_at. rewrite drop_0. split; try done; [|by apply progress_start].
  split; try done.
  - eapply db_ok_mono; [|exact Hdb]. lia.
  - destruct (Hhd 0%nat b eq_refl) as (row & Hrow & Hh). exists row. split; [done|]. lia.
  - intros txid row Hin Hrow. rewrite Hfresh in Hrow; [done|]. apply elem_of_app. by left.
  - intros tv (tx & Htx & He)%elem_of_outpoints.
    assert (t_tx (r_db (repo w)) !! outpoint_txid tv = None) as Hn.
    { rewrite He. apply Hfresh, elem_of_app. left. by apply list_elem_of_fmap_2. }
    split; apply eq_None_not_Some; intros [row Hrow].
    + destruct (ok_unspent _ _ Hdb _ _ Hrow) as [x Hx]. congruence.
    + destruct (ok_spent _ _ Hdb _ _ Hrow) as (x & ? & Hx & _). congruence.
  - intros txid Hin. apply Hfresh, elem_of_app. by right.
Qed.

Lemma ready_tick h hh V bs w : ready E h hh V bs w → ready E h hh V bs (tick w).
Proof. intros [? ? ? ? ? ? ? ? [] ? ?]. by split. Qed.

(** A block processed: ready for the ones after it. *)
Lemma ready_next h hh V b bs w w' known unspent0 n outs ins :
  ready E h hh V (b :: bs) w →
  blk E h hh b V known unspent0 (bs ≫= TXIDs) n [] outs ins w' →
  ready E h (hh + 1) V bs w'.
Proof.
  intros [Hdb Hfr Hhd Hout Hnd Hfresh Hsync Hblobs Hix Hgap Hder] [Hsc Hpg Hix' Hgap' Hder' Hlen].
  rewrite bind_cons in Hnd.
  pose proof (sc_frame _ _ _ _ _ _ _ Hsc) as Hfr'.
  split; try done; try apply Hsc.
  - replace (hh + 1 - 1) with hh by lia. apply Hsc.
  - intros i b' Hb'. destruct (Hhd (S i) b' Hb') as (row & Hrow & Hh).
    exists row. split; [|lia].
    assert (t_blockheader (r_db (repo w')) = t_blockheader (r_db (repo w))) as ->; [|done].
    rewrite <- Hfr in Hfr'. unfold frame in Hfr'. congruence.
  - by inversion Hout.
  - by apply NoDup_app in Hnd as (_ & _ & ?).
Qed.

Lemma processBlock_ready h hh V b bs :
  h < hh → triple E (ready E h hh V (b :: bs)) (processBlock b hh) (λ _, ready E h (hh + 1) V bs).
Proof.
  intros Hlt w Hr.
  pose proof (processBlock_triple E h hh b Hlt (ready_block_ok _ _ _ _ _ _ Hr) V (scriptPubkeys w)
    (t_unspent_output (r_db (repo w))) (bs ≫= TXIDs) (ready_future _ _ _ _ _ _ Hr)
    (length (wallets w)) w (ready_start _ _ _ _ _ _ Hr)) as Ht.
  destruct (processBlock b hh w) as [[]]; try done. by eapply ready_next.
Qed.

End blocks.

Section pages.
Context `{Bip32} `{BitcoinClient} {E : error → Prop}.

Lemma triple_Execute {A} P (body : M W A) Q : triple E P body Q → triple E P (Execute body) Q.
Proof.
  intros Hb w Hw. specialize (Hb w Hw). unfold Execute. by destruct (body w) as [[]].
Qed.

(** The interface of what a scan of blocks establishes: [R hh bs] is to hold
    before the blocks [bs] from height [hh] on. *)
Class BlockStep (h : Z) (T : gmap bytes headerRow) (R : Z → list Block → W → Prop) := {
  step_tick hh bs w : R hh bs w → R hh bs (tick w);
  step_block hh b bs : h < hh → triple E (R hh (b :: bs)) (processBlock b hh) (λ _, R (hh + 1) bs);
  step_headers hh bs w : R hh bs w → t_blockheader (r_db (repo w)) = T;
}.

(** A page of blocks that the node has. *)
Lemma syncPage_triple h T R `{!BlockStep h T R} hh bs rest :
  h < hh → (∀ n b, b ∈ bs → GetBlock n (Block_Hash b) = Ok b) →
  triple E (R hh (bs ++ rest)) (syncPage (Block_Hash <$> bs) hh)
    (λ k w, k = hh + length bs ∧ R k rest w).
Proof.
  revert hh. induction bs as [|b bs IH]; intros hh Hlt Hserve; cbn [fmap list_fmap syncPage].
  - apply triple_ret. intros w Hw. rewrite Z.add_0_r. done.
  - apply (triple_bind _ _ _ (λ blk w, blk = b ∧ R hh (b :: bs ++ rest) w)).
    + intros w Hw. unfold call_node. rewrite Hserve by apply list_elem_of_here.
      split; [done|by apply step_tick].
    + intros blk. apply triple_pure. intros ->.
      eapply triple_bind; [by apply triple_Execute, step_block|]. intros [].
      eapply triple_consequence; [apply IH; [lia|]|done|].
      * intros n b' Hb'. apply Hserve. by apply list_elem_of_further.
      * intros k w [-> Hr]. split; [|done]. cbn [length]. lia.
Qed.
End pages.

#[export] Instance ready_step `{Bip32Safe} `{BitcoinClient} {E : error → Prop} h V :
  BlockStep (E := E) h V.1 (λ hh bs w, ready E h hh V bs w).
Proof.
  split.
  - intros hh bs w. apply ready_tick.
  - intros hh b bs. apply processBlock_ready.
  - intros hh bs w Hr. by rewrite <- (rd_frame _ _ _ _ _ _ Hr).
Qed.

(** ** What processing a block never touches *)

Section best.
Context `{Bip32} `{BitcoinClient} (best : Z) (n : Network).
Definition best_kept (w : W) : Prop := bestHeader w = best ∧ net w = n.

Lemma best_modify f :
  (∀ w, bestHeader (f w) = bestHeader w ∧ net (f w) = net w) → preserves best_kept (modify f).
Proof. intros Hf w [? ?]. destruct (Hf w). split; simpl; congruence. Qed.
Lemma best_on_repo {A} (m : M repository A) : preserves best_kept (on_repo m).
Proof. intros w Hw. unfold on_repo, zoom. by destruct (m (repo w)). Qed.
Lemma best_call_node {A} (f : nat → outcome A) : preserves best_kept (call_node f).
Proof. by intros w Hw. Qed.
Lemma best_set_wallet i wl : preserves best_kept (set_wallet i wl).
Proof. by apply best_modify. Qed.
Lemma best_get_wallet i : preserves best_kept (get_wallet i).
Proof. unfold get_wallet. auto with preserve. Qed.
Lemma best_Execute {A} (m : M W A) : preserves best_kept m → preserves best_kept (Execute m).
Proof.
  intros Hm w Hw. specialize (Hm w Hw). unfold Execute. by destruct (m w) as [[] w'].
Qed.
Lemma best_fold_idx {A B} i (l : list A) (body : Z → A → B → M W B) acc :
  (∀ j x acc, preserves best_kept (body j x acc)) → preserves best_kept (fold_idx i l body acc).
Proof.
  intros Hb. revert i acc. induction l as [|x l IH]; intros i acc; simpl; [auto with preserve|].
  apply preserves_bind; auto.
Qed.

Hint Resolve best_on_repo best_call_node best_set_wallet best_get_wallet : preserve.

Ltac best_calls :=
  repeat first
    [ by auto with preserve
    | apply preserves_bind; [|intros ?]
    | apply best_modify; by intros
    | progress cbv beta zeta
    | case_match ].

Lemma best_syncPage hbuf h : preserves best_kept (syncPage hbuf h).
Proof.
  revert h. induction hbuf as [|bh hbuf IH]; intros h; simpl; [auto with preserve|].
  apply preserves_bind; [auto with preserve|]. intros b.
  apply preserves_bind; [apply best_Execute|auto].
  unfold processBlock. apply preserves_bind.
  - apply best_fold_idx. intros j tx acc. unfold processTransaction.
    apply preserves_bind; [|intros ?]; apply best_fold_idx; intros.
    + unfold processOutput, recordTransaction, walletUpdateIndexes, refillWallet, refillAccount.
      best_calls.
    + unfold processInput, recordTransaction. apply preserves_bind; [|intros ?; best_calls].
      intros w Hw. pose proof (best_on_repo (selectUnspentOutput (makeTxidVout (in_Txid x) (in_Vout x))) w Hw) as Hr.
      destruct (on_repo (selectUnspentOutput _) w) as [[| [] | |] w']; exact Hr.
  - intros updatedSH. apply preserves_bind; [auto with preserve|]. intros m.
    apply preserves_bind; [|intros _]; apply preserves_forM; intros x _.
    + unfold raiseWalletHeight. best_calls.
    + unfold notifyStatus, getScriptHashStatus, notifyScriptHashSubscribers. best_calls.
Qed.
End best.

(** ** Catching up *)

Section catch_up.
Context `{Bip32} `{BitcoinClient} {E : error → Prop}.

(** The pages of [syncWallets] cover all the blocks up to the best header. *)
Lemma syncWallets_loop_spec h T R `{!BlockStep (E := E) h T R} bs rows fuel hh w g :
  h < hh → 1 ≤ hh → (∀ e, ¬ E e) →
  R hh bs w → chain_ok g (r_db (repo w)) rows →
  drop (Z.to_nat (hh - 1)) rows.*1 = Block_Hash <$> bs → bestHeader w = length rows →
  (∀ n b, b ∈ bs → GetBlock n (Block_Hash b) = Ok b) →
  (length bs < fuel)%nat →
  ∃ w', syncWallets_loop fuel hh w = (Ok tt, w') ∧ R (hh + length bs) [] w' ∧
    bestHeader w' = bestHeader w ∧ net w' = net w.
Proof.
  revert bs hh w. induction fuel as [|fuel IH]; intros bs hh w Hlt Hpos HE Hr Hc Hd Hb Hserve Hf; [lia|].
  pose proof (f_equal length Hd) as Hlen. rewrite length_drop, !length_fmap in Hlen.
  cbn [syncWallets_loop]. rewrite (bind_Ok_1 (gets _) _ w (bestHeader w) w) by done.
  destruct bs as [|b0 bs0].
  - simpl in Hlen. destruct (Z.ltb_spec (bestHeader w) hh); [|lia].
    exists w. rewrite Z.add_0_r. done.
  - set (bs := b0 :: bs0) in *. assert (0 < length bs)%nat by (simpl; lia).
    destruct (Z.ltb_spec (bestHeader w) hh); [lia|].
    assert (on_repo (selectBlockHashesAtHeight hh page_size []) w =
      (Ok (Block_Hash <$> take 2000 bs), w)) as Hpage.
    { apply on_repo_read. rewrite (selectBlockHashesAtHeight_chain Hc) by (done || lia).
      rewrite Hd. by rewrite <- fmap_take. }
    rewrite (bind_Ok_1 _ _ _ _ _ Hpage), bind_run.
    assert (R hh (take 2000 bs ++ drop 2000 bs) w) as Hr2 by by rewrite take_drop.
    assert (∀ n b, b ∈ take 2000 bs → GetBlock n (Block_Hash b) = Ok b) as Hserve2.
    { intros n b Hin. by eapply Hserve, elem_of_take_of. }
    pose proof (syncPage_triple h T R hh (take 2000 bs) (drop 2000 bs) Hlt Hserve2 w Hr2) as Ht.
    pose proof (best_syncPage (bestHeader w) (net w) (Block_Hash <$> take 2000 bs) hh w (conj eq_refl eq_refl))
      as [Hb1 Hn1].
    destruct (syncPage (Block_Hash <$> take 2000 bs) hh w) as [[k|e| |] w1]; try done;
      [|by destruct (HE e)].
    simpl in Hb1, Hn1. destruct Ht as [-> Hr1].
    assert (t_blockheader (r_db (repo w1)) = t_blockheader (r_db (repo w))) as Hhd.
    { by rewrite (step_headers _ _ _ Hr1), (step_headers _ _ _ Hr). }
    assert (length (take 2000 bs) = 2000%nat ∨ drop 2000 bs = []) as Hcase.
    { rewrite length_take. destruct (decide (2000 ≤ length bs)%nat); [left; lia|right].
      apply drop_ge. lia. }
    assert (length (take 2000 bs) + length (drop 2000 bs) = length bs)%nat as Hsum.
    { rewrite <- length_app. by rewrite take_drop. }
    destruct (IH (drop 2000 bs) (hh + length (take 2000 bs)) w1) as (w' & Hrun & Hr' & Hb' & Hn').
    + lia.
    + lia.
    + done.
    + done.
    + unfold chain_ok, header_rows in *. by rewrite Hhd.
    + rewrite fmap_drop, <- Hd, drop_drop. destruct Hcase as [Hc2|Hc2].
      * f_equal. rewrite Hc2. lia.
      * rewrite !drop_ge; [done|..]; rewrite length_fmap; apply (f_equal length) in Hc2;
          rewrite length_drop in Hc2; cbn [length] in Hc2; rewrite ?length_take; lia.
    + by rewrite Hb1.
    + intros n b Hin. by eapply Hserve, elem_of_drop_of.
    + rewrite length_drop. lia.
    + exists w'. split; [done|]. split; [|split; congruence].
      by replace (hh + length bs) with (hh + length (take 2000 bs) + length (drop 2000 bs)) by lia.
Qed.

(** [syncWallets] from the lowest wallet to the best header. *)
Lemma syncWallets_run T R `{!BlockStep (E := E) (min_height wl ws) T R} bs rows fuel w g :
  let h := min_height wl ws in
  (∀ e, ¬ E e) → wallets w = wl :: ws → 0 ≤ h →
  R (h + 1) bs w → chain_ok g (r_db (repo w)) rows →
  drop (Z.to_nat h) rows.*1 = Block_Hash <$> bs → bestHeader w = length rows →
  (∀ n b, b ∈ bs → GetBlock n (Block_Hash b) = Ok b) →
  (length bs < fuel)%nat →
  ∃ w', syncWallets fuel w = (Ok tt, w') ∧ R (h + 1 + length bs) [] w' ∧
    bestHeader w' = bestHeader w ∧ net w' = net w.
Proof.
  intros h HE Hws Hh Hr Hc Hd Hb Hserve Hf. unfold syncWallets.
  rewrite (bind_Ok_1 get _ w w w) by done. rewrite Hws. fold h.
  pose proof (f_equal length Hd) as Hlen. rewrite length_drop, !length_fmap in Hlen.
  destruct (Z.leb_spec (bestHeader w) h) as [Hle|Hgt].
  - assert (bs = []) as -> by (destruct bs; simpl in *; [done|lia]).
    exists w. by rewrite Z.add_0_r.
  - apply (syncWallets_loop_spec h T R bs rows fuel (h + 1) w g); try done; try lia.
    by replace (h + 1 - 1) with h by lia.
Qed.
End catch_up.
