(* ===== verification/Heights.v ===== *)
(** * Heights: how far the wallets have been scanned

    [processBlock] raises the height of every wallet to that of the block, and
    changes no height otherwise; the lowest wallet is thus at the last block that
    was processed. *)

From S2P Require Import Prelude Bytes Sha256 Merkle BitcoinTypes ScriptPubkey.
From S2P Require Import Database Repository RepositoryFacts Wallet WalletFacts Genesis Sync HeaderSync.

Definition heights (w : W) : list Z := height <$> wallets w.

Section heights.
Context `{Bip32} (l : list Z).

Definition at_heights (w : W) : Prop := heights w = l.

Lemma heights_on_repo {A} (m : M repository A) : preserves at_heights (on_repo m).
Proof. intros w Hw. unfold on_repo, zoom. by destruct (m (repo w)). Qed.
Lemma heights_modify f : (∀ w, wallets (f w) = wallets w) → preserves at_heights (modify f).
Proof. intros Hf w Hw. unfold at_heights, heights in *. cbn. by rewrite Hf. Qed.

Hint Resolve heights_on_repo : preserve.

(** Reading a wallet, and storing it with the same height. *)
Definition keeps_wallet (i : nat) (x : Z) (w : W) : Prop := at_heights w ∧ heights w !! i = Some x.

Lemma heights_set i wl w : keeps_wallet i (height wl) w → at_heights (upd_wallets <[i := wl]> w).
Proof.
  unfold keeps_wallet, at_heights, heights. intros [Hl Hi]. cbn.
  rewrite list_fmap_insert, list_insert_id; done.
Qed.

Lemma heights_with {A} i (k : wallet → M W A) :
  (∀ wl w, keeps_wallet i (height wl) w → at_heights (k wl w).2) →
  preserves at_heights (wl ← get_wallet i; k wl).
Proof.
  intros Hk w Hw. unfold get_wallet. rewrite bind_assoc, bind_run. cbn [gets].
  rewrite bind_run. unfold lift_outcome. destruct (index (wallets w) i) as [wl|e|why|] eqn:E; try done.
  apply Hk. split; [done|]. apply index_Ok in E. unfold heights. by rewrite list_lookup_fmap, E.
Qed.

Lemma heights_refillAccount i acc : preserves at_heights (refillAccount i acc).
Proof.
  apply heights_with. intros wl w Hw. destruct (offAndCount _ _) as [offset count].
  case_bool_decide; [|apply Hw]. rewrite bind_run. unfold lift_outcome.
  destruct (deriveScriptPubkeys wl acc offset count) as [scripts|e|why|]; try apply Hw.
  rewrite bind_run. unfold modify, set_wallet, modify.
  apply heights_set. by destruct acc.
Qed.

Lemma heights_walletUpdateIndexes info : preserves at_heights (walletUpdateIndexes info).
Proof.
  apply heights_with. intros wl w Hw.
  destruct (account info); (destruct (_ <? _); [apply Hw|]);
    rewrite bind_run; unfold on_repo, zoom, updateWalletIndexes, exec; cbn [fst snd];
    unfold set_wallet, modify; by apply heights_set.
Qed.

Lemma heights_fold_idx {A B} i (xs : list A) (body : Z → A → B → M W B) acc :
  (∀ j x acc, preserves at_heights (body j x acc)) → preserves at_heights (fold_idx i xs body acc).
Proof.
  intros Hb. revert i acc. induction xs as [|x xs IH]; intros i acc; simpl; [auto with preserve|].
  apply preserves_bind; auto.
Qed.

Lemma heights_record b tx pos sh : preserves at_heights (recordTransaction b tx pos sh).
Proof.
  unfold recordTransaction. apply preserves_bind; [auto with preserve|]. intros [p br].
  apply preserves_bind; [case_bool_decide; auto with preserve|]. intros [].
  apply preserves_bind; [|intros []]; apply heights_on_repo.
Qed.

Lemma heights_processTransaction b h i tx acc : preserves at_heights (processTransaction b h i tx acc).
Proof.
  unfold processTransaction. apply preserves_bind; [|intros ?]; apply heights_fold_idx.
  - intros j out acc'. unfold processOutput. apply preserves_bind; [auto with preserve|]. intros [info|]; [|auto with preserve].
    apply preserves_bind; [apply heights_record|intros []].
    apply preserves_bind; [apply heights_on_repo|intros []].
    apply preserves_bind; [apply heights_walletUpdateIndexes|intros []].
    apply preserves_bind; [|intros []; auto with preserve].
    apply preserves_bind; [|intros []]; apply heights_refillAccount.
  - intros j inp acc'. unfold processInput. apply preserves_bind.
    + intros w Hw. pose proof (heights_on_repo (selectUnspentOutput (makeTxidVout (in_Txid inp) (in_Vout inp))) w Hw) as Hr.
      destruct (on_repo (selectUnspentOutput _) w) as [[| [] | |] w']; exact Hr.
    + intros [u|]; [|auto with preserve].
      apply preserves_bind; [apply heights_record|intros []].
      apply preserves_bind; [apply heights_on_repo|intros []]. auto with preserve.
Qed.

Lemma heights_notifyStatus sh : preserves at_heights (notifyStatus sh).
Proof.
  unfold notifyStatus, getScriptHashStatus, notifyScriptHashSubscribers.
  apply preserves_bind; [apply preserves_bind; [apply heights_on_repo|intros ?; auto with preserve]|].
  intros st. by apply heights_modify.
Qed.
End heights.

(** ** Raising *)

Section raise.
Context `{Bip32} (hh : Z).

Lemma raiseWalletHeight_heights i w w' :
  raiseWalletHeight hh i w = (Ok tt, w') → ∃ x, heights w !! i = Some x ∧
    heights w' = <[i := Z.max hh x]> (heights w).
Proof.
  unfold raiseWalletHeight, get_wallet. rewrite bind_assoc, bind_run. cbn [gets].
  rewrite bind_run. unfold lift_outcome. destruct (index (wallets w) i) as [wl|e|why|] eqn:E; try done.
  apply index_Ok in E. intros Hr. exists (height wl). unfold heights.
  assert ((height <$> wallets w) !! i = Some (height wl)) as Hi by by rewrite list_lookup_fmap, E.
  split; [done|]. revert Hr. destruct (Z.leb_spec hh (height wl)).
  - intros [= <-]. rewrite Z.max_r by done. by rewrite list_insert_id.
  - rewrite bind_run. unfold on_repo, zoom, updateWalletHeight, exec. cbn [fst snd].
    unfold set_wallet, modify. intros [= <-]. cbn. rewrite list_fmap_insert. cbn.
    by rewrite Z.max_l by lia.
Qed.

Lemma raise_all i n w w' :
  forM (seq i n) (raiseWalletHeight hh) w = (Ok tt, w') →
  ∀ j, heights w' !! j =
    (λ x, if decide (i ≤ j < i + n)%nat then Z.max hh x else x) <$> heights w !! j.
Proof.
  revert i w. induction n as [|n IH]; intros i w; cbn [seq forM].
  { intros [= <-] j. destruct (heights w !! j); [|done]. cbn. by rewrite decide_False by lia. }
  rewrite bind_run. destruct (raiseWalletHeight hh i w) as [[[]|e|why|] w1] eqn:E; try done.
  destruct (raiseWalletHeight_heights _ _ _ E) as (x & Hx & Hw1). intros Hr j.
  rewrite (IH _ _ Hr), Hw1. destruct (decide (j = i)) as [->|Hne].
  - rewrite list_lookup_insert_eq by by eapply lookup_lt_Some. rewrite Hx. cbn.
    rewrite decide_False by lia. by rewrite decide_True by lia.
  - rewrite list_lookup_insert_ne by done. destruct (heights w !! j) as [y|]; [|done]. cbn.
    destruct (decide (S i ≤ j < S (i + n))%nat); [by rewrite decide_True by lia|by rewrite decide_False by lia].
Qed.

(** A block that is processed raises every wallet to its height. *)
Lemma processBlock_heights b w w' :
  processBlock b hh w = (Ok tt, w') → heights w' = Z.max hh <$> heights w.
Proof.
  unfold processBlock. rewrite bind_run.
  pose proof (heights_fold_idx (heights w) 0 (Transactions b) (processTransaction b hh) ∅
    (λ j x acc, heights_processTransaction _ b hh j x acc) w eq_refl) as H1.
  destruct (fold_idx _ _ _ _ w) as [[sh|e|why|] w1]; try done. cbn [snd] in H1.
  rewrite bind_run. cbn [gets]. rewrite bind_run.
  destruct (forM (seq 0 (length (wallets w1))) (raiseWalletHeight hh) w1) as [[[]|e|why|] w2] eqn:E; try done.
  pose proof (raise_all _ _ _ _ E) as H2. intros Hr.
  pose proof (preserves_forM (at_heights (heights w2)) (elements sh) notifyStatus
    (λ x _, heights_notifyStatus _ x) w2 eq_refl) as H3. rewrite Hr in H3. cbn [snd] in H3.
  rewrite H3. apply list_eq. intros j. rewrite H2, H1, list_lookup_fmap.
  destruct (heights w !! j) as [x|] eqn:Ej; [|done]. cbn. rewrite decide_True; [done|].
  apply lookup_lt_Some in Ej. rewrite <- H1 in Ej. unfold heights in Ej. rewrite length_fmap in Ej. lia.
Qed.
End raise.

(** ** The lowest wallet *)

(** The lowest wallet is at [k]. *)
Definition lowest_at (k : Z) (w : W) : Prop := Forall (λ x, k ≤ x) (heights w) ∧ k ∈ heights w.

Lemma lowest_at_raised b k w w' `{Bip32} :
  processBlock b (k + 1) w = (Ok tt, w') → lowest_at k w → lowest_at (k + 1) w'.
Proof.
  intros Hr%processBlock_heights [Hall Hin]. unfold lowest_at. rewrite Hr. split.
  - apply Forall_fmap, Forall_forall. intros x _. cbn. lia.
  - apply list_elem_of_fmap. exists k. split; [lia|done].
Qed.

Lemma min_fold ws a :
  let m := foldl (λ h wl, Z.min h (height wl)) a ws in
  m ≤ a ∧ Forall (λ x, m ≤ x) (height <$> ws) ∧ (m = a ∨ m ∈ height <$> ws).
Proof.
  revert a. induction ws as [|wl ws IH]; intros a; cbn; [by split_and!; [lia|constructor|left]|].
  destruct (IH (Z.min a (height wl))) as (H1 & H2 & H3). split; [lia|].
  split; [constructor; [lia|done]|]. destruct H3 as [H3|H3]; [|right; by apply list_elem_of_further].
  set (m := foldl _ _ ws) in *. destruct (Z.min_spec a (height wl)) as [[_ E]|[_ E]]; rewrite E in H3; [by left|].
  right. rewrite H3. apply list_elem_of_here.
Qed.

Lemma lowest_min wl ws w : wallets w = wl :: ws → lowest_at (min_height wl ws) w.
Proof.
  intros Hw. unfold lowest_at, heights. rewrite Hw. unfold min_height.
  destruct (min_fold (wl :: ws) (height wl)) as (H1 & H2 & H3). split; [done|].
  destruct H3 as [H3|H3]; [|done]. rewrite H3. apply list_elem_of_here.
Qed.

Lemma lowest_unique k k' w : lowest_at k w → lowest_at k' w → k = k'.
Proof.
  intros [H1 H2] [H3 H4]. rewrite Forall_forall in H1, H3. specialize (H1 _ H4). specialize (H3 _ H2). lia.
Qed.
