(* ===== verification/Rows.v ===== *)
(** * Rows: the wallets in memory are the ones of their rows

    While the scan goes on, the height and the next indexes of every wallet are
    those of its row in the database, so that a manager that stops between two
    rounds and is started again resumes where it was. *)

From S2P Require Import Prelude Bytes Sha256 Merkle BitcoinTypes ScriptPubkey.
From S2P Require Import Database Repository RepositoryFacts Wallet WalletFacts Genesis Sync HeaderSync Manager.

(** ** Statements that change no wallet *)

Definition keeps_rows {A} (m : M repository A) : Prop :=
  ∀ r, t_wallet (r_db (m r).2) = t_wallet (r_db r).

Lemma keeps_rows_bind {A B} (m : M repository A) (k : A → M repository B) :
  keeps_rows m → (∀ a, keeps_rows (k a)) → keeps_rows (m ≫= k).
Proof.
  intros Hm Hk r. rewrite bind_run. specialize (Hm r). destruct (m r) as [[] r1]; try done; cbn [snd] in *.
  by rewrite Hk.
Qed.
Lemma keeps_rows_exec stmt :
  (∀ db db', stmt db = Ok db' → t_wallet db' = t_wallet db) → keeps_rows (exec stmt).
Proof. intros H r. unfold exec. destruct (stmt (r_db r)) eqn:E; [by apply H in E|done..]. Qed.
Lemma keeps_rows_query {A} (q : Database → outcome A) : keeps_rows (query q).
Proof. by intros r. Qed.
Lemma keeps_rows_modify f : (∀ r, r_db (f r) = r_db r) → keeps_rows (modify f).
Proof. intros H r. cbn. by rewrite H. Qed.

Create HintDb rows.
#[export] Hint Resolve keeps_rows_query keeps_rows_modify : rows.

Lemma keeps_rows_insertTransaction txid bh pos s p : keeps_rows (insertTransaction txid bh pos s p).
Proof. apply keeps_rows_exec. intros db db' [= <-]. by destruct (t_tx db !! txid). Qed.
Lemma keeps_rows_insertScriptPubkeyTransaction sh txid : keeps_rows (insertScriptPubkeyTransaction sh txid).
Proof. apply keeps_rows_exec. by intros db db' [= <-]. Qed.
Lemma keeps_rows_insertUnspentOutput tv sat sh : keeps_rows (insertUnspentOutput tv sat sh).
Proof.
  apply keeps_rows_bind; [|intros []; by apply keeps_rows_modify]. apply keeps_rows_exec. intros db db'.
  destruct (_ <=? _); [done|]. intros [= <-]. by destruct (t_unspent_output db !! tv).
Qed.
Lemma keeps_rows_deleteUnspentOutput tv h : keeps_rows (deleteUnspentOutput tv h).
Proof.
  apply keeps_rows_bind; [|intros []; by apply keeps_rows_modify]. apply keeps_rows_exec. intros db db' [= <-].
  by destruct (t_unspent_output db !! tv), (t_spent_output db !! tv).
Qed.
Lemma keeps_rows_selectUnspentOutput tv : keeps_rows (selectUnspentOutput tv).
Proof. intros r. unfold selectUnspentOutput. rewrite bind_run. cbn. by destruct (utxoIndex r !! tv). Qed.
#[export] Hint Resolve keeps_rows_insertTransaction keeps_rows_insertScriptPubkeyTransaction
  keeps_rows_insertUnspentOutput keeps_rows_deleteUnspentOutput keeps_rows_selectUnspentOutput : rows.

(** ** The invariant *)

Section rows.
Context `{Bip32} (configs : list WalletConfig).
Hypothesis Hnd : NoDup (config_hash <$> configs).

Record in_rows (w : W) : Prop := {
  ir_resumed : Forall2 (resumed (r_db (repo w))) configs (wallets w);
  ir_range : rows_ok (r_db (repo w));
}.

Lemma in_rows_same w w' :
  t_wallet (r_db (repo w')) = t_wallet (r_db (repo w)) → wallets w' = wallets w → in_rows w → in_rows w'.
Proof using Type.
  intros Ht Hw [Hr Ho]. split; [rewrite Hw|unfold rows_ok; by rewrite Ht].
  eapply Forall2_impl; [exact Hr|]. intros wc wl (row & Hrow & Hs). exists row. by rewrite Ht.
Qed.

Lemma in_rows_on_repo {A} (m : M repository A) : keeps_rows m → preserves in_rows (on_repo m).
Proof using Type.
  intros Hm w. unfold on_repo, zoom. specialize (Hm (repo w)). destruct (m (repo w)) as [o r].
  by apply in_rows_same.
Qed.

Lemma in_rows_modify f :
  (∀ w, repo (f w) = repo w ∧ wallets (f w) = wallets w) → preserves in_rows (modify f).
Proof using Type. intros Hf w. destruct (Hf w) as [Hr Hw]. apply in_rows_same; [cbn; by rewrite Hr|done]. Qed.

(** A wallet and its row change together. *)
Lemma in_rows_set i wl wl' f w :
  in_rows w → wallets w !! i = Some wl → same_config wl wl' →
  (∀ wc row, starts_from wc row wl → starts_from wc (f row) wl') →
  (∀ row, height wl = wr_height row → nextReceiveIndex wl = wr_next_receive_index row →
    nextChangeIndex wl = wr_next_change_index row →
    0 ≤ wr_next_receive_index row < 2 ^ 32 → 0 ≤ wr_next_change_index row < 2 ^ 32 →
    0 ≤ wr_next_receive_index (f row) < 2 ^ 32 ∧ 0 ≤ wr_next_change_index (f row) < 2 ^ 32) →
  in_rows (upd_wallets <[i := wl']> (upd_repo (upd_db (upd_wallet (alter f (hash wl)))) w)).
Proof using Hnd.
  intros [Hr Ho] Hi Hc Hf Hb.
  destruct (Forall2_lookup_r _ _ _ _ _ Hr Hi) as (wc & Hwc & row & Hrow & Hs).
  assert (hash wl = config_hash wc) as Hh by (by destruct Hs as ((_ & _ & _ & ?) & _)).
  split; cbn.
  - apply Forall2_same_length_lookup. pose proof (Forall2_length _ _ _ Hr) as Hl.
    split; [by rewrite length_insert|]. intros j wc2 wl2 Hwc2 Hwl2. unfold resumed. cbn.
    destruct (decide (j = i)) as [->|Hne].
    + rewrite list_lookup_insert_eq in Hwl2 by by eapply lookup_lt_Some. simplify_eq.
      exists (f row). rewrite Hh, lookup_alter_eq, Hrow. split; [done|]. by apply Hf.
    + rewrite list_lookup_insert_ne in Hwl2 by done.
      destruct (Forall2_lookup_lr _ _ _ _ _ _ Hr Hwc2 Hwl2) as (row2 & Hrow2 & Hs2).
      exists row2. split; [|done]. rewrite lookup_alter_ne; [done|]. rewrite Hh. intros E.
      apply Hne. eapply (NoDup_lookup _ _ _ (config_hash wc2) Hnd); rewrite list_lookup_fmap; [by rewrite Hwc2|].
      rewrite Hwc. cbn. by rewrite E.
  - intros hs row2 Hl. cbn in Hl. apply lookup_alter_Some in Hl as [(<- & row0 & Hr0 & ->)|[_ Hl]]; [|by eapply Ho].
    rewrite Hh, Hrow in Hr0. injection Hr0 as <-. destruct Hs as (_ & H1 & H2 & H3), (Ho _ _ Hrow). by apply Hb.
Qed.

Lemma in_rows_insert i wl wl' w :
  in_rows w → wallets w !! i = Some wl → same_config wl wl' →
  (∀ wc row, starts_from wc row wl → starts_from wc row wl') → in_rows (upd_wallets <[i := wl']> w).
Proof using Hnd.
  intros Hw Hi Hc Hs. eapply in_rows_same; [| |apply (in_rows_set i wl wl' id w Hw Hi Hc)]; try done.
  cbn. by rewrite alter_id.
Qed.

(** *** The steps of the scan *)

Lemma in_rows_with {A} i (k : wallet → M W A) :
  (∀ wl w, in_rows w → wallets w !! i = Some wl → in_rows (k wl w).2) →
  preserves in_rows (wl ← get_wallet i; k wl).
Proof using Type.
  intros Hk w Hw. unfold get_wallet. rewrite bind_assoc, bind_run. cbn [gets].
  rewrite bind_run. unfold lift_outcome. destruct (index (wallets w) i) as [wl|e|why|] eqn:E; try done.
  apply Hk; [done|]. by apply index_Ok in E.
Qed.

Lemma starts_from_derived wc row acc n wl : starts_from wc row wl → starts_from wc row (set_derived acc n wl).
Proof using Type. by destruct acc. Qed.

Lemma in_rows_refillAccount i acc : preserves in_rows (refillAccount i acc).
Proof using Hnd.
  apply in_rows_with. intros wl w Hw Hi. destruct (offAndCount _ _) as [offset count].
  case_bool_decide; [|done]. rewrite bind_run. unfold lift_outcome.
  destruct (deriveScriptPubkeys wl acc offset count) as [scripts|e|why|]; try done.
  rewrite bind_run. unfold modify, set_wallet, modify. cbn [snd].
  eapply in_rows_insert; [by apply (in_rows_same w)|exact Hi|apply same_config_set|].
  intros wc row. apply starts_from_derived.
Qed.

Lemma in_rows_walletUpdateIndexes info : preserves in_rows (walletUpdateIndexes info).
Proof using Hnd.
  apply in_rows_with. intros wl w Hw Hi.
  destruct (account info); (destruct (_ <? _); [done|]);
    rewrite bind_run; unfold on_repo, zoom, updateWalletIndexes, exec; cbn [fst snd];
    unfold set_wallet, modify; cbn [snd]; apply (in_rows_set _ wl); try done;
    try (by intros wc row (? & ? & ? & ?));
    intros row H1 H2 H3 H4 H5; cbn; (split; [apply uint32_wrap_range|lia]) || (split; [lia|apply uint32_wrap_range]).
Qed.

Lemma in_rows_fold_idx {A B} i (xs : list A) (body : Z → A → B → M W B) acc :
  (∀ j x acc, preserves in_rows (body j x acc)) → preserves in_rows (fold_idx i xs body acc).
Proof using Type.
  intros Hb. revert i acc. induction xs as [|x xs IH]; intros i acc; simpl; [auto with preserve|].
  apply preserves_bind; auto.
Qed.

Lemma in_rows_record b tx pos sh : preserves in_rows (recordTransaction b tx pos sh).
Proof using Type.
  unfold recordTransaction. apply preserves_bind; [auto with preserve|]. intros [p br].
  apply preserves_bind; [case_bool_decide; auto with preserve|]. intros [].
  apply preserves_bind; [|intros []]; apply in_rows_on_repo; auto with rows.
Qed.

Lemma in_rows_processTransaction b h i tx acc : preserves in_rows (processTransaction b h i tx acc).
Proof using Hnd.
  unfold processTransaction. apply preserves_bind; [|intros ?]; apply in_rows_fold_idx.
  - intros j out acc'. unfold processOutput. apply preserves_bind; [auto with preserve|]. intros [info|]; [|auto with preserve].
    apply preserves_bind; [apply in_rows_record|intros []].
    apply preserves_bind; [apply in_rows_on_repo; auto with rows|intros []].
    apply preserves_bind; [apply in_rows_walletUpdateIndexes|intros []].
    apply preserves_bind; [|intros []; auto with preserve].
    apply preserves_bind; [|intros []]; apply in_rows_refillAccount.
  - intros j inp acc'. unfold processInput. apply preserves_bind.
    + intros w Hw. pose proof (in_rows_on_repo (selectUnspentOutput (makeTxidVout (in_Txid inp) (in_Vout inp)))
        ltac:(auto with rows) w Hw) as Hr.
      destruct (on_repo (selectUnspentOutput _) w) as [[| [] | |] w']; exact Hr.
    + intros [u|]; [|auto with preserve].
      apply preserves_bind; [apply in_rows_record|intros []].
      apply preserves_bind; [apply in_rows_on_repo; auto with rows|intros []]. auto with preserve.
Qed.

Lemma in_rows_raiseWalletHeight h i : preserves in_rows (raiseWalletHeight h i).
Proof using Hnd.
  apply in_rows_with. intros wl w Hw Hi. destruct (h <=? height wl); [done|].
  rewrite bind_run. unfold on_repo, zoom, updateWalletHeight, exec. cbn [fst snd].
  unfold set_wallet, modify. cbn [snd]. apply (in_rows_set _ wl); try done.
  by intros wc row (? & ? & ? & ?).
Qed.

Lemma in_rows_notifyStatus sh : preserves in_rows (notifyStatus sh).
Proof using Type.
  unfold notifyStatus, getScriptHashStatus, notifyScriptHashSubscribers.
  apply preserves_bind; [apply preserves_bind; [apply in_rows_on_repo; apply keeps_rows_query|intros ?; auto with preserve]|].
  intros st. by apply in_rows_modify.
Qed.

Lemma in_rows_processBlock b h : preserves in_rows (processBlock b h).
Proof using Hnd.
  unfold processBlock. apply preserves_bind.
  - apply in_rows_fold_idx. intros j tx acc. apply in_rows_processTransaction.
  - intros sh. apply preserves_bind; [auto with preserve|]. intros w0.
    apply preserves_bind; [|intros []]; apply preserves_forM; intros x _;
      [apply in_rows_raiseWalletHeight|apply in_rows_notifyStatus].
Qed.
End rows.

(** ** Rounds that end without an error *)

(** A call that keeps [I] when it succeeds. *)
Definition on_Ok {S A} (I : S → Prop) (m : M S A) : Prop := ∀ s a s', I s → m s = (Ok a, s') → I s'.

Section on_Ok.
Context {S : Type} (I : S → Prop).

Lemma on_Ok_preserves {A} (m : M S A) : preserves I m → on_Ok I m.
Proof. intros Hm s a s' Hs E. specialize (Hm s Hs). by rewrite E in Hm. Qed.

Lemma on_Ok_bind {A B} (m : M S A) (k : A → M S B) : on_Ok I m → (∀ a, on_Ok I (k a)) → on_Ok I (m ≫= k).
Proof.
  intros Hm Hk s b s' Hs. rewrite bind_run. destruct (m s) as [[a|e|why|] s1] eqn:E; try done.
  apply Hk. by eapply Hm.
Qed.
End on_Ok.

Section rounds.
Context `{Bip32} `{BitcoinClient} (configs : list WalletConfig).
Hypothesis Hnd : NoDup (config_hash <$> configs).

Lemma on_Ok_syncPage hbuf h : on_Ok (in_rows configs) (syncPage hbuf h).
Proof using Hnd.
  revert h. induction hbuf as [|bh hbuf IH]; intros h; cbn [syncPage]; [by apply on_Ok_preserves; auto with preserve|].
  apply on_Ok_bind; [apply on_Ok_preserves; intros w; by apply in_rows_same|]. intros b.
  apply on_Ok_bind; [|intros _; apply IH].
  intros w [] w' Hw. unfold Execute. pose proof (in_rows_processBlock configs Hnd b h w Hw) as Hb.
  destruct (processBlock b h w) as [[]]; try done. by intros [= _ <-].
Qed.

Lemma on_Ok_syncWallets fuel : on_Ok (in_rows configs) (syncWallets fuel).
Proof using Hnd.
  unfold syncWallets. apply on_Ok_bind; [by apply on_Ok_preserves; auto with preserve|]. intros w0.
  destruct (wallets w0) as [|wl ws]; [by apply on_Ok_preserves; auto with preserve|].
  case_match; [by apply on_Ok_preserves; auto with preserve|].
  generalize (min_height wl ws + 1). induction fuel as [|fuel IH]; intros h; cbn [syncWallets_loop].
  { by intros w a w'. }
  apply on_Ok_bind; [by apply on_Ok_preserves; auto with preserve|]. intros best.
  destruct (best <? h); [by apply on_Ok_preserves; auto with preserve|].
  apply on_Ok_bind; [apply on_Ok_preserves, in_rows_on_repo, keeps_rows_query|]. intros hbuf.
  apply on_Ok_bind; [apply on_Ok_syncPage|apply IH].
Qed.

(** A roll back lowers the wallets and their rows alike. *)
Lemma deleteAllSinceBlock_rows h r r' :
  deleteAllSinceBlock h r = (Ok tt, r') → t_wallet (r_db r') = t_wallet (lower_wallets h (r_db r)).
Proof using Type.
  unfold deleteAllSinceBlock, exec, restore_spent_above. case_bool_decide; [|done]. by intros [= <-].
Qed.

Lemma keeps_rows_reloadCaches : keeps_rows reloadCaches.
Proof using Type.
  apply keeps_rows_bind; [by apply keeps_rows_modify|]. intros [].
  apply keeps_rows_bind; [apply keeps_rows_query|]. intros utxos. by apply keeps_rows_modify.
Qed.

Lemma in_rows_lowered h w w' :
  t_wallet (r_db (repo w')) = t_wallet (lower_wallets h (r_db (repo w))) →
  wallets w' = (λ wl, set_height (Z.min h (height wl)) wl) <$> wallets w →
  in_rows configs w → in_rows configs w'.
Proof using Type.
  intros Ht Hw [Hr Ho]. cbn in Ht. split.
  - rewrite Hw. apply Forall2_fmap_r. eapply Forall2_impl; [exact Hr|].
    intros wc wl (row & Hrow & Hc & Hh & Hs). eexists. rewrite Ht, lookup_fmap, Hrow. split; [reflexivity|].
    split; [done|]. split; [|done]. cbn. rewrite Hh. destruct (Z.ltb_spec h (wr_height row)); lia.
  - intros hs row. rewrite Ht, lookup_fmap, fmap_Some. intros (row0 & Hl & ->). cbn. by apply Ho in Hl.
Qed.

Lemma on_Ok_processReorg h : on_Ok (in_rows configs) (processReorg h).
Proof using Type.
  unfold processReorg. apply on_Ok_bind; [apply on_Ok_preserves, in_rows_on_repo, keeps_rows_query|].
  intros [|h0 hs]; [by intros w a w'|]. intros w [] w' Hw.
  rewrite bind_run. unfold on_repo at 1, zoom.
  destruct (deleteAllSinceBlock h (repo w)) as [[[]|e|why|] r1] eqn:E1; try done.
  apply deleteAllSinceBlock_rows in E1. rewrite bind_run. unfold on_repo, zoom. cbn [repo upd_repo].
  pose proof (keeps_rows_reloadCaches r1) as E2. destruct (reloadCaches r1) as [[[]|e|why|] r2]; try done.
  cbn [snd] in E2. rewrite bind_run. unfold modify. intros [= <-]. apply (in_rows_lowered h w); [|done|exact Hw].
  cbn. by rewrite E2, E1.
Qed.

Lemma in_rows_syncHeaders fuel : preserves (in_rows configs) (syncHeaders fuel).
Proof using Type.
  assert (∀ w, in_rows configs w → in_rows configs (tick w)) as Htick by (intros w; by apply in_rows_same).
  apply preserves_syncHeaders; [done|intros k hs w; by apply in_rows_same|].
  intros hdr. unfold processHeader. apply preserves_bind; [auto with preserve|]. intros wi.
  case_bool_decide; [apply preserves_bind; [by apply preserves_checkReorg|auto with preserve]|].
  cbv zeta. apply preserves_bind; [by apply in_rows_modify|]. intros [].
  apply preserves_bind; [|intros []; by apply in_rows_modify].
  apply in_rows_on_repo. unfold insertBlockHeader. case_bool_decide; [by intros r|]. apply keeps_rows_exec.
  intros db db' (hd & _ & [= <-])%outcome_bind_Ok. done.
Qed.

Lemma on_Ok_syncRound fuel : on_Ok (in_rows configs) (syncRound fuel).
Proof using Hnd.
  unfold syncRound. apply on_Ok_bind; [|intros _; apply on_Ok_syncWallets].
  intros w [] w' Hw. pose proof (in_rows_syncHeaders fuel w Hw) as Hh.
  destruct (syncHeaders fuel w) as [[[]|[]|why|] w1]; try done; [by intros [= <-]|].
  cbn [snd] in Hh. intros Hr. by eapply on_Ok_processReorg.
Qed.
End rounds.

(** ** Starting again *)

(** A manager that is started over these tables adds no row to them, and its
    wallets are at the same heights. *)
Lemma in_rows_restart configs w :
  in_rows configs w →
  setup_all configs (r_db (repo w)) = r_db (repo w) ∧
  starting_heights configs (r_db (repo w)) = height <$> wallets w.
Proof.
  intros [Hr _].
  assert (setup_all configs (r_db (repo w)) = r_db (repo w)) as Hs.
  { apply setup_all_id, Forall_forall. intros wc [i Hi]%list_elem_of_lookup.
    destruct (Forall2_lookup_l _ _ _ _ _ Hr Hi) as (wl & _ & row & Hrow & _). by exists row. }
  split; [done|]. unfold starting_heights. by rewrite Hs, (resumed_heights _ _ _ Hr).
Qed.
