(* ===== verification/Utxo.v ===== *)
(** * Utxo: the abstract ledger of a chain

    What the wallet manager promises: its table of unspent outputs, as far as a
    set [K] of script hashes is concerned, is the set of unspent outputs of the
    chain.  [utxo_chain] says what that set is, with no table, index or wallet;
    the refinement is proved one transaction, one block and one page at a
    time. *)

From S2P Require Import Prelude Bytes Sha256 Merkle BitcoinTypes ScriptPubkey.
From S2P Require Import Database Repository RepositoryFacts Chain Ledger Wallet WalletFacts Scan.
From S2P Require Import Genesis Sync HeaderSync BlockScan Heights.

(** ** The specification *)

Definition script_hash (out : Output) : bytes := Sha256.Sum256 (ScriptPubkey out).

Section spec.
Context (K : gset bytes).
Implicit Types (m : gmap bytes utxoRow).

(** The outputs of a transaction that pay a script of [K] are added, *)
Fixpoint credit (es : list (bytes * (bytes * Output))) m : gmap bytes utxoRow :=
  match es with
  | [] => m
  | (tv, (_, out)) :: es =>
      credit es (if bool_decide (script_hash out ∈ K) then <[tv := out_row out]> m else m)
  end.

(** and then the outputs that its inputs spend are removed. *)
Definition utxo_tx m (tx : Transaction) : gmap bytes utxoRow :=
  foldr delete (credit (tx_entries (Txid tx) 0 (Outputs tx)) m) (tx_spends tx).*1.

Definition utxo_txs : gmap bytes utxoRow → list Transaction → gmap bytes utxoRow := foldl utxo_tx.
Definition utxo_block m (b : Block) : gmap bytes utxoRow := utxo_txs m (Transactions b).
Definition utxo_chain : gmap bytes utxoRow → list Block → gmap bytes utxoRow := foldl utxo_block.

(** The table of unspent outputs, as far as [K] is concerned. *)
Definition known_utxos (db : Database) : gmap bytes utxoRow :=
  filter (λ p, uo_scriptpubkey_hash p.2 ∈ K) (t_unspent_output db).

Lemma known_utxos_Some db tv row :
  known_utxos db !! tv = Some row ↔
    t_unspent_output db !! tv = Some row ∧ uo_scriptpubkey_hash row ∈ K.
Proof. apply map_lookup_filter_Some. Qed.

Lemma credit_Some es m tv row :
  NoDup es.*1 → (∀ tv, tv ∈ es.*1 → m !! tv = None) →
  credit es m !! tv = Some row ↔
    m !! tv = Some row ∨
    ∃ txid out, (tv, (txid, out)) ∈ es ∧ script_hash out ∈ K ∧ row = out_row out.
Proof.
  revert m. induction es as [|[tv0 [txid0 out0]] es IH]; intros m Hnd Hm; cbn [credit].
  { split; [by left|]. by intros [|(? & ? & []%elem_of_nil & _)]. }
  rewrite fmap_cons in Hnd, Hm. apply NoDup_cons in Hnd as [Hni Hnd]. cbn [fst] in *.
  rewrite IH; [|done|].
  2: { intros tv' Hin. case_bool_decide; [|by apply Hm, list_elem_of_further].
       rewrite lookup_insert_ne by (by intros ->). by apply Hm, list_elem_of_further. }
  pose proof (Hm tv0 (list_elem_of_here _ _)) as Hm0.
  split.
  - intros [Hl|(txid & out & Hin & Hk & ->)].
    2: { right. exists txid, out. split; [by apply list_elem_of_further|done]. }
    case_bool_decide as Hk; [|by left].
    apply lookup_insert_Some in Hl as [[<- <-]|[_ Hl]]; [right|by left].
    exists txid0, out0. split; [apply list_elem_of_here|done].
  - intros [Hl|(txid & out & [[= -> -> ->]|Hin]%elem_of_cons & Hk & ->)].
    + left. case_bool_decide; [|done]. rewrite lookup_insert_ne; [done|congruence].
    + left. rewrite bool_decide_eq_true_2 by done. by rewrite lookup_insert_eq.
    + right. by exists txid, out.
Qed.
End spec.

(** ** One transaction *)

Section block.
Context `{Bip32Safe} `{BitcoinClient}.
Context (E : error → Prop) (h hh : Z) (b : Block).
Hypothesis Hlt : h < hh.
Hypothesis Hblock : block_ok b.
Context (V : gmap bytes headerRow *
  (gmap bytes utxoRow * gmap bytes stxoRow * gmap bytes txRow * gset (bytes * bytes))).
Context (future : list bytes).
Hypothesis Hfuture : ∀ txid, txid ∈ TXIDs b → txid ∉ future.
Context (nwallets : nat) (K : gset bytes).

(** The state of the scan where [m] is what the specification says, and the
    scripts of [K] are in the index. *)
Record tracks (m : gmap bytes utxoRow) (w : W) : Prop := {
  tr_utxos : known_utxos K (r_db (repo w)) = m;
  tr_known : ∀ sh, sh ∈ K → is_Some (scriptPubkeys w !! sh);
}.

(** The invariant of the scan, with the progress counted from here on. *)
Definition here (pending : list bytes) (w : W) : Prop :=
  blk E h hh b V (scriptPubkeys w) (t_unspent_output (r_db (repo w))) future nwallets pending [] [] w.

Lemma blk_here known unspent0 pending outs ins w :
  blk E h hh b V known unspent0 future nwallets pending outs ins w → here pending w.
Proof. intros [? ? ? ? ? ?]. split; try done. by apply progress_start. Qed.

Lemma tracks_outputs m (pos : nat) tx rest updatedSH :
  Transactions b !! pos = Some tx → NoDup (outpoints (tx :: rest)) → tx_ok tx →
  triple E (λ w, here (outpoints (tx :: rest)) w ∧ tracks m w)
    (fold_idx 0 (Outputs tx) (λ j out, processOutput b tx pos out (uint32_wrap j)) updatedSH)
    (λ _ w, here (outpoints rest) w ∧ tracks (credit K (tx_entries (Txid tx) 0 (Outputs tx)) m) w).
Proof.
  intros Hpos Hnd Htx w [Hb [<- Hk]].
  pose proof (processOutputs_triple E h hh b Hlt Hblock V _ _ future Hfuture nwallets
    pos tx rest [] [] updatedSH Hpos Hnd Htx w Hb) as Ht.
  destruct (fold_idx _ _ _ _ w) as [[a|e| |] w']; try done.
  split; [by eapply blk_here|]. destruct Ht as [_ [Hkn Hc Hd Hs] _ _ _ _]. cbn [app] in *.
  split; [|intros sh Hsh; by apply Hkn, Hk].
  set (es := tx_entries (Txid tx) 0 (Outputs tx)) in *.
  assert (es.*1 `prefix_of` outpoints (tx :: rest)) as Hpre.
  { exists (outpoints rest). unfold es. by rewrite tx_entries_fst. }
  apply map_eq. intros tv. apply option_eq. intros row.
  rewrite credit_Some, !known_utxos_Some.
  - split.
    + intros [Hl Hrow]. destruct (Hs _ _ Hl) as [|(txid & out & Hin & -> & _)]; [by left|right].
      by exists txid, out.
    + intros [[Hl Hrow]|(txid & out & Hin & Hrow & ->)]; (split; [|done]).
      * destruct (Hd _ _ Hl) as [[? _]|(_ & txid & []%elem_of_nil & _)]; done.
      * destruct (Hc _ _ _ Hin (Hk _ Hrow)) as [[|[_ Hspent]] _]; [done|].
        by apply elem_of_nil in Hspent.
  - destruct Hpre as [l Hl]. rewrite Hl in Hnd. by apply NoDup_app in Hnd as [? _].
  - intros tv' Hin. apply eq_None_not_Some. intros [row' [Hl _]%known_utxos_Some].
    destruct (sc_fresh _ _ _ _ _ _ _ (bk_scan _ _ _ _ _ _ _ _ _ _ _ _ _ Hb) tv') as [Hn _]; [|congruence].
    destruct Hpre as [l ->]. apply elem_of_app. by left.
Qed.

Lemma tracks_inputs m (pos : nat) tx pending updatedSH :
  Transactions b !! pos = Some tx →
  triple E (λ w, here pending w ∧ tracks m w)
    (fold_idx 0 (Inputs tx) (λ _ inp, processInput b hh tx pos inp) updatedSH)
    (λ _ w, here pending w ∧ tracks (foldr delete m (tx_spends tx).*1) w).
Proof.
  intros Hpos w [Hb [<- Hk]].
  pose proof (processInputs_triple E h hh b Hlt Hblock V _ _ future Hfuture nwallets
    pos tx pending [] [] updatedSH Hpos w Hb) as Ht.
  destruct (fold_idx _ _ _ _ w) as [[a|e| |] w']; try done.
  split; [by eapply blk_here|]. destruct Ht as [Hsc [Hkn _ Hd Hs] _ _ _ _]. cbn [app] in *.
  split; [|intros sh Hsh; by apply Hkn, Hk].
  apply map_eq. intros tv. apply option_eq. intros row.
  rewrite known_utxos_Some. destruct (decide (tv ∈ (tx_spends tx).*1)) as [Hin|Hni].
  - rewrite lookup_foldr_delete by done. split; [|done]. intros [Hl _].
    destruct (Hs _ _ Hl) as [Hl0|(txid & out & []%elem_of_nil & _)].
    destruct (Hd _ _ Hl0) as [[_ []]|[Hspent _]]; [done|].
    pose proof (ok_disjoint _ _ (sc_db _ _ _ _ _ _ _ Hsc) _ _ Hspent). congruence.
  - rewrite lookup_foldr_delete_not_elem_of, known_utxos_Some by done.
    split; intros [Hl Hrow]; (split; [|done]).
    + destruct (Hs _ _ Hl) as [|(txid & out & []%elem_of_nil & _)]; done.
    + destruct (Hd _ _ Hl) as [[]|(_ & txid & Hin & _)]; [done|]. destruct Hni.
      apply list_elem_of_fmap. by exists (tv, txid).
Qed.

Lemma tracks_transaction m (pos : nat) tx updatedSH :
  Transactions b !! pos = Some tx →
  triple E (λ w, here (outpoints (drop pos (Transactions b))) w ∧ tracks m w)
    (processTransaction b hh pos tx updatedSH)
    (λ _ w, here (outpoints (drop (S pos) (Transactions b))) w ∧ tracks (utxo_tx K m tx) w).
Proof.
  intros Hpos. unfold processTransaction. rewrite (drop_S _ _ _ Hpos).
  eapply triple_bind; [apply tracks_outputs; [done| |]|].
  2: { destruct Hblock as [_ Hb]. rewrite Forall_forall in Hb. apply Hb. by eapply list_elem_of_lookup_2. }
  - destruct Hblock as [Hnd Hb]. unfold TXIDs in Hnd.
    rewrite <- (take_drop_middle _ _ _ Hpos) in Hnd, Hb.
    rewrite fmap_app in Hnd. apply NoDup_app in Hnd as (_ & _ & Hnd).
    apply Forall_app in Hb as [_ Hb]. by apply NoDup_outpoints.
  - intros acc. by apply tracks_inputs.
Qed.

(** ** One block *)

(** What follows the transactions changes no output and forgets no script. *)
Definition same_utxos (K0 : gmap bytes utxoRow) (m : gmap bytes scriptPubkeyInfo) (w : W) : Prop :=
  t_unspent_output (r_db (repo w)) = K0 ∧ scriptPubkeys w = m.

Lemma same_utxos_heights u m i : preserves (same_utxos u m) (raiseWalletHeight hh i).
Proof.
  unfold raiseWalletHeight, get_wallet. apply preserves_bind; [auto with preserve|]. intros wl.
  destruct (hh <=? height wl); [auto with preserve|].
  apply preserves_bind; [by intros w [? ?]|]. intros []. by intros w [? ?].
Qed.

Lemma same_utxos_status u m sh : preserves (same_utxos u m) (notifyStatus sh).
Proof.
  intros w Hw. unfold notifyStatus, getScriptHashStatus, notifyScriptHashSubscribers.
  rewrite bind_assoc, bind_run. unfold on_repo, zoom.
  assert (∀ r, (selectScriptHashHistory sh r).2 = r) as Hr by done.
  specialize (Hr (repo w)). destruct (selectScriptHashHistory sh (repo w)) as [o r]. cbn [snd] in Hr. subst r.
  by destruct o.
Qed.

Lemma same_utxos_tail (u : gmap bytes utxoRow) (m : gmap bytes scriptPubkeyInfo) (updatedSH : gset bytes) :
  preserves (same_utxos u m)
    (n ← gets (λ w, length (wallets w)); forM (seq 0 n) (raiseWalletHeight hh) ;;
     forM (elements updatedSH) notifyStatus).
Proof.
  apply preserves_bind; [auto with preserve|]. intros n.
  apply preserves_bind; [|intros _]; apply preserves_forM; intros x _;
    [apply same_utxos_heights|apply same_utxos_status].
Qed.

Lemma tracks_block m :
  triple E (λ w, here (outpoints (Transactions b)) w ∧ tracks m w) (processBlock b hh)
    (λ _ w, here [] w ∧ tracks (utxo_block K m b) w).
Proof.
  unfold processBlock.
  eapply (triple_bind _ _ _ (λ _ w, here [] w ∧ tracks (utxo_block K m b) w)).
  - eapply triple_consequence; [apply (triple_fold_idx E (λ n w,
      here (outpoints (drop n (Transactions b))) w ∧
      tracks (utxo_txs K m (take n (Transactions b))) w))| |].
    + intros n tx acc Htx.
      rewrite (take_S_r _ _ _ Htx). unfold utxo_txs. rewrite foldl_app. by apply tracks_transaction.
    + intros w. by rewrite drop_0.
    + intros ? w. by rewrite drop_all, firstn_all.
  - intros updatedSH. apply triple_at. intros w [Hb [Hm Hk]].
    eapply triple_consequence; [apply (triple_keep (E := E) _ _ _ _
      (heights_and_status_triple E h hh b V (scriptPubkeys w) (t_unspent_output (r_db (repo w)))
        future nwallets [] [] [] updatedSH)
      (same_utxos_tail (t_unspent_output (r_db (repo w))) (scriptPubkeys w) updatedSH))| |].
    + intros w' <-. split; [exact Hb|done].
    + intros _ w' [Hb' [Hu Hi]]. split; [by eapply blk_here|]. split; [|by rewrite Hi].
      unfold known_utxos. by rewrite Hu.
Qed.
End block.

(** ** Several blocks *)

(** The list of transactions that are still to come may be any list. *)
Lemma blk_future `{Bip32} E h hh b V known unspent0 future future' n pending outs ins w :
  blk E h hh b V known unspent0 future n pending outs ins w →
  (∀ txid, txid ∈ future' → t_tx (r_db (repo w)) !! txid = None) →
  blk E h hh b V known unspent0 future' n pending outs ins w.
Proof. intros [[] ? ? ? ? ?] Hf. by split. Qed.

(** The scan of the blocks [all], of which [bs] are still to come, with the
    table at what the specification says of the others, and the lowest wallet at
    the last of them; the transactions [later] are in none of the blocks. *)
Record following `{Bip32} (E : error → Prop) h V K m (all : list Block) (later : list bytes)
    (hh : Z) (bs : list Block) (w : W) : Prop := {
  fw_ready : ready E h hh V bs w;
  fw_lowest : lowest_at (hh - 1) w;
  fw_disjoint : ∀ txid, txid ∈ later → txid ∉ bs ≫= TXIDs;
  fw_later : ∀ txid, txid ∈ later → t_tx (r_db (repo w)) !! txid = None;
  fw_tracks : ∃ before, all = before ++ bs ∧ tracks K (utxo_chain K m before) w;
}.

#[export] Instance following_step `{Bip32Safe} `{BitcoinClient} {E : error → Prop} h V K m all later :
  BlockStep (E := E) h V.1 (following E h V K m all later).
Proof.
  split.
  - intros hh bs w [Hr Hl Hd Hn (before & Hall & [? ?])].
    split; [by apply ready_tick|done..|]. by exists before.
  - intros hh b bs Hlt w [Hr Hl Hd Hn (before & -> & Ht)].
    assert (∀ txid, txid ∈ TXIDs b → txid ∉ (bs ≫= TXIDs) ++ later) as Hfut.
    { intros txid Hin [Hb|Hlat]%elem_of_app; [by eapply ready_future|].
      apply (Hd _ Hlat). rewrite bind_cons. apply elem_of_app. by left. }
    assert (blk_at E h hh b V (scriptPubkeys w) (t_unspent_output (r_db (repo w))) ((bs ≫= TXIDs) ++ later)
      (length (wallets w)) 0 w) as Hst.
    { eapply blk_future; [by apply ready_start|]. intros txid [Hb|Hlat]%elem_of_app; [|by apply Hn].
      apply (rd_fresh _ _ _ _ _ _ Hr). rewrite bind_cons. apply elem_of_app. by right. }
    pose proof (tracks_block E h hh b Hlt (ready_block_ok _ _ _ _ _ _ Hr) V ((bs ≫= TXIDs) ++ later)
      Hfut (length (wallets w)) K _ w (conj (blk_here _ _ _ _ _ _ _ _ _ _ _ _ _ Hst) Ht)) as Hb.
    destruct (processBlock b hh w) as [[[]|e| |] w'] eqn:Hrun; try done. destruct Hb as [Hb Ht'].
    pose proof (sc_future _ _ _ _ _ _ _ (bk_scan _ _ _ _ _ _ _ _ _ _ _ _ _ Hb)) as Hf'.
    split.
    + eapply ready_next; [done|]. eapply blk_future; [exact Hb|]. intros txid Hin. apply Hf', elem_of_app. by left.
    + replace (hh + 1 - 1) with (hh - 1 + 1) by lia. eapply (lowest_at_raised b (hh - 1) w); [|done].
      by replace (hh - 1 + 1) with hh by lia.
    + intros txid Hin Hb'. apply (Hd _ Hin). rewrite bind_cons. apply elem_of_app. by right.
    + intros txid Hin. apply Hf', elem_of_app. by right.
    + exists (before ++ [b]). rewrite <- (assoc_L (++)). split; [done|]. unfold utxo_chain. by rewrite foldl_app.
  - intros hh bs w [Hr _ _ _ _]. by rewrite <- (rd_frame _ _ _ _ _ _ Hr).
Qed.

(** The scripts that the manager knows before it scans. *)
Definition known_scripts (w : W) : gset bytes := dom (scriptPubkeys w).

Lemma ready_following `{Bip32} E h hh V K bs (later : list bytes) w :
  ready E h hh V bs w → lowest_at (hh - 1) w →
  (∀ txid, txid ∈ later → (txid ∉ bs ≫= TXIDs) ∧ t_tx (r_db (repo w)) !! txid = None) →
  (∀ sh, sh ∈ K → is_Some (scriptPubkeys w !! sh)) →
  following E h V K (known_utxos K (r_db (repo w))) bs later hh bs w.
Proof.
  intros Hr Hl Hlat Hk. split; [done|done|by intros txid []%Hlat..|]. by exists [].
Qed.

Lemma syncWallets_follows `{Bip32Safe} `{BitcoinClient} K (later : list bytes) bs rows fuel w wl ws g :
  let h := min_height wl ws in
  wallets w = wl :: ws → 0 ≤ h →
  ready never h (h + 1) (frame h (r_db (repo w))) bs w →
  chain_ok g (r_db (repo w)) rows →
  drop (Z.to_nat h) rows.*1 = Block_Hash <$> bs → bestHeader w = length rows →
  (∀ n b, b ∈ bs → GetBlock n (Block_Hash b) = Ok b) →
  (∀ txid, txid ∈ later → (txid ∉ bs ≫= TXIDs) ∧ t_tx (r_db (repo w)) !! txid = None) →
  (∀ sh, sh ∈ K → is_Some (scriptPubkeys w !! sh)) →
  (length bs < fuel)%nat →
  ∃ w', syncWallets fuel w = (Ok tt, w') ∧ bestHeader w' = bestHeader w ∧ net w' = net w ∧
    ready never h (h + 1 + length bs) (frame h (r_db (repo w))) [] w' ∧
    lowest_at (h + length bs) w' ∧
    (∀ txid, txid ∈ later → t_tx (r_db (repo w')) !! txid = None) ∧
    tracks K (utxo_chain K (known_utxos K (r_db (repo w))) bs) w'.
Proof.
  intros h Hws Hh Hr Hc Hd Hb Hserve Hlat Hk Hf.
  destruct (syncWallets_run (E := never) _
    (following never h (frame h (r_db (repo w))) K (known_utxos K (r_db (repo w))) bs later) bs rows fuel w g)
    as (w' & Hrun & [Hr' Hl' _ Hn' (before & Hall & Ht)] & Hb' & Hnet); try done; [by intros e []| |].
  { apply ready_following; try done. fold h. replace (h + 1 - 1) with h by lia. by apply lowest_min. }
  rewrite app_nil_r in Hall. subst before. exists w'. do 4 (split; [done|]).
  split; [|done]. by replace (h + length bs) with (h + 1 + length bs - 1) by lia.
Qed.
