(* ===== verification/History.v ===== *)
(** * History: what the tables were at every height

    Rolling back in two steps is rolling back in one, and a block does not change
    what a roll back to a lower height leaves.  So the tables remember what the
    specification of [Utxo] says of every prefix of the chain ([remembers]), and a
    reorganisation brings back the one of the common blocks. *)

From S2P Require Import Prelude Bytes Sha256 Merkle BitcoinTypes ScriptPubkey.
From S2P Require Import Database Repository RepositoryFacts Chain Ledger Wallet WalletFacts Scan.
From S2P Require Import Genesis Sync HeaderSync BlockScan Heights Utxo.

(** ** Rolling back in two steps *)

(** ** The same ledger over other headers *)

(** Tables with the same ledger, where the transactions are at the same heights. *)
Record same_ledger_at (db db' : Database) : Prop := {
  sl_ledger : ledger db' = ledger db;
  sl_heights : ∀ txid row k, t_tx db !! txid = Some row → tx_height db row = Some k → tx_height db' row = Some k;
}.

Section same_ledger_at.
Context (db db' : Database).
Hypothesis Hsl : same_ledger_at db db'.

Lemma same_ledger_db_ok top : db_ok top db → db_ok top db'.
Proof using Hsl.
  destruct Hsl as [Hl Hk]. unfold ledger in Hl. injection Hl as Hu Hs Ht Hx. intros [H1 H2 H3 H4 H5].
  split; rewrite ?Hu, ?Hs, ?Ht, ?Hx; try done.
  - intros txid row Hr. destruct (H1 _ _ Hr) as (k & ? & ?). exists k. eauto.
  - intros tv row Hr. destruct (H3 _ _ Hr) as (trow & k & ? & ? & ?). exists trow, k. eauto.
Qed.

Lemma same_ledger_view top h : db_ok top db → view h db' = view h db.
Proof using Hsl.
  destruct Hsl as [Hl Hk]. intros Hok. unfold ledger in Hl. injection Hl as Hu Hs Ht Hx.
  assert (∀ txid, tx_above db' h txid = tx_above db h txid) as Ha.
  { intros txid. unfold tx_above. rewrite Ht. destruct (t_tx db !! txid) as [row|] eqn:E; [|done].
    destruct (ok_tx _ _ Hok _ _ E) as (k & Hrow & _). by rewrite Hrow, (Hk _ _ _ E Hrow). }
  unfold view, ledger, rolled_back. cbn. f_equal; [f_equal; [f_equal|]|].
  - unfold spent_above. rewrite Hu, Hs. apply map_filter_ext. intros tv row _. cbn. by rewrite Ha.
  - by rewrite Hs.
  - rewrite Ht. apply map_filter_ext. intros txid row Hr. cbn.
    destruct (ok_tx _ _ Hok _ _ Hr) as (k & Hrow & _).
    by rewrite (block_above_height _ _ _ _ Hrow), (block_above_height _ _ _ _ (Hk _ _ _ Hr Hrow)).
  - rewrite Hx. apply set_eq. intros [sh txid]. rewrite !elem_of_filter. cbn. by rewrite Ha.
Qed.
End same_ledger_at.

(** More headers. *)
Lemma more_headers_same_ledger db m :
  t_blockheader db ⊆ m → same_ledger_at db (upd_blockheader (λ _, m) db).
Proof.
  intros Hm. split; [done|]. intros _ row k _. unfold tx_height. cbn.
  destruct (t_blockheader db !! _) as [r|] eqn:E; [|done]. by rewrite (lookup_weaken _ _ _ _ E Hm).
Qed.

(** A roll back to a height that nothing is above. *)
Lemma rolled_back_same_ledger h db : db_ok h db → same_ledger_at db (rolled_back h db).
Proof.
  intros Hok. split; [by apply rolled_back_id|]. intros txid row k Hr Hk.
  destruct (ok_tx _ _ Hok _ _ Hr) as (k' & Hk' & Hle). simplify_eq. by apply tx_height_rolled_back.
Qed.

(** ** Rolling back in two steps *)

(** The tables a roll back leaves depend on the ledger, and on the heights of
    its transactions. *)
Lemma view_ext h top db db' :
  db_ok top db → ledger db' = ledger db →
  (∀ row k, tx_height db row = Some k → tx_height db' row = Some k) →
  view h db' = view h db.
Proof.
  intros Hok Hl Hk. unfold ledger in Hl. injection Hl as Hu Hs Ht Hx.
  assert (∀ txid, tx_above db' h txid = tx_above db h txid) as Ha.
  { intros txid. unfold tx_above. rewrite Ht. destruct (t_tx db !! txid) as [row|] eqn:E; [|done].
    destruct (ok_tx _ _ Hok _ _ E) as (k & Hrow & _). by rewrite Hrow, (Hk _ _ Hrow). }
  unfold view, ledger, rolled_back. cbn. f_equal; [f_equal; [f_equal|]|].
  - unfold spent_above. rewrite Hu, Hs. apply map_filter_ext. intros tv row _. cbn. by rewrite Ha.
  - by rewrite Hs.
  - rewrite Ht. apply map_filter_ext. intros txid row Hr. cbn.
    destruct (ok_tx _ _ Hok _ _ Hr) as (k & Hrow & _).
    by rewrite (block_above_height _ _ _ _ Hrow), (block_above_height _ _ _ _ (Hk _ _ Hrow)).
  - rewrite Hx. apply set_eq. intros [sh txid]. rewrite !elem_of_filter. cbn. by rewrite Ha.
Qed.


(** ** Rolling back in two steps *)

Lemma rolled_unspent top h db tv u :
  db_ok top db →
  t_unspent_output (rolled_back h db) !! tv = Some u ↔
    tx_above db h (outpoint_txid tv) = false ∧
    (t_unspent_output db !! tv = Some u ∨
      ∃ s, t_spent_output db !! tv = Some s ∧ h < so_spent_height s ∧ u = unspend_row s).
Proof.
  intros Hok. unfold rolled_back. cbn [t_unspent_output]. rewrite map_lookup_filter_Some. cbn [fst].
  rewrite lookup_union_Some_raw, lookup_fmap, fmap_Some, fmap_None. split.
  - intros [[(s & Hs%spent_above_lookup & ->)|[_ Hu]] Ha]; (split; [done|]); [right|by left].
    exists s. by destruct Hs.
  - intros [Ha [Hu|(s & Hs & Hlt & ->)]]; (split; [|done]).
    + right. split; [|done]. apply eq_None_not_Some. intros [s [Hs _]%spent_above_lookup].
      pose proof (ok_disjoint _ _ Hok _ _ Hs). congruence.
    + left. exists s. split; [|done]. by apply spent_above_lookup.
Qed.

Lemma rolled_spent h db tv s :
  t_spent_output (rolled_back h db) !! tv = Some s ↔ t_spent_output db !! tv = Some s ∧ so_spent_height s ≤ h.
Proof. unfold rolled_back. cbn [t_spent_output]. rewrite map_lookup_filter_Some. cbn [snd]. by rewrite Z.nlt_ge. Qed.

Lemma rolled_tx h db txid row :
  t_tx (rolled_back h db) !! txid = Some row ↔
    t_tx db !! txid = Some row ∧ block_above db h (tr_blockhash row) = false.
Proof. unfold rolled_back. cbn [t_tx]. by rewrite map_lookup_filter_Some. Qed.

Lemma rolled_stx h db sh txid :
  (sh, txid) ∈ t_scriptpubkey_tx (rolled_back h db) ↔
    (sh, txid) ∈ t_scriptpubkey_tx db ∧ tx_above db h txid = false.
Proof. unfold rolled_back. cbn [t_scriptpubkey_tx]. rewrite elem_of_filter. cbn [snd]. tauto. Qed.

Section twice.
Context (top f h : Z) (db : Database).
Hypothesis Hok : db_ok top db.
Hypothesis Hfh : f ≤ h.
Let mid := rolled_back h db.

(** A transaction and its block, before and after the first step. *)
Lemma tx_at_height txid row :
  t_tx db !! txid = Some row → ∃ k, k ≤ top ∧ tx_height db row = Some k ∧
    (∀ j, tx_above db j txid = (j <? k) ∧ block_above db j (tr_blockhash row) = (j <? k)) ∧
    (k ≤ h → t_tx mid !! txid = Some row ∧
      tx_above mid f txid = (f <? k) ∧ block_above mid f (tr_blockhash row) = (f <? k)) ∧
    (h < k → t_tx mid !! txid = None).
Proof using Hok.
  intros E. destruct (ok_tx _ _ Hok _ _ E) as (k & Hk & Hle). exists k. do 2 (split; [done|]). split_and!.
  - intros j. by rewrite (tx_above_false _ _ _ _ _ E Hk), (block_above_height _ _ _ _ Hk).
  - intros Hkh. pose proof (tx_height_rolled_back h db row k Hk Hkh) as Hk'.
    pose proof (t_tx_rolled_back h db txid row k E Hk Hkh) as E'.
    split; [done|]. by rewrite (tx_above_false _ _ _ _ _ E' Hk'), (block_above_height _ _ _ _ Hk').
  - intros Hkh. apply eq_None_not_Some. intros [row' [Hr Hb]%rolled_tx]. simplify_eq.
    rewrite (block_above_height _ _ _ _ Hk) in Hb. lia.
Qed.

Lemma tx_above_twice txid :
  is_Some (t_tx db !! txid) →
  tx_above db f txid = false ↔ tx_above db h txid = false ∧ tx_above mid f txid = false.
Proof using Hok Hfh.
  intros [row E]. destruct (tx_at_height _ _ E) as (k & _ & _ & Ha & Hlow & Hhigh).
  rewrite !(proj1 (Ha _)). destruct (Z.le_gt_cases k h) as [Hk|Hk].
  - destruct (Hlow Hk) as (_ & -> & _). lia.
  - rewrite (tx_above_None mid) by auto. lia.
Qed.

Lemma view_twice : view f mid = view f db.
Proof using Hok Hfh.
  pose proof (rolled_back_db_ok _ h _ Hok : db_ok h mid) as Hmid.
  unfold view, ledger. f_equal; [f_equal; [f_equal|]|].
  - apply map_eq. intros tv. apply option_eq. intros u.
    rewrite (rolled_unspent _ _ _ _ _ Hok), (rolled_unspent _ _ _ _ _ Hmid).
    unfold mid at 2 3. rewrite (rolled_unspent _ _ _ _ _ Hok). setoid_rewrite rolled_spent.
    split.
    + intros [Hm [[Hh [Hu|(s & Hs & Hlt & ->)]]|(s & [Hs Hle] & Hlt & ->)]].
      * split; [|by left]. apply tx_above_twice; [by eapply ok_unspent|done].
      * split; [|right; exists s; split_and!; [done|lia|done]].
        destruct (ok_spent _ _ Hok _ _ Hs) as (row & ? & Hr & _). apply tx_above_twice; [by eexists|done].
      * split; [|right; by exists s].
        destruct (ok_spent _ _ Hok _ _ Hs) as (row & k & Hr & Hk & Hks & _). apply tx_above_twice; [by eexists|].
        split; [|done]. rewrite (tx_above_false _ _ _ _ _ Hr Hk). lia.
    + intros [Hf Hu]. destruct Hu as [Hu|(s & Hs & Hlt & ->)].
      * apply tx_above_twice in Hf as [Hh Hm]; [|by eapply ok_unspent]. split; [done|]. left. split; [done|by left].
      * destruct (ok_spent _ _ Hok _ _ Hs) as (row & k & Hr & Hk & Hks & _).
        apply tx_above_twice in Hf as [Hh Hm]; [|by eexists]. split; [done|].
        destruct (Z.le_gt_cases (so_spent_height s) h); [right; by exists s|].
        left. split; [done|]. right. exists s. split_and!; [done|lia|done].
  - apply map_eq. intros tv. apply option_eq. intros s. unfold mid. rewrite !rolled_spent.
    split; [intros [[? ?] ?]|intros [? ?]]; split_and!; done || lia.
  - apply map_eq. intros txid. apply option_eq. intros row. rewrite rolled_tx. unfold mid at 1. rewrite !rolled_tx.
    destruct (t_tx db !! txid) as [row'|] eqn:E; [|by split; [intros [[[=] _] _]|intros [[=] _]]].
    destruct (tx_at_height _ _ E) as (k & _ & _ & Ha & Hlow & _).
    split; [intros [[[= <-] H1] H2]|intros [[= <-] H1]]; rewrite !(proj2 (Ha _)) in *.
    + destruct Hlow as (_ & _ & Hm); [lia|]. by rewrite Hm in H2.
    + destruct Hlow as (_ & _ & Hm); [lia|]. rewrite Hm. split_and!; [done|lia|done].
  - apply set_eq. intros [sh txid]. rewrite rolled_stx. unfold mid at 1. rewrite !rolled_stx.
    split; [intros [[H1 H2] H3]|intros [H1 H3]].
    + split; [done|]. apply tx_above_twice; [by eapply ok_stx|done].
    + apply tx_above_twice in H3; [tauto|by eapply ok_stx].
Qed.
End twice.

(** ** The ledger at every height *)

Lemma known_utxos_ledger K db db' :
  t_unspent_output db' = t_unspent_output db → known_utxos K db' = known_utxos K db.
Proof. unfold known_utxos. by intros ->. Qed.

(** The tables have the transactions of the first [s] of the blocks, so that a
    roll back to any height from [b] on leaves what the specification makes of
    [m] with the blocks from [b] up to that height, as far as [K] is concerned. *)
Record remembers (K : gset bytes) (m : gmap bytes utxoRow) (blocks : list Block) (b s : nat)
    (db : Database) : Prop := {
  rm_base : (b ≤ s)%nat;
  rm_utxos : ∀ f : nat, (b ≤ f ≤ s)%nat →
    known_utxos K (rolled_back f db) = utxo_chain K m (drop b (take f blocks));
  rm_txids : ∀ (f : nat) txid, (b ≤ f ≤ s)%nat → is_Some (t_tx (rolled_back f db) !! txid) →
    txid ∈ take f blocks ≫= TXIDs;
}.

Section remembers.
Context {K : gset bytes} {m : gmap bytes utxoRow} {b : nat}.

Lemma remembers_view blocks s db db' :
  (∀ f : nat, (b ≤ f ≤ s)%nat → view f db' = view f db) →
  remembers K m blocks b s db → remembers K m blocks b s db'.
Proof.
  intros Hv [Hb Hu Ht]. split; [done|..].
  - intros f Hf. rewrite <- Hu by done. apply known_utxos_ledger.
    pose proof (Hv f Hf) as E. unfold view, ledger in E. congruence.
  - intros f txid Hf. pose proof (Hv f Hf) as E. unfold view, ledger in E.
    replace (t_tx (rolled_back f db')) with (t_tx (rolled_back f db)) by congruence. by apply Ht.
Qed.

(** What is remembered of a chain is remembered of one that starts like it. *)
Lemma remembers_prefix blocks blocks' s s' db :
  (b ≤ s' ≤ s)%nat → take s' blocks = take s' blocks' →
  remembers K m blocks b s db → remembers K m blocks' b s' db.
Proof.
  intros Hs E [Hb Hu Ht].
  assert (∀ f, (f ≤ s')%nat → take f blocks' = take f blocks) as Hf.
  { intros f Hf. rewrite <- (Nat.min_l f s') by done. rewrite <- !take_take. by rewrite E. }
  split; [lia|..].
  - intros f ?. rewrite Hf by lia. apply Hu. lia.
  - intros f txid ?. rewrite Hf by lia. apply Ht. lia.
Qed.

(** Now, nothing is above [s]. *)
Lemma remembers_now blocks (s : nat) db :
  db_ok s db → remembers K m blocks b s db →
  known_utxos K db = utxo_chain K m (drop b (take s blocks)) ∧
  ∀ txid, is_Some (t_tx db !! txid) → txid ∈ take s blocks ≫= TXIDs.
Proof.
  intros Hok%rolled_back_id [Hb Hu Ht]. unfold ledger in Hok. split.
  - rewrite <- Hu by lia. apply known_utxos_ledger. congruence.
  - intros txid Hr. apply (Ht s); [lia|]. by replace (t_tx (rolled_back s db)) with (t_tx db) by congruence.
Qed.

(** One more block. *)
Lemma remembers_snoc blocks (s : nat) db :
  db_ok (S s) db → remembers K m blocks b s db →
  known_utxos K db = utxo_chain K m (drop b (take (S s) blocks)) →
  (∀ txid, is_Some (t_tx db !! txid) → txid ∈ take (S s) blocks ≫= TXIDs) →
  remembers K m blocks b (S s) db.
Proof.
  intros Hok%rolled_back_id [Hb Hu Ht] Hu' Ht'. unfold ledger in Hok.
  split; [lia|..]; intros f.
  - intros Hf. destruct (decide (f = S s)) as [->|]; [|apply Hu; lia].
    rewrite <- Hu'. apply known_utxos_ledger. congruence.
  - intros txid Hf. destruct (decide (f = S s)) as [->|]; [|apply Ht; lia].
    replace (t_tx (rolled_back (S s) db)) with (t_tx db) by congruence. apply Ht'.
Qed.

Lemma remembers_start blocks (s : nat) db :
  db_ok s db → (∀ txid, is_Some (t_tx db !! txid) → txid ∈ take s blocks ≫= TXIDs) →
  b = s → m = known_utxos K db → remembers K m blocks b s db.
Proof.
  intros Hok%rolled_back_id Ht -> ->. unfold ledger in Hok. split; [done|..].
  - intros f Hf. assert (f = s) as -> by lia. rewrite drop_ge by (rewrite length_take; lia).
    apply known_utxos_ledger. congruence.
  - intros f txid Hf. assert (f = s) as -> by lia.
    replace (t_tx (rolled_back s db)) with (t_tx db) by congruence. apply Ht.
Qed.

Lemma remembers_rolled_back blocks s (f : nat) db top :
  db_ok top db → (b ≤ f)%nat → remembers K m blocks b s db →
  remembers K m (take f blocks) b (s `min` f) (rolled_back f db).
Proof.
  intros Hok Hf Hr. apply (remembers_view _ _ db).
  - intros j Hj. apply (view_twice top); [done|lia].
  - pose proof (rm_base _ _ _ _ _ _ Hr). eapply remembers_prefix; [|  |exact Hr]; [lia|].
    rewrite take_take. f_equal. lia.
Qed.
End remembers.

(** ** The scan writes history *)

(** The scan of [blocks], of which [bs] are still to come. *)
Record recording `{Bip32} (E : error → Prop) h V K m (blocks : list Block) (b : nat)
    (hh : Z) (bs : list Block) (w : W) : Prop := {
  rc_ready : ready E h hh V bs w;
  rc_lowest : lowest_at (hh - 1) w;
  rc_height : 1 ≤ hh;
  rc_bs : bs = drop (Z.to_nat (hh - 1)) blocks;
  rc_known : ∀ sh, sh ∈ K → is_Some (scriptPubkeys w !! sh);
  rc_past : remembers K m blocks b (Z.to_nat (hh - 1)) (r_db (repo w));
}.

Section recording.
Context `{Bip32Safe} `{BitcoinClient} {E : error → Prop} {K : gset bytes}.

(** A block does not change what a roll back to a lower height leaves. *)
Lemma processBlock_view h hh V b0 bs w w' f :
  ready E h hh V (b0 :: bs) w → processBlock b0 hh w = (Ok tt, w') → f < hh →
  view f (r_db (repo w')) = view f (r_db (repo w)).
Proof.
  intros Hrd Hrun Hf.
  assert (ready E f hh (frame f (r_db (repo w))) (b0 :: bs) w) as Hr by (by destruct Hrd; split).
  pose proof (processBlock_ready f hh _ b0 bs Hf w Hr) as Hr'. rewrite Hrun in Hr'.
  pose proof (rd_frame _ _ _ _ _ _ Hr') as Hfr. unfold frame in Hfr. congruence.
Qed.

Lemma processBlock_following h hh V b0 bs later w w' :
  h < hh → ready E h hh V (b0 :: bs) w → lowest_at (hh - 1) w →
  (∀ sh, sh ∈ K → is_Some (scriptPubkeys w !! sh)) → processBlock b0 hh w = (Ok tt, w') →
  (∀ txid, txid ∈ later → (txid ∉ (b0 :: bs) ≫= TXIDs) ∧ t_tx (r_db (repo w)) !! txid = None) →
  following E h V K (known_utxos K (r_db (repo w))) (b0 :: bs) later (hh + 1) bs w'.
Proof.
  intros Hlt Hr Hl Hk Hrun Hlat. pose proof (step_block (E := E) (h := h) hh b0 bs Hlt w
    (ready_following E h hh V K (b0 :: bs) later w Hr Hl Hlat Hk)) as Hs. by rewrite Hrun in Hs.
Qed.

(** The transactions that are new after a block are its own. *)
Lemma processBlock_new_txids h hh V b0 bs w w' txid :
  h < hh → ready E h hh V (b0 :: bs) w → lowest_at (hh - 1) w →
  (∀ sh, sh ∈ K → is_Some (scriptPubkeys w !! sh)) → processBlock b0 hh w = (Ok tt, w') →
  is_Some (t_tx (r_db (repo w')) !! txid) → is_Some (t_tx (r_db (repo w)) !! txid) ∨ txid ∈ TXIDs b0.
Proof.
  intros Hlt Hr Hl Hk Hrun Hin. destruct (decide (txid ∈ TXIDs b0)) as [|Hn]; [by right|left].
  destruct (t_tx (r_db (repo w)) !! txid) as [row|] eqn:Hold; [by eexists|exfalso].
  destruct (decide (txid ∈ bs ≫= TXIDs)) as [Hb|Hb].
  - pose proof (processBlock_ready h hh V b0 bs Hlt w Hr) as Hr'. rewrite Hrun in Hr'.
    rewrite (rd_fresh _ _ _ _ _ _ Hr' _ Hb) in Hin. by destruct Hin.
  - assert (following E h V K (known_utxos K (r_db (repo w))) (b0 :: bs) [txid] (hh + 1) bs w') as [_ _ _ Hlater _].
    { apply (processBlock_following h hh V b0 bs); [done..|]. intros ? ->%list_elem_of_singleton. split; [|done].
      by rewrite bind_cons, not_elem_of_app. }
    rewrite Hlater in Hin by apply list_elem_of_here. by destruct Hin.
Qed.

Lemma processBlock_records h V m blocks b hh b0 bs w w' :
  h < hh → recording E h V K m blocks b hh (b0 :: bs) w → processBlock b0 hh w = (Ok tt, w') →
  recording E h V K m blocks b (hh + 1) bs w'.
Proof.
  intros Hlt [Hr Hl Hpos Hbs Hk Hp] Hrun.
  assert (∃ n : nat, hh = n + 1) as [n ->] by (exists (Z.to_nat (hh - 1)); lia).
  replace (Z.to_nat (n + 1 - 1)) with n in Hbs, Hp by lia.
  assert (blocks !! n = Some b0) as Hb0.
  { rewrite <- (Nat.add_0_r n), <- lookup_drop. by rewrite <- Hbs. }
  pose proof (rd_db _ _ _ _ _ _ Hr) as Hdb. replace (n + 1 - 1) with (Z.of_nat n) in Hdb by lia.
  destruct (remembers_now _ _ _ Hdb Hp) as [Hnow Htx].
  destruct (processBlock_following h (n + 1) V b0 bs [] w w')
    as [Hr' Hl' _ _ (before & Hbefore & [Hu' Hk'])]; [done..|by intros ? ?%elem_of_nil|].
  change (b0 :: bs) with ([b0] ++ bs) in Hbefore. apply app_inv_tail in Hbefore as <-.
  assert (take (S n) blocks = take n blocks ++ [b0]) as Htake by by apply take_S_r.
  pose proof (rm_base _ _ _ _ _ _ Hp) as Hbase.
  split; [done|done|lia| |done|]; replace (Z.to_nat (n + 1 + 1 - 1)) with (S n) by lia.
  - by rewrite (drop_S _ _ _ Hb0) in Hbs; simplify_eq.
  - pose proof (rd_db _ _ _ _ _ _ Hr') as Hdb'. replace (n + 1 + 1 - 1) with (Z.of_nat (S n)) in Hdb' by lia.
    apply remembers_snoc; [done|..].
    + eapply remembers_view; [|exact Hp]. intros f Hf.
      apply (processBlock_view h (n + 1) V b0 bs); [done|done|lia].
    + rewrite Hu', Hnow, Htake, drop_app_le.
      * unfold utxo_chain. by rewrite foldl_app.
      * apply lookup_lt_Some in Hb0. rewrite length_take. lia.
    + intros txid Hin. rewrite Htake, bind_app, elem_of_app. cbn. rewrite app_nil_r.
      destruct (processBlock_new_txids h (n + 1) V b0 bs w w' txid) as [?%Htx|]; auto.
Qed.
End recording.

#[export] Instance recording_step `{Bip32Safe} `{BitcoinClient} {E : error → Prop} h V K m blocks b :
  BlockStep (E := E) h V.1 (recording E h V K m blocks b).
Proof.
  split.
  - intros hh bs w [Hr ? ? ? ? ?]. split; try done. by apply ready_tick.
  - intros hh b0 bs Hlt w Hr. pose proof (processBlock_ready h hh V b0 bs Hlt w (rc_ready _ _ _ _ _ _ _ _ _ _ Hr)) as Hb.
    destruct (processBlock b0 hh w) as [[[]|e| |] w'] eqn:Hrun; try done. by eapply processBlock_records.
  - intros hh bs w [Hr _ _ _ _ _]. by rewrite <- (rd_frame _ _ _ _ _ _ Hr).
Qed.

(** [syncWallets] to the end of the chain of the header table. *)
Lemma syncWallets_records `{Bip32Safe} `{BitcoinClient} K m blocks b (s : nat) fuel w g :
  (s ≤ length blocks)%nat → lowest_at s w →
  ready never s (s + 1) (frame s (r_db (repo w))) (drop s blocks) w →
  chain_ok g (r_db (repo w)) (rows_of 1 (header_of <$> blocks)) → bestHeader w = length blocks →
  (∀ n b, b ∈ blocks → GetBlock n (Block_Hash b) = Ok b) →
  (∀ sh, sh ∈ K → is_Some (scriptPubkeys w !! sh)) → remembers K m blocks b s (r_db (repo w)) →
  (length blocks < fuel)%nat →
  ∃ w', syncWallets fuel w = (Ok tt, w') ∧ bestHeader w' = bestHeader w ∧ net w' = net w ∧
    recording never s (frame s (r_db (repo w))) K m blocks b (length blocks + 1) [] w'.
Proof.
  intros Hs Hlow Hr Hc Hbest Hserve Hk Hp Hf.
  destruct (wallets w) as [|wl ws] eqn:Hws.
  { destruct Hlow as [_ Hin]. unfold heights in Hin. rewrite Hws in Hin. by apply elem_of_nil in Hin. }
  pose proof (lowest_unique _ _ _ (lowest_min _ _ _ Hws) Hlow) as Hmin.
  destruct (syncWallets_run (E := never) (wl := wl) (ws := ws) _
    (recording never (min_height wl ws) (frame s (r_db (repo w))) K m blocks b) (drop s blocks)
    (rows_of 1 (header_of <$> blocks)) fuel w g) as (w' & Hrun & Hr' & Hb' & Hnet); try done.
  - by intros e [].
  - lia.
  - rewrite Hmin. split; try done; replace (s + 1 - 1) with (Z.of_nat s) by lia; rewrite ?Nat2Z.id; done || lia.
  - by rewrite Hmin, rows_of_fst, <- list_fmap_compose, Nat2Z.id, fmap_drop.
  - by rewrite length_rows_of, length_fmap.
  - intros n b0 Hb0. by eapply Hserve, elem_of_drop_of.
  - rewrite length_drop. lia.
  - exists w'. do 3 (split; [done|]). rewrite Hmin, length_drop in Hr'.
    by replace (length blocks + 1) with (s + 1 + (length blocks - s)%nat) by lia.
Qed.
