(* ===== verification/Examples.v ===== *)
(** * Examples: a concrete node, wallet and chain

    The instances on which the theorems about any node and any key derivation
    are applied: a key derivation by hashing, a node that serves a chain of
    three blocks on top of the regtest genesis block, and a wallet that the
    first block pays and the second block spends from. *)

From S2P Require Import Prelude Bytes Sha256 Merkle BitcoinTypes ScriptPubkey.
From S2P Require Import Database Repository Ledger Chain Wallet Genesis Sync HeaderSync.

(** ** Keys *)

Definition toy_child (k : ExtendedKey) (path : list Z) : ExtendedKey := {|
  Version := Version k; Depth := Depth k; Fingerprint := Fingerprint k; ChildNum := ChildNum k;
  Chaincode := Chaincode k;
  Key := z2b 2 :: Sha256.Sum256 (Key k ++ (path ≫= uint32SerializeLE)) |}.

#[export] Instance toyBip32 : Bip32 := {
  DeriveXpub k path := Ok (toy_child k path);
  XpubFromXprv k := Ok k;
  hash160 bs := take 20 (Sha256.Sum256 bs);
}.

Definition key0 : ExtendedKey := {|
  Version := zeroes 4; Depth := z2b 0; Fingerprint := zeroes 4; ChildNum := zeroes 4;
  Chaincode := zeroes 32; Key := z2b 2 :: zeroes 32 |}.

Definition wallet0 : wallet := {|
  kind := SK_P2WPKH; reqSigs := 1; masterPubs := [key0];
  nextReceiveIndex := 0; nReceiveDerived := 0; nextChangeIndex := 0; nChangeDerived := 0;
  height := 0; hash := walletHash SK_P2WPKH 1 [key0] |}.

(** As it is configured. *)
Definition config0 : WalletConfig :=
  {| wc_Kind := SK_P2WPKH; wc_Reqsigs := 1; wc_MasterPubs := [key0]; wc_Height := 0 |}.

Definition scripts_of (acc : accountKind) (n : Z) : list bytes :=
  match deriveScriptPubkeys wallet0 acc 0 n with Ok l => l | _ => [] end.
(** Its first two scripts of each account. *)
Definition script_at (acc : accountKind) (i : nat) : bytes :=
  nth i (scripts_of acc 2) [].

(** ** Blocks *)

Definition coinbase (n : Z) (outs : list Output) : Transaction := {|
  tx_Version := 1; Marker := z2b 0; Flag := z2b 0;
  Inputs := [{| in_Txid := zeroes 32; in_Vout := 2 ^ 32 - 1; ScriptSig := [z2b n];
                Sequence := 0 |}];
  Outputs := outs; tx_Witness := []; Locktime := 0 |}.

Definition mk_block (prev : bytes) (n : Z) (txs : list Transaction) : Block := {|
  blk_Version := 1; blk_PreviousBlock := prev;
  blk_MerkleRoot := match merkleRoot (Txid <$> txs) with Ok r => r | _ => [] end;
  Time := n; Bits := 0; blk_Nonce := n; Transactions := txs |}.

Definition g0 : bytes := hd_Hash regtest_genesis.

Definition pay1 : Transaction :=
  coinbase 1 [{| Amount := 50; ScriptPubkey := script_at receiveAccount 0 |}].
Definition spend2 : Transaction := {|
  tx_Version := 2; Marker := z2b 0; Flag := z2b 0;
  Inputs := [{| in_Txid := Txid pay1; in_Vout := 0; ScriptSig := []; Sequence := 0 |}];
  Outputs := [{| Amount := 20; ScriptPubkey := [z2b OP_1] |};
              {| Amount := 30; ScriptPubkey := script_at changeAccount 0 |}];
  tx_Witness := []; Locktime := 0 |}.

Definition block1 : Block := mk_block g0 1 [pay1].
Definition block2 : Block := mk_block (Block_Hash block1) 2 [coinbase 2 []; spend2; coinbase 7 []].
Definition block3 : Block := mk_block (Block_Hash block2) 3 [coinbase 3 []].

(** A block that the chain leaves aside. *)
Definition stale3 : Block := mk_block (Block_Hash block2) 4 [coinbase 4 []].

Definition chain0 : list Header := header_of <$> [block1; block2; block3].

(** ** The node *)

#[export] Instance toyNode : BitcoinClient := {
  GetHeaders _ locs _ :=
    Ok match locs with loc :: _ => node_headers g0 chain0 loc | [] => [] end;
  GetBlock _ hs :=
    match list_find (λ b, hs = Block_Hash b) [block1; block2; block3] with
    | Some (_, b) => Ok b
    | None => Err (ErrMsg "Block not found")
    end;
  BroadcastWTX _ _ := Ok tt;
  Cancelled _ := false;
}.

Lemma chain0_ok : Forall header_ok chain0.
Proof. repeat constructor; vm_compute; reflexivity. Qed.

Lemma chain0_linked : linked_headers g0 chain0.
Proof. vm_compute. repeat split. Qed.

Lemma chain0_distinct : NoDup (g0 :: (Header_Hash <$> chain0)).
Proof. apply (bool_decide_unpack _). vm_compute. exact I. Qed.

#[export] Instance toyNode_serves : ServesChain g0 chain0.
Proof. split; [done|done|apply chain0_linked|apply chain0_distinct]. Qed.

Lemma toyNode_typed : typed_headers.
Proof.
  intros n locs stop hs [= <-]. destruct locs as [|loc l]; [constructor|].
  unfold node_headers. apply Forall_take, Forall_drop, chain0_ok.
Qed.

(** ** Managers *)

Definition repo0 : repository := {| r_db := emptyDatabase; utxoIndex := ∅ |}.

Definition manager (r : repository) (ws : list wallet) (sks : gmap bytes scriptPubkeyInfo) : W := {|
  repo := r; net := Regtest; bestHeader := 0; bestHeaderHash := zeroes 32;
  wallets := ws; scriptPubkeys := sks; shSubs := ∅; hSubs := ∅; calls := 0; events := [] |}.

(** An empty database and no wallets. *)
Definition w_empty : W := manager repo0 [] ∅.

(** The headers of some blocks are in the table. *)
Definition with_headers (rows : list (bytes * headerRow)) : repository :=
  {| r_db := upd_blockheader (λ _, list_to_map rows) emptyDatabase; utxoIndex := ∅ |}.

Lemma with_headers_chain g rows :
  linked g 1 rows → NoDup rows.*1 → chain_ok g (r_db (with_headers rows)) rows.
Proof. intros Hl Hnd. split; [|done]. unfold header_rows. simpl. by apply map_to_list_to_map. Qed.
