(* ===== verification/HeaderTheorems.v ===== *)
(** * HeaderTheorems: correctness of following the headers of the node *)

From S2P Require Import Prelude Bytes Sha256 BitcoinTypes ScriptPubkey.
From S2P Require Import Database Repository RepositoryFacts Ledger Chain Wallet Genesis Sync HeaderSync.
From S2P Require Import Reorg Examples.

(** C7: whatever the node replies, and however [syncHeaders] ends (an error or a
    panic included), the header table stays one chain from the genesis block
    (heights 1, 2, ..., every row hashing to its key and naming the row before
    it), rows are only added at its end, and the best header of the manager is
    the last row. *)
Theorem syncHeaders_keeps_chain `{Bip32} `{BitcoinClient} fuel rows w :
  typed_headers →
  chain_ok (genesis_hash w) (r_db (repo w)) rows →
  let w' := (syncHeaders fuel w).2 in
  ∃ rows', rows `prefix_of` rows' ∧
    chain_ok (genesis_hash w) (r_db (repo w')) rows' ∧
    bestHeader w' = length rows' ∧
    bestHeaderHash w' = tip_hash (genesis_hash w) rows'.
Proof.
  intros Hty Hc. destruct (syncHeaders_start rows w fuel Hc) as (w0 & Ht & Hg & _ & ->).
  destruct (syncHeaders_loop_extends (genesis_hash w) rows fuel Hty w0)
    as (Hg' & rows' & Hp & [? ? ?]); [split; [done|by exists rows]|].
  exists rows'. by rewrite <- Hg'.
Qed.

Lemma syncHeaders_keeps_chain_witness :
  ∃ rows', chain_ok g0 (r_db (repo (syncHeaders 3 w_empty).2)) rows'.
Proof.
  destruct (syncHeaders_keeps_chain 3 [] w_empty toyNode_typed (chain_ok_empty _))
    as (rows' & _ & Hc & _).
  by exists rows'.
Defined.

(** C8: against a node that serves one chain, [syncHeaders] from any prefix of
    that chain returns without an error, with exactly the headers of the chain
    in the table and the last one as the best header; one round of fuel per
    missing header and one more is enough. *)
Theorem syncHeaders_reaches_tip `{Bip32} `{BitcoinClient} C k fuel w :
  ServesChain (genesis_hash w) C →
  (k ≤ length C)%nat →
  chain_ok (genesis_hash w) (r_db (repo w)) (rows_of 1 (take k C)) →
  (length C - k < fuel)%nat →
  ∃ w', syncHeaders fuel w = (Ok tt, w') ∧
    chain_ok (genesis_hash w) (r_db (repo w')) (rows_of 1 C) ∧
    bestHeader w' = length C ∧
    bestHeaderHash w' = tip_hash (genesis_hash w) (rows_of 1 C).
Proof.
  intros HC Hk Hc Hf.
  destruct (syncHeaders_serves k fuel w eq_refl Hk Hc Hf) as (w' & Hrun & [Hc' Hh Htip] & Hg').
  exists w'. rewrite Hg' in Hc', Htip. by rewrite length_rows_of in Hh.
Qed.

Lemma syncHeaders_reaches_tip_witness :
  ∃ w', syncHeaders 4 w_empty = (Ok tt, w') ∧ bestHeader w' = 3.
Proof.
  destruct (syncHeaders_reaches_tip chain0 0 4 w_empty) as (w' & Hrun & _ & Hh & _).
  - exact toyNode_serves.
  - lia.
  - exact (chain_ok_empty _).
  - simpl. lia.
  - exists w'. exact (conj Hrun Hh).
Defined.

(** When the last one to six blocks of the table are not on the node's
    chain and the block before them (not the genesis block) is, [syncHeaders]
    ends with the reorganisation error that names exactly the height of that
    last common block, and has not changed the tables. *)
Theorem syncHeaders_finds_fork `{Bip32} `{BitcoinClient} C f stale fuel w :
  ServesChain (genesis_hash w) C →
  chain_ok (genesis_hash w) (r_db (repo w)) (rows_of 1 (take f C) ++ stale) →
  (1 ≤ f ≤ length C)%nat →
  (1 ≤ length stale ≤ 6)%nat →
  (∀ hs, hs ∈ stale.*1 → hs ∉ genesis_hash w :: (Header_Hash <$> C)) →
  ∃ w', syncHeaders (S fuel) w = (Err (ErrReorg f), w') ∧ repo w' = repo w.
Proof.
  intros HC Hc Hf Hs Hst.
  destruct (syncHeaders_forks (C := C) f stale fuel w eq_refl Hc Hf Hs Hst) as (w' & Hrun & Hr & _).
  by exists w'.
Qed.

Definition w_stale : W := manager (with_headers (rows_of 1 (header_of <$> [block1; block2; stale3]))) [] ∅.

Lemma w_stale_chain : chain_ok g0 (r_db (repo w_stale)) (rows_of 1 (header_of <$> [block1; block2; stale3])).
Proof.
  apply with_headers_chain; [vm_compute; repeat split|apply (bool_decide_unpack _); vm_compute; exact I].
Qed.

Lemma stale3_unknown hs :
  hs ∈ (rows_of 3 [header_of stale3]).*1 → hs ∉ g0 :: (Header_Hash <$> chain0).
Proof. intros ->%list_elem_of_singleton. apply (bool_decide_unpack _). vm_compute. exact I. Qed.

Lemma syncHeaders_finds_fork_witness :
  ∃ w', syncHeaders 1 w_stale = (Err (ErrReorg 2), w') ∧ repo w' = repo w_stale.
Proof.
  apply (syncHeaders_finds_fork chain0 2 (rows_of 3 [header_of stale3]) 0 w_stale).
  - exact toyNode_serves.
  - exact w_stale_chain.
  - simpl. lia.
  - simpl. lia.
  - exact stale3_unknown.
Defined.

(** A reorganisation deeper than six blocks stops the program: [checkReorg]
    panics after it has asked the node for six blocks. *)
Theorem checkReorg_too_deep `{Bip32} `{BitcoinClient} C f stale w :
  ServesChain (genesis_hash w) C →
  tip_ok (rows_of 1 (take f C) ++ stale) w →
  (f ≤ length C)%nat → C ≠ [] → (6 < length stale)%nat →
  (∀ hs, hs ∈ stale.*1 → hs ∉ genesis_hash w :: (Header_Hash <$> C)) →
  checkReorg w = (Panic "REORG WITH DELTA > 6", Nat.iter 6 tick w).
Proof.
  intros HC Ht Hf Hne Hs Hst.
  assert (forked (g := genesis_hash w) (C := C) f stale w) as Hfork by done.
  pose proof (length_forked _ _ _ Hfork) as Hlen.
  unfold checkReorg. rewrite (bind_Ok_1 (gets _) _ w (bestHeader w) w) by done.
  pose proof Ht as [_ Hh _]. rewrite Hh, Hlen.
  destruct (Z.eqb_spec (f + length stale)%nat 0); [lia|].
  change 7%nat with (6 + 1)%nat.
  rewrite (checkReorg_walk (rows_of 1 (take f C) ++ stale)); try done; try lia.
  - cbn [checkReorg_loop]. rewrite bind_run. unfold gets.
    rewrite (proj1 (proj2 (proj2 (iter_tick 6 w)))), Hh, Hlen.
    destruct (Z.ltb_spec 6 ((f + length stale)%nat - ((f + length stale)%nat - 6%nat - 1))); [done|lia].
  - intros j Hj. apply (forked_stale_lookup f stale w); [done|lia].
Qed.

(** Seven blocks that the node does not have. *)
Fixpoint mine (n : nat) (prev : bytes) : list Block :=
  match n with
  | O => []
  | S n => let b := mk_block prev (100 + n) [coinbase n []] in b :: mine n (Block_Hash b)
  end.

Definition w_deep : W :=
  set_best 7 (tip_hash g0 (rows_of 1 (header_of <$> mine 7 g0)))
    (manager (with_headers (rows_of 1 (header_of <$> mine 7 g0))) [] ∅).

Lemma mine7_chain : linked g0 1 (rows_of 1 (header_of <$> mine 7 g0)).
Proof. vm_compute. repeat split. Qed.

Lemma mine7_distinct : NoDup ((rows_of 1 (header_of <$> mine 7 g0)).*1 ++ g0 :: (Header_Hash <$> chain0)).
Proof. apply (bool_decide_unpack _). vm_compute. exact I. Qed.

Lemma mine7_unknown hs :
  hs ∈ (rows_of 1 (header_of <$> mine 7 g0)).*1 → hs ∉ g0 :: (Header_Hash <$> chain0).
Proof. intros Hin. pose proof mine7_distinct as (_ & Hd & _)%NoDup_app. by apply Hd. Qed.

Lemma w_deep_tip : tip_ok (rows_of 1 (header_of <$> mine 7 g0)) w_deep.
Proof.
  split; [|reflexivity|reflexivity]. apply with_headers_chain; [exact mine7_chain|].
  by pose proof mine7_distinct as (? & _ & _)%NoDup_app.
Qed.

Lemma checkReorg_too_deep_witness :
  checkReorg w_deep = (Panic "REORG WITH DELTA > 6", Nat.iter 6 tick w_deep).
Proof.
  apply (checkReorg_too_deep chain0 0 (rows_of 1 (header_of <$> mine 7 g0)) w_deep).
  - exact toyNode_serves.
  - exact w_deep_tip.
  - lia.
  - discriminate.
  - rewrite length_rows_of. simpl. lia.
  - exact mine7_unknown.
Defined.

(** A reorganisation of up to six blocks that reaches down to the genesis
    block panics: genesis is the common block, but it has no row in the table. *)
Theorem checkReorg_to_genesis `{Bip32} `{BitcoinClient} C stale w :
  ServesChain (genesis_hash w) C →
  tip_ok stale w →
  C ≠ [] → (1 ≤ length stale ≤ 6)%nat →
  (∀ hs, hs ∈ stale.*1 → hs ∉ genesis_hash w :: (Header_Hash <$> C)) →
  (checkReorg w).1 = Panic "unreachable".
Proof.
  intros HC Ht Hne Hs Hst.
  assert (forked (g := genesis_hash w) (C := C) 0 stale w) as Hfork by (split; try done; lia).
  unfold checkReorg. rewrite (bind_Ok_1 (gets _) _ w (bestHeader w) w) by done.
  pose proof Ht as [_ Hh _]. rewrite Hh.
  destruct (Z.eqb_spec (length stale) 0); [lia|].
  replace 7%nat with ((length stale - 1) + S (7 - length stale))%nat by lia.
  rewrite (checkReorg_walk stale); try done; try lia.
  - replace (length stale - (length stale - 1)%nat) with 1 by lia. cbn [checkReorg_loop].
    assert (tip_ok stale (Nat.iter (length stale - 1) tick w)) as Ht' by by apply iter_tick_tip.
    rewrite bind_run. unfold gets. pose proof Ht' as [Hc' Hh' _]. rewrite Hh'.
    destruct (Z.ltb_spec 6 (length stale - (1 - 1))); [lia|].
    change (1 - 1) with 0. rewrite bind_run.
    rewrite (on_repo_read _ _ _ (selectBlockHashesAtHeight_genesis Hc' 1 _ eq_refl)). done.
  - intros j Hj. apply (forked_stale_lookup 0 stale w); [done|lia].
Qed.

Definition w_young : W :=
  set_best 2 (tip_hash g0 (rows_of 1 (header_of <$> mine 2 g0)))
    (manager (with_headers (rows_of 1 (header_of <$> mine 2 g0))) [] ∅).

Lemma checkReorg_to_genesis_witness : (checkReorg w_young).1 = Panic "unreachable".
Proof.
  apply (checkReorg_to_genesis chain0 (rows_of 1 (header_of <$> mine 2 g0)) w_young).
  - exact toyNode_serves.
  - split; [|reflexivity|reflexivity].
    apply with_headers_chain; [vm_compute; repeat split|apply (bool_decide_unpack _); vm_compute; exact I].
  - discriminate.
  - simpl. lia.
  - apply Forall_forall, (bool_decide_unpack _). vm_compute. exact I.
Defined.

(** C34: the panic on deep reorganisations bounds the loop of [checkReorg], which
    has no other bound: for any node that answers every call, seven rounds are
    enough, whatever the tables hold. *)
Theorem checkReorg_terminates `{Bip32} `{BitcoinClient} w :
  (∀ n l stop, GetHeaders n l stop ≠ OutOfFuel) →
  (checkReorg w).1 ≠ OutOfFuel.
Proof.
  intros Hn. unfold checkReorg. rewrite (bind_Ok_1 (gets _) _ w (bestHeader w) w) by done.
  destruct (bestHeader w =? 0); [done|].
  assert (∀ (fuel : nat) h w', bestHeader w' = bestHeader w → bestHeader w - (h - 1) ≤ 7 →
    8 ≤ fuel + (bestHeader w - (h - 1)) → (checkReorg_loop fuel h w').1 ≠ OutOfFuel) as Hloop;
    [|apply Hloop; [done|lia|lia]].
  induction fuel as [|fuel IH]; intros h w' Hb H7 H8; [lia|]. cbn [checkReorg_loop].
  rewrite (bind_Ok_1 (gets _) _ w' (bestHeader w') w'), Hb by done.
  destruct (Z.ltb_spec 6 (bestHeader w - (h - 1))); [done|].
  rewrite bind_run. unfold selectBlockHashesAtHeight. rewrite on_repo_query.
  pose proof (safe_selectBlockHashesAtHeight (h - 1) 1 [] (repo w')) as Hsafe.
  unfold selectBlockHashesAtHeight in Hsafe. rewrite query_run in Hsafe. simpl fst in Hsafe.
  destruct (mbind _ _) as [[|h0 l]| | |]; try done.
  rewrite bind_run. unfold call_node. pose proof (Hn (calls w') [h0] (zeroes 32)) as Hn'.
  destruct (GetHeaders _ _ _) as [[|hdr hs]| | |]; try done.
  case_bool_decide; [done|]. apply IH; [done|lia|lia].
Qed.

Lemma checkReorg_terminates_witness : (checkReorg w_deep).1 ≠ OutOfFuel.
Proof. apply (checkReorg_terminates w_deep). intros n l stop. discriminate. Defined.

(** [processReorg] to a height of the chain succeeds on tables that are
    consistent: it keeps exactly the headers up to the height, leaves the
    ledger as [rolled_back] says (with its invariant for the lower height),
    rebuilds the index of unspent outputs from its table, takes the block at
    the height as the best header, and lowers every wallet above it to it. *)
Theorem processReorg_spec top rows h w :
  chain_ok (genesis_hash w) (r_db (repo w)) rows →
  db_ok top (r_db (repo w)) → blobs_ok (r_db (repo w)) →
  1 ≤ h ≤ length rows →
  ∃ w', processReorg h w = (Ok tt, w') ∧
    chain_ok (genesis_hash w) (r_db (repo w')) (take (Z.to_nat h) rows) ∧
    r_db (repo w') = rolled_back h (r_db (repo w)) ∧
    db_ok h (r_db (repo w')) ∧ index_sync (repo w') ∧
    bestHeader w' = h ∧
    bestHeaderHash w' = tip_hash (genesis_hash w) (take (Z.to_nat h) rows) ∧
    wallets w' = (λ wl, set_height (Z.min h (height wl)) wl) <$> wallets w.
Proof.
  intros Hc Hok Hb Hh. eexists. split; [by eapply processReorg_run|].
  split; [by apply rolled_back_headers; [|lia]|]. split; [done|].
  split; [by eapply rolled_back_db_ok|]. split_and!; done.
Qed.

Lemma blobs_ok_headers rows :
  linked g0 1 rows → NoDup rows.*1 → blobs_ok (r_db (with_headers rows)).
Proof.
  intros Hl Hnd. split; simpl; try by (intros *; rewrite lookup_empty).
  - intros hs row Hr. apply elem_of_list_to_map in Hr; [|done].
    split; [by eapply linked_hash32|]. apply list_elem_of_lookup in Hr as [i Hi].
    by destruct (linked_lookup _ _ _ _ _ _ Hl Hi) as (_ & ? & _).
  - by intros sh txid []%elem_of_empty.
Qed.

Lemma db_ok_headers top rows : db_ok top (r_db (with_headers rows)).
Proof. split; simpl; intros *; (by rewrite lookup_empty) || by rewrite elem_of_empty. Qed.

Lemma processReorg_spec_witness :
  ∃ w', processReorg 2 w_stale = (Ok tt, w') ∧ bestHeader w' = 2.
Proof.
  destruct (processReorg_spec 3 (rows_of 1 (header_of <$> [block1; block2; stale3])) 2 w_stale)
    as (w' & Hrun & _ & _ & _ & _ & Hh & _).
  - exact w_stale_chain.
  - exact (db_ok_headers _ _).
  - apply blobs_ok_headers; [vm_compute; repeat split|apply (bool_decide_unpack _); vm_compute; exact I].
  - simpl. lia.
  - exists w'. exact (conj Hrun Hh).
Defined.

(** C9: after a reorganisation of one to six blocks above a common block that is
    not the genesis block, the rounds of [run] recover: [syncHeaders] reports
    the fork, [processReorg] rolls back to it, and the next [syncHeaders] ends
    at the tip of the node's new chain with exactly its headers in the table. *)
Theorem reorg_recovery `{Bip32} `{BitcoinClient} C f stale top fuel w :
  ServesChain (genesis_hash w) C →
  chain_ok (genesis_hash w) (r_db (repo w)) (rows_of 1 (take f C) ++ stale) →
  db_ok top (r_db (repo w)) → blobs_ok (r_db (repo w)) →
  (1 ≤ f ≤ length C)%nat →
  (1 ≤ length stale ≤ 6)%nat →
  (∀ hs, hs ∈ stale.*1 → hs ∉ genesis_hash w :: (Header_Hash <$> C)) →
  (length C - f < fuel)%nat →
  ∃ w1 w2 w3,
    syncHeaders fuel w = (Err (ErrReorg f), w1) ∧
    processReorg f w1 = (Ok tt, w2) ∧
    syncHeaders fuel w2 = (Ok tt, w3) ∧
    chain_ok (genesis_hash w) (r_db (repo w3)) (rows_of 1 C) ∧
    bestHeader w3 = length C.
Proof.
  intros HC Hc Hok Hb Hf Hs Hst Hfuel. destruct fuel as [|fuel]; [lia|].
  destruct (syncHeaders_forks (C := C) f stale fuel w eq_refl Hc Hf Hs Hst) as (w1 & Hrun1 & Hr1 & Hg1).
  rewrite <- Hr1, <- Hg1 in *.
  destruct (processReorg_forks top C stale f w1 Hc Hok Hb Hf) as [Hrun2 Hc2].
  set (w2 := rolled_back_W f _ w1) in *.
  destruct (syncHeaders_serves (g := genesis_hash w1) (C := C) f (S fuel) w2 eq_refl ltac:(lia) Hc2 ltac:(lia))
    as (w3 & Hrun3 & [Hc3 Hh3 _] & Hg3).
  exists w1, w2, w3. rewrite Hg3 in Hc3. by rewrite length_rows_of in Hh3.
Qed.

Lemma reorg_recovery_witness :
  ∃ w1 w2 w3, syncHeaders 4 w_stale = (Err (ErrReorg 2), w1) ∧
    processReorg 2 w1 = (Ok tt, w2) ∧ syncHeaders 4 w2 = (Ok tt, w3) ∧ bestHeader w3 = 3.
Proof.
  destruct (reorg_recovery chain0 2 (rows_of 3 [header_of stale3]) 3 4 w_stale)
    as (w1 & w2 & w3 & H1 & H2 & H3 & _ & Hh).
  - exact toyNode_serves.
  - exact w_stale_chain.
  - exact (db_ok_headers _ _).
  - apply blobs_ok_headers; [vm_compute; repeat split|apply (bool_decide_unpack _); vm_compute; exact I].
  - simpl. lia.
  - simpl. lia.
  - exact stale3_unknown.
  - simpl. lia.
  - exists w1, w2, w3. exact (conj H1 (conj H2 (conj H3 Hh))).
Defined.
