(* ===== verification/ScanExamples.v ===== *)
(** * ScanExamples: a wallet that has been paid and is about to spend

    The concrete manager on which the theorems about blocks are applied: the
    tables after the first block of the example chain, the wallet with all its
    scripts derived, and the second block to process. *)

From S2P Require Import Prelude Bytes Sha256 Merkle BitcoinTypes ScriptPubkey.
From S2P Require Import Database Repository RepositoryFacts Ledger Chain Wallet WalletFacts Scan.
From S2P Require Import Genesis Sync HeaderSync Examples BlockScan.

(** ** The key derivation of the examples *)

#[export] Instance toyBip32_safe : Bip32Safe.
Proof.
  split; [done| |done]. intros k path k' [= <-]. simpl. by rewrite Sha256.length_Sum256.
Qed.

Lemma toy_make_at m ks k idx :
  make_at SK_P2WPKH m (k :: ks) idx =
    Ok ([z2b OP_0; z2b OP_PUSHBYTES_20]
        ++ copy_into (zeroes 20) (hash160 (Key (toy_child k [idx])))).
Proof.
  unfold make_at. rewrite (mapM_Ok_total _ (λ k, Key (toy_child k [idx]))) by done. run_outcome.
  rewrite fmap_cons. unfold Make, index. cbn [lookup list_lookup]. run_outcome. unfold p2wpkh.
  assert (length (Key (toy_child k [idx])) = 33%nat) as -> by (simpl; by rewrite Sha256.length_Sum256).
  done.
Qed.

Lemma toy_derives E wl k ks : kind wl = SK_P2WPKH → masterPubs wl = k :: ks → derives E wl.
Proof.
  intros Hk Hm acc offset count e. unfold deriveScriptPubkeys, MakeMulti. rewrite Hk, Hm.
  rewrite (mapM_Ok_total _ (λ k, toy_child k [account_index acc])) by done. run_outcome.
  rewrite (mapM_Ok_total _ id).
  - run_outcome. rewrite list_fmap_id. simpl fmap.
    erewrite mapM_Ok_total; [discriminate|]. intros i _. apply toy_make_at.
  - intros x (y & -> & _)%list_elem_of_fmap. unfold basePubKey. done.
Qed.

Lemma wallet0_derives E : derives E wallet0.
Proof. by apply (toy_derives E wallet0 key0 []). Qed.

(** ** The tables after the first block *)

Definition headers12 : list (bytes * headerRow) := rows_of 1 (header_of <$> [block1; block2]).

Definition paid_outpoint : bytes := makeTxidVout (Txid pay1) 0.
Definition paid_output : Output := {| Amount := 50; ScriptPubkey := script_at receiveAccount 0 |}.
Definition paid_script_hash : bytes := Sha256.Sum256 (script_at receiveAccount 0).

Definition paid_tx_row : txRow := {|
  tr_blockhash := Block_Hash block1; tr_pos := 0;
  tr_serialized := Transaction_Serialize pay1; tr_merkle_proof := [] |}.

Definition paid_db : Database := {|
  t_wallet := ∅;
  t_blockheader := list_to_map headers12;
  t_unspent_output := {[ paid_outpoint := out_row paid_output ]};
  t_spent_output := ∅;
  t_tx := {[ Txid pay1 := paid_tx_row ]};
  t_scriptpubkey_tx := {[ (paid_script_hash, Txid pay1) ]};
|}.

Lemma headers12_linked : linked g0 1 headers12.
Proof. vm_compute. repeat split. Qed.
Lemma headers12_distinct : NoDup headers12.*1.
Proof. apply (bool_decide_unpack _). vm_compute. exact I. Qed.

Lemma paid_chain : chain_ok g0 paid_db headers12.
Proof.
  split; [|apply headers12_linked]. unfold header_rows, paid_db. cbn [t_blockheader].
  exact (map_to_list_to_map headers12 headers12_distinct).
Qed.

Lemma paid_header b n :
  (b, n) ∈ [(block1, 1); (block2, 2)] →
  ∃ row, t_blockheader paid_db !! Block_Hash b = Some row ∧ bh_height row = n.
Proof.
  intros Hin. exists (header_row n (header_of b)).2. split; [|done].
  apply (header_lookup_Some _ _ _ _ _ paid_chain).
  assert ((Block_Hash b, (header_row n (header_of b)).2) = header_row n (header_of b)) as -> by done.
  apply elem_of_cons in Hin as [[= -> ->]|[= -> ->]%list_elem_of_singleton];
    [apply list_elem_of_here|apply list_elem_of_further, list_elem_of_here].
Qed.

(** The hashes of the examples are computed by the kernel alone. *)
#[local] Opaque block1 block2 pay1 headers12 script_at.

Lemma paid_outpoint_txid : outpoint_txid paid_outpoint = Txid pay1.
Proof. apply outpoint_txid_make, hash32_Txid. Qed.

Lemma paid_db_ok : db_ok 1 paid_db.
Proof.
  destruct (paid_header block1 1) as (row & Hrow & Hh); [apply list_elem_of_here|].
  split; simpl.
  - intros txid r [<- <-]%lookup_singleton_Some. exists 1. split; [|lia].
    unfold tx_height. change (tr_blockhash paid_tx_row) with (Block_Hash block1).
    by rewrite Hrow, <- Hh.
  - intros tv r [<- <-]%lookup_singleton_Some. rewrite paid_outpoint_txid, lookup_singleton_eq. by eexists.
  - intros tv r. by rewrite lookup_empty.
  - intros sh txid Hin%elem_of_singleton. apply pair_eq in Hin as [-> ->]. rewrite lookup_singleton_eq. by eexists.
  - intros tv r. by rewrite lookup_empty.
Qed.

Lemma paid_blobs_ok : blobs_ok paid_db.
Proof.
  split; simpl.
  - intros hs row Hr. apply elem_of_list_to_map in Hr; [|apply headers12_distinct].
    split; [eapply linked_hash32; [apply headers12_linked|done]|].
    apply list_elem_of_lookup in Hr as [i Hi].
    by destruct (linked_lookup _ _ _ _ _ _ headers12_linked Hi) as (_ & ? & _).
  - intros tv r [<- <-]%lookup_singleton_Some.
    split; [apply length_makeTxidVout, hash32_Txid|apply Sha256.length_Sum256].
  - intros tv r. by rewrite lookup_empty.
  - intros txid r [<- <-]%lookup_singleton_Some. split; [apply hash32_Txid|apply hash32_Block_Hash].
  - intros sh txid Hin%elem_of_singleton. apply pair_eq in Hin as [-> ->]. split; [apply Sha256.length_Sum256|apply hash32_Txid].
Qed.

(** ** The manager with its scripts derived *)

Definition paid_repo : repository :=
  {| r_db := paid_db; utxoIndex := to_index <$> t_unspent_output paid_db |}.

(** Before any script is derived. *)
Definition w_blank : W := manager paid_repo [wallet0] ∅.

(** [refillWallet] as [setupWallet] calls it. *)
Definition w_paid : W := (refillWallet 0 w_blank).2.

Lemma w_blank_index : index_ok w_blank.
Proof.
  split; simpl.
  - intros sh info. by rewrite lookup_empty.
  - intros [|i] wl acc idx Hi; simplify_eq/=. destruct acc; simpl; lia.
  - intros [|i] wl acc Hi; simplify_eq/=. destruct acc; simpl; lia.
  - intros [|i] wl Hi; simplify_eq/=. done.
Qed.

Lemma w_paid_spec :
  (refillWallet 0 w_blank).1 = Ok tt ∧ index_ok w_paid ∧ refilled 0 w_blank w_paid ∧ gap_ok w_paid.
Proof.
  pose proof (refillWallet_spec never 0 wallet0 w_blank w_blank_index eq_refl
    (wallet0_derives never)) as Hr.
  unfold w_paid. destruct (refillWallet 0 w_blank) as [o w]. destruct Hr as (Hs & He & Hix & Hrf & Hg).
  assert (o = Ok tt) as ->.
  { destruct o as [[]| | |]; try done. by destruct (He _ eq_refl). }
  destruct (Hg eq_refl) as (wl & Hwl & Hgap). split; [done|]. split; [done|]. split; [done|].
  intros [|i] wl' acc Hi; simpl in Hi.
  - assert (wl' = wl) as -> by congruence. apply Hgap.
  - apply lookup_lt_Some in Hi. rewrite (sb_length _ _ (rf_same _ _ _ Hrf)) in Hi. simpl in Hi. lia.
Qed.

Lemma w_paid_repo : repo w_paid = paid_repo.
Proof. destruct w_paid_spec as (_ & _ & Hr & _). apply (sb_repo _ _ (rf_same _ _ _ Hr)). Qed.

Lemma w_paid_derive : all_derive never w_paid.
Proof.
  destruct w_paid_spec as (_ & _ & Hr & _).
  eapply same_wallets_derive; [by eapply refilled_same_wallets|].
  intros [|i] wl Hi; simplify_eq/=. apply wallet0_derives.
Qed.

(** The first script of the receive account is in the index. *)
Lemma w_paid_knows acc : is_Some (scriptPubkeys w_paid !! Sha256.Sum256 (script_at acc 0)).
Proof.
  destruct w_paid_spec as (_ & Hix & Hr & Hg).
  destruct (rf_wallet _ _ _ Hr wallet0 eq_refl) as (wl & Hwl & Hc & _ & Hn & _).
  pose proof (Hg 0%nat wl acc Hwl) as Hgap. unfold gap_ok_at, gap in Hgap. rewrite Hn in Hgap.
  destruct (ix_complete _ Hix 0%nat wl acc 0 Hwl) as (s & Hs & Hin).
  { assert (nextIndex acc wallet0 = 0) as Hz by by destruct acc. rewrite Hz in Hgap.
    specialize (Hgap ltac:(lia)). lia. }
  rewrite (script_of_config wallet0 wl) in Hs by done.
  assert (script_of wallet0 acc 0 = Ok (script_at acc 0)) as Hs' by (destruct acc; vm_compute; reflexivity).
  by assert (s = script_at acc 0) as <- by congruence.
Qed.

Lemma block2_txids : NoDup (TXIDs block2) ∧ Txid pay1 ∉ TXIDs block2.
Proof. split; apply (bool_decide_unpack _); vm_compute; exact I. Qed.

Lemma block2_outputs : Forall tx_ok (Transactions block2).
Proof. repeat constructor. Qed.

(** The second block is ready to be processed. *)
Lemma w_paid_ready : ready never 1 2 (frame 1 paid_db) [block2] w_paid.
Proof.
  destruct w_paid_spec as (_ & Hix & Hr & Hg).
  split; try (rewrite w_paid_repo; change (r_db paid_repo) with paid_db).
  - exact paid_db_ok.
  - reflexivity.
  - intros [|i] b Hb; [|by apply lookup_lt_Some in Hb; simpl in Hb; lia].
    injection Hb as <-. destruct (paid_header block2 2) as (row & Hrow & Hh).
    { apply list_elem_of_further, list_elem_of_here. }
    exists row. split; [exact Hrow|]. lia.
  - apply Forall_singleton, block2_outputs.
  - rewrite bind_cons, app_nil_r. exact (proj1 block2_txids).
  - intros txid Hin. rewrite bind_cons, app_nil_r in Hin.
    apply lookup_singleton_None. intros <-. by apply block2_txids.
  - reflexivity.
  - exact paid_blobs_ok.
  - exact Hix.
  - exact Hg.
  - exact w_paid_derive.
Qed.
