(* ===== verification/BlockTheorems.v ===== *)
(** * BlockTheorems: correctness of processing blocks

    The theorems start from a manager that is [ready] for a block: consistent
    tables, the block in the header table, its transactions new. *)

From S2P Require Import Prelude Bytes Sha256 Merkle BitcoinTypes ScriptPubkey.
From S2P Require Import Database Repository RepositoryFacts Ledger Chain Wallet WalletFacts Scan.
From S2P Require Import Genesis Sync HeaderSync Reorg BlockScan Examples ScanExamples.

(** A block that is ready is processed to its end. *)
Lemma processBlock_done `{Bip32Safe} h hh V b bs w :
  h < hh → ready never h hh V (b :: bs) w →
  ∃ w', processBlock b hh w = (Ok tt, w') ∧
    blk never h hh b V (scriptPubkeys w) (t_unspent_output (r_db (repo w))) (bs ≫= TXIDs)
      (length (wallets w)) [] (block_entries (Transactions b)) (block_spends (Transactions b)) w'.
Proof.
  intros Hlt Hr.
  pose proof (processBlock_triple never h hh b Hlt (ready_block_ok _ _ _ _ _ _ Hr) V (scriptPubkeys w)
    (t_unspent_output (r_db (repo w))) (bs ≫= TXIDs) (ready_future _ _ _ _ _ _ Hr)
    (length (wallets w)) w (ready_start _ _ _ _ _ _ Hr)) as Ht.
  destruct (processBlock b hh w) as [[[]| | |] w']; try done. by exists w'.
Qed.




Definition change_output : Output := {| Amount := 30; ScriptPubkey := script_at changeAccount 0 |}.

Lemma change_entry :
  (makeTxidVout (Txid spend2) 1, (Txid spend2, change_output)) ∈ block_entries (Transactions block2).
Proof.
  unfold block2, mk_block, block_entries. cbn [Transactions]. rewrite !bind_cons.
  apply elem_of_app. right. apply elem_of_app. left.
  apply list_elem_of_further, list_elem_of_here.
Qed.

Lemma change_unspent : makeTxidVout (Txid spend2) 1 ∉ (block_spends (Transactions block2)).*1.
Proof. apply (bool_decide_unpack _). vm_compute. exact I. Qed.



Lemma paid_is_spent : paid_outpoint ∈ (block_spends (Transactions block2)).*1.
Proof.
  unfold block2, mk_block, block_spends. cbn [Transactions]. rewrite !bind_cons, !fmap_app.
  apply elem_of_app. right. apply elem_of_app. left. apply list_elem_of_here.
Qed.

Lemma paid_is_unspent : t_unspent_output (r_db (repo w_paid)) !! paid_outpoint = Some (out_row paid_output).
Proof. rewrite w_paid_repo. apply lookup_singleton_eq. Qed.







Lemma toyNode_block2 n b : b ∈ [block2] → GetBlock n (Block_Hash b) = Ok b.
Proof. intros ->%list_elem_of_singleton. vm_compute. reflexivity. Qed.

