(* ===== verification/RepositoryTheorems.v ===== *)
(** * RepositoryTheorems: correctness of the rollback and of the cache *)

From S2P Require Import Prelude Bytes Sha256 Merkle BitcoinTypes ScriptPubkey.
From S2P Require Import Database Repository RepositoryFacts Ledger Chain Wallet Scan Genesis Sync.
From S2P Require Import HeaderSync Examples BlockScan ScanExamples.

(** ** Rolling back *)

Lemma unspend_spend s k row : s = spend_row k row ↔ unspend_row s = row ∧ so_spent_height s = k.
Proof. destruct s, row. unfold spend_row, unspend_row. simpl. split; [by intros [= -> -> ->]|]. by intros [[= -> ->] ->]. Qed.

(** The transaction is in a block at or below the height. *)
Definition at_or_below (db : Database) (h : Z) (txid : bytes) : Prop :=
  ∃ row k, t_tx db !! txid = Some row ∧ tx_height db row = Some k ∧ k ≤ h.

Lemma tx_above_at_or_below top db h txid :
  db_ok top db → is_Some (t_tx db !! txid) → tx_above db h txid = false ↔ at_or_below db h txid.
Proof.
  intros Hok [row Hrow]. destruct (ok_tx _ _ Hok _ _ Hrow) as (k & Hk & _).
  rewrite (tx_above_false _ _ _ _ _ Hrow Hk). unfold at_or_below. split.
  - intros Hlt. exists row, k. split_and!; [done|done|]. by apply Z.ltb_ge.
  - intros (row' & k' & Hrow' & Hk' & Hle). simplify_eq. by apply Z.ltb_ge.
Qed.

(** C16: on consistent tables [deleteAllSinceBlock] succeeds and leaves exactly
    what was known at the height: the headers and the transactions up to it,
    the script history of those transactions, the outputs of those transactions
    that were unspent or were spent above it as unspent, the outputs spent at or
    below it as spent, and every wallet with its indexes, at the lower of its
    height and the height; the tables are consistent again for the height. *)
Theorem deleteAllSinceBlock_spec top h r :
  db_ok top (r_db r) →
  let db := r_db r in
  ∃ r', deleteAllSinceBlock h r = (Ok tt, r') ∧
    let db' := r_db r' in
    db_ok h db' ∧ utxoIndex r' = utxoIndex r ∧
    (∀ hs row, t_blockheader db' !! hs = Some row ↔ t_blockheader db !! hs = Some row ∧ bh_height row ≤ h) ∧
    (∀ txid row, t_tx db' !! txid = Some row ↔ t_tx db !! txid = Some row ∧ at_or_below db h txid) ∧
    (∀ sh txid, (sh, txid) ∈ t_scriptpubkey_tx db' ↔
      (sh, txid) ∈ t_scriptpubkey_tx db ∧ at_or_below db h txid) ∧
    (∀ tv row, t_unspent_output db' !! tv = Some row ↔
      at_or_below db h (outpoint_txid tv) ∧
      (t_unspent_output db !! tv = Some row ∨
       ∃ k, h < k ∧ t_spent_output db !! tv = Some (spend_row k row))) ∧
    (∀ tv row, t_spent_output db' !! tv = Some row ↔
      t_spent_output db !! tv = Some row ∧ so_spent_height row ≤ h) ∧
    (∀ hs, t_wallet db' !! hs =
      (λ row, {| wr_height := wr_height row `min` h;
                 wr_next_receive_index := wr_next_receive_index row;
                 wr_next_change_index := wr_next_change_index row |}) <$> t_wallet db !! hs).
Proof.
  intros Hok db. eexists. split; [by eapply deleteAllSinceBlock_ok|].
  split; [by eapply rolled_back_db_ok|]. split; [done|]. cbn [r_db upd_db]. fold db in Hok |- *.
  split_and!; unfold rolled_back; simpl.
  - intros hs row. rewrite map_lookup_filter_Some. unfold header_above. simpl.
    by rewrite Z.ltb_ge.
  - intros txid row. rewrite map_lookup_filter_Some. simpl. split; intros [Hl Hb]; (split; [done|]).
    + apply (tx_above_at_or_below top); [done|by eexists|].
      destruct (ok_tx _ _ Hok _ _ Hl) as (k & Hk & _).
      by rewrite (tx_above_false _ _ _ _ _ Hl Hk), <- (block_above_height _ _ _ _ Hk).
    + destruct Hb as (row' & k & Hl' & Hk & Hle). simplify_eq.
      rewrite (block_above_height _ _ _ _ Hk). by apply Z.ltb_ge.
  - intros sh txid. rewrite elem_of_filter. simpl. split.
    + intros [Hf Hin]. split; [done|]. apply (tx_above_at_or_below top); [done|by eapply ok_stx|done].
    + intros [Hin Hb]. split; [|done]. apply (tx_above_at_or_below top); [done|by eapply ok_stx|done].
  - intros tv row. rewrite map_lookup_filter_Some. simpl.
    assert (((unspend_row <$> spent_above h db) ∪ t_unspent_output db) !! tv = Some row ↔
      t_unspent_output db !! tv = Some row ∨
      ∃ k, h < k ∧ t_spent_output db !! tv = Some (spend_row k row)) as Hu.
    { rewrite lookup_union_Some_raw, lookup_fmap, fmap_Some, fmap_None. split.
      - intros [(s & Hs & ->)|[_ Hu]]; [right|by left].
        apply spent_above_lookup in Hs as [Hs Hlt]. exists (so_spent_height s). split; [done|].
        rewrite Hs. f_equal. by apply unspend_spend.
      - intros [Hu|(k & Hk & Hs)].
        + right. split; [|done]. apply eq_None_not_Some. intros [s Hs].
          apply spent_above_lookup in Hs as [Hs _]. by rewrite (ok_disjoint _ _ Hok _ _ Hs) in Hu.
        + left. exists (spend_row k row). split; [by apply spent_above_lookup|]. by destruct row. }
    rewrite Hu. clear Hu.
    split; intros [H1 H2]; ((split; [|done]) || (split; [done|]));
      (assert (is_Some (t_tx db !! outpoint_txid tv)) as Ht; [|by apply (tx_above_at_or_below top)]);
      [destruct H1 as [Hu|(k & _ & Hs)]|destruct H2 as [Hu|(k & _ & Hs)]];
      try (by eapply ok_unspent);
      by destruct (ok_spent _ _ Hok _ _ Hs) as (trow & ? & ? & _); eexists.
  - intros tv row. rewrite map_lookup_filter_Some. simpl. by rewrite Z.nlt_ge.
  - intros hs. rewrite lookup_fmap. destruct (t_wallet db !! hs) as [row|]; [|done]. simpl.
    do 2 f_equal. destruct (Z.ltb_spec h (wr_height row)); lia.
Qed.

Lemma deleteAllSinceBlock_spec_witness :
  ∃ r', deleteAllSinceBlock 0 paid_repo = (Ok tt, r') ∧ db_ok 0 (r_db r').
Proof.
  destruct (deleteAllSinceBlock_spec 1 0 paid_repo paid_db_ok) as (r' & H1 & H2 & _).
  exists r'. exact (conj H1 H2).
Defined.

(** ** The cache *)

(** The index of unspent outputs is the table after [newRepository] and
    after [reloadCaches], whatever the index held before, and neither changes
    the tables. *)
Theorem caches_reload db index :
  blobs_ok db →
  (∃ r, newRepository db = (Ok tt, r) ∧ r_db r = db ∧ index_sync r) ∧
  (∃ r, reloadCaches {| r_db := db; utxoIndex := index |} = (Ok tt, r) ∧ r_db r = db ∧ index_sync r).
Proof.
  intros Hb. split.
  - unfold newRepository. rewrite loadUtxoIndex_ok by done. eexists. split; [done|]. split; [done|].
    unfold index_sync, upd_utxoIndex. simpl. by rewrite (right_id_L ∅ (∪)).
  - rewrite reloadCaches_ok by done. eexists. split; [done|]. by split.
Qed.

Lemma caches_reload_witness : ∃ r, newRepository paid_db = (Ok tt, r) ∧ index_sync r.
Proof.
  destruct (proj1 (caches_reload paid_db ∅ paid_blobs_ok)) as (r & H1 & _ & H2).
  exists r. exact (conj H1 H2).
Defined.

(** ** A failing block *)

(** A wallet with enough scripts derived, one of them in the index. *)
Definition wallet_full : wallet := set_receive_derived 5000 (set_change_derived 5000 wallet0).
Definition w_full : W :=
  manager repo0 [wallet_full] {[ Sha256.Sum256 [z2b 1] :=
    {| walletIdx := 0; account := receiveAccount; pubkeyIdx := 0 |} ]}.

(** Its second output has an amount that the database refuses. *)
Definition bad_block : Block := mk_block g0 1 [coinbase 1
  [{| Amount := 10; ScriptPubkey := [z2b 1] |}; {| Amount := 2 ^ 63; ScriptPubkey := [z2b 1] |}]].

(** When [processBlock] fails inside [sql.Execute] the tables are rolled
    back but the in-memory index of unspent outputs is not: there are a
    manager whose index is its table and a block whose processing fails, leaves
    the tables as they were, and leaves an output in the index that is in no
    table. *)
Theorem failed_block_leaves_index_stale :
  ∃ w' tv, Execute (processBlock bad_block 1) w_full =
      (Err (ErrMsg "uint64 values with high bit set are not supported"), w') ∧
    index_sync (repo w_full) ∧ r_db (repo w') = r_db (repo w_full) ∧
    is_Some (utxoIndex (repo w') !! tv) ∧ t_unspent_output (r_db (repo w')) !! tv = None.
Proof.
  exists (Execute (processBlock bad_block 1) w_full).2.
  exists (makeTxidVout (Txid (coinbase 1 [{| Amount := 10; ScriptPubkey := [z2b 1] |};
    {| Amount := 2 ^ 63; ScriptPubkey := [z2b 1] |}])) 0).
  assert ((Execute (processBlock bad_block 1) w_full).1 =
    Err (ErrMsg "uint64 values with high bit set are not supported")) as He
    by (vm_compute; reflexivity).
  split; [by rewrite <- He; destruct (Execute _ _)|].
  split; [reflexivity|].
  split; [vm_compute; reflexivity|].
  split; [apply (bool_decide_unpack _); vm_compute; exact I|vm_compute; reflexivity].
Qed.
