(* ===== verification/WalletTheorems.v ===== *)
(** * WalletTheorems: correctness of wallets and of their scripts *)

From S2P Require Import Prelude Bytes Sha256 Merkle BitcoinTypes ScriptPubkey.
From S2P Require Import Database Repository RepositoryFacts Ledger Chain Wallet WalletFacts Scan.
From S2P Require Import Genesis Sync HeaderSync Manager Examples BlockScan ScanExamples.

(** ** Refilling *)



(** Deriving scripts in batches leaves no hole and no overlap: two
    consecutive batches are the batch of their union. *)
Theorem deriveScriptPubkeys_batches `{Bip32} wl acc offset n m l1 l2 :
  0 ≤ n → 0 ≤ m →
  deriveScriptPubkeys wl acc offset n = Ok l1 →
  deriveScriptPubkeys wl acc (uint32_wrap (offset + n)) m = Ok l2 →
  deriveScriptPubkeys wl acc offset (n + m) = Ok (l1 ++ l2).
Proof.
  unfold deriveScriptPubkeys, MakeMulti. intros Hn Hm H1 H2.
  apply outcome_bind_Ok in H1 as (ks & Hk & H1). rewrite Hk in H2 |- *.
  apply outcome_bind_Ok in H1 as (base & Hb & H1). run_outcome.
  apply outcome_bind_Ok in H2 as (ks' & Hk' & H2). injection Hk' as <-.
  apply outcome_bind_Ok in H2 as (base' & Hb' & H2). rewrite Hb in Hb' |- *. injection Hb' as <-.
  run_outcome. apply mapM_Ok in H1, H2. apply mapM_Ok.
  rewrite seqZ_app by done. apply Forall2_app; [done|]. rewrite Z.add_0_l.
  rewrite <- (Z.add_0_r n) at 1. rewrite <- fmap_add_seqZ. apply Forall2_fmap_l.
  eapply Forall2_impl; [exact H2|]. intros i s Hi. cbv beta in Hi. unfold compose.
  rewrite <- Hi. f_equal. unfold uint32_wrap. rewrite Z.add_mod_idemp_r by done. f_equal. lia.
Qed.

Lemma deriveScriptPubkeys_batches_witness :
  ∃ l1 l2, deriveScriptPubkeys wallet0 receiveAccount 0 (1 + 1) = Ok (l1 ++ l2) ∧ length l1 = 1%nat.
Proof.
  destruct (deriveScriptPubkeys wallet0 receiveAccount 0 1) as [l1| | |] eqn:H1;
    [|vm_compute in H1; discriminate H1..].
  destruct (deriveScriptPubkeys wallet0 receiveAccount (uint32_wrap (0 + 1)) 1) as [l2| | |] eqn:H2;
    [|vm_compute in H2; discriminate H2..].
  exists l1, l2. split.
  - apply (deriveScriptPubkeys_batches wallet0 receiveAccount 0 1 1 l1 l2); [lia|lia|exact H1|exact H2].
  - vm_compute in H1. injection H1 as <-. reflexivity.
Defined.

(** The order in which a wallet lists its keys does not matter for multisig
    scripts: the three multisig kinds give the same script for any permutation
    of the keys. *)
Theorem Make_multisig_order `{Bip32} k reqsigs pubkeys pubkeys' :
  k = SK_P2MS ∨ k = SK_P2SH_MULTISIG ∨ k = SK_P2WSH_MULTISIG →
  pubkeys ≡ₚ pubkeys' → Make k reqsigs pubkeys = Make k reqsigs pubkeys'.
Proof.
  intros Hk Hp. pose proof (bytesSorted_perm _ _ Hp) as He.
  destruct Hk as [->|[->| ->]]; unfold Make; by rewrite He.
Qed.

Lemma Make_multisig_order_witness :
  Make SK_P2WSH_MULTISIG 1 [Key key0; z2b 3 :: zeroes 32] =
  Make SK_P2WSH_MULTISIG 1 [z2b 3 :: zeroes 32; Key key0].
Proof.
  apply (Make_multisig_order SK_P2WSH_MULTISIG 1 [Key key0; z2b 3 :: zeroes 32]
    [z2b 3 :: zeroes 32; Key key0]); [right; right; reflexivity|apply Permutation_swap].
Defined.

(** ** Next indexes *)

(** The row of a wallet in the database holds its next indexes. *)
Definition row_sync (wl : wallet) (db : Database) : Prop :=
  ∃ row, t_wallet db !! hash wl = Some row ∧
    wr_next_receive_index row = nextReceiveIndex wl ∧ wr_next_change_index row = nextChangeIndex wl.

(** When a script is paid, [walletUpdateIndexes] moves the next index of its
    account past the script and never back, leaves the other account and all
    other wallets alone, and keeps the wallet's row in the database equal to the
    indexes in memory. *)
Theorem walletUpdateIndexes_spec info wl w :
  wallets w !! walletIdx info = Some wl → 0 ≤ pubkeyIdx info < 2 ^ 32 - 1 →
  row_sync wl (r_db (repo w)) →
  ∃ w' wl', walletUpdateIndexes info w = (Ok tt, w') ∧
    wallets w' = <[walletIdx info := wl']> (wallets w) ∧
    (∀ acc, nextIndex acc wl' =
      if decide (acc = account info) then Z.max (nextIndex acc wl) (pubkeyIdx info + 1)
      else nextIndex acc wl) ∧
    (∀ acc, nDerived acc wl' = nDerived acc wl) ∧ same_config wl wl' ∧
    row_sync wl' (r_db (repo w')).
Proof.
  intros Hw Hp (row & Hrow & Hr & Hc). exists (advanced info wl w), (next_past info wl).
  split; [by apply walletUpdateIndexes_run|]. split; [done|].
  split; [intros acc; apply next_past_next|]. split; [intros acc; apply next_past_derived|].
  split; [apply next_past_config|].
  assert (hash (next_past info wl) = hash wl) as Hh by (by destruct (next_past_config info wl) as (_ & _ & _ & ?)).
  unfold row_sync, advanced. rewrite Hh. simpl. unfold next_past_db.
  destruct (Z.ltb_spec (pubkeyIdx info) (nextIndex (account info) wl)) as [Hlt|Hge].
  - exists row. unfold next_past. rewrite (proj2 (Z.ltb_lt _ _)) by done. done.
  - simpl. rewrite lookup_alter_eq, Hrow. simpl. eexists. split; [done|]. done.
Qed.

Definition w_row : W := manager
  {| r_db := upd_wallet <[hash wallet0 := {| wr_height := 0; wr_next_receive_index := 0;
                                             wr_next_change_index := 0 |}]> emptyDatabase;
     utxoIndex := ∅ |} [wallet0] ∅.

Lemma walletUpdateIndexes_spec_witness :
  ∃ w' wl', walletUpdateIndexes {| walletIdx := 0; account := changeAccount; pubkeyIdx := 7 |} w_row
      = (Ok tt, w') ∧ nextIndex changeAccount wl' = 8 ∧ row_sync wl' (r_db (repo w')).
Proof.
  destruct (walletUpdateIndexes_spec {| walletIdx := 0; account := changeAccount; pubkeyIdx := 7 |}
    wallet0 w_row) as (w' & wl' & H1 & _ & H2 & _ & _ & H3).
  - reflexivity.
  - simpl. lia.
  - eexists. split; [apply lookup_insert_eq|]. split; reflexivity.
  - exists w', wl'. split; [exact H1|]. split; [|exact H3]. rewrite H2. reflexivity.
Defined.

(** ** Wallet hashes *)

Lemma concat_keys_inj ks ks' :
  Forall (λ k, length (Key k) = 33%nat) ks → Forall (λ k, length (Key k) = 33%nat) ks' →
  ks ≫= Key = ks' ≫= Key → Key <$> ks = Key <$> ks'.
Proof.
  intros H1 H2. revert ks' H2. induction H1 as [|k ks Hk H1 IH]; intros [|k' ks'] H2 H; try done.
  - inversion_clear H2. rewrite bind_cons in H. apply (f_equal length) in H.
    rewrite length_app in H. simpl in H. lia.
  - rewrite bind_cons in H. apply (f_equal length) in H. rewrite length_app in H. simpl in H. lia.
  - inversion_clear H2. rewrite !bind_cons in H.
    apply app_inj_1 in H as [Hkk H]; [|congruence]. rewrite !fmap_cons, Hkk. f_equal. by apply IH.
Qed.

Lemma kind_byte_inj k k' : z2b (kind_byte k) = z2b (kind_byte k') → k = k'.
Proof. by destruct k, k'. Qed.

(** The hash under which a wallet is stored identifies its kind, its number
    of required signatures and its list of keys: two configurations with the
    same hash have the same, unless their texts are a collision of SHA-256.
    (The chain codes do not enter the hash.) *)
Theorem walletHash_identifies k m ks k' m' ks' :
  0 ≤ m < 256 → 0 ≤ m' < 256 →
  Forall (λ k, length (Key k) = 33%nat) ks → Forall (λ k, length (Key k) = 33%nat) ks' →
  walletHash k m ks = walletHash k' m' ks' →
  (k = k' ∧ m = m' ∧ Key <$> ks = Key <$> ks') ∨
  (walletHash_input k m ks ≠ walletHash_input k' m' ks' ∧
   Sha256.Sum256 (walletHash_input k m ks) = Sha256.Sum256 (walletHash_input k' m' ks')).
Proof.
  intros Hm Hm' Hks Hks' H. unfold walletHash in H.
  destruct (decide (walletHash_input k m ks = walletHash_input k' m' ks')) as [He|Hne]; [left|by right].
  unfold walletHash_input in He. cbn [app] in He. injection He as Hk Hr He.
  split; [by apply kind_byte_inj|]. split; [|by apply concat_keys_inj].
  apply (f_equal b2z) in Hr. rewrite !b2z_z2b in Hr. rewrite !Z.mod_small in Hr by done. done.
Qed.

Lemma walletHash_identifies_witness :
  (SK_P2WPKH = SK_P2WPKH ∧ 1 = 1 ∧ Key <$> [key0] = Key <$> [key0]) ∨
  (walletHash_input SK_P2WPKH 1 [key0] ≠ walletHash_input SK_P2WPKH 1 [key0] ∧
   Sha256.Sum256 (walletHash_input SK_P2WPKH 1 [key0]) = Sha256.Sum256 (walletHash_input SK_P2WPKH 1 [key0])).
Proof.
  apply (walletHash_identifies SK_P2WPKH 1 [key0] SK_P2WPKH 1 [key0]);
    [lia|lia|repeat constructor|repeat constructor|reflexivity].
Defined.

(** ** Setting wallets up *)


Lemma config0_ok : config_ok config0.
Proof. split; [done|]. by apply (toy_derives never _ key0 []). Qed.


(** A wallet of no kind: its scripts cannot be derived. *)
Definition config_none : WalletConfig :=
  {| wc_Kind := SK_NONE; wc_Reqsigs := 1; wc_MasterPubs := [key0]; wc_Height := 0 |}.

(** [setupWallet] drops the error of [refillWallet]: there is a wallet whose
    scripts cannot be derived, for which the refill fails and [setupWallet]
    nevertheless succeeds, with no script of the wallet in the index. *)
Theorem setupWallet_ignores_derive_error :
  ∃ w' e, setupWallet 0 config_none (manager repo0 [wallet0] ∅) = (Ok tt, w') ∧
    scriptPubkeys w' = ∅ ∧ (refillWallet 0 w').1 = Err e.
Proof.
  exists (upd_wallets <[0%nat := loaded_wallet config_none (fresh_row config_none)]>
    (upd_repo (upd_db (setup_db config_none)) (manager repo0 [wallet0] ∅))).
  exists (ErrMsg "bad scriptKind"). vm_compute. repeat split.
Qed.
