(* ===== verification/SyncTheorems.v ===== *)
(** * SyncTheorems: catching up, subscribers, and the genesis blocks *)

From S2P Require Import Prelude Bytes Sha256 Merkle BitcoinTypes ScriptPubkey.
From S2P Require Import Database Repository RepositoryFacts Chain Ledger Wallet WalletFacts Scan.
From S2P Require Import Genesis Sync HeaderSync Subscriptions BlockScan Utxo Examples ScanExamples.

(** ** Catching up *)


#[local] Opaque w_paid.

(** The wallet is at the first block; the second one is to come. *)
Definition w_behind : W := set_best 2 (Block_Hash block2)
  (upd_wallets (fmap (set_height 1)) w_paid).

Lemma w_behind_wallets : ∃ wl, wallets w_behind = [wl] ∧ height wl = 1.
Proof.
  destruct w_paid_spec as (_ & _ & Hr & _).
  destruct (rf_wallet _ _ _ Hr wallet0 eq_refl) as (wl & Hwl & _).
  pose proof (sb_length _ _ (rf_same _ _ _ Hr)) as Hl. cbn [w_blank manager wallets length] in Hl.
  exists (set_height 1 wl). split; [|done]. unfold w_behind. cbn [wallets set_best upd_wallets].
  destruct (wallets w_paid) as [|x [|]]; try done. by injection Hwl as ->.
Qed.

Lemma w_behind_index : index_ok w_behind ∧ gap_ok w_behind ∧ all_derive never w_behind.
Proof.
  destruct w_paid_spec as (_ & Hix & Hr & Hg). pose proof w_paid_derive as Hd.
  pose proof (reheighted_best 2 (Block_Hash block2) _ _ (reheighted_fmap (λ _, 1) w_paid) : reheighted w_paid w_behind) as Hrh.
  split_and!; [by eapply reheighted_index|by eapply reheighted_gap|by eapply reheighted_derive].
Qed.

Lemma repo_best_wallets k hs f w : repo (set_best k hs (upd_wallets f w)) = repo w.
Proof. reflexivity. Qed.

Lemma w_behind_repo : repo w_behind = repo w_paid.
Proof. unfold w_behind. apply repo_best_wallets. Qed.

Lemma ready_config h hh V bs w w' :
  ready never h hh V bs w → repo w' = repo w → index_ok w' → gap_ok w' → all_derive never w' →
  ready never h hh V bs w'.
Proof. intros [] Hr Hix Hg Hd. split; rewrite ?Hr; done. Qed.

Lemma w_behind_ready : ready never 1 2 (frame 1 paid_db) [block2] w_behind.
Proof.
  destruct w_behind_index as (Hix & Hg & Hd).
  exact (ready_config 1 2 _ [block2] w_paid w_behind w_paid_ready w_behind_repo Hix Hg Hd).
Qed.

Lemma toyNode_serves_block2 n b : b ∈ [block2] → GetBlock n (Block_Hash b) = Ok b.
Proof. intros ->%list_elem_of_singleton. vm_compute. reflexivity. Qed.

Lemma headers12_rest : drop (Z.to_nat 1) headers12.*1 = Block_Hash <$> [block2].
Proof. vm_compute. reflexivity. Qed.


(** ** Subscribers *)

(** Once a connection has unsubscribed, no synchronisation writes to it:
    whatever the node replies and however the round of [run] ends, none of the
    callbacks called during the round belongs to the connection. *)
Theorem unsubscribed_is_silent `{Bip32} `{BitcoinClient} id fuel w :
  subs_ok w →
  let w1 := (UnsubscribeAll id w).2 in
  let w2 := (syncRound fuel w1).2 in
  ∃ l, events w2 = events w ++ l ∧ Forall (λ e, owner e ≠ id) l.
Proof.
  intros Hok w1 w2.
  destruct (silent_syncRound id (events w) fuel w1) as [_ _ H']; [|exact H'].
  split; [by apply subs_ok_Unsubscribe|apply unsubscribed_after|].
  exists []. split; [|done]. unfold w1. rewrite UnsubscribeAll_run. simpl. by rewrite app_nil_r.
Qed.

Definition w_subscribed : W :=
  ((HeadersSubscribe 5 (NotifyHeaders 5) ;;
    ScriptHashSubscribe 5 paid_script_hash (NotifyScriptHash 5 paid_script_hash)) w_empty).2.

Lemma w_subscribed_ok : subs_ok w_subscribed.
Proof.
  split.
  - intros i cb Hi.
    change ((<[5 := NotifyHeaders 5]> ∅ : gmap Z headerCallback) !! i = Some cb) in Hi.
    apply lookup_insert_Some in Hi as [[<- <-]|[_ Hi]]; [done|]. by rewrite lookup_empty in Hi.
  - intros sh m i cb Hm Hi.
    change ((<[paid_script_hash := <[5 := NotifyScriptHash 5 paid_script_hash]>
      (default ∅ ((∅ : gmap bytes (gmap Z statusCallback)) !! paid_script_hash))]> ∅
      : gmap bytes (gmap Z statusCallback)) !! sh = Some m) in Hm.
    apply lookup_insert_Some in Hm as [[<- <-]|[_ Hm]]; [|by rewrite lookup_empty in Hm].
    rewrite lookup_empty in Hi. simpl in Hi.
    apply lookup_insert_Some in Hi as [[<- <-]|[_ Hi]]; [done|]. by rewrite lookup_empty in Hi.
Qed.

Lemma unsubscribed_is_silent_witness :
  ∃ l, events (syncRound 4 (UnsubscribeAll 5 w_subscribed).2).2 = events w_subscribed ++ l ∧
    Forall (λ e, owner e ≠ 5) l.
Proof. apply (unsubscribed_is_silent 5 4 w_subscribed w_subscribed_ok). Defined.

(** Every header that is stored is announced: when [processHeader] accepts a
    header, each header subscriber is called once, with the new height and the
    80 bytes of the header, before the row is inserted. *)
Theorem processHeader_announces `{Bip32} `{BitcoinClient} rows w hdr :
  tip_ok rows w → header_ok hdr → PreviousBlock hdr = bestHeaderHash w →
  t_blockheader (r_db (repo w)) !! Header_Hash hdr = None →
  ∃ w' row, processHeader hdr w = (Ok tt, w') ∧
    t_blockheader (r_db (repo w')) !! Header_Hash hdr = Some row ∧ bh_height row = bestHeader w + 1 ∧
    events w' = events w ++
      ((λ r : Z * headerCallback, HeaderEvent r.2 (bestHeader w + 1) (bh_serialized row))
         <$> map_to_list (hSubs w)).
Proof.
  intros [Hc Hh Ht] Hok Hp Hn. unfold processHeader. rewrite (bind_Ok_1 get _ w w w) by done.
  rewrite bool_decide_eq_false_2 by (intros HF; by apply HF).
  rewrite bind_run. unfold notifyHeaderSubscribers, modify at 1.
  rewrite bind_run. unfold on_repo, zoom. cbn [repo emit].
  rewrite insertBlockHeader_run by by apply Header_Serialize_length.
  rewrite Hn. eexists _, _. split; [reflexivity|].
  split; [apply lookup_insert_eq|]. split; [done|]. cbn [events bh_serialized].
  rewrite copy_into_prefix; [done|]. unfold zeroes. rewrite length_replicate.
  pose proof (Header_Serialize_length hdr Hok). lia.
Qed.

Lemma processHeader_announces_witness :
  ∃ w', processHeader (header_of block1) (set_best 0 g0 w_empty) = (Ok tt, w').
Proof.
  destruct (processHeader_announces [] (set_best 0 g0 w_empty) (header_of block1)) as (w' & row & H & _).
  - split; [exact (chain_ok_empty _)|reflexivity|reflexivity].
  - split; vm_compute; reflexivity.
  - reflexivity.
  - apply lookup_empty.
  - exists w'. exact H.
Defined.

(** ** Genesis blocks *)

(** The table of genesis blocks is right for Mainnet and Regtest: the 80
    bytes of each header hash to the hash in the table, and name no parent. *)
Theorem genesis_headers_hash n :
  n ≠ Testnet →
  let g := genesisBlockData n in
  doubleSha256 (take 80 (hd_Serialized g)) = hd_Hash g ∧
  prev_of (take 80 (hd_Serialized g)) = zeroes 32 ∧ hd_Height g = 0.
Proof. intros Hn. destruct n; [|done|]; vm_compute; repeat split. Qed.

Lemma genesis_headers_hash_witness :
  doubleSha256 (take 80 (hd_Serialized mainnet_genesis)) = hd_Hash mainnet_genesis.
Proof. apply (genesis_headers_hash Mainnet). discriminate. Defined.

(** Testnet cannot be synchronised: its entry in the table of genesis blocks
    is the zero value, so on an empty database the first header of any node that
    does not name the zero hash as its parent ends [syncHeaders] with the error
    for an unexpected block, and the tables stay empty. *)
Theorem testnet_never_syncs `{Bip32} `{BitcoinClient} fuel w hdr hs :
  net w = Testnet → t_blockheader (r_db (repo w)) = ∅ → Cancelled (calls w) = false →
  GetHeaders (calls w) [zeroes 32] (zeroes 32) = Ok (hdr :: hs) →
  PreviousBlock hdr ≠ zeroes 32 →
  ∃ w', syncHeaders (S fuel) w = (Err (ErrMsg "unexpected block"), w') ∧ repo w' = repo w.
Proof.
  intros Hn He Hc Hg Hp.
  assert (chain_ok (genesis_hash w) (r_db (repo w)) []) as Hch.
  { split; [|done]. unfold header_rows. by rewrite He, map_to_list_empty. }
  destruct (syncHeaders_start [] w (S fuel) Hch) as (w0 & _ & _ & -> & ->).
  unfold tip_hash, genesis_hash. rewrite Hn. cbn [last default fmap option_fmap option_map length].
  cbn [syncHeaders_loop].
  set (w0 := set_best 0%nat _ w). rewrite (bind_Ok_1 get _ w0 w0 w0) by done.
  change (calls w0) with (calls w). rewrite Hc. rewrite bind_run. unfold call_node.
  change (bestHeaderHash w0) with (zeroes 32). change (calls w0) with (calls w). rewrite Hg.
  cbn [forM]. rewrite bind_assoc, bind_run, processHeader_mismatch by done.
  exists (tick w0). split; [|done]. rewrite bind_run. unfold checkReorg.
  rewrite (bind_Ok_1 (gets _) _ (tick w0) 0 (tick w0)) by done. reflexivity.
Qed.

Definition w_testnet : W := {|
  repo := repo0; net := Testnet; bestHeader := 0; bestHeaderHash := zeroes 32;
  wallets := []; scriptPubkeys := ∅; shSubs := ∅; hSubs := ∅; calls := 0; events := [] |}.

Lemma testnet_never_syncs_witness :
  ∃ w', syncHeaders 1 w_testnet = (Err (ErrMsg "unexpected block"), w') ∧ repo w' = repo w_testnet.
Proof.
  apply (testnet_never_syncs 0 w_testnet (header_of block1) [header_of block2; header_of block3]).
  - reflexivity.
  - reflexivity.
  - reflexivity.
  - vm_compute. reflexivity.
  - apply (bool_decide_unpack _). vm_compute. exact I.
Defined.
