(* ===== verification/StartTheorems.v ===== *)
(** * StartTheorems: from a database to a ledger that is up to date

    The parts composed: [New] over a database, the first round of [run] against
    a node that serves a chain, and the answers afterwards, against the
    specification of [Utxo]. *)

From S2P Require Import Prelude Bytes Sha256 Merkle BitcoinTypes ScriptPubkey.
From S2P Require Import Database Repository RepositoryFacts Ledger Chain Wallet WalletFacts Scan.
From S2P Require Import Genesis Sync HeaderSync Manager Queries BlockScan Heights Rows Reorg Utxo History.
From S2P Require Import Examples ScanExamples.
From S2P Require Import Rounds Subscriptions Electrum ElectrumFacts System LifeCycle WalletTheorems.

(** ** What the headers leave alone *)

Section headers.
Context `{Bip32} `{BitcoinClient}.

Record headers_only (w0 w : W) : Prop := {
  ho_db : ∃ m, r_db (repo w) = upd_blockheader (λ _, m) (r_db (repo w0));
  ho_index : utxoIndex (repo w) = utxoIndex (repo w0);
  ho_wallets : wallets w = wallets w0;
  ho_scripts : scriptPubkeys w = scriptPubkeys w0;
  ho_net : net w = net w0;
  ho_subs : hSubs w = hSubs w0 ∧ shSubs w = shSubs w0;
}.

Lemma headers_only_refl w : headers_only w w.
Proof. split; try done. exists (t_blockheader (r_db (repo w))). by destruct w as [[[]]]. Qed.

Lemma headers_only_syncHeaders w0 fuel : preserves (headers_only w0) (syncHeaders fuel).
Proof.
  assert (∀ w, headers_only w0 w → headers_only w0 (tick w)) as Htick by (by intros w []).
  apply preserves_syncHeaders; [done|by intros k hs w []|].
  intros hdr. unfold processHeader. apply preserves_bind; [auto with preserve|]. intros wi.
  case_bool_decide; [apply preserves_bind; [by apply preserves_checkReorg|auto with preserve]|].
  cbv zeta. apply preserves_bind; [by intros w []|]. intros [].
  apply preserves_bind; [|by intros [] w []].
  intros w Hw. unfold on_repo, zoom, insertBlockHeader. case_bool_decide; [by destruct Hw|].
  unfold exec, insert_row. cbn [fst snd].
  destruct (t_blockheader (r_db (repo w)) !! _); [by destruct Hw|].
  run_outcome. destruct Hw as [[m Hm] ? ? ? ? ?]. split; try done. cbn. rewrite Hm. eexists. reflexivity.
Qed.
End headers.

(** More headers. *)
Lemma more_headers_blobs_ok g db db' rows m :
  db' = upd_blockheader (λ _, m) db → chain_ok g db' rows → blobs_ok db → blobs_ok db'.
Proof.
  intros Hdb Hc []. split; try (by subst). intros hs row Hr.
  rewrite (header_lookup_Some _ _ _ _ _ Hc) in Hr. destruct Hc as [_ Hl].
  split; [by eapply linked_hash32|]. apply list_elem_of_lookup in Hr as [i Hi].
  by destruct (linked_lookup _ _ _ _ _ _ Hl Hi) as (_ & ? & _).
Qed.

Lemma chain_ok_prefix g db db' rows rows' :
  chain_ok g db rows → chain_ok g db' (rows ++ rows') → t_blockheader db ⊆ t_blockheader db'.
Proof.
  intros Hc Hc'. apply map_subseteq_spec. intros hs row.
  rewrite (header_lookup_Some _ _ _ _ _ Hc), (header_lookup_Some _ _ _ _ _ Hc').
  intros Hin. apply elem_of_app. by left.
Qed.

(** The rows of a script of [K] are the table's. *)
Lemma known_utxos_of K db sh :
  sh ∈ K → filter (λ p, uo_scriptpubkey_hash p.2 = sh) (known_utxos K db) = unspent_of db sh.
Proof.
  intros Hsh. unfold known_utxos, unspent_of. rewrite map_filter_filter. apply map_filter_ext.
  intros tv row _. cbn. split; [by intros [? _]|by intros <-].
Qed.

(** ** One round *)

(** The blocks of a chain: outputs with amounts in range, and no transaction
    twice. *)
Record valid_blocks (blocks : list Block) : Prop := {
  vb_outputs : Forall (λ b, Forall tx_ok (Transactions b)) blocks;
  vb_txids : NoDup (blocks ≫= TXIDs);
}.

Lemma valid_blocks_take f blocks : valid_blocks blocks → valid_blocks (take f blocks).
Proof.
  intros [Ho Ht]. split; [by apply Forall_take|].
  rewrite <- (take_drop f blocks), bind_app in Ht. by apply NoDup_app in Ht as (? & _).
Qed.

(** A node whose best chain is the genesis block and the blocks. *)
Record serves_blocks `{BitcoinClient} (g : bytes) (blocks : list Block) : Prop := {
  sv_headers : ServesChain g (header_of <$> blocks);
  sv_blocks : ∀ n b, b ∈ blocks → GetBlock n (Block_Hash b) = Ok b;
}.

(** The chain of a node has left the one of the manager: their last common block
    is at height [f], above the base [b] and not the genesis block, and the node
    does not have the one to six blocks above it. *)
Record forks (g : bytes) (b f : nat) (A B : list Block) : Prop := {
  fk_common : take f A = take f B;
  fk_range : (1 ≤ f ≤ length B)%nat;
  fk_base : (b ≤ f)%nat;
  fk_depth : (1 ≤ length A - f ≤ 6)%nat;
  fk_stale : ∀ blk, blk ∈ drop f A → Block_Hash blk ∉ g :: (Block_Hash <$> B);
}.

(** The manager has the headers of [A] and has scanned its first [s] blocks; its
    tables are, as far as [K] is concerned, what the specification makes of [m]
    with the blocks from [b] on. *)
Record in_step `{Bip32} (g : bytes) (A : list Block) (K : gset bytes) (m : gmap bytes utxoRow)
    (b s : nat) (w : W) : Prop := {
  is_genesis : genesis_hash w = g;
  is_chain : chain_ok g (r_db (repo w)) (rows_of 1 (header_of <$> A));
  is_scanned : (s ≤ length A)%nat;
  is_db : db_ok s (r_db (repo w));
  is_blobs : blobs_ok (r_db (repo w));
  is_sync : index_sync (repo w);
  is_index : index_ok w;
  is_gap : gap_ok w;
  is_derive : all_derive never w;
  is_lowest : lowest_at s w;
  is_known : ∀ sh, sh ∈ K → is_Some (scriptPubkeys w !! sh);
  is_past : remembers K m A b s (r_db (repo w));
}.

Section round.
Context `{Bip32Safe} `{BitcoinClient}.
Context {g : bytes} {K : gset bytes} {m : gmap bytes utxoRow} {b : nat}.

(** More headers. *)
Lemma in_step_headers A B s w w' :
  in_step g A K m b s w → headers_only w w' → A `prefix_of` B →
  chain_ok g (r_db (repo w')) (rows_of 1 (header_of <$> B)) →
  in_step g B K m b s w'.
Proof using Type.
  intros [Hgen Hc Hs Hdb Hb Hix Hi Hg Hd Hlow Hk Hp] [[mh Hm] Hix' Hws Hsk Hnet _] [D ->] Hc'.
  assert (same_ledger_at (r_db (repo w)) (r_db (repo w'))) as Hsl.
  { rewrite Hm in Hc' |- *. apply more_headers_same_ledger. rewrite fmap_app, rows_of_app in Hc'.
    exact (chain_ok_prefix _ _ _ _ _ Hc Hc'). }
  split; try done.
  - unfold genesis_hash in *. by rewrite Hnet.
  - rewrite length_app. lia.
  - by eapply same_ledger_db_ok.
  - by eapply more_headers_blobs_ok.
  - unfold index_sync in *. by rewrite Hix', Hm, Hix.
  - destruct Hi. split; rewrite ?Hws, ?Hsk; done.
  - unfold gap_ok. rewrite Hws. apply Hg.
  - unfold all_derive. rewrite Hws. apply Hd.
  - unfold lowest_at, heights. rewrite Hws. apply Hlow.
  - by rewrite Hsk.
  - eapply remembers_view; [intros f _; by eapply same_ledger_view|].
    eapply remembers_prefix; [|  |exact Hp]; [split; [apply Hp|done]|]. by rewrite take_app_le.
Qed.

(** Back at a height above the base. *)
Lemma in_step_rolled_back A s (f : nat) tip w :
  in_step g A K m b s w → (b ≤ f ≤ length A)%nat →
  in_step g (take f A) K m b (s `min` f) (rolled_back_W f tip w).
Proof using Type.
  intros [Hgen Hc Hs Hdb Hb Hix Hi Hg Hd Hlow Hk Hp] Hf.
  assert (reheighted w (rolled_back_W f tip w)) as Hrh.
  { unfold rolled_back_W. apply reheighted_best. by destruct (reheighted_fmap (λ wl, Z.min f (height wl)) w). }
  split; try done.
  - cbn. rewrite fmap_take, rows_of_take. pose proof (rolled_back_headers _ f _ _ Hc ltac:(lia)) as Hc'.
    by rewrite Nat2Z.id in Hc'.
  - rewrite length_take. lia.
  - cbn. destruct (Nat.min_spec s f) as [[? ->]|[? ->]]; [|by eapply rolled_back_db_ok].
    eapply same_ledger_db_ok; [|exact Hdb]. apply rolled_back_same_ledger.
    eapply db_ok_mono; [|exact Hdb]. lia.
  - by apply rolled_back_blobs_ok.
  - by apply (reheighted_index _ _ Hrh).
  - by apply (reheighted_gap _ _ Hrh).
  - by apply (reheighted_derive _ _ Hrh).
  - destruct Hlow as [Hall Hin]. unfold lowest_at, heights. cbn.
    assert (height <$> ((λ wal, set_height (Z.min f (height wal)) wal) <$> wallets w) = Z.min f <$> heights w) as ->.
    { unfold heights. by rewrite <- !list_fmap_compose. }
    split.
    + apply Forall_fmap. eapply Forall_impl; [exact Hall|]. intros x Hx. cbn in *. lia.
    + apply list_elem_of_fmap. exists s. split; [lia|done].
  - cbn. eapply remembers_rolled_back; [exact Hdb|lia|exact Hp].
Qed.

(** The scan can start. *)
Lemma in_step_ready A s w :
  valid_blocks A → in_step g A K m b s w →
  ready never s (s + 1) (frame s (r_db (repo w))) (drop s A) w.
Proof using Type.
  intros [Hout Htx] [_ Hc _ Hdb Hb Hs Hi Hg Hd _ _ Hp].
  rewrite <- (take_drop s A), bind_app in Htx. apply NoDup_app in Htx as (_ & Hdis & Htx).
  split; try done.
  - by replace (s + 1 - 1) with (s : Z) by lia.
  - intros i b2 Hb2. rewrite lookup_drop in Hb2. exists (header_row (1 + (s + i)%nat) (header_of b2)).2.
    split; [|cbn; lia]. apply (header_lookup_Some _ _ _ _ _ Hc).
    change (Block_Hash b2, _) with (header_row (1 + (s + i)%nat) (header_of b2)).
    eapply list_elem_of_lookup_2. by rewrite rows_of_lookup, list_lookup_fmap, Hb2.
  - by apply Forall_drop.
  - intros txid Hin. apply eq_None_not_Some. intros Hr.
    eapply Hdis; [|exact Hin]. by eapply (remembers_now A s).
Qed.

(** The scan to the end of the chain of the table. *)
Lemma scan_in_step A s fuel w :
  valid_blocks A → in_step g A K m b s w → bestHeader w = length A →
  (∀ n b, b ∈ A → GetBlock n (Block_Hash b) = Ok b) → (length A < fuel)%nat →
  ∃ w', syncWallets fuel w = (Ok tt, w') ∧ in_step g A K m b (length A) w'.
Proof using All.
  intros Hv Hi Hbest Hgb Hf. pose proof (in_step_ready A s w Hv Hi) as Hr.
  destruct Hi as [Hg Hc Hs _ _ _ _ _ _ Hlow Hk Hp].
  destruct (syncWallets_records K m A b s fuel w g) as (w' & Hrun & _ & Hnet & [Hr' Hl' _ _ Hk' Hp']); try done.
  replace (length A + 1 - 1) with (Z.of_nat (length A)) in * by lia. rewrite Nat2Z.id in Hp'.
  exists w'. split; [done|]. destruct Hr' as [Hdb2 Hfr2 _ _ _ _ Hix2 Hb2' Hi2 Hg2 Hd2].
  replace (length A + 1 - 1) with (Z.of_nat (length A)) in * by lia.
  split; try done.
  - unfold genesis_hash in *. by rewrite Hnet.
  - unfold chain_ok, header_rows in *.
    replace (t_blockheader (r_db (repo w'))) with (t_blockheader (r_db (repo w))); [done|].
    unfold frame in Hfr2. congruence.
Qed.

(** A round against a node whose chain has grown. *)
Lemma growth_in_step A B s fuel w :
  in_step g A K m b s w → A `prefix_of` B → valid_blocks B → serves_blocks g B → (length B < fuel)%nat →
  ∃ w', syncRound fuel w = (Ok tt, w') ∧ in_step g B K m b (length B) w'.
Proof using All.
  intros Hi HAB Hv [Hsv Hgb] Hf. pose proof HAB as [D HB]. set (C := header_of <$> B).
  assert (take (length A) C = header_of <$> A) as Ht.
  { unfold C. rewrite <- fmap_take, HB. by rewrite take_app_length. }
  assert (length A ≤ length C)%nat as Hlen by (unfold C; rewrite length_fmap, HB, length_app; lia).
  assert (length C = length B) as HC by apply length_fmap.
  pose proof (is_chain _ _ _ _ _ _ _ Hi) as Hc. rewrite <- Ht in Hc.
  destruct (syncHeaders_serves (C := C) (length A) fuel w (is_genesis _ _ _ _ _ _ _ Hi) Hlen Hc ltac:(lia))
    as (w1 & Hrun & [Hc' Hh _] & Hg').
  rewrite Hg' in Hc'. rewrite length_rows_of, HC in Hh.
  pose proof (headers_only_syncHeaders w fuel w (headers_only_refl w)) as Hho. rewrite Hrun in Hho.
  destruct (scan_in_step B s fuel w1 Hv) as (w' & Hrun' & Hi'); try done.
  { by eapply in_step_headers. }
  exists w'. split; [|done]. unfold syncRound. by rewrite bind_run, Hrun.
Qed.

(** A round against a node whose chain has left ours goes back to the last
    common block. *)
Lemma fork_in_step A B s f fuel w :
  in_step g A K m b s w → forks g b f A B → valid_blocks B → serves_blocks g B → (length A < fuel)%nat →
  ∃ w', syncRound fuel w = (Ok tt, w') ∧ in_step g (take f A) K m b f w'.
Proof using All.
  intros Hi [Hcom Hfr Hbf Hdep Hst] Hv [Hsv Hgb] Hf. destruct fuel as [|fuel]; [lia|]. set (C := header_of <$> B).
  assert (length C = length B) as HC by apply length_fmap.
  assert (header_of <$> A = take f C ++ (header_of <$> drop f A)) as HA.
  { unfold C. by rewrite <- fmap_take, <- Hcom, <- fmap_app, take_drop. }
  pose proof (is_chain _ _ _ _ _ _ _ Hi) as Hc. rewrite HA, rows_of_app in Hc.
  destruct (syncHeaders_forks (C := C) f _ fuel w (is_genesis _ _ _ _ _ _ _ Hi) Hc) as (w1 & Hrun & Hr1 & Hg1).
  - lia.
  - rewrite length_rows_of, length_fmap, length_drop. lia.
  - rewrite rows_of_fst, <- list_fmap_compose. intros hs (blk & -> & Hin)%list_elem_of_fmap.
    unfold C. rewrite <- list_fmap_compose. by apply Hst.
  - pose proof (headers_only_syncHeaders w (S fuel) w (headers_only_refl w)) as Hho. rewrite Hrun in Hho.
    assert (in_step g A K m b s w1) as Hi1.
    { eapply in_step_headers; [done..|]. rewrite Hr1. apply Hi. }
    rewrite <- Hr1, <- Hg1 in Hc.
    destruct (processReorg_forks s C _ f w1 Hc (is_db _ _ _ _ _ _ _ Hi1) (is_blobs _ _ _ _ _ _ _ Hi1)) as [Hrun2 _]; [lia|].
    set (w2 := rolled_back_W f _ w1) in *.
    assert (length (take f A) = f) as Hl by (rewrite length_take; lia).
    destruct (scan_in_step (take f A) (s `min` f) (S fuel) w2) as (w' & Hrun' & Hi').
    + rewrite Hcom. by apply valid_blocks_take.
    + apply in_step_rolled_back; [done|lia].
    + by rewrite Hl.
    + intros n b0 Hb0. apply Hgb. rewrite Hcom in Hb0. by eapply elem_of_take_of.
    + lia.
    + rewrite Hl in Hi'. exists w'. split; [|done]. unfold syncRound. by rewrite bind_run, Hrun, Hrun2.
Qed.
End round.

(** ** Any number of rounds *)

(** Rounds of [run], each against the node of its time. *)
Fixpoint rounds `{Bip32} (fuel : nat) (nodes : list BitcoinClient) : M W unit :=
  match nodes with
  | [] => mret tt
  | node :: nodes => syncRound (H0 := node) fuel ;; rounds fuel nodes
  end.

(** The chain that the manager follows, from the first to the last: a round takes
    it to the node's chain when that has grown, and back to the last common block
    when the node's chain has left the manager's.  The chains have at most [N]
    blocks. *)
Inductive follows (g : bytes) (b N : nat) : list Block → list BitcoinClient → list Block → Prop :=
  | follows_end A : follows g b N A [] A
  | follows_growth A B C (node : BitcoinClient) nodes :
      A `prefix_of` B → (length B ≤ N)%nat → valid_blocks B → serves_blocks (H := node) g B →
      follows g b N B nodes C → follows g b N A (node :: nodes) C
  | follows_fork A B C f (node : BitcoinClient) nodes :
      forks g b f A B → (length A ≤ N)%nat → valid_blocks B → serves_blocks (H := node) g B →
      follows g b N (take f A) nodes C → follows g b N A (node :: nodes) C.

(** Two rounds against a node whose chain has left ours end at its chain. *)
Lemma follows_reorg g b N A B f (node : BitcoinClient) :
  forks g b f A B → (length A ≤ N)%nat → (length B ≤ N)%nat →
  valid_blocks B → serves_blocks (H := node) g B → follows g b N A [node; node] B.
Proof.
  intros Hf HA HB Hv Hs. apply (follows_fork _ _ _ _ B _ f); try done.
  apply (follows_growth _ _ _ _ B); try done; [|constructor].
  rewrite (fk_common _ _ _ _ _ Hf). apply prefix_take.
Qed.

Lemma rounds_in_step `{Bip32Safe} g K m b N A nodes C s fuel w :
  in_step g A K m b s w → follows g b N A nodes C → (N < fuel)%nat →
  ∃ s' w', rounds fuel nodes w = (Ok tt, w') ∧ in_step g C K m b s' w' ∧
    (s = length A ∨ nodes ≠ [] → s' = length C).
Proof.
  intros Hi Hfol Hf. revert s w Hi.
  induction Hfol as [A|A B C node nodes Hp HN Hv Hs _ IH|A B C f node nodes Hfk HN Hv Hs _ IH]; intros s w Hi.
  { exists s, w. split; [done|]. split; [done|]. by intros [|]. }
  - destruct (growth_in_step (H1 := node) A B s fuel w Hi Hp Hv Hs ltac:(lia)) as (w1 & Hrun & Hi1).
    destruct (IH _ w1 Hi1) as (s' & w' & Hrun' & Hi' & Hs'). exists s', w'.
    cbn [rounds]. rewrite (bind_Ok_1 _ _ _ _ _ Hrun). split; [done|]. split; [done|]. intros _. by apply Hs'; left.
  - destruct (fork_in_step (H1 := node) A B s f fuel w Hi Hfk Hv Hs ltac:(lia)) as (w1 & Hrun & Hi1).
    destruct (IH _ w1 Hi1) as (s' & w' & Hrun' & Hi' & Hs'). exists s', w'.
    cbn [rounds]. rewrite (bind_Ok_1 _ _ _ _ _ Hrun). split; [done|]. split; [done|]. intros _. apply Hs'. left.
    pose proof (fk_depth _ _ _ _ _ Hfk). rewrite length_take. lia.
Qed.

(** Tables that hold the headers of the chain, and transactions up to height
    [h]. *)
Record tables_at (g : bytes) (A : list Block) (h : nat) (db : Database) : Prop := {
  ta_chain : chain_ok g db (rows_of 1 (header_of <$> A));
  ta_range : (h ≤ length A)%nat;
  ta_db : db_ok h db;
  ta_blobs : blobs_ok db;
}.

(** [New] only adds wallets. *)
Lemma setup_same_ledger configs db : same_ledger_at db (setup_all configs db).
Proof. destruct (setup_all_tables configs db) as [m ->]. by split. Qed.

(** A manager that [New] has returned is in step with its tables. *)
Lemma started_in_step `{Bip32} n db configs A K m b h w :
  let g := hd_Hash (genesisBlockData n) in
  tables_at g A h db → configs ≠ [] → lowest (starting_heights configs db) = h → started n db configs w →
  K ⊆ known_scripts w → remembers K m A b h db → in_step g A K m b h w.
Proof.
  intros g [Hc Hr Hd Hb] Hne Hh Hst HK Hp. pose proof (started_repo Hst) as [Hdb Hs].
  assert (∃ wl ws, wallets w = wl :: ws) as (wl & ws & Hws).
  { pose proof (Forall2_length _ _ _ (st_wallets _ _ _ _ Hst)) as Hl.
    destruct (wallets w) as [|wl ws]; [by destruct configs|by exists wl, ws]. }
  pose proof (started_min_height _ _ _ _ _ _ Hst Hws) as Hmin. rewrite Hh in Hmin.
  pose proof (setup_same_ledger configs db) as Hsl. rewrite <- Hdb in Hsl.
  destruct (setup_all_tables configs db) as [mw Hset].
  split; try done; try apply Hst.
  - unfold genesis_hash. by rewrite (idle_net _ _ (st_idle _ _ _ _ Hst)).
  - by rewrite Hdb, Hset.
  - by eapply same_ledger_db_ok.
  - rewrite Hdb, Hset. by destruct Hb.
  - rewrite <- Hmin. by apply lowest_min.
  - intros sh Hsh%HK. by apply elem_of_dom.
  - eapply remembers_view; [|exact Hp]. intros f _. by eapply same_ledger_view.
Qed.

(** *** Stopping and starting again *)

Lemma rounds_in_rows `{Bip32} configs fuel nodes w w' :
  NoDup (config_hash <$> configs) → in_rows configs w → rounds fuel nodes w = (Ok tt, w') → in_rows configs w'.
Proof.
  intros Hnd. revert w. induction nodes as [|node nodes IH]; intros w Hw; cbn [rounds]; [by intros [= <-]|].
  rewrite bind_run. destruct (syncRound fuel w) as [[[]|e|why|] w1] eqn:E; try done. apply IH.
  by eapply (on_Ok_syncRound (H0 := node)).
Qed.

Lemma lowest_heights (k : Z) w : lowest_at k w → lowest (height <$> wallets w) = k.
Proof.
  intros Hl. destruct (wallets w) as [|wl ws] eqn:Hws.
  { destruct Hl as [_ Hin]. unfold heights in Hin. rewrite Hws in Hin. by apply elem_of_nil in Hin. }
  pose proof (lowest_unique _ _ _ (lowest_min _ _ _ Hws) Hl) as <-. unfold min_height. by rewrite foldl_min_height.
Qed.

(** The tables of a manager that follows [A] are such as a manager starts from. *)
Lemma in_step_tables `{Bip32} g A K m b s configs w :
  in_step g A K m b s w → in_rows configs w →
  tables_at g A s (r_db (repo w)) ∧ rows_ok (r_db (repo w)) ∧ lowest (starting_heights configs (r_db (repo w))) = s.
Proof.
  intros Hi Hr. split_and!; [split; apply Hi|apply Hr|]. rewrite (proj2 (in_rows_restart _ _ Hr)).
  apply lowest_heights, Hi.
Qed.

Lemma started_in_rows `{Bip32} n db configs w : rows_ok db → started n db configs w → in_rows configs w.
Proof.
  intros Hr Hst. pose proof (started_repo Hst) as [Hdb _].
  split; rewrite Hdb; [apply Hst|by apply setup_all_rows].
Qed.


(** Stopping the program between two rounds and starting it again makes no
    difference: [New] over the tables that the rounds have left succeeds, leaves
    the tables as they are, has the cache, and every wallet at the height and the
    next indexes, that the manager had; and the rounds that follow, whether the
    chain has grown or been reorganised in the meantime, end with the unspent
    outputs that the specification has for the whole chain, as far as scripts
    that both managers know are concerned. *)
Theorem restart_resumes `{Bip32Safe} n configs db A h b N nodes C nodes2 D fuel :
  let g := hd_Hash (genesisBlockData n) in
  tables_at g A h db → lowest (starting_heights configs db) = h →
  rows_ok db → Forall config_ok configs → configs ≠ [] → NoDup (config_hash <$> configs) →
  nodes ≠ [] → nodes2 ≠ [] → follows g b N A nodes C → follows g b N C nodes2 D → (N < fuel)%nat →
  ∃ w, New db configs n = (Ok tt, w) ∧ ∀ K m, K ⊆ known_scripts w → remembers K m A b h db →
    ∃ w' w2, rounds fuel nodes w = (Ok tt, w') ∧
      New (r_db (repo w')) configs n = (Ok tt, w2) ∧ repo w2 = repo w' ∧
      Forall2 same_start (wallets w') (wallets w2) ∧
      (K ⊆ known_scripts w2 →
        ∃ w2', rounds fuel nodes2 w2 = (Ok tt, w2') ∧ tables_at g D (length D) (r_db (repo w2')) ∧
          remembers K m D b (length D) (r_db (repo w2')) ∧
          known_utxos K (r_db (repo w2')) = utxo_chain K m (drop b D)).
Proof.
  intros g Hta Hh Hrows Hcfg Hne Hnd Hnodes Hnodes2 Hfol Hfol2 Hf.
  destruct (New_run n db configs (ta_blobs _ _ _ _ Hta) Hrows Hcfg) as (w & Hnew & Hst).
  exists w. split; [done|]. intros K m HK Hp.
  pose proof (started_in_step n db configs A K m b h w Hta Hne Hh Hst HK Hp) as Hi.
  destruct (rounds_in_step _ _ _ _ _ _ _ _ _ fuel w Hi Hfol Hf) as (s & w' & Hrun & Hi' & Hs).
  rewrite Hs in Hi' by by right.
  pose proof (rounds_in_rows _ _ _ _ _ Hnd (started_in_rows _ _ _ _ Hrows Hst) Hrun) as Hir.
  destruct (in_step_tables _ _ _ _ _ _ _ _ Hi' Hir) as (Hta' & Hrows' & Hh').
  destruct (New_run n (r_db (repo w')) configs (ta_blobs _ _ _ _ Hta') Hrows' Hcfg) as (w2 & Hnew2 & Hst2).
  pose proof (in_rows_restart _ _ Hir) as [Hset _]. exists w', w2. do 2 (split; [done|]). split; [|split].
  - rewrite (st_repo _ _ _ _ Hst2), Hset, <- (is_sync _ _ _ _ _ _ _ Hi'). by destruct (repo w').
  - apply (resumed_same (r_db (repo w')) configs); [apply Hir|].
    pose proof (st_wallets _ _ _ _ Hst2) as Hw2. by rewrite Hset in Hw2.
  - intros HK2.
    pose proof (started_in_step n _ configs C K m b _ w2 Hta' Hne Hh' Hst2 HK2 (is_past _ _ _ _ _ _ _ Hi')) as Hi2.
    destruct (rounds_in_step _ _ _ _ _ _ _ _ _ fuel w2 Hi2 Hfol2 Hf) as (s2 & w2' & Hrun2 & Hi2' & Hs2).
    rewrite Hs2 in Hi2' by by right. exists w2'. split; [done|].
    destruct (remembers_now _ _ _ (is_db _ _ _ _ _ _ _ Hi2') (is_past _ _ _ _ _ _ _ Hi2')) as [Hu _].
    rewrite firstn_all in Hu. split; [split; apply Hi2'|]. split; [apply Hi2'|done].
Qed.

(** Nodes with the blocks of the example, an empty database, and the wallet whose
    first script is paid in block 1. *)
Definition blocks123 : list Block := [block1; block2; block3].
Definition blocks_stale : list Block := [block1; block2; stale3].

Definition node_of (blocks : list Block) : BitcoinClient := {|
  GetHeaders _ locs _ := Ok match locs with
    | loc :: _ => node_headers g0 (header_of <$> blocks) loc
    | [] => []
    end;
  GetBlock _ hs :=
    match list_find (λ b, hs = Block_Hash b) blocks with
    | Some (_, b) => Ok b
    | None => Err (ErrMsg "Block not found")
    end;
  BroadcastWTX _ _ := Ok tt;
  Cancelled _ := false;
|}.

Lemma node_of_serves blocks :
  blocks = blocks123 ∨ blocks = blocks_stale → serves_blocks (H := node_of blocks) g0 blocks.
Proof.
  intros Hb. split.
  - split; [done|done| |]; destruct Hb as [-> | ->].
    1-2: vm_compute; repeat split.
    1-2: apply (bool_decide_unpack _); vm_compute; exact I.
  - intros n b Hin. destruct Hb as [-> | ->];
      (repeat apply elem_of_cons in Hin as [->|Hin]; [vm_compute; reflexivity..|by apply elem_of_nil in Hin]).
Qed.

Lemma blocks123_valid : valid_blocks blocks123.
Proof. split; [repeat constructor|]. apply (bool_decide_unpack _). vm_compute. exact I. Qed.
Lemma blocks_stale_valid : valid_blocks blocks_stale.
Proof. split; [repeat constructor|]. apply (bool_decide_unpack _). vm_compute. exact I. Qed.

Lemma blocks_fork : forks g0 0 2 blocks_stale blocks123.
Proof.
  split; [reflexivity|cbn; lia..|].
  intros blk ->%list_elem_of_singleton. apply (bool_decide_unpack _). vm_compute. exact I.
Qed.

(** The node reorganises its third block. *)
Lemma stale_growth : follows g0 0 3 [] [node_of blocks_stale] blocks_stale.
Proof.
  apply (follows_growth _ _ _ _ blocks_stale);
    [apply prefix_nil|cbn; lia|exact blocks_stale_valid|apply node_of_serves; by right|constructor].
Qed.

Lemma stale_reorg : follows g0 0 3 blocks_stale [node_of blocks123; node_of blocks123] blocks123.
Proof.
  apply (follows_reorg _ _ _ _ _ 2 (node_of blocks123) blocks_fork);
    [cbn; lia..|exact blocks123_valid|apply node_of_serves; by left].
Qed.

Lemma nodes_follow : follows g0 0 3 [] [node_of blocks_stale; node_of blocks123; node_of blocks123] blocks123.
Proof.
  apply (follows_growth _ _ _ _ blocks_stale);
    [apply prefix_nil|cbn; lia|exact blocks_stale_valid|apply node_of_serves; by right|exact stale_reorg].
Qed.

Lemma empty_tables_at : tables_at g0 [] 0 emptyDatabase.
Proof. split; [exact (chain_ok_empty _)|cbn; lia|apply db_ok_empty|apply blobs_ok_empty]. Qed.

Lemma empty_remembers K : remembers K ∅ [] 0 0 emptyDatabase.
Proof.
  apply remembers_start; [apply db_ok_empty| |done|reflexivity].
  intros txid [row Hr]. cbn [emptyDatabase t_tx] in Hr. by rewrite lookup_empty in Hr.
Qed.

Lemma config0_height : lowest (starting_heights [config0] emptyDatabase) = 0.
Proof. vm_compute. reflexivity. Qed.


(** The program is stopped on the stale block, and finds the reorganisation when
    it is started again. *)
Lemma restart_resumes_witness :
  ∃ w w' w2, New emptyDatabase [config0] Regtest = (Ok tt, w) ∧
    rounds 4 [node_of blocks_stale] w = (Ok tt, w') ∧
    New (r_db (repo w')) [config0] Regtest = (Ok tt, w2) ∧ repo w2 = repo w' ∧
    ∃ w2', rounds 4 [node_of blocks123; node_of blocks123] w2 = (Ok tt, w2') ∧
      tables_at g0 blocks123 3 (r_db (repo w2')).
Proof.
  destruct (restart_resumes Regtest [config0] emptyDatabase [] 0 0 3 [node_of blocks_stale] blocks_stale
    [node_of blocks123; node_of blocks123] blocks123 4) as (w & H1 & H2).
  - exact empty_tables_at.
  - exact config0_height.
  - intros hs row Hr. cbn [emptyDatabase t_wallet] in Hr. rewrite lookup_empty in Hr. discriminate Hr.
  - apply Forall_singleton. exact config0_ok.
  - discriminate.
  - apply NoDup_singleton.
  - discriminate.
  - discriminate.
  - exact stale_growth.
  - exact stale_reorg.
  - lia.
  - destruct (H2 ∅ ∅) as (w' & w2 & H3 & H4 & H5 & _ & H6).
    + apply empty_subseteq.
    + exact (empty_remembers _).
    + destruct H6 as (w2' & H6 & H7 & _); [apply empty_subseteq|].
      exists w, w', w2. repeat (split; [assumption|]). exists w2'. split; assumption.
Defined.

(** The specification on the example: block 1 pays 50 to the first script, and
    block 2 spends it and pays 30 to the first script for change. *)
Example utxo_chain_example :
  let K : gset bytes := {[ paid_script_hash; Sha256.Sum256 (script_at changeAccount 0) ]} in
  satoshi_sum (utxo_chain K ∅ [block1]) = 50 ∧ satoshi_sum (utxo_chain K ∅ blocks123) = 30.
Proof. vm_compute. split; reflexivity. Qed.

(** ** Serving *)


(** A node that is down when the server starts. *)
Definition downNode : BitcoinClient := {|
  GetHeaders _ _ _ := Err (ErrMsg "client stopped");
  GetBlock _ _ := Err (ErrMsg "client stopped");
  BroadcastWTX _ _ := Err (ErrMsg "client stopped");
  Cancelled _ := false |}.

Lemma down_first_round `{Bip32} n db configs w :
  started n db configs w → t_blockheader db = ∅ →
  ∃ w', syncRound (H0 := downNode) 1 w = (Err (ErrMsg "client stopped"), w').
Proof.
  intros Hst Hdb. assert (chain_ok (genesis_hash w) (r_db (repo w)) []) as Hc.
  { destruct (started_repo Hst) as [-> _]. destruct (setup_all_tables configs db) as [m ->].
    split; [|done]. unfold header_rows. cbn. by rewrite Hdb. }
  destruct (syncHeaders_start (H0 := downNode) [] w 1 Hc) as (w0 & _ & _ & -> & Hrun).
  eexists. unfold syncRound. rewrite bind_run, Hrun.
  cbn [syncHeaders_loop]. rewrite (bind_Ok_1 get _ (set_best _ _ w) _ _ eq_refl). reflexivity.
Qed.

(** A node that has the blocks of the example. *)
Lemma started_empty w :
  started Regtest emptyDatabase [config0] w → in_step g0 [] ∅ ∅ 0 0 w.
Proof.
  intros Hst. apply (started_in_step Regtest emptyDatabase [config0] [] ∅ ∅ 0 0 w empty_tables_at);
    [discriminate|exact config0_height|exact Hst|apply empty_subseteq|exact (empty_remembers _)].
Qed.

Lemma up_first_round w :
  started Regtest emptyDatabase [config0] w → ∃ w', syncRound (H0 := node_of blocks123) 4 w = (Ok tt, w').
Proof.
  intros Hst%started_empty.
  destruct (growth_in_step (H1 := node_of blocks123) [] blocks123 0 4 w Hst) as (w' & Hrun & _);
    [apply prefix_nil|exact blocks123_valid|apply node_of_serves; by left|cbn; lia|by exists w'].
Qed.

Lemma down_first_round_fails w :
  started Regtest emptyDatabase [config0] w →
  ∃ e w', syncRound (H0 := downNode) 1 w = (Err e, w').
Proof.
  intros Hst. destruct (down_first_round _ _ _ _ Hst eq_refl) as (w' & Hrun). by exists (ErrMsg "client stopped"), w'.
Qed.


(** One failure of the node in the first round, and no client is ever
    answered: the manager stays as it is while the process goes on. *)
Theorem down_at_start_blocks :
  ∃ w w' e, New emptyDatabase [config0] Regtest = (Ok tt, w) ∧
    life_step (H0 := downNode) (Starting w) (Failed w' e) ∧
    ∀ l ctx_done, rtc (life_step (H0 := downNode)) (Failed w' e) l → ¬ WaitInit l ctx_done (Ok tt).
Proof.
  destruct (New_run Regtest emptyDatabase [config0] blobs_ok_empty) as (w & Hnew & Hst).
  { intros hs row Hr. cbn [emptyDatabase t_wallet] in Hr. by rewrite lookup_empty in Hr. }
  { apply Forall_singleton. exact config0_ok. }
  destruct (down_first_round _ _ _ _ Hst eq_refl) as [w' Hw']. exists w, w', (ErrMsg "client stopped").
  split; [exact Hnew|]. split; [by apply (first_round_fails (H0 := downNode) w 1)|].
  intros l ctx_done Hl. apply (failed_stays (H0 := downNode)) in Hl as ->. by rewrite WaitInit_ok.
Qed.
