(* ===== verification/NotifyTheorems.v ===== *)
(** * NotifyTheorems: no change goes untold

    Whoever is subscribed when a synchronisation starts is told of every header
    that it stores, and of every script whose history a block changes. *)

From S2P Require Import Prelude Bytes Sha256 Merkle BitcoinTypes ScriptPubkey.
From S2P Require Import Database Repository RepositoryFacts Ledger Chain Wallet Scan Genesis Sync.
From S2P Require Import HeaderSync Subscriptions Examples BlockScan ScanExamples.

(** ** Headers *)

Definition blockheaders (w : W) : gmap bytes headerRow := t_blockheader (r_db (repo w)).

(** The headers stored since [w0] have been sent to the subscribers of [w0]. *)
Record announced (w0 w : W) : Prop := {
  an_subs : hSubs w = hSubs w0;
  an_events : ∃ l, events w = events w0 ++ l ∧
    ∀ hs row id cb, blockheaders w !! hs = Some row → blockheaders w0 !! hs = None →
      hSubs w0 !! id = Some cb → HeaderEvent cb (bh_height row) (bh_serialized row) ∈ l;
}.

Lemma announced_refl w : announced w w.
Proof. split; [done|]. exists []. rewrite app_nil_r. split; [done|]. intros *. congruence. Qed.

Lemma announced_same w0 w w' :
  hSubs w' = hSubs w → events w' = events w → blockheaders w' = blockheaders w →
  announced w0 w → announced w0 w'.
Proof. intros Hs He Hb [H1 H2]. split; by rewrite ?Hs, ?He, ?Hb. Qed.

Lemma announced_tick w0 w : announced w0 w → announced w0 (tick w).
Proof. by apply announced_same. Qed.

(** The header that is stored is the one that was sent just before. *)
Lemma announced_insert w0 w hs h buf :
  announced w0 w → (80 ≤ length buf)%nat →
  announced w0 (upd_repo (upd_db (upd_blockheader
      <[hs := {| bh_height := h; bh_serialized := take 80 buf |}]>))
    (notifyHeaderSubscribers h buf w).2).
Proof.
  intros [H1 (l & He & Hl)] Hlen. split; [exact H1|].
  unfold notifyHeaderSubscribers, modify. cbn [snd]. eexists. split.
  { cbn [events upd_repo emit]. by rewrite He, <- (assoc_L (++)). }
  intros hs' row id cb. unfold blockheaders at 1. cbn [repo upd_repo r_db upd_db t_blockheader upd_blockheader emit].
  intros Hr Hn Hid. apply elem_of_app.
  apply lookup_insert_Some in Hr as [[_ <-]|[_ Hr]]; [right|left; by eapply Hl].
  cbn [bh_height bh_serialized]. rewrite copy_into_prefix by done.
  apply list_elem_of_fmap. exists (id, cb). split; [done|]. apply elem_of_map_to_list. by rewrite H1.
Qed.

Lemma announced_notify w0 h buf : preserves (announced w0) (notifyHeaderSubscribers h buf).
Proof.
  intros w [H1 (l & He & Hl)]. split; [exact H1|]. eexists. split.
  { cbn [events emit notifyHeaderSubscribers modify snd]. by rewrite He, <- (assoc_L (++)). }
  intros hs row id cb Hr Hn Hid. apply elem_of_app. left. by eapply Hl.
Qed.

Section headers.
Context `{BitcoinClient} (w0 : W).

Lemma announced_processHeader hdr : preserves (announced w0) (processHeader hdr).
Proof.
  unfold processHeader. apply preserves_bind; [auto with preserve|]. intros wi.
  case_bool_decide.
  { apply preserves_bind; [apply preserves_checkReorg, announced_tick|auto with preserve]. }
  cbv zeta. intros w Hw.
  pose proof (announced_notify w0 (bestHeader wi + 1) (Header_Serialize hdr) w Hw) as Hn.
  rewrite bind_run. cbn [notifyHeaderSubscribers modify] in *. rewrite bind_run.
  unfold on_repo, zoom, insertBlockHeader. case_bool_decide; [by eapply announced_same; [..|exact Hn]|].
  unfold exec, insert_row. cbn [fst snd].
  match goal with |- context [t_blockheader ?db !! ?hs] => destruct (t_blockheader db !! hs) eqn:E end.
  { by eapply announced_same; [..|exact Hn]. }
  run_outcome. cbn [modify]. eapply announced_same;
    [..|apply (announced_insert w0 w (Header_Hash hdr) (bestHeader wi + 1) (Header_Serialize hdr) Hw); lia];
    done.
Qed.

Lemma announced_syncHeaders fuel : preserves (announced w0) (syncHeaders fuel).
Proof.
  apply preserves_syncHeaders; [apply announced_tick|intros k hs w; by apply announced_same|].
  apply announced_processHeader.
Qed.
End headers.

(** C20: no header is stored untold: whatever the node replies and however
    [syncHeaders] ends (up to date, with an error, or on a reorganisation), for
    every row that it has added to the table of headers each subscriber has been
    called with its height and its 80 bytes. *)
Theorem syncHeaders_announces `{BitcoinClient} fuel w hs row id cb :
  let w' := (syncHeaders fuel w).2 in
  t_blockheader (r_db (repo w')) !! hs = Some row → t_blockheader (r_db (repo w)) !! hs = None →
  hSubs w !! id = Some cb →
  ∃ l, events w' = events w ++ l ∧ HeaderEvent cb (bh_height row) (bh_serialized row) ∈ l.
Proof.
  intros w' Hr Hn Hid. destruct (announced_syncHeaders w fuel w (announced_refl w)) as [_ (l & He & Hl)].
  exists l. split; [exact He|]. by eapply Hl.
Qed.

(** The toy node has three blocks for a subscriber of an empty manager. *)
Definition w_listening : W := upd_hSubs <[5 := NotifyHeaders 5]> w_empty.

Lemma syncHeaders_announces_witness :
  ∃ l, events (syncHeaders 4 w_listening).2 = events w_listening ++ l ∧
    HeaderEvent (NotifyHeaders 5) 3 (take 80 (Header_Serialize (header_of block3))) ∈ l.
Proof.
  apply (syncHeaders_announces 4 w_listening (Header_Hash (header_of block3))
    {| bh_height := 3; bh_serialized := take 80 (Header_Serialize (header_of block3)) |} 5 (NotifyHeaders 5)).
  - vm_compute. reflexivity.
  - apply lookup_empty.
  - apply lookup_insert_eq.
Defined.

(** ** Scripts *)

(** A block of calls that returns without an error takes [P] to [Q]. *)
Definition returns {A} (P : W → Prop) (m : M W A) (Q : A → W → Prop) : Prop :=
  ∀ w a w', P w → m w = (Ok a, w') → Q a w'.

Lemma returns_bind {A B} P R Q (m : M W A) (k : A → M W B) :
  returns P m R → (∀ a, returns (R a) (k a) Q) → returns P (m ≫= k) Q.
Proof. intros Hm Hk w b w' Hw (a & w1 & H1 & H2)%bind_Ok. eapply Hk; [by eapply Hm|done]. Qed.

Lemma returns_ret {A} (P : W → Prop) (a : A) (Q : A → W → Prop) :
  (∀ w, P w → Q a w) → returns P (mret a) Q.
Proof. intros H w b w' Hw [= <- <-]. by apply H. Qed.

Lemma returns_preserves {A} (P : W → Prop) (m : M W A) : preserves P m → returns P m (λ _, P).
Proof. intros Hm w a w' Hw Hr. specialize (Hm w Hw). by rewrite Hr in Hm. Qed.

Lemma returns_fold_idx {A B} (I : B → W → Prop) i (l : list A) body acc :
  (∀ j x acc, returns (I acc) (body j x acc) I) → returns (I acc) (fold_idx i l body acc) I.
Proof.
  intros Hb. revert i acc. induction l as [|x l IH]; intros i acc; simpl; [by apply returns_ret|].
  eapply returns_bind; [apply Hb|]. intros acc'. apply IH.
Qed.

Lemma returns_forM_keep {A} (I : W → Prop) (l : list A) (body : A → M W unit) :
  (∀ x, returns I (body x) (λ _, I)) → returns I (forM l body) (λ _, I).
Proof.
  intros Hb. induction l as [|x l IH]; simpl; [by apply returns_ret|].
  eapply returns_bind; [apply Hb|]. intros []. exact IH.
Qed.

(** Every round of a loop establishes its part, and no later round breaks it. *)
Lemma returns_forM {A} (I : W → Prop) (l : list A) (body : A → M W unit) (Q : A → W → Prop) :
  (∀ x, returns I (body x) (λ _ w, I w ∧ Q x w)) →
  (∀ x y, returns (λ w, I w ∧ Q x w) (body y) (λ _, Q x)) →
  returns I (forM l body) (λ _ w, I w ∧ ∀ x, x ∈ l → Q x w).
Proof.
  intros Hb Hk. induction l as [|y l IH]; simpl.
  { apply returns_ret. intros w Hw. split; [done|]. intros x Hx. by apply elem_of_nil in Hx. }
  intros w u w' Hw (u1 & w1 & H1 & H2)%bind_Ok.
  destruct (Hb y w u1 w1 Hw H1) as [Hi Hq]. destruct (IH w1 u w' Hi H2) as [Hi' Hq']. split; [done|].
  intros x [->|Hx]%elem_of_cons; [|by apply Hq'].
  apply (returns_forM_keep (λ w, I w ∧ Q y w) l body) in H2; [by apply H2| |done].
  intros z v a v' [Hv Hqv] Hr. split; [by eapply Hb|]. by eapply Hk.
Qed.

Definition stx (w : W) : gset (bytes * bytes) := t_scriptpubkey_tx (r_db (repo w)).

(** The scripts with a new transaction since [w0] are in the set. *)
Record changed (w0 : W) (acc : gset bytes) (w : W) : Prop := {
  ch_subs : shSubs w = shSubs w0;
  ch_events : events w = events w0;
  ch_scripts sh txid : (sh, txid) ∈ stx w → (sh, txid) ∉ stx w0 → sh ∈ acc;
}.

Lemma changed_same w0 acc w w' :
  shSubs w' = shSubs w → events w' = events w → stx w' ⊆ stx w → changed w0 acc w → changed w0 acc w'.
Proof. intros Hs He Hx [H1 H2 H3]. split; [congruence|congruence|]. intros sh txid Hi. apply H3. set_solver. Qed.

Lemma changed_weaken w0 acc acc' w : acc ⊆ acc' → changed w0 acc w → changed w0 acc' w.
Proof. intros Ha [H1 H2 H3]. split; [done|done|]. intros sh txid Hi Hn. apply Ha. by eapply H3. Qed.

Lemma changed_on_repo {A} w0 acc (m : M repository A) :
  (∀ r, t_scriptpubkey_tx (r_db (m r).2) ⊆ t_scriptpubkey_tx (r_db r)) → preserves (changed w0 acc) (on_repo m).
Proof.
  intros Hm w. unfold on_repo, zoom. specialize (Hm (repo w)). destruct (m (repo w)) as [o r].
  by apply changed_same.
Qed.

Section scripts.
Context `{Bip32} (w0 : W).

Lemma changed_set_wallet acc i wl : preserves (changed w0 acc) (set_wallet i wl).
Proof. intros w. by apply changed_same. Qed.

Lemma changed_get_wallet acc i : preserves (changed w0 acc) (get_wallet i).
Proof. unfold get_wallet. auto with preserve. Qed.

Lemma changed_updateWalletIndexes acc h a b :
  preserves (changed w0 acc) (on_repo (updateWalletIndexes h a b)).
Proof. apply changed_on_repo. by intros r. Qed.

Hint Resolve changed_set_wallet changed_get_wallet changed_updateWalletIndexes : preserve.

Ltac step_calls :=
  repeat first
    [ by auto with preserve
    | apply preserves_bind; [|intros ?]
    | progress cbv beta zeta
    | case_match ].

Lemma changed_refillWallet acc i : preserves (changed w0 acc) (refillWallet i).
Proof.
  unfold refillWallet, refillAccount.
  assert (∀ f, preserves (changed w0 acc) (modify (upd_scriptPubkeys f))) as Hm.
  { intros f w. by apply changed_same. }
  step_calls.
Qed.

Lemma changed_walletUpdateIndexes acc info : preserves (changed w0 acc) (walletUpdateIndexes info).
Proof. unfold walletUpdateIndexes. step_calls. Qed.

Lemma changed_insertUnspentOutput acc tv sat sh :
  preserves (changed w0 acc) (on_repo (insertUnspentOutput tv sat sh)).
Proof.
  apply changed_on_repo. intros r. unfold insertUnspentOutput. rewrite bind_run. unfold exec.
  destruct (_ <=? sat); [done|]. by destruct (t_unspent_output (r_db r) !! tv).
Qed.

Lemma changed_deleteUnspentOutput acc tv h :
  preserves (changed w0 acc) (on_repo (deleteUnspentOutput tv h)).
Proof.
  apply changed_on_repo. intros r. unfold deleteUnspentOutput. rewrite bind_run. unfold exec.
  cbn. by destruct (t_unspent_output (r_db r) !! tv), (t_spent_output (r_db r) !! tv).
Qed.

Lemma changed_insertTransaction acc txid bh pos raw proof :
  preserves (changed w0 acc) (on_repo (insertTransaction txid bh pos raw proof)).
Proof.
  apply changed_on_repo. intros r. unfold insertTransaction, exec. by destruct (t_tx (r_db r) !! txid).
Qed.

(** The script of the transaction joins the set. *)
Lemma changed_record acc b tx pos sh :
  returns (changed w0 acc) (recordTransaction b tx pos sh) (λ _, changed w0 ({[ sh ]} ∪ acc)).
Proof.
  unfold recordTransaction. eapply returns_bind.
  { apply returns_preserves. auto with preserve. }
  intros [p br]. eapply returns_bind.
  { apply returns_preserves. case_bool_decide; auto with preserve. }
  intros []. eapply returns_bind; [apply returns_preserves, changed_insertTransaction|].
  intros []. intros w [] w' [H1 H2 H3] [= <-]. split; [done|done|].
  intros sh' txid. unfold stx at 1. cbn. intros [E%elem_of_singleton|Hi]%elem_of_union Hn.
  - injection E as -> _. set_solver.
  - apply elem_of_union_r. by eapply H3.
Qed.

Lemma changed_processOutput b tx pos out j acc :
  returns (changed w0 acc) (processOutput b tx pos out j acc) (changed w0).
Proof.
  unfold processOutput. eapply returns_bind; [apply returns_preserves; auto with preserve|].
  intros [info|]; [|by apply returns_ret].
  eapply returns_bind; [apply changed_record|]. intros [].
  eapply returns_bind; [apply returns_preserves, changed_insertUnspentOutput|]. intros [].
  eapply returns_bind; [apply returns_preserves, changed_walletUpdateIndexes|]. intros [].
  eapply returns_bind; [apply returns_preserves, changed_refillWallet|]. intros []. by apply returns_ret.
Qed.

Lemma changed_processInput b h tx pos i acc :
  returns (changed w0 acc) (processInput b h tx pos i acc) (changed w0).
Proof.
  unfold processInput. apply (returns_bind _ (λ _, changed w0 acc)).
  { apply returns_preserves. intros w Hw. unfold on_repo, zoom, selectUnspentOutput.
    rewrite bind_run. cbn [gets]. destruct (utxoIndex (repo w) !! _); by apply (changed_same _ _ w). }
  intros [u|]; [|by apply returns_ret].
  eapply returns_bind; [apply changed_record|]. intros [].
  eapply returns_bind; [apply returns_preserves, changed_deleteUnspentOutput|]. intros [].
  by apply returns_ret.
Qed.

Lemma changed_transactions b h :
  returns (changed w0 ∅) (fold_idx 0 (Transactions b) (processTransaction b h) ∅) (changed w0).
Proof.
  apply returns_fold_idx. intros j tx acc. unfold processTransaction.
  eapply returns_bind; [|intros acc'];
    apply (returns_fold_idx (changed w0)); intros; [apply changed_processOutput|apply changed_processInput].
Qed.

Lemma changed_raise acc h i : preserves (changed w0 acc) (raiseWalletHeight h i).
Proof.
  unfold raiseWalletHeight.
  assert (∀ hs, preserves (changed w0 acc) (on_repo (updateWalletHeight hs h))) as Hu.
  { intros hs. apply changed_on_repo. by intros r. }
  step_calls.
Qed.
End scripts.

(** The status of a script is a function of the tables. *)
Definition status_of (r : repository) (sh : bytes) : outcome (option bytes) :=
  hist ← (selectScriptHashHistory sh r).1; Ok (shStatus hist).

Lemma getScriptHashStatus_run sh w : getScriptHashStatus sh w = (status_of (repo w) sh, w).
Proof.
  unfold getScriptHashStatus, status_of, selectScriptHashHistory. rewrite bind_run, on_repo_query.
  unfold query. cbn [fst]. by destruct (mapM _ _).
Qed.

(** The text of a status in a notification. *)
Definition status_text (status : option bytes) : bytes := copy_into (zeroes 32) (default [] status).

(** The subscribers of a script have been sent its status in [w1]. *)
Record told (w1 : W) (sh : bytes) (w : W) : Prop := {
  td_repo : repo w = repo w1;
  td_events : ∃ l status, events w = events w1 ++ l ∧ status_of (repo w1) sh = Ok status ∧
    ∀ m id cb, shSubs w1 !! sh = Some m → m !! id = Some cb → StatusEvent cb (status_text status) ∈ l;
}.

(** Sending changes nothing but what has been sent. *)
Record sending (w1 w : W) : Prop := {
  sd_repo : repo w = repo w1;
  sd_subs : shSubs w = shSubs w1;
  sd_events : ∃ l, events w = events w1 ++ l;
}.

Lemma notifyStatus_Ok sh w u w' :
  notifyStatus sh w = (Ok u, w') →
  ∃ status, status_of (repo w) sh = Ok status ∧
    w' = emit ((λ r : Z * statusCallback, StatusEvent r.2 (status_text status))
      <$> map_to_list (default ∅ (shSubs w !! sh))) w.
Proof.
  unfold notifyStatus. rewrite bind_run, getScriptHashStatus_run.
  destruct (status_of (repo w) sh) as [status| | |]; [|done..].
  intros [= _ <-]. by exists status.
Qed.

Lemma notify_one w1 sh :
  returns (sending w1) (notifyStatus sh) (λ _ w, sending w1 w ∧ told w1 sh w).
Proof.
  intros w u w' [H1 H2 (l & He)] (status & Hs & ->)%notifyStatus_Ok. rewrite H1 in Hs. split.
  - split; [done|done|]. cbn [events emit]. rewrite He, <- (assoc_L (++)). by eexists.
  - split; [done|]. cbn [events emit]. rewrite He, <- (assoc_L (++)). eexists _, status.
    split; [done|]. split; [done|].
    intros m id cb Hm Hi. apply elem_of_app. right. rewrite H2, Hm. apply list_elem_of_fmap.
    exists (id, cb). split; [done|]. by apply elem_of_map_to_list.
Qed.

Lemma notify_other w1 sh sh' :
  returns (λ w, sending w1 w ∧ told w1 sh w) (notifyStatus sh') (λ _, told w1 sh).
Proof.
  intros w u w' [[H1 H2 _] [_ (l & status & He & Hs & Hl)]] (status' & _ & ->)%notifyStatus_Ok.
  split; [done|]. cbn [events emit]. rewrite He, <- (assoc_L (++)).
  eexists _, status. split; [done|]. split; [done|].
  intros m id cb Hm Hi. apply elem_of_app. left. by eapply Hl.
Qed.

(** C21: no change of a script's history goes untold: when [processBlock] returns
    without an error, every subscriber of a script that the block has given a
    new transaction has been called with the status of the script that the
    tables have after the block. *)
Theorem processBlock_notifies `{Bip32} b h w w' sh txid m id cb :
  processBlock b h w = (Ok tt, w') →
  (sh, txid) ∈ t_scriptpubkey_tx (r_db (repo w')) → (sh, txid) ∉ t_scriptpubkey_tx (r_db (repo w)) →
  shSubs w !! sh = Some m → m !! id = Some cb →
  ∃ l status, events w' = events w ++ l ∧ getScriptHashStatus sh w' = (Ok status, w') ∧
    StatusEvent cb (status_text status) ∈ l.
Proof.
  intros Hrun Hin Hnot Hm Hid. unfold processBlock in Hrun.
  apply bind_Ok in Hrun as (acc & w1 & H1 & Hrun).
  apply (changed_transactions w) in H1; [|split; [done|done|]; intros *; by unfold stx].
  apply bind_Ok in Hrun as (n & w2 & [= <- <-] & Hrun).
  apply bind_Ok in Hrun as (u & w3 & H3 & Hrun).
  apply (returns_forM_keep (changed w acc)) in H3;
    [|intros i; apply returns_preserves, changed_raise|done].
  pose proof Hrun as Hsend.
  apply (returns_forM (sending w3) _ _ (told w3) (notify_one w3) (notify_other w3)) in Hsend
    as [[Hr _ _] Htold]; [|split; [done|done|]; exists []; by rewrite app_nil_r].
  destruct H3 as [Hs He Hx]. assert (sh ∈ acc) as Hacc.
  { apply (Hx sh txid); [unfold stx; by rewrite <- Hr|done]. }
  destruct (Htold sh) as [_ (l & status & Hl & Hst & Hev)]; [by apply elem_of_elements|].
  exists l, status. rewrite Hl, He. split; [done|]. split.
  - by rewrite getScriptHashStatus_run, Hr, Hst.
  - apply (Hev m id); [by rewrite Hs|done].
Qed.

(** The second block spends the output of a script that connection 5 watches. *)
Definition w_watching : W :=
  upd_shSubs <[paid_script_hash := {[ 5 := NotifyScriptHash 5 paid_script_hash ]}]> (manager paid_repo [] ∅).

Lemma w_watching_block2 :
  (processBlock block2 2 w_watching).1 = Ok tt ∧
  (paid_script_hash, Txid spend2) ∈ t_scriptpubkey_tx (r_db (repo (processBlock block2 2 w_watching).2)).
Proof.
  split; [vm_compute; reflexivity|]. apply (bool_decide_unpack _). vm_compute. exact I.
Qed.

Lemma processBlock_notifies_witness :
  ∃ l status, events (processBlock block2 2 w_watching).2 = l ∧
    StatusEvent (NotifyScriptHash 5 paid_script_hash) (status_text status) ∈ l.
Proof.
  destruct w_watching_block2 as [Hok Hin].
  destruct (processBlock_notifies block2 2 w_watching (processBlock block2 2 w_watching).2
    paid_script_hash (Txid spend2) {[ 5 := NotifyScriptHash 5 paid_script_hash ]} 5
    (NotifyScriptHash 5 paid_script_hash)) as (l & status & He & _ & Hev).
  - rewrite <- Hok. apply surjective_pairing.
  - exact Hin.
  - apply (bool_decide_unpack _). vm_compute. exact I.
  - apply lookup_insert_eq.
  - apply lookup_insert_eq.
  - exists l, status. split; [exact He|exact Hev].
Defined.
