(* ===== verification/QueryTheorems.v ===== *)
(** * QueryTheorems: correctness of the answers to clients *)

From S2P Require Import Prelude Bytes Sha256 Merkle BitcoinTypes ScriptPubkey.
From S2P Require Import Database Repository RepositoryFacts Ledger Chain Wallet Scan Genesis Sync.
From S2P Require Import HeaderSync Queries Examples BlockScan ScanExamples.

(** ** Headers *)

(** On a header table that is a chain, [GetBlockHeaders] with a start and a
    limit that are not negative is the slice of the chain from the genesis
    block: the headers of heights [start], [start+1], ..., at most [limit] of
    them, the genesis header included when the start is 0, which Testnet does
    not have. *)
Theorem GetBlockHeaders_slice rows start limit w :
  chain_ok (genesis_hash w) (r_db (repo w)) rows → (start = 0 → net w ≠ Testnet) →
  0 ≤ start → 0 ≤ limit →
  GetBlockHeaders start limit w =
    (Ok (take (Z.to_nat limit) (drop (Z.to_nat start) (header_list w rows))), w).
Proof.
  intros Hc Hn Hs Hl. unfold GetBlockHeaders.
  rewrite (on_repo_read _ _ _ (selectRawBlockHeadersByHeight_chain _ _ start limit (repo w) Hc)).
  unfold header_list. set (hd := take 80 (hd_Serialized (genesisBlockData (net w)))).
  rewrite fmap_drop. set (hs := (λ r : bytes * headerRow, bh_serialized r.2) <$> rows).
  assert (sql_limit limit (drop (Z.to_nat (start - 1)) hs)
    = take (Z.to_nat limit) (drop (Z.to_nat (start - 1)) hs)) as Hlim.
  { unfold sql_limit. destruct (Z.ltb_spec limit 0); [lia|done]. }
  rewrite Hlim. destruct (Z.eqb_spec start 0) as [->|Hne].
  - rewrite bind_assoc, (bind_Ok_1 _ _ _ _ _ (genesis_header_run w (Hn eq_refl))). fold hd.
    rewrite bind_run. change (Z.to_nat (0 - 1)) with 0%nat. change (Z.to_nat 0) with 0%nat.
    rewrite !drop_0. unfold mret, M_ret. do 2 f_equal.
    unfold drop_last. cbn [length]. rewrite length_take.
    destruct (Z.ltb_spec limit (S (Nat.min (Z.to_nat limit) (length hs)))) as [Hlt|Hge].
    + replace (S (Nat.min (Z.to_nat limit) (length hs)) - 1)%nat with (Z.to_nat limit) by lia.
      destruct (Z.to_nat limit) as [|n]; [done|]. cbn [take]. f_equal. rewrite take_take. f_equal. lia.
    + destruct (Z.to_nat limit) as [|n] eqn:E; [lia|]. cbn [take]. f_equal.
      rewrite !take_ge; [done|lia..].
  - rewrite bind_run. unfold mret, M_ret. do 3 f_equal.
    replace (Z.to_nat start) with (S (Z.to_nat (start - 1))) by lia. done.
Qed.

Definition w_headers : W := manager paid_repo [] ∅.

Lemma GetBlockHeaders_slice_witness :
  GetBlockHeaders 0 2 w_headers = (Ok (take 2 (header_list w_headers headers12)), w_headers).
Proof.
  apply (GetBlockHeaders_slice headers12 0 2 w_headers).
  - exact paid_chain.
  - intros _. discriminate.
  - lia.
  - lia.
Defined.

(** A negative limit is no limit: [GetBlockHeaders] from a height above the
    genesis block then answers with every header from that height to the tip.
    (The handler of [blockchain.block.headers] only lowers counts above 2016.) *)
Theorem GetBlockHeaders_negative_limit rows start limit w :
  chain_ok (genesis_hash w) (r_db (repo w)) rows → 1 ≤ start → limit < 0 →
  GetBlockHeaders start limit w = (Ok (drop (Z.to_nat start) (header_list w rows)), w).
Proof.
  intros Hc Hs Hl. unfold GetBlockHeaders.
  rewrite (on_repo_read _ _ _ (selectRawBlockHeadersByHeight_chain _ _ start limit (repo w) Hc)).
  destruct (Z.eqb_spec start 0); [lia|]. rewrite bind_run. unfold mret, M_ret. do 2 f_equal.
  unfold sql_limit. rewrite (proj2 (Z.ltb_lt _ _)) by done. unfold header_list.
  replace (Z.to_nat start) with (S (Z.to_nat (start - 1))) by lia. by rewrite fmap_drop.
Qed.

Lemma GetBlockHeaders_negative_limit_witness :
  GetBlockHeaders 1 (-1) w_headers = (Ok (drop 1 (header_list w_headers headers12)), w_headers).
Proof.
  apply (GetBlockHeaders_negative_limit headers12 1 (-1) w_headers).
  - exact paid_chain.
  - lia.
  - lia.
Defined.

(** [GetBlockHeader] answers with the header at the height of the chain, the
    genesis header at 0, and fails with [sql.ErrNoRows] past the tip and for
    negative heights. *)
Theorem GetBlockHeader_spec rows h w :
  chain_ok (genesis_hash w) (r_db (repo w)) rows → net w ≠ Testnet →
  GetBlockHeader h w =
    (match (if h <? 0 then None else header_list w rows !! Z.to_nat h) with
     | Some header => Ok header
     | None => Err ErrNoRows
     end, w).
Proof.
  intros Hc Hn. unfold GetBlockHeader. destruct (Z.eqb_spec h 0) as [->|Hne].
  - by rewrite genesis_header_run.
  - rewrite (on_repo_read _ _ _ (selectRawBlockHeaderByHeight_chain Hc h (repo w) eq_refl)).
    destruct (Z.ltb_spec h 0) as [Hlt|Hge].
    + destruct (Z.leb_spec 1 h); [lia|done].
    + destruct (Z.leb_spec 1 h); [|lia]. unfold header_list.
      replace (Z.to_nat h) with (S (Z.to_nat (h - 1))) by lia.
      match goal with |- context [(?x :: ?l) !! S ?n] => change ((x :: l) !! S n) with (l !! n) end.
      rewrite list_lookup_fmap. by destruct (rows !! Z.to_nat (h - 1)) as [[??]|].
Qed.

Lemma GetBlockHeader_spec_witness :
  GetBlockHeader 2 w_headers =
    (Ok (header_row 2 (header_of block2)).2.(bh_serialized), w_headers).
Proof.
  rewrite (GetBlockHeader_spec headers12 2 w_headers); [reflexivity|exact paid_chain|discriminate].
Defined.

(** ** Balance and unspent outputs *)

(** The balance of a script in the index is the sum, modulo 2^64, of the
    amounts of its rows in the table of unspent outputs; the unconfirmed balance
    is always 0. *)
Theorem GetScriptHashBalance_spec sh w :
  index_sync (repo w) → is_Some (scriptPubkeys w !! sh) →
  GetScriptHashBalance sh w =
    (Ok (uint64_wrap (satoshi_sum (unspent_of (r_db (repo w)) sh)), 0), w).
Proof. apply GetScriptHashBalance_run. Qed.

Definition w_balance : W :=
  manager paid_repo [] {[ paid_script_hash :=
    {| walletIdx := 0; account := receiveAccount; pubkeyIdx := 0 |} ]}.

Lemma GetScriptHashBalance_spec_witness :
  GetScriptHashBalance paid_script_hash w_balance =
    (Ok (uint64_wrap (satoshi_sum (unspent_of paid_db paid_script_hash)), 0), w_balance).
Proof.
  apply (GetScriptHashBalance_spec paid_script_hash w_balance).
  - reflexivity.
  - exists {| walletIdx := 0; account := receiveAccount; pubkeyIdx := 0 |}. apply lookup_singleton_eq.
Defined.

Lemma unspent_list_sorted db sh :
  StronglySorted (λ u v, lex_le (ud_Height u, ud_TxPos u) (ud_Height v, ud_TxPos v)) (unspent_list db sh).
Proof.
  unfold unspent_list. pose proof (order_by2_sorted fst (unspent_rows db sh)) as Hsort.
  induction Hsort as [|x l _ IH Hx]; cbn [fmap list_fmap]; constructor; [done|].
  apply Forall_fmap. eapply Forall_impl; [exact Hx|]. intros y Hy.
  unfold key2_le in Hy. by destruct x as [[??] ?], y as [[??] ?].
Qed.

(** C36: [listunspent] and [get_balance] agree: on consistent tables the list of
    unspent outputs of a script is in the order of height and position, and when
    the index of unspent outputs in memory holds the rows of its table
    ([index_sync]; it does not after a block that has failed half way), the
    balance of a script of the wallets is the sum of the amounts listed, modulo
    2^64. *)
Theorem GetScriptHashUnspent_balance top sh w :
  db_ok top (r_db (repo w)) → blobs_ok (r_db (repo w)) →
  ∃ utxos, GetScriptHashUnspent sh w = (Ok utxos, w) ∧
    StronglySorted (λ u v, lex_le (ud_Height u, ud_TxPos u) (ud_Height v, ud_TxPos v)) utxos ∧
    foldr (λ u s, ud_Satoshi u + s) 0 utxos = satoshi_sum (unspent_of (r_db (repo w)) sh) ∧
    (index_sync (repo w) → is_Some (scriptPubkeys w !! sh) →
       GetScriptHashBalance sh w = (Ok (uint64_wrap (foldr (λ u s, ud_Satoshi u + s) 0 utxos), 0), w)).
Proof.
  intros Hok Hb. exists (unspent_list (r_db (repo w)) sh).
  assert (foldr (λ u s, ud_Satoshi u + s) 0 (unspent_list (r_db (repo w)) sh)
    = satoshi_sum (unspent_of (r_db (repo w)) sh)) as Hsum
    by (by rewrite unspent_list_sum, (unspent_rows_sum top)).
  split_and!; [|by apply unspent_list_sorted|done|].
  - by apply on_repo_read, selectScriptHashUnspent_ok.
  - intros Hs Hi. rewrite Hsum. by apply GetScriptHashBalance_run.
Qed.

Lemma paid_sum : satoshi_sum (unspent_of paid_db paid_script_hash) = 50.
Proof.
  unfold unspent_of, paid_db. cbn [t_unspent_output].
  rewrite map_filter_singleton_True by reflexivity.
  unfold satoshi_sum. by rewrite map_to_list_singleton.
Qed.

Lemma GetScriptHashUnspent_balance_witness :
  ∃ utxos, GetScriptHashUnspent paid_script_hash w_balance = (Ok utxos, w_balance) ∧
    foldr (λ u s, ud_Satoshi u + s) 0 utxos = 50 ∧
    GetScriptHashBalance paid_script_hash w_balance =
      (Ok (uint64_wrap (foldr (λ u s, ud_Satoshi u + s) 0 utxos), 0), w_balance).
Proof.
  destruct (GetScriptHashUnspent_balance 1 paid_script_hash w_balance) as (us & H1 & _ & H2 & H3).
  - exact paid_db_ok.
  - exact paid_blobs_ok.
  - exists us. split; [exact H1|]. split.
    + rewrite H2. change (r_db (repo w_balance)) with paid_db. exact paid_sum.
    + apply H3; [reflexivity|].
      exists {| walletIdx := 0; account := receiveAccount; pubkeyIdx := 0 |}. apply lookup_singleton_eq.
Defined.

(** ** History and status *)

(** C37: the history of a script hash is exactly its recorded transactions, each
    once and with the height of its block, sorted by height and then by position in the
    block. *)
Theorem GetScriptHashHistory_spec top sh w :
  db_ok top (r_db (repo w)) → blobs_ok (r_db (repo w)) →
  let db := r_db (repo w) in
  ∃ hist keyed, GetScriptHashHistory sh w = (Ok hist, w) ∧
    hist = (λ r : (Z * Z) * bytes, {| td_Height := r.1.1; td_TxidOf := r.2 |}) <$> keyed ∧
    StronglySorted (λ r s, lex_le r.1 s.1) keyed ∧ NoDup (td_TxidOf <$> hist) ∧
    (∀ txid, txid ∈ td_TxidOf <$> hist ↔ (sh, txid) ∈ t_scriptpubkey_tx db) ∧
    (∀ height pos txid, ((height, pos), txid) ∈ keyed →
      ∃ row, t_tx db !! txid = Some row ∧ tx_height db row = Some height ∧ tr_pos row = pos).
Proof.
  intros Hok Hb db. exists (history db sh), (order_by2 fst (history_rows db sh)).
  split; [by apply on_repo_read, selectScriptHashHistory_ok|]. split; [done|].
  split; [apply order_by2_sorted|]. split; [apply history_NoDup|].
  assert (∀ height pos txid, ((height, pos), txid) ∈ order_by2 fst (history_rows db sh) ↔
    (sh, txid) ∈ t_scriptpubkey_tx db ∧
    ∃ row, t_tx db !! txid = Some row ∧ tx_height db row = Some height ∧ tr_pos row = pos) as Hel.
  { intros. rewrite elem_of_order_by2. apply elem_of_history_rows. }
  split; [|by intros height pos txid [_ ?]%Hel].
  intros txid. unfold history. rewrite <- list_fmap_compose, list_elem_of_fmap. split.
  - intros ([[height pos] x] & -> & [Hin _]%Hel). done.
  - intros Hin. destruct (ok_stx _ _ Hok _ _ Hin) as [row Hrow].
    destruct (ok_tx _ _ Hok _ _ Hrow) as (height & Hh & _).
    exists ((height, tr_pos row), txid). split; [done|]. apply Hel. eauto.
Qed.

Lemma GetScriptHashHistory_spec_witness :
  ∃ hist, GetScriptHashHistory paid_script_hash w_balance = (Ok hist, w_balance) ∧
    Txid pay1 ∈ td_TxidOf <$> hist.
Proof.
  destruct (GetScriptHashHistory_spec 1 paid_script_hash w_balance paid_db_ok paid_blobs_ok)
    as (hist & keyed & H1 & _ & _ & _ & H2 & _).
  exists hist. split; [exact H1|]. apply H2.
  change ((paid_script_hash, Txid pay1) ∈ ({[ (paid_script_hash, Txid pay1) ]} : gset (bytes * bytes))).
  by apply elem_of_singleton.
Defined.

(** The text of one entry ends at its second colon. *)
Lemma status_entry_inj t u l1 l2 :
  status_entry t ++ l1 = status_entry u ++ l2 →
  td_TxidOf t = td_TxidOf u ∧ td_Height t = td_Height u ∧ l1 = l2.
Proof.
  unfold status_entry. rewrite <- !app_assoc. intros H.
  apply split_at_sep in H as [Ht H]; [|apply colon_not_in_hex..].
  apply split_at_sep in H as [Hh H]; [|apply colon_not_in_decimal..].
  apply (inj hexEncode), (inj reverse) in Ht. apply (inj decimal) in Hh. done.
Qed.

Lemma status_text_inj l1 l2 : l1 ≫= status_entry = l2 ≫= status_entry → l1 = l2.
Proof.
  revert l2. induction l1 as [|t l1 IH]; intros [|u l2] H; [done| | |].
  - exfalso. rewrite bind_cons in H. unfold status_entry in H. by destruct (hexEncode _).
  - exfalso. rewrite bind_cons in H. unfold status_entry in H. by destruct (hexEncode _).
  - rewrite !bind_cons in H. apply status_entry_inj in H as (H1 & H2 & H3).
    destruct t, u. simpl in *. f_equal; [congruence|by apply IH].
Qed.

(** C38: a script has no status exactly when it has no history, and the status
    that clients compare tells histories apart: two histories with the same
    status are the same list, unless their texts are a collision of SHA-256. *)
Theorem shStatus_tells_histories :
  (∀ l, shStatus l = None ↔ l = []) ∧
  (∀ l1 l2, shStatus l1 = shStatus l2 →
     l1 = l2 ∨
     (l1 ≫= status_entry ≠ l2 ≫= status_entry ∧
      Sha256.Sum256 (l1 ≫= status_entry) = Sha256.Sum256 (l2 ≫= status_entry))).
Proof.
  split; [by intros [|t l]|]. intros l1 l2 H. destruct (decide (l1 ≫= status_entry = l2 ≫= status_entry)).
  - left. by apply status_text_inj.
  - right. split; [done|]. unfold shStatus in H.
    destruct l1 as [|t l1], l2 as [|u l2]; try done; try discriminate H. by injection H.
Qed.

(** One transaction, at height 1 and after a reorganisation at height 2. *)
Definition at_height (h : Z) : TxData := {| td_Height := h; td_TxidOf := Txid pay1 |}.

Lemma shStatus_tells_histories_witness :
  is_Some (shStatus [at_height 1]) ∧ shStatus [at_height 1] ≠ shStatus [at_height 2] ∧ shStatus [] = None.
Proof.
  destruct shStatus_tells_histories as [H1 H2]. split; [|split].
  - apply not_eq_None_Some. intros Hn. by apply H1 in Hn.
  - intros E. apply H2 in E as [E|[_ E]]; [discriminate E|].
    assert (bool_decide (Sha256.Sum256 ([at_height 1] ≫= status_entry) =
                         Sha256.Sum256 ([at_height 2] ≫= status_entry)) = false) as Hc
      by (vm_compute; reflexivity).
    exact (bool_decide_eq_false_1 _ Hc E).
  - by apply H1.
Defined.

(** ** Merkle proofs *)

(** The answer to [blockchain.transaction.get_merkle] verifies: for a
    transaction recorded from a block, [GetTransactionMerkle] answers with its
    position and a branch that [checkMerkleProof] accepts against the Merkle
    root of the block. *)
Theorem GetTransactionMerkle_verifies b pos tx row w :
  blobs_ok (r_db (repo w)) →
  t_tx (r_db (repo w)) !! Txid tx = Some row → recorded b pos tx row →
  ∃ md, GetTransactionMerkle (Txid tx) w = (Ok md, w) ∧
    md_Pos md = pos ∧
    checkMerkleProof (Txid tx) (md_Pos md) (merkle_root (TXIDs b)) (md_Merkle md) = true.
Proof.
  intros Hb Hrow [Hbh Hpos _ _ (branch & Hm & Hf & Hck & _)].
  exists {| md_Merkle := branch; md_Pos := pos |}. split; [|done].
  unfold GetTransactionMerkle, selectTransactionFromTxid. rewrite bind_run, on_repo_query, Hrow.
  unfold scan_blob. rewrite bool_decide_eq_true_2 by apply (blobs_tx _ Hb _ _ Hrow).
  run_outcome. cbn [td_MerkleProof]. rewrite Hm, bind_run. unfold lift_outcome.
  rewrite split_branch_join by done. by rewrite <- Hpos.
Qed.

Lemma paid_recorded : recorded block1 0 pay1 paid_tx_row.
Proof.
  split; try reflexivity. exists []. split_and!; [reflexivity|constructor| |reflexivity].
  vm_compute. reflexivity.
Qed.

Lemma GetTransactionMerkle_verifies_witness :
  ∃ md, GetTransactionMerkle (Txid pay1) w_balance = (Ok md, w_balance) ∧ md_Pos md = 0.
Proof.
  destruct (GetTransactionMerkle_verifies block1 0 pay1 paid_tx_row w_balance) as (md & H1 & H2 & _).
  - exact paid_blobs_ok.
  - apply lookup_singleton_eq.
  - exact paid_recorded.
  - exists md. exact (conj H1 H2).
Defined.
