(* ===== verification/ElectrumTheorems.v ===== *)
(** * ElectrumTheorems: what clients are answered

    From the bytes of a request to the bytes of its result, through the decoding
    of the parameters, the wallet manager and the tables. *)

From S2P Require Import Prelude Bytes Json JsonFacts Sha256 Merkle BitcoinTypes Deserialize ScriptPubkey.
From S2P Require Import Database Repository RepositoryFacts Ledger Chain Wallet Scan Genesis Sync.
From S2P Require Import HeaderSync Queries Subscriptions Electrum ElectrumFacts Examples BlockScan.
From S2P Require Import ScanExamples QueryTheorems.
From Stdlib Require Import Strings.Byte.

(** ** Requests of a client *)

Definition request (name : string) (params : list bytes) : Ctx := {|
  ConnId := 7;
  ctx_Request := {| rq_JsonRPC := quote (str "2.0"); rq_Id := str "1";
                    rq_Method := quote (str name); rq_Params := json_array params |} |}.

Lemma request_asks name params : Forall scalar params → asks (request name params) name params.
Proof. by split. Qed.

Ltac scalars := repeat (apply Forall_cons; split; [auto with scalar|]); by apply Forall_nil.

(** ** Headers *)

(** The error of a mistyped parameter is not looked at: the parameter is 0. *)
Lemma blockHeaders_run `{BitcoinClient} ctx p0 p1 w :
  asks ctx "blockchain.block.headers" [p0; p1] →
  OnRequest ctx w =
    (headers ← GetBlockHeaders (stored 0 (decode_int p0)) (stored 0 (decode_int p1) `min` max_headers);
     mret (headersResult headers)) w.
Proof.
  intros Ha. rewrite (OnRequest_method ctx _ _ blockHeadersHandler w Ha) by (reflexivity || by apply str_plain).
  destruct Ha as [_ Hp Hs]. unfold blockHeadersHandler. rewrite Hp. unfold UnmarshalSlice.
  by rewrite array_valid, array_elements_array.
Qed.

(** On Testnet a client that asks for the header of the genesis block, which the
    program does not have, stops the server. *)
Lemma genesis_request_panics `{BitcoinClient} ctx count w :
  asks ctx "blockchain.block.headers" [decimal 0; decimal count] → net w = Testnet →
  OnRequest ctx w = (Panic "slice bounds out of range", w).
Proof.
  intros Ha Hn. rewrite (blockHeaders_run _ _ _ _ Ha), (decode_decimal 0) by lia.
  unfold GetBlockHeaders, selectRawBlockHeadersByHeight. rewrite bind_run, on_repo_query.
  cbn [stored Z.eqb]. by rewrite !bind_run, genesis_header_Testnet.
Qed.

(** C22: when the header table is one chain, the answer to
    [blockchain.block.headers] with a start and a count that are not negative is
    the slice of the chain from the genesis block: the
    headers of heights [start], [start+1], ..., at most [count] and at most 2016
    of them, in hexadecimal, with how many there are.  On Testnet, whose genesis
    block the program does not have, that holds from a start of 1 on, and a
    request with a start of 0 panics. *)
Theorem headers_reply `{BitcoinClient} rows start count ctx w :
  asks ctx "blockchain.block.headers" [decimal start; decimal count] →
  chain_ok (genesis_hash w) (r_db (repo w)) rows →
  0 ≤ start < 2 ^ 63 → 0 ≤ count < 2 ^ 63 →
  OnRequest ctx w =
    (if decide (net w = Testnet ∧ start = 0) then Panic "slice bounds out of range"
     else Ok (headersResult (take (Z.to_nat (count `min` 2016)) (drop (Z.to_nat start) (header_list w rows)))),
     w).
Proof.
  intros Ha Hc Hs Hl. case_decide as Hn.
  { destruct Hn as [Hn ->]. by apply (genesis_request_panics _ count). }
  rewrite (blockHeaders_run _ _ _ _ Ha), !decode_decimal by lia. cbn [stored].
  by rewrite (bind_Ok_1 _ _ _ _ _ (GetBlockHeaders_slice rows start (count `min` max_headers) w Hc
    ltac:(intros ? ?; by apply Hn) ltac:(lia) ltac:(unfold max_headers; lia))).
Qed.

Lemma headers_reply_witness :
  OnRequest (request "blockchain.block.headers" [decimal 0; decimal 2]) w_headers =
    (Ok (headersResult (take 2 (header_list w_headers headers12))), w_headers).
Proof.
  apply (headers_reply headers12 0 2 (request "blockchain.block.headers" [decimal 0; decimal 2]) w_headers).
  - apply request_asks. scalars.
  - exact paid_chain.
  - lia.
  - lia.
Defined.

(** A negative count is no limit: [blockchain.block.headers] from a height
    above the genesis block then answers with every header from that height to
    the tip, past the maximum of 2016 that the answer itself states. *)
Theorem headers_reply_negative_count `{BitcoinClient} rows start count ctx w :
  asks ctx "blockchain.block.headers" [decimal start; decimal count] →
  chain_ok (genesis_hash w) (r_db (repo w)) rows → 1 ≤ start < 2 ^ 63 → - 2 ^ 63 ≤ count < 0 →
  OnRequest ctx w = (Ok (headersResult (drop (Z.to_nat start) (header_list w rows))), w).
Proof.
  intros Ha Hc Hs Hl. rewrite (blockHeaders_run _ _ _ _ Ha), !decode_decimal by lia. cbn [stored].
  by rewrite (bind_Ok_1 _ _ _ _ _ (GetBlockHeaders_negative_limit rows start (count `min` max_headers) w Hc
    ltac:(lia) ltac:(lia))).
Qed.

Lemma headers_reply_negative_count_witness :
  OnRequest (request "blockchain.block.headers" [decimal 1; decimal (-1)]) w_headers =
    (Ok (headersResult (drop 1 (header_list w_headers headers12))), w_headers).
Proof.
  apply (headers_reply_negative_count headers12 1 (-1)
    (request "blockchain.block.headers" [decimal 1; decimal (-1)]) w_headers).
  - apply request_asks. scalars.
  - exact paid_chain.
  - lia.
  - lia.
Defined.

(** A parameter of [blockchain.block.headers] that is no number is taken for
    0: a request for the headers from a string is answered, without an error, as
    the request for the headers from the genesis block. *)
Theorem headers_reply_mistyped `{BitcoinClient} text count ctx ctx' w :
  asks ctx "blockchain.block.headers" [hexString text; decimal count] →
  asks ctx' "blockchain.block.headers" [decimal 0; decimal count] →
  OnRequest ctx w = OnRequest ctx' w.
Proof.
  intros Ha Ha'. rewrite (blockHeaders_run _ _ _ _ Ha), (blockHeaders_run _ _ _ _ Ha').
  rewrite (decode_decimal 0) by lia. reflexivity.
Qed.

Lemma headers_reply_mistyped_witness :
  OnRequest (request "blockchain.block.headers" [hexString []; decimal 2]) w_headers =
  OnRequest (request "blockchain.block.headers" [decimal 0; decimal 2]) w_headers.
Proof.
  apply (headers_reply_mistyped [] 2); apply request_asks; scalars.
Defined.

(** ** Script hashes *)

Lemma OnRequest_balance `{BitcoinClient} ctx sh w :
  asks ctx "blockchain.scripthash.get_balance" [hashString sh] → Sha256.hash32 sh →
  OnRequest ctx w =
    ('(conf, unconf) ← GetScriptHashBalance sh;
     mret (json_object [member "confirmed" (decimal conf); member "unconfirmed" (decimal unconf)])) w.
Proof.
  intros Ha Hl. rewrite (OnRequest_method ctx _ _ scriptHashGetBalanceHandler w Ha)
    by (reflexivity || by apply str_plain).
  unfold scriptHashGetBalanceHandler. by rewrite (bind_Ok_1 _ _ _ _ _ (parseScriptHash_run _ _ _ _ w Ha eq_refl Hl)).
Qed.

(** C23: the answer to [blockchain.scripthash.get_balance] for a script of a
    wallet is the sum, modulo 2^64, of the amounts that the index of unspent
    outputs in memory has for it, and an unconfirmed balance of 0; for any other
    script both are 0.  When that index holds the rows of its table
    ([index_sync]; it does not after a block that has failed half way), the sum
    is that of the rows of the script in the table of unspent outputs. *)
Theorem balance_reply `{BitcoinClient} ctx sh w :
  asks ctx "blockchain.scripthash.get_balance" [hashString sh] → Sha256.hash32 sh →
  let reply sum :=
    (Ok (json_object [member "confirmed" (decimal (if decide (is_Some (scriptPubkeys w !! sh))
                                                   then uint64_wrap sum else 0));
                      member "unconfirmed" (decimal 0)]), w) in
  OnRequest ctx w = reply (index_sum (utxoIndex (repo w)) sh) ∧
  (index_sync (repo w) → OnRequest ctx w = reply (satoshi_sum (unspent_of (r_db (repo w)) sh))).
Proof.
  intros Ha Hl reply.
  assert (OnRequest ctx w = reply (index_sum (utxoIndex (repo w)) sh)) as Hr.
  { rewrite (OnRequest_balance _ _ _ Ha Hl). unfold GetScriptHashBalance, reply.
    rewrite bind_assoc, (bind_Ok_1 (gets _) _ w (scriptPubkeys w !! sh) w) by done.
    destruct (scriptPubkeys w !! sh) as [info|] eqn:E.
    - rewrite decide_True by (by eexists). rewrite bind_assoc.
      by rewrite (bind_Ok_1 _ _ _ _ _ (on_repo_read _ w _ (selectScriptHashBalance_index sh (repo w)))).
    - rewrite decide_False; [by rewrite bind_run|]. by intros [? ?]. }
  split; [done|]. intros Hs. by rewrite Hr, Hs, index_sum_table.
Qed.

Lemma balance_reply_witness :
  OnRequest (request "blockchain.scripthash.get_balance" [hashString paid_script_hash]) w_balance =
    (Ok (json_object [member "confirmed" (decimal 50); member "unconfirmed" (decimal 0)]), w_balance).
Proof.
  destruct (balance_reply (request "blockchain.scripthash.get_balance" [hashString paid_script_hash])
    paid_script_hash w_balance) as [_ Hr].
  - apply request_asks. scalars.
  - reflexivity.
  - rewrite Hr by reflexivity. rewrite decide_True.
    + change (r_db (repo w_balance)) with paid_db. rewrite paid_sum. reflexivity.
    + exists {| walletIdx := 0; account := receiveAccount; pubkeyIdx := 0 |}. apply lookup_singleton_eq.
Defined.

(** ** Transactions *)

Lemma OnRequest_get_merkle `{BitcoinClient} ctx txid height w :
  asks ctx "blockchain.transaction.get_merkle" [hashString txid; decimal height] →
  Sha256.hash32 txid → - 2 ^ 63 ≤ height < 2 ^ 63 →
  OnRequest ctx w =
    (merkle ← drop_err {| md_Merkle := []; md_Pos := 0 |} (GetTransactionMerkle txid);
     mret (merkleResult height merkle)) w.
Proof.
  intros Ha Hl Hh. rewrite (OnRequest_method ctx _ _ transactionGetMerkleHandler w Ha)
    by (reflexivity || by apply str_plain).
  destruct Ha as [_ Hp Hs]. unfold transactionGetMerkleHandler. rewrite Hp.
  assert (length (hashString txid) = 66)%nat as Hlen.
  { unfold hashString. rewrite length_hexString, length_reverse. unfold Sha256.hash32 in Hl. lia. }
  rewrite UnmarshalSlice_array by done. cbn [fmap list_fmap]. unfold compose, decode_raw. cbn [stored].
  rewrite bind_run. cbn [check_err mret M_ret]. rewrite Hlen, bool_decide_eq_false_2 by (by intros ?).
  rewrite Unmarshal_scalar by auto with scalar. unfold hashString at 1 2. rewrite decode_hexString.
  cbn [stored mismatch type_error]. rewrite bind_run. cbn [check_err mret M_ret].
  rewrite Unmarshal_scalar, decode_decimal by auto with scalar.
  cbn [stored mismatch type_error]. rewrite bind_run. cbn [check_err mret M_ret].
  rewrite bind_run. unfold lift_outcome. rewrite hexDecode_hexEncode, reverse_involutive.
  by rewrite copy_into_full.
Qed.

(** C24: the answer to [blockchain.transaction.get_merkle] verifies: for a
    transaction that was recorded from a block, the answer is the height of the
    request, the position of the transaction in the block, and a branch that
    [checkMerkleProof] accepts against the Merkle root of the block. *)
Theorem get_merkle_reply `{BitcoinClient} b pos tx row height ctx w :
  asks ctx "blockchain.transaction.get_merkle" [hashString (Txid tx); decimal height] →
  - 2 ^ 63 ≤ height < 2 ^ 63 → blobs_ok (r_db (repo w)) →
  t_tx (r_db (repo w)) !! Txid tx = Some row → recorded b pos tx row →
  ∃ branch, OnRequest ctx w =
      (Ok (merkleResult height {| md_Merkle := branch; md_Pos := pos |}), w) ∧
    checkMerkleProof (Txid tx) pos (merkle_root (TXIDs b)) branch = true.
Proof.
  intros Ha Hh Hb Hrow Hrec.
  destruct (GetTransactionMerkle_verifies b pos tx row w Hb Hrow Hrec) as ([branch p] & Hg & <- & Hck).
  exists branch. split; [|done].
  rewrite (OnRequest_get_merkle _ _ _ _ Ha) by (done || apply (blobs_tx _ Hb _ _ Hrow)).
  rewrite bind_run. unfold drop_err. by rewrite Hg.
Qed.

Lemma get_merkle_reply_witness :
  ∃ branch, OnRequest (request "blockchain.transaction.get_merkle" [hashString (Txid pay1); decimal 1]) w_balance =
    (Ok (merkleResult 1 {| md_Merkle := branch; md_Pos := 0 |}), w_balance).
Proof.
  destruct (get_merkle_reply block1 0 pay1 paid_tx_row 1
    (request "blockchain.transaction.get_merkle" [hashString (Txid pay1); decimal 1]) w_balance)
    as (branch & Hr & _).
  - apply request_asks. scalars.
  - lia.
  - exact paid_blobs_ok.
  - apply lookup_singleton_eq.
  - exact paid_recorded.
  - exists branch. exact Hr.
Defined.

(** For a transaction that is not in the tables,
    [blockchain.transaction.get_merkle] answers with no error: the proof is an
    empty branch at position 0, the proof that the transaction is alone in its
    block. *)
Theorem get_merkle_unknown `{BitcoinClient} txid height ctx w :
  asks ctx "blockchain.transaction.get_merkle" [hashString txid; decimal height] →
  Sha256.hash32 txid → - 2 ^ 63 ≤ height < 2 ^ 63 → t_tx (r_db (repo w)) !! txid = None →
  OnRequest ctx w = (Ok (merkleResult height {| md_Merkle := []; md_Pos := 0 |}), w) ∧
    checkMerkleProof txid 0 txid [] = true.
Proof.
  intros Ha Hl Hh Hn. split.
  - rewrite (OnRequest_get_merkle _ _ _ _ Ha Hl Hh), bind_run.
    unfold drop_err, GetTransactionMerkle, selectTransactionFromTxid.
    by rewrite bind_run, on_repo_query, Hn.
  - unfold checkMerkleProof. by rewrite bool_decide_eq_true_2.
Qed.

Lemma get_merkle_unknown_witness :
  (OnRequest (request "blockchain.transaction.get_merkle" [hashString (zeroes 32); decimal 5]) w_empty).1 =
    Ok (merkleResult 5 {| md_Merkle := []; md_Pos := 0 |}).
Proof.
  destruct (get_merkle_unknown (zeroes 32) 5
    (request "blockchain.transaction.get_merkle" [hashString (zeroes 32); decimal 5]) w_empty) as [-> _].
  - apply request_asks. scalars.
  - reflexivity.
  - lia.
  - apply lookup_empty.
  - reflexivity.
Defined.

(** ** Broadcast *)

Lemma OnRequest_broadcast `{BitcoinClient} ctx rawTx w :
  asks ctx "blockchain.transaction.broadcast" [hexString rawTx] →
  OnRequest ctx w = (txid ← BroadcastTX rawTx; mret (hashString txid)) w.
Proof.
  intros Ha. rewrite (OnRequest_method ctx _ _ transactionBroadcastHandler w Ha)
    by (reflexivity || by apply str_plain).
  destruct Ha as [_ Hp Hs]. unfold transactionBroadcastHandler. rewrite Hp.
  rewrite UnmarshalSlice_array; [|done|cbn [existsb]; unfold compose; by rewrite decode_hexString].
  cbn [fmap list_fmap]. unfold compose. rewrite decode_hexString. cbn [stored].
  rewrite bind_run. cbn [check_err mret M_ret]. rewrite bind_run. unfold lift_outcome.
  by rewrite hexDecode_hexEncode.
Qed.

(** C25: [blockchain.transaction.broadcast] of a well-formed transaction gives
    the node exactly the bytes of the transaction, once, and answers with the id
    that [Txid] computes for it, or with the error of the node. *)
Theorem broadcast_reply `{BitcoinClient} tx ctx w :
  asks ctx "blockchain.transaction.broadcast" [hexString (Transaction_Serialize tx)] →
  transaction_ok tx →
  OnRequest ctx w =
    (match BroadcastWTX (calls w) (Transaction_Serialize tx) with
     | Ok _ => Ok (hashString (Txid tx))
     | Err e => Err e
     | Panic why => Panic why
     | OutOfFuel => OutOfFuel
     end, tick w).
Proof.
  intros Ha Ht. rewrite (OnRequest_broadcast _ _ _ Ha). unfold BroadcastTX.
  pose proof (decode_encode tx Ht []) as Hd. rewrite app_nil_r in Hd. cbn [decode encode Transaction_Wire] in Hd.
  rewrite bind_assoc, bind_run. unfold lift_outcome. rewrite Hd. cbn [fst].
  rewrite bind_run. unfold call_node. rewrite bind_run.
  by destruct (BroadcastWTX (calls w) (Transaction_Serialize tx)).
Qed.

Lemma pay1_ok : transaction_ok pay1.
Proof.
  assert (length (script_at receiveAccount 0) = 22)%nat as Hl by (vm_compute; reflexivity).
  unfold transaction_ok, pay1, coinbase.
  cbn [tx_Version Marker Flag Inputs Outputs tx_Witness Locktime length].
  split_and!; try reflexivity; try lia.
  - apply Forall_cons. split; [|by apply Forall_nil]. unfold input_ok.
    cbn [in_Txid in_Vout ScriptSig Sequence length]. split_and!; try reflexivity; lia.
  - apply Forall_cons. split; [|by apply Forall_nil]. unfold output_ok.
    cbn [Amount ScriptPubkey]. rewrite Hl. split_and!; lia.
  - by apply Forall_nil.
  - right. by split_and!.
Qed.

Lemma broadcast_reply_witness :
  (OnRequest (request "blockchain.transaction.broadcast" [hexString (Transaction_Serialize pay1)]) w_empty).1 =
    Ok (hashString (Txid pay1)).
Proof.
  rewrite (broadcast_reply pay1
    (request "blockchain.transaction.broadcast" [hexString (Transaction_Serialize pay1)]) w_empty).
  - reflexivity.
  - apply request_asks. scalars.
  - exact pay1_ok.
Defined.

(** Thirteen bytes: a version, and a count of 2^48 inputs. *)
Definition huge_count : bytes := unhex "01000000ff0000000000000100".

(** A client can stop the server: [Deserialize] allocates as many inputs as
    the bytes of a client say before it reads one, so that thirteen bytes make
    [blockchain.transaction.broadcast] panic, and nothing recovers. *)
Theorem broadcast_panics `{BitcoinClient} ctx w :
  asks ctx "blockchain.transaction.broadcast" [hexString huge_count] →
  OnRequest ctx w = (Panic "makeslice: len out of range", w).
Proof.
  intros Ha. rewrite (OnRequest_broadcast _ _ _ Ha). unfold BroadcastTX.
  assert ((Transaction_Deserialize huge_count).1 = Panic "makeslice: len out of range") as Hd
    by (vm_compute; reflexivity).
  rewrite bind_assoc, bind_run. unfold lift_outcome. by rewrite Hd.
Qed.

Lemma broadcast_panics_witness :
  OnRequest (request "blockchain.transaction.broadcast" [hexString huge_count]) w_empty =
    (Panic "makeslice: len out of range", w_empty).
Proof. apply broadcast_panics. apply request_asks. scalars. Defined.

(** ** The wire format *)

(** C26: [Deserialize] gets back what [Serialize] wrote, whatever follows it, for
    transactions and for blocks such as [Deserialize] leaves them: fields in
    their widths, and one witness per input when the flag is set and none
    otherwise ([transaction_ok], [block_wire_ok]). *)
Theorem Deserialize_Serialize :
  (∀ tx rest, transaction_ok tx →
     Transaction_Deserialize (Transaction_Serialize tx ++ rest) = (Ok tx, rest)) ∧
  (∀ b rest, block_wire_ok b → Block_Deserialize (Block_Serialize b ++ rest) = (Ok b, rest)).
Proof. split; intros x rest Hx; exact (decode_encode x Hx rest). Qed.

Lemma Deserialize_Serialize_witness :
  Transaction_Deserialize (Transaction_Serialize pay1 ++ [z2b 7]) = (Ok pay1, [z2b 7]).
Proof. destruct Deserialize_Serialize as [H _]. apply H. exact pay1_ok. Defined.

(** C27: on any bytes at all [Deserialize] of a transaction or a block ends; it
    panics only when it allocates a slice that no memory holds, and it never
    takes more bytes than there are. *)
Theorem Deserialize_total data :
  (Transaction_Deserialize data).1 ≠ OutOfFuel ∧ (Block_Deserialize data).1 ≠ OutOfFuel ∧
  (∀ why, (Transaction_Deserialize data).1 = Panic why ∨ (Block_Deserialize data).1 = Panic why →
     why = "makeslice: len out of range"%string) ∧
  (∀ tx rest, Transaction_Deserialize data = (Ok tx, rest) → (length rest < length data)%nat) ∧
  (∀ b rest, Block_Deserialize data = (Ok b, rest) → (length rest ≤ length data)%nat).
Proof.
  pose proof Transaction_Deserialize_reads as [? ? ?]. pose proof Block_Deserialize_reads as [? ? ?].
  split_and!; eauto.
  - intros why [?|?]; eauto.
  - apply Transaction_Deserialize_consumes.
Qed.

(** ** Safety of a request *)

(** No request, whatever its bytes, changes the tables, the index of unspent
    outputs, the wallets, or what has been sent to subscribers; it ends, its
    result is valid JSON, and it panics only as [request_panic] says. *)
Theorem OnRequest_safe `{BitcoinClient} ctx w :
  serving w → (∀ n raw, safe (BroadcastWTX n raw)) →
  same_ledger w (OnRequest ctx w).2 ∧
  match (OnRequest ctx w).1 with
  | Ok result => checkValid result = true
  | Err _ => True
  | Panic why => request_panic (net w) why
  | OutOfFuel => False
  end.
Proof.
  intros Hw Hb. destruct (answers_OnRequest ctx Hb w Hw) as [Hs Ho]. split; [apply Hs|].
  destruct (OnRequest ctx w).1; [by apply json_valid|done|exact Ho|done].
Qed.

Lemma paid_proofs : proofs_ok paid_db.
Proof.
  intros txid row Hr. change (({[ Txid pay1 := paid_tx_row ]} : gmap bytes txRow) !! txid = Some row) in Hr.
  apply lookup_singleton_Some in Hr as [_ <-]. exists []. split; [by constructor|reflexivity].
Qed.

Lemma OnRequest_safe_witness :
  same_ledger w_balance (OnRequest (request "server.ping" []) w_balance).2.
Proof.
  destruct (OnRequest_safe (request "server.ping" []) w_balance) as [Hs _].
  - exact paid_proofs.
  - intros n raw. exact I.
  - exact Hs.
Defined.
