(* ===== verification/SystemTheorems.v ===== *)
(** * SystemTheorems: clients and synchronisation together *)

From S2P Require Import Prelude Bytes Json JsonFacts Sha256 BitcoinTypes ScriptPubkey.
From S2P Require Import Database Repository RepositoryFacts Chain Wallet Genesis Sync HeaderSync Queries Rounds.
From S2P Require Import Subscriptions Electrum ElectrumFacts System Examples BlockScan ScanExamples.
From S2P Require Import QueryTheorems ElectrumTheorems.

(** ** Safety *)

(** C11: from a server that nobody is connected or subscribed to, on tables
    whose Merkle proofs are lists of 32-byte hashes, and with a client of the
    node that does not panic when it broadcasts, whatever the clients ask, under
    whatever ids, and whatever the node replies: in every state the system
    gets to, any further request, of any bytes, ends, leaves the ledger as it is,
    subscribes no connection id but its own, and answers with an error or with
    valid JSON.  It panics with one of two messages only: that of a slice that no
    memory holds, which [Deserialize] allocates for a count of inputs, outputs or
    witnesses that a client makes up, and on Testnet that of slicing the header
    of the genesis block, which the program does not have. *)
Theorem reachable_requests_safe `{Bip32} `{BitcoinClient} s0 s ctx :
  (∀ n raw, safe (BroadcastWTX n raw)) →
  proofs_ok (r_db (repo (sy_w s0))) → hSubs (sy_w s0) = ∅ → shSubs (sy_w s0) = ∅ → sy_conns s0 = [] →
  rtc sys_step s0 s →
  own_change (ConnId ctx) (sy_w s) (OnRequest ctx (sy_w s)).2 ∧
  match (OnRequest ctx (sy_w s)).1 with
  | Ok result => checkValid result = true
  | Err _ => True
  | Panic why => why = "makeslice: len out of range"%string ∨
                 (net (sy_w s) = Testnet ∧ why = "slice bounds out of range"%string)
  | OutOfFuel => False
  end.
Proof.
  intros Hb Hp Hh Hs Hc Hr.
  destruct (reachable_inv Hb s (ex_intro _ s0 (conj (Build_sys_init s0 Hp Hh Hs Hc) Hr))) as [Hw _ _].
  destruct (answers_OnRequest ctx Hb _ Hw) as [Hs' Ho]. split; [done|].
  destruct (OnRequest ctx (sy_w s)).1; [by apply json_valid|done|exact Ho|done].
Qed.

(** The system on the headers of two blocks. *)
Definition s_tip2 : system := {| sy_w := w_headers; sy_conns := []; sy_running := true; sy_log := [] |}.

Lemma s_tip2_init : sys_init s_tip2.
Proof. split; [exact paid_proofs|reflexivity..]. Qed.

Lemma reachable_requests_safe_witness :
  match (OnRequest (request "server.ping" []) (sy_w (connect 7 s_tip2))).1 with
  | OutOfFuel => False
  | _ => True
  end.
Proof.
  destruct (reachable_requests_safe s_tip2 (connect 7 s_tip2) (request "server.ping" [])) as [_ Ho].
  - intros n raw. exact I.
  - exact paid_proofs.
  - reflexivity.
  - reflexivity.
  - reflexivity.
  - apply rtc_once, step_connect.
  - revert Ho. destruct (OnRequest (request "server.ping" []) (sy_w (connect 7 s_tip2))).1;
      intros Ho; (exact I || exact Ho).
Defined.

(** ** Connections that are gone *)

(** C13: after [OnDisconnect] a connection is sent nothing, for ever: in any
    execution that goes on from a reachable state where every connection with
    the id has been disconnected, through rounds of [run], requests and
    subscriptions of the other connections, no result and no notification is
    addressed to the id, provided that no new connection is given the id, as the
    server can ([connections_share_id]).  A reachable state is one that the
    system gets to from tables whose Merkle proofs are lists of hashes, before
    anybody has connected or subscribed, with a client of the node that does not
    panic when it broadcasts. *)
Theorem gone_is_silent `{Bip32} `{BitcoinClient} id s s' :
  (∀ n raw, safe (BroadcastWTX n raw)) → reachable s →
  (∀ k c, sy_conns s !! k = Some (id, c) → c = Gone) →
  rtc sys_step s s' → id ∉ drop (length (sy_conns s)) (sy_conns s').*1 →
  (∀ k c, sy_conns s' !! k = Some (id, c) → c = Gone) ∧
  ∃ l, sy_log s' = sy_log s ++ l ∧ Forall (λ m, addressee m ≠ id) l.
Proof.
  intros Hb Hr Hg Hs. apply (reachable_inv Hb) in Hr.
  induction Hs as [s|s1 s2 s3 H1 Hs IH]; intros Hnew.
  - split; [done|]. exists []. by rewrite app_nil_r.
  - pose proof (ids_steps _ _ Hs) as Hp.
    destruct (new_step _ _ _ _ H1 Hp Hnew) as [Hne Hnew'].
    destruct (absent_step Hb id s1 s2 Hr Hg H1 Hne) as (Hg2 & l1 & E1 & F1).
    destruct (IH (inv_step Hb _ _ Hr H1) Hg2 Hnew') as (Hg3 & l2 & E2 & F2). split; [done|].
    exists (l1 ++ l2). rewrite E2, E1, (assoc_L (++)). split; [done|]. by apply Forall_app.
Qed.

(** Connected and disconnected at once. *)
Definition s_left : system :=
  set_conn 0 7 Gone (after (connect 7 s_tip2) (OnDisconnect 7 w_headers).2 true).

Lemma s_left_reachable : reachable s_left.
Proof.
  exists s_tip2. split; [exact s_tip2_init|].
  eapply rtc_l; [apply (step_connect s_tip2 7)|]. apply rtc_once.
  apply step_disconnect; [left; reflexivity|]. unfold OnDisconnect. by rewrite UnsubscribeAll_run.
Qed.

Lemma gone_is_silent_witness :
  sy_conns (connect 8 s_left) = [(7, Gone); (8, Idle)] ∧
  ∃ l, sy_log (connect 8 s_left) = sy_log s_left ++ l ∧ Forall (λ m, addressee m ≠ 7) l.
Proof.
  split; [reflexivity|]. apply (gone_is_silent 7 s_left (connect 8 s_left)).
  - intros n raw. exact I.
  - exact s_left_reachable.
  - intros [|k] c Hk; [by injection Hk as <-|discriminate Hk].
  - apply rtc_once, step_connect.
  - cbn. rewrite list_elem_of_singleton. discriminate.
Defined.

(** Of two connections with one id, the one that leaves takes the subscriptions
    of the other away: that one is still served, and is notified no more. *)
Theorem shared_id_unsubscribes `{Bip32} `{BitcoinClient} id j k s :
  sy_conns s !! j = Some (id, Idle) → sy_conns s !! k = Some (id, Idle) → j ≠ k →
  ∃ s', sys_step s s' ∧ sy_conns s' !! k = Some (id, Idle) ∧ unsubscribed id (sy_w s').
Proof.
  intros Hj Hk Hne. exists (set_conn j id Gone (after s (OnDisconnect id (sy_w s)).2 (sy_running s))).
  split; [|split].
  - apply step_disconnect; [by left|]. unfold OnDisconnect. by rewrite UnsubscribeAll_run.
  - cbn [sy_conns set_conn after]. by rewrite list_lookup_insert_ne.
  - apply unsubscribed_after.
Qed.

(** ** The gap between reading and registering *)

(** C33: [headersSubscribeHandler] and [scriptHashSubscribeHandler] read the tip
    or the status in one critical section and register in another.  A round of
    [run] in between is lost to the client: it is sent nothing of the round, and
    then gets the tip or the status from before the round, while the tables and
    its subscription are those after it. *)
Theorem subscribe_loses_round `{Bip32} `{BitcoinClient} s k ctx p fuel w' :
  sys_inv s → sy_running s = true → sy_conns s !! k = Some (ConnId ctx, Subscribing ctx p) →
  unsubscribed (ConnId ctx) (sy_w s) → syncRound fuel (sy_w s) = (Ok tt, w') →
  ∃ s' lost result,
    rtc sys_step s s' ∧ sy_log s' = sy_log s ++ lost ++ [Result (ConnId ctx) result] ∧
    Forall (λ m, addressee m ≠ ConnId ctx) lost ∧
    (second_call ctx p (sy_w s)).1 = Ok result ∧
    repo (sy_w s') = repo w' ∧ sy_conns s' !! k = Some (ConnId ctx, Idle) ∧
    ¬ unsubscribed (ConnId ctx) (sy_w s').
Proof.
  intros Hi Hrun Hc Hu Hr. set (id := ConnId ctx) in *.
  destruct (second_call ctx p w') as [o w2] eqn:E2.
  assert (∃ result, o = Ok result ∧ (second_call ctx p (sy_w s)).1 = Ok result ∧ repo w2 = repo w' ∧
    events w2 = events w' ∧ ¬ unsubscribed id w2) as (result & -> & H1 & H2 & H3 & H4).
  { destruct p as [h raw|sh status]; injection E2 as <- <-; eexists; split_and!; try reflexivity.
    - intros [Hn _]. cbn [hSubs upd_hSubs] in Hn. by rewrite lookup_insert_eq in Hn.
    - intros [_ Hn]. cbn [shSubs upd_shSubs] in Hn.
      specialize (Hn sh _ (lookup_insert_eq _ _ _)). by rewrite lookup_insert_eq in Hn. }
  eexists _, (called (sy_w s) w'), result. split; [|split; [|split; [|split; [exact H1|]]]].
  - eapply rtc_l; [by apply (step_round s fuel w')|]. apply rtc_once.
    by apply (step_subscribes _ k ctx p).
  - cbn [sy_log send set_conn after sy_w]. rewrite (called_same w' w2) by done.
    by rewrite app_nil_r, <- (assoc_L (++)).
  - eapply called_round; [|exact Hr]. split; [apply Hi|done].
  - cbn [sy_w sy_conns send set_conn after]. split; [done|]. split; [|done].
    apply list_lookup_insert_eq. by eapply lookup_lt_Some.
Qed.

(** A connection that has read the tip of two blocks and not registered yet. *)
Definition subscribe_request : Ctx := request "blockchain.headers.subscribe" [].
Definition tip2 : pending :=
  PendingHeaders 2 (bh_serialized (header_row 2 (header_of block2)).2).

Lemma tip2_read : first_call subscribe_request w_headers = (Ok (inr tip2), w_headers).
Proof.
  assert (GetTipHeader w_headers = (Ok (2, bh_serialized (header_row 2 (header_of block2)).2), w_headers)) as Hg.
  { unfold GetTipHeader, selectLastBlockHeaderHeightAndRaw. rewrite on_repo_query. reflexivity. }
  destruct (request_asks "blockchain.headers.subscribe" [] (Forall_nil_2 _)) as [Hm _ _].
  unfold subscribe_request, first_call. rewrite Hm.
  rewrite Unmarshal_scalar by (by apply scalar_quote, str_plain). rewrite decode_quote by by apply str_plain.
  cbn [stored mismatch type_error]. rewrite bind_run. cbn [check_err mret M_ret].
  rewrite bool_decide_eq_true_2 by reflexivity. by rewrite (bind_Ok_1 _ _ _ _ _ Hg).
Qed.

Definition s_subscribing : system :=
  set_conn 0 7 (Subscribing subscribe_request tip2) (after (connect 7 s_tip2) w_headers true).

Lemma s_subscribing_reachable : reachable s_subscribing.
Proof.
  exists s_tip2. split; [exact s_tip2_init|].
  eapply rtc_l; [apply (step_connect s_tip2 7)|]. apply rtc_once.
  apply (step_request_reads _ 0 subscribe_request); [reflexivity|exact tip2_read].
Qed.

Lemma subscribe_loses_round_witness :
  ∃ s' lost result, rtc sys_step s_subscribing s' ∧
    sy_log s' = lost ++ [Result 7 result] ∧ Forall (λ m, addressee m ≠ 7) lost ∧
    length (header_rows (r_db (repo (sy_w s')))) = 3%nat.
Proof.
  destruct (syncRound 4 w_headers) as [o w'] eqn:E.
  assert (o = Ok tt) as ->.
  { change o with (o, w').1. rewrite <- E. vm_compute. reflexivity. }
  destruct (subscribe_loses_round s_subscribing 0 subscribe_request tip2 4 w')
    as (s' & lost & result & H1 & H2 & H3 & _ & H5 & _).
  - apply reachable_inv; [intros n raw; exact I|exact s_subscribing_reachable].
  - reflexivity.
  - reflexivity.
  - split; [apply lookup_empty|]. intros sh m Hm. cbn in Hm. rewrite lookup_empty in Hm. discriminate Hm.
  - exact E.
  - exists s', lost, result. split; [exact H1|]. split; [exact H2|]. split; [exact H3|].
    rewrite H5. change w' with (Ok tt, w').2. rewrite <- E. vm_compute. reflexivity.
Defined.
