(* ===== verification/ServerTheorems.v ===== *)
(** * ServerTheorems: what a connection promises, and where it hangs *)

From S2P Require Import Prelude Bytes Electrum Server ServerFacts.

(** ** The order of calls and of answers *)

(** C14: the handler sees a connection as the interface says: [OnConnect] once
    and first, then the requests in the order in which the client sent them, none
    left out, and [OnDisconnect] at most once and last; when [connHandler] has
    returned, [OnDisconnect] was called. *)
Theorem handler_protocol `{ServerHandler} c :
  conn_reachable c →
  ∃ rs, rs `prefix_of` received (co_shared c) ∧
    (handled (co_shared c) = [] ∨ handled (co_shared c) = OnConnectCall :: (OnRequestCall <$> rs) ∨
     handled (co_shared c) = OnConnectCall :: (OnRequestCall <$> rs) ++ [OnDisconnectCall]) ∧
    (co_main c = Returned →
     handled (co_shared c) = OnConnectCall :: (OnRequestCall <$> rs) ++ [OnDisconnectCall]).
Proof.
  intros Hi%reachable_conn_inv. exists (requests (co_shared c)).
  split; [rewrite (ci_received _ Hi); by eexists|].
  pose proof (ci_calls _ Hi) as Hc. pose proof (ci_returned _ Hi) as Hret.
  destruct (co_loop c) as [| | | | |err|err|] eqn:El; cbn [calls_ok] in Hc.
  1: { rewrite Hc. split; [by left|]. by intros (_ & _ & ?)%Hret; rewrite El in *. }
  all: destruct Hc as [rs Hc]; pose proof Hc as E.
  1-5: rewrite <- (app_nil_r (OnRequestCall <$> rs)) in E; apply (requests_calls _ rs []) in E as ->; [|done];
    (split; [by right; left|]); by intros (_ & _ & ?)%Hret; rewrite El in *.
  all: apply (requests_calls _ rs [OnDisconnectCall]) in E as ->; [|done]; (split; [by right; right|done]).
Qed.

(** A handler that may give any result, and a request without fields. *)
#[local] Instance any_handler : ServerHandler := {| may_answer _ _ := True |}.
Definition blank : Request := {| rq_JsonRPC := []; rq_Id := []; rq_Method := []; rq_Params := [] |}.

Lemma handler_protocol_witness :
  let c := served blank blank [] in
  ∃ rs, rs `prefix_of` received (co_shared c) ∧
    handled (co_shared c) = OnConnectCall :: (OnRequestCall <$> rs) ++ [OnDisconnectCall].
Proof.
  destruct (handler_protocol (served blank blank [])) as (rs & H1 & _ & H2); [apply served_reachable; exact I|].
  exists rs. exact (conj H1 (H2 eq_refl)).
Defined.

(** C15: responses come in the order of the requests: each response on the
    socket is the one that the handler gave to the request of the client at the
    same place, under the id of that request; none is lost between two others,
    doubled or altered, whatever the interleaving of the goroutines, the
    notifications and the failures. *)
Theorem responses_in_order `{ServerHandler} c :
  conn_reachable c →
  ∃ answered, answered `prefix_of` received (co_shared c) ∧
    Forall2 (λ req res, rs_Id res = rq_Id req ∧ may_answer req (rs_Result res))
      answered (responses (co_shared c)).
Proof. apply responses_answer. Qed.

Lemma responses_in_order_witness :
  let c := served blank blank [] in
  length (responses (co_shared c)) = 1%nat ∧
  ∃ answered, answered `prefix_of` [blank; blank] ∧
    Forall2 (λ req res, rs_Id res = rq_Id req ∧ True) answered (responses (co_shared c)).
Proof.
  split; [reflexivity|].
  exact (responses_in_order (served blank blank []) (served_reachable blank blank [] I)).
Defined.

(** Back pressure: every channel holds one value at most, and while the
    writer lives at most five requests have been read and not answered on the
    socket, however fast the client sends. *)
Theorem connection_bounds `{ServerHandler} c :
  conn_reachable c →
  (length (reqC (co_shared c)) ≤ 1)%nat ∧ (length (resC (co_shared c)) ≤ 1)%nat ∧
  (length (notC (co_shared c)) ≤ 1)%nat ∧ (length (errC (co_shared c)) ≤ 1)%nat ∧
  (co_writer c ≠ WriterDone →
   (length (received (co_shared c)) ≤ length (responses (co_shared c)) + 5)%nat).
Proof.
  intros Hi%reachable_conn_inv.
  pose proof Hi as [H1 H2 H3 H4 H5 (lost & answered & rest & E & HF & Hl & Hu) _ _ _ _ _ _ _].
  split_and!; [done..|]. intros Hw.
  assert (lost = []) as -> by (by destruct (co_writer c)).
  apply (f_equal length) in E. apply Forall2_length in HF. rewrite app_nil_l in HF.
  rewrite !length_app in E. rewrite !length_app in HF.
  rewrite H5, !length_app.
  assert (length (at_reader (co_reader c)) ≤ 1)%nat by (destruct (co_reader c); simpl; lia).
  assert (length (at_writer (co_writer c)) ≤ 1)%nat by (destruct (co_writer c) as [| |[]|]; simpl; lia).
  assert (length (at_loop (co_loop c)) + length rest ≤ 1)%nat.
  { destruct (co_loop c) as [| | | | |[]|[]|]; simpl in *; subst; simpl; lia. }
  unfold capacity in *. lia.
Qed.

Lemma connection_bounds_witness :
  (length (received (co_shared conn_start)) ≤ length (responses (co_shared conn_start)) + 5)%nat.
Proof. apply (connection_bounds conn_start); [apply rtc_refl|discriminate]. Defined.

(** ** Where a connection hangs *)

(** C32: a connection that has no step left has either returned, with all its
    goroutines, or hangs in one of two ways: the reader is at [reqC <- r], the
    channel is full, and the loop that would empty it has ended; or the loop is
    at [resC <- c.Response], the channel is full, and the writer has ended. *)
Theorem connection_deadlocks `{ServerHandler} c :
  conn_reachable c → stuck c →
  (co_main c = Returned ∧ all_done c) ∨
  ((co_main c = Awaiting ∨ co_main c = Returning) ∧
   ((∃ r, co_reader c = Passing r ∧ length (reqC (co_shared c)) = 1%nat ∧ co_loop c = LoopDone) ∨
    (∃ r, co_loop c = Responding r ∧ length (resC (co_shared c)) = 1%nat ∧ co_writer c = WriterDone))).
Proof.
  intros Hi%reachable_conn_inv Hs. pose proof (main_blocked c Hi Hs) as Hm.
  destruct c as [s r w l m]. pose proof Hi as [H1 H2 _ _ _ _ _ H8 H9 H10 _ _ H13].
  cbn [co_shared co_reader co_writer co_loop co_main] in *.
  assert (Hr : ∀ p, ¬ read_step (r, s) p).
  { intros [pc s'] Hp. eapply Hs. by apply by_reader. }
  assert (Hw : ∀ p, ¬ write_step (w, s) p).
  { intros [pc s'] Hp. eapply Hs. by apply by_writer. }
  assert (Hl : ∀ p, ¬ loop_step (l, s) p).
  { intros [pc s'] Hp. eapply Hs. by apply by_loop. }
  apply reader_blocked in Hr; [|done]. apply writer_blocked in Hw. apply loop_blocked in Hl; [|done].
  destruct Hm as [->|[(Hm & Hc & Hd)|[-> He]]].
  - left. split; [done|]. by apply H13.
  - right. split; [done|]. rewrite Hc in Hw, Hl. destruct Hw as [->|(_ & _ & ?)]; [|done].
    destruct Hl as [->|[(_ & ? & _)|(q & -> & Hq)]]; [|done|by right; exists q].
    left. destruct Hr as [->|(q & -> & Hq)]; [by destruct Hd|by exists q].
  - exfalso. destruct Hr as [->|(q & -> & Hq)]; [by apply He, H8|].
    destruct Hw as [->|(-> & Hres & _)]; [by apply He, H9|].
    destruct Hl as [->|[(-> & _ & Hreq)|(q' & -> & Hq')]]; [by apply He| |].
    + by rewrite Hreq in Hq.
    + by rewrite Hres in Hq'.
Qed.

Lemma connection_deadlocks_witness :
  ∃ c, conn_reachable c ∧ co_main c ≠ Returned ∧
    ((∃ r, co_reader c = Passing r ∧ co_loop c = LoopDone) ∨
     (∃ r, co_loop c = Responding r ∧ co_writer c = WriterDone)).
Proof.
  set (r := blank). exists (reader_hangs r r r). split; [apply reader_hangs_reachable|]. split; [discriminate|].
  destruct (connection_deadlocks (reader_hangs r r r)) as [[H _]|[_ [(q & H1 & _ & H3)|(q & H1 & _)]]].
  - apply reader_hangs_reachable.
  - apply hangs_stuck, reader_hangs_forever.
  - discriminate H.
  - left. exists q. exact (conj H1 H3).
  - discriminate H1.
Defined.

(** A client makes a connection hang for ever with three requests: when the
    handler refuses the first, the loop ends and the reader stays at
    [reqC <- r] with the third, so [wg.Wait()] of [connHandler] never returns
    and its goroutines are never freed. *)
Theorem reader_leak `{ServerHandler} r1 r2 r3 :
  ∃ c, conn_reachable c ∧ hangs c ∧ co_main c = Returning ∧ co_reader c = Passing r3 ∧
    received (co_shared c) = [r1; r2; r3] ∧
    handled (co_shared c) = [OnConnectCall; OnRequestCall r1; OnDisconnectCall].
Proof.
  exists (reader_hangs r1 r2 r3). split; [apply reader_hangs_reachable|].
  split; [apply reader_hangs_forever|done].
Qed.

(** A client that leaves at the wrong moment is never unsubscribed: when the
    writer ends with a response in the channel while the handler is at the next
    request, the loop stays at [resC <- c.Response], and [OnDisconnect] is
    never called for a connection that is closed. *)
Theorem loop_leak `{ServerHandler} r1 r2 x1 x2 :
  may_answer r1 x1 → may_answer r2 x2 →
  ∃ c, conn_reachable c ∧ hangs c ∧ closed (co_shared c) = true ∧
    co_loop c = Responding {| rs_Id := rq_Id r2; rs_Result := x2 |} ∧
    resC (co_shared c) = [{| rs_Id := rq_Id r1; rs_Result := x1 |}] ∧
    OnDisconnectCall ∉ handled (co_shared c).
Proof.
  intros Hx1 Hx2. exists (loop_hangs r1 r2 x1 x2). split; [by apply loop_hangs_reachable|].
  split; [apply loop_hangs_forever|]. split_and!; [done..|].
  cbn. intros Hin. by repeat (apply elem_of_cons in Hin as [?|Hin]; [done|]); apply elem_of_nil in Hin.
Qed.

Lemma loop_leak_witness :
  ∃ c, conn_reachable c ∧ hangs c ∧ closed (co_shared c) = true ∧ OnDisconnectCall ∉ handled (co_shared c).
Proof.
  destruct (@loop_leak any_handler blank blank [] [] I I) as (c & H1 & H2 & H3 & _ & _ & H4).
  exists c. exact (conj H1 (conj H2 (conj H3 H4))).
Defined.

(** ** Ids *)

(** Two connections can get the same id: the goroutine of a connection reads
    the counter of [run] when it starts, not when it is accepted, so that one
    that starts after the increment has the id of the next connection. *)
Theorem connections_share_id : ∃ a, rtc accept_step accept_start a ∧ ac_started a = [1; 1].
Proof.
  eexists. split.
  - eapply rtc_l; [by apply accept_spawns|]. eapply rtc_l; [by apply accept_increments|].
    eapply rtc_l; [by eapply accept_starts|]. eapply rtc_l; [by apply accept_spawns|].
    eapply rtc_l; [by eapply accept_starts|]. apply rtc_refl.
  - reflexivity.
Qed.
