(* ===== verification/ServiceTheorems.v ===== *)
(** * ServiceTheorems: the server with its handlers

    The connections of [Server] with the handlers of [Electrum] behind them, in
    the system of [System]: [electrum_handler] implements the interface
    [ServerHandler] that the theorems on connections are proved against. *)

From S2P Require Import Prelude Bytes Json JsonFacts Sha256 BitcoinTypes ScriptPubkey.
From S2P Require Import Database Repository Wallet Genesis Sync Queries Rounds Subscriptions.
From S2P Require Import Electrum ElectrumFacts System Server ServerFacts.
From S2P Require Import Examples ScanExamples ElectrumTheorems SystemTheorems.

Section service.
Context `{Bip32} `{BitcoinClient} (id : Z).

Definition context (r : Request) : Ctx := {| ConnId := id; ctx_Request := r |}.

(** The results that [OnRequest] may leave for a request of the connection
    [id]: of one critical section, in a state that the system can reach, or of
    two, with any steps of the others in between. *)
Inductive served_by_system (r : Request) (result : bytes) : Prop :=
  | in_one_section s :
      reachable s → (first_call (context r) (sy_w s)).1 = Ok (inl result) → served_by_system r result
  | in_two_sections s s' p :
      reachable s → (first_call (context r) (sy_w s)).1 = Ok (inr p) → rtc sys_step s s' →
      (second_call (context r) p (sy_w s')).1 = Ok result → served_by_system r result.

Definition electrum_handler : ServerHandler := {| may_answer := served_by_system |}.
#[export] Existing Instance electrum_handler.

Hypothesis node_safe : ∀ n raw, safe (BroadcastWTX n raw).

Lemma served_json r result : served_by_system r result → checkValid result = true.
Proof using node_safe.
  intros [s Hr Hf|s s' p (s0 & Hi & Hr) Hf Hs Hc].
  - destruct (answers_first_call node_safe (context r) _ (inv_serving _ (reachable_inv node_safe s Hr)))
      as [_ Ho]. rewrite Hf in Ho. by apply json_valid.
  - assert (reachable s') as Hr' by (exists s0; split; [done|by etrans]).
    destruct (answers_second_call (context r) p _
      (inv_serving _ (reachable_inv node_safe s' Hr'))) as [_ Ho].
    rewrite Hc in Ho. by apply json_valid.
Qed.
End service.

(** C12: the socket speaks JSON-RPC: whatever a client sends, at whatever speed,
    whatever the node replies and the other clients do, in any state that the
    system gets to from tables whose Merkle proofs are lists of hashes, before
    anybody has connected, and with a client of the node that does not panic when
    it broadcasts, the responses that are
    written to a connection are, one for one and in order, under the ids of the
    client's first requests, and the result of each is one valid JSON text. *)
Theorem socket_speaks_json `{Bip32} `{BitcoinClient} id c :
  (∀ n raw, safe (BroadcastWTX n raw)) → conn_reachable (handler := electrum_handler id) c →
  ∃ answered, answered `prefix_of` received (co_shared c) ∧
    Forall2 (λ req res, rs_Id res = rq_Id req ∧ checkValid (rs_Result res) = true)
      answered (responses (co_shared c)).
Proof.
  intros Hb Hc. destruct (responses_answer (handler := electrum_handler id) c Hc) as (answered & Hp & HF).
  exists answered. split; [done|]. eapply Forall2_impl; [exact HF|].
  intros req res [Hid Hm]. split; [done|]. by apply (served_json id Hb req).
Qed.

Definition ping : Request :=
  {| rq_JsonRPC := []; rq_Id := str "7"; rq_Method := quote (str "server.ping"); rq_Params := [] |}.

Lemma socket_speaks_json_witness :
  let c := served ping ping (str "null") in
  length (responses (co_shared c)) = 1%nat ∧
  ∃ answered, answered `prefix_of` [ping; ping] ∧
    Forall2 (λ req res, rs_Id res = rq_Id req ∧ checkValid (rs_Result res) = true)
      answered (responses (co_shared c)).
Proof.
  split; [reflexivity|]. apply (socket_speaks_json 7 (served ping ping (str "null"))).
  - intros n raw. exact I.
  - apply (served_reachable (handler := electrum_handler 7)).
    apply (in_one_section _ _ _ s_tip2); [|vm_compute; reflexivity].
    exists s_tip2. split; [exact s_tip2_init|apply rtc_refl].
Defined.
