(* ===== verification/ConfigTheorems.v ===== *)
(** * ConfigTheorems: reading the wallets back *)

From S2P Require Import Prelude Bytes Json JsonFacts Sha256 ScriptPubkey Base58.
From S2P Require Import Database Repository Wallet Config.
From Stdlib Require Import Strings.Byte.

(** ** Extended keys *)

(** Extended keys survive their text: base58 with its ten-digit steps and
    its leading zeros, the checksum and the fields are read back exactly, for
    any bytes and any key. *)
Theorem keys_round_trip :
  (∀ data, Decode (Encode data) = Ok data) ∧
  (∀ data, data ≠ [] → CheckDecode (CheckEncode data) = Ok data) ∧
  (∀ e, key_ok e → ExtendedDecodeUnchecked (ExtendedEncode e) = Ok e).
Proof. split; [exact Decode_Encode|split; [exact CheckDecode_CheckEncode|exact ExtendedDecode_Encode]]. Qed.

(** ** The text of a wallet *)

(** Fields with a separator between them. *)
Definition join (sep : byte) (fields : list bytes) : bytes :=
  match fields with
  | [] => []
  | x :: fields => x ++ (fields ≫= λ y, sep :: y)
  end.

Lemma Split_last sep x : sep ∉ x → Split sep x = [x].
Proof.
  induction x as [|c x IH]; intros Hn; [done|]. cbn [Split].
  rewrite IH by (intros H; apply Hn; by apply list_elem_of_further).
  rewrite bool_decide_eq_false_2; [done|]. intros ->. apply Hn, list_elem_of_here.
Qed.

Lemma Split_cons sep x rest : sep ∉ x → Split sep (x ++ sep :: rest) = x :: Split sep rest.
Proof.
  induction x as [|c x IH]; intros Hn; cbn [app Split].
  - by rewrite bool_decide_eq_true_2.
  - rewrite IH by (intros H; apply Hn; by apply list_elem_of_further).
    rewrite bool_decide_eq_false_2; [done|]. intros ->. apply Hn, list_elem_of_here.
Qed.

Lemma Split_join sep x xs : Forall (λ f, sep ∉ f) (x :: xs) → Split sep (join sep (x :: xs)) = x :: xs.
Proof.
  revert x. induction xs as [|y xs IH]; intros x [Hx Hxs]%Forall_cons; cbn [join].
  - rewrite app_nil_r. by apply Split_last.
  - rewrite bind_cons. change ((sep :: y) ++ ?r) with (sep :: (y ++ r)).
    rewrite Split_cons by done. f_equal. by apply IH.
Qed.

Definition kind_name (k : Kind) : bytes :=
  match k with
  | SK_NONE => []
  | SK_P2PK => str "p2pk"
  | SK_P2PKH => str "p2pkh"
  | SK_P2MS => str "p2ms"
  | SK_P2SH_MULTISIG => str "p2sh"
  | SK_P2SH_WPKH => str "p2sh_wpkh"
  | SK_P2WPKH => str "p2wpkh"
  | SK_P2WSH_MULTISIG => str "p2wsh"
  end.

Lemma KindFromString_name k : k ≠ SK_NONE → KindFromString (kind_name k) = (k, true).
Proof. by destruct k. Qed.

Lemma kind_name_int k : k ≠ SK_NONE →
  parsed (ParseIntValue 32 (kind_name k)) = 0%nat ∧ (ParseIntValue 32 (kind_name k)).1 = 0.
Proof. by destruct k. Qed.

Lemma kind_name_sep k sep : sep ∈ [x20; x3d] → k ≠ SK_NONE → sep ∉ kind_name k.
Proof.
  intros Hs Hk. assert (Forall (λ c, c ∉ kind_name k) [x20; x3d]) as H
    by (apply (bool_decide_unpack _); by destruct k).
  rewrite Forall_forall in H. by apply H.
Qed.

(** ** Numbers *)

Lemma parse_digits_le n ds v : 0 ≤ n → parse_digits n ds = Some v → n ≤ v.
Proof.
  revert n. induction ds as [|c ds IH]; intros n Hn H; [by injection H as ->|]. cbn [parse_digits] in H.
  destruct (isDigit c) eqn:E; [|done]. unfold isDigit in E.
  apply andb_true_iff in E as [E _]. apply Z.leb_le in E. unfold digit_value in H.
  apply IH in H; lia.
Qed.

Lemma ParseUint_digits maxVal n ds v :
  0 ≤ n → parse_digits n ds = Some v → v ≤ maxVal → ParseUint_loop maxVal n ds = (v, None).
Proof.
  revert n. induction ds as [|c ds IH]; intros n Hn H Hv; [by injection H as ->|].
  cbn [parse_digits ParseUint_loop] in *. destruct (isDigit c) eqn:E; [|done].
  assert (0 ≤ 10 * n + digit_value c) as Hp.
  { unfold isDigit in E. apply andb_true_iff in E as [E _]. apply Z.leb_le in E. unfold digit_value. lia. }
  pose proof (parse_digits_le _ _ _ Hp H). rewrite (proj2 (Z.ltb_ge _ _)) by lia. by apply IH.
Qed.

Lemma ParseIntValue_decimal bits z :
  1 ≤ bits → 0 ≤ z < 2 ^ (bits - 1) → ParseIntValue bits (decimal z) = (z, None).
Proof.
  intros Hb Hz. destruct (decimal_cases z) as (ds & Hn & Hp & ->).
  rewrite (proj2 (Z.ltb_ge _ _)) by lia. apply natural_digits in Hn as [Hd Hne].
  destruct ds as [|c ds]; [done|]. unfold ParseIntValue.
  pose proof Hd as [Hc _]%Forall_cons.
  rewrite !bool_decide_eq_false_2 by (by intros ->).
  assert (2 ^ (bits - 1) ≤ 2 ^ bits) by (apply Z.pow_le_mono_r; lia).
  rewrite (ParseUint_digits _ 0 _ _ ltac:(lia) Hp) by lia. cbn [negb andb].
  rewrite (proj2 (Z.leb_gt _ _)) by lia. by rewrite Z.abs_eq by lia.
Qed.

Lemma separator_not_in_decimal sep z : sep ∈ [x20; x3d] → sep ∉ decimal z.
Proof.
  intros Hs. destruct (decimal_cases z) as (ds & Hn & _ & ->). apply natural_digits in Hn as [Hd _].
  assert (isDigit sep = false ∧ sep ≠ x2d) as [H1 H2].
  { by repeat (apply elem_of_cons in Hs as [->|Hs]; [done|]); apply elem_of_nil in Hs. }
  assert (sep ∉ ds) as H3.
  { intros Hin. unfold digits in Hd. rewrite Forall_forall in Hd. apply Hd in Hin. congruence. }
  destruct (z <? 0); [|done]. by intros [?|?]%elem_of_cons.
Qed.

Lemma separator_not_in_key sep e : sep ∈ [x20; x3d] → sep ∉ ExtendedEncode e.
Proof.
  intros Hs Hin. unfold ExtendedEncode, CheckEncode in Hin.
  pose proof (Encode_alphabet ((Version e ++ [Depth e] ++ Fingerprint e ++ ChildNum e ++ Chaincode e ++ Key e) ++
    checksum (Version e ++ [Depth e] ++ Fingerprint e ++ ChildNum e ++ Chaincode e ++ Key e))) as Ha.
  rewrite Forall_forall in Ha. apply Ha in Hin.
  assert (Forall (λ c, c ∉ alphabet) [x20; x3d]) as H by (apply (bool_decide_unpack _); vm_compute; exact I).
  rewrite Forall_forall in H. by apply (H sep).
Qed.

Lemma decode_keys es : Forall key_ok es → mapM decodeKey (ExtendedEncode <$> es) = Ok es.
Proof.
  intros H. apply mapM_Ok, Forall2_fmap_l, Forall_Forall2_diag. eapply Forall_impl; [exact H|].
  intros e He. unfold compose, decodeKey. by rewrite ExtendedDecode_Encode.
Qed.

(** ** wLoad *)

(** A configuration as a user writes it, with the height and the number of
    signatures or without. *)
Definition wallet_fields (height : option Z) (k : Kind) (reqsigs : option Z) (keys : list ExtendedKey)
    : list bytes :=
  match height with Some h => [decimal h] | None => [] end ++ [kind_name k] ++
  match reqsigs with Some r => [decimal r] | None => [] end ++ (ExtendedEncode <$> keys).

(** What can follow a kind: a number of signatures, or a key that is not taken
    for one. *)
Definition reqsigs_ok (reqsigs : option Z) (keys : list ExtendedKey) : Prop :=
  match reqsigs with
  | Some r => 0 ≤ r < 128
  | None => ∃ e es, keys = e :: es ∧ ParseIntValue 8 (ExtendedEncode e) = (0, Some ErrSyntax)
  end.

Definition height_ok (height : option Z) : Prop :=
  match height with Some h => 0 ≤ h < 2 ^ 31 | None => True end.

Lemma wallet_fields_no_sep sep height k reqsigs keys :
  sep ∈ [x20; x3d] → k ≠ SK_NONE → Forall (λ f, sep ∉ f) (wallet_fields height k reqsigs keys).
Proof.
  intros Hs Hk. unfold wallet_fields. rewrite !Forall_app. split_and!.
  - destruct height; repeat constructor. by apply separator_not_in_decimal.
  - repeat constructor. by apply kind_name_sep.
  - destruct reqsigs; repeat constructor. by apply separator_not_in_decimal.
  - apply Forall_fmap, Forall_forall. intros e _. by apply separator_not_in_key.
Qed.

Lemma wLoad_fields f g fs : (2 ≤ length (join x20 (f :: g :: fs)))%nat →
  Forall (λ f, x20 ∉ f) (f :: g :: fs) →
  wLoad (join x20 (f :: g :: fs)) =
    (let wdata := f :: g :: fs in
     let height := ParseIntValue 32 f in
     kindStr ← index wdata (parsed height);
     let '(k, ok) := KindFromString kindStr in
     if negb ok then Ok None
     else
       sigStr ← index wdata (S (parsed height));
       let reqsigs := ParseIntValue 8 sigStr in
       keys ← mapM decodeKey (drop (S (parsed height) + parsed reqsigs) wdata);
       Ok (Some {| wc_Kind := k; wc_Reqsigs := uint8_wrap reqsigs.1; wc_MasterPubs := keys;
                   wc_Height := height.1 |})).
Proof.
  intros Hl Hn. unfold wLoad. rewrite Split_join by done. by rewrite bool_decide_eq_false_2 by lia.
Qed.

Lemma length_join sep x y r : (length x + length y ≤ length (join sep (x :: y :: r)))%nat.
Proof. cbn [join]. rewrite bind_cons, !length_app. simpl. lia. Qed.

Lemma kind_name_length k : k ≠ SK_NONE → (4 ≤ length (kind_name k))%nat.
Proof. destruct k; [done|..]; intros _; vm_compute; lia. Qed.

(** The text with the height in front. *)
Lemma wLoad_spec height k reqsigs keys :
  height_ok height → k ≠ SK_NONE → reqsigs_ok reqsigs keys → Forall key_ok keys →
  wLoad (join x20 (wallet_fields height k reqsigs keys)) =
    Ok (Some {| wc_Kind := k; wc_Reqsigs := default 0 reqsigs; wc_MasterPubs := keys;
                wc_Height := default 0 height |}).
Proof.
  intros Hh Hk Hr Hkeys. pose proof (wallet_fields_no_sep x20 height k reqsigs keys ltac:(by left) Hk) as Hsep.
  pose proof (kind_name_length k Hk) as Hlen. destruct (kind_name_int k Hk) as [Hp H0].
  assert (∃ sig rest, match reqsigs with Some r => [decimal r] | None => [] end ++ (ExtendedEncode <$> keys)
    = sig :: rest ∧ (ParseIntValue 8 sig).1 = default 0 reqsigs ∧
    drop (parsed (ParseIntValue 8 sig)) (sig :: rest) = ExtendedEncode <$> keys) as (sig & rest & Esig & Hsig & Hdrop).
  { destruct reqsigs as [r|].
    - exists (decimal r), (ExtendedEncode <$> keys). rewrite ParseIntValue_decimal by (simpl in *; lia). done.
    - destruct Hr as (e & es & -> & He). exists (ExtendedEncode e), (ExtendedEncode <$> es). by rewrite He. }
  assert (0 ≤ default 0 reqsigs < 2 ^ 8) as Hrange by (destruct reqsigs; simpl in *; lia).
  unfold wallet_fields in *. rewrite Esig in *. destruct height as [h|]; cbn [app] in *.
  - rewrite wLoad_fields; [|etrans; [|apply length_join]; lia|done].
    cbv zeta. rewrite ParseIntValue_decimal by (simpl in *; lia). change (parsed (h, None)) with 1%nat.
    change (index (?a :: ?b :: ?l) 1) with (Ok b). change (index (?a :: ?b :: ?c :: ?l) 2) with (Ok c).
    run_outcome. rewrite KindFromString_name by done. cbn [negb]. run_outcome.
    change (2 + ?n)%nat with (S (S n)). cbn [drop]. rewrite Hdrop, decode_keys by done. run_outcome.
    rewrite Hsig. unfold uint8_wrap. by rewrite Z.mod_small.
  - rewrite wLoad_fields; [|etrans; [|apply length_join]; lia|done].
    cbv zeta. rewrite Hp, H0.
    change (index (?a :: ?l) 0) with (Ok a). change (index (?a :: ?b :: ?l) 1) with (Ok b).
    run_outcome. rewrite KindFromString_name by done. cbn [negb]. run_outcome.
    change (1 + ?n)%nat with (S n). cbn [drop]. rewrite Hdrop, decode_keys by done. run_outcome.
    rewrite Hsig. unfold uint8_wrap. by rewrite Z.mod_small.
Qed.

(** A wallet is read as it is written: [wLoad] of the text of a
    configuration, with its height and its number of signatures or without
    either, gives back its kind, its number of signatures, its keys in their
    order and its height, the ones that are left out being 0. *)
Theorem wLoad_reads height k reqsigs keys :
  height_ok height → k ≠ SK_NONE → reqsigs_ok reqsigs keys → Forall key_ok keys →
  wLoad (join x20 (wallet_fields height k reqsigs keys)) =
    Ok (Some {| wc_Kind := k; wc_Reqsigs := default 0 reqsigs; wc_MasterPubs := keys;
                wc_Height := default 0 height |}).
Proof. apply wLoad_spec. Qed.

(** The version of a public key of the main network, and a key of zeros. *)
Definition example_key : ExtendedKey := {|
  Version := unhex "0488b21e"; Depth := z2b 0; Fingerprint := zeroes 4; ChildNum := zeroes 4;
  Chaincode := zeroes 32; Key := z2b 2 :: zeroes 32 |}.

Lemma example_key_ok : key_ok example_key.
Proof. by split_and!. Qed.

Lemma wLoad_reads_witness :
  wLoad (join x20 [decimal 120; str "p2wsh"; decimal 1; ExtendedEncode example_key]) =
    Ok (Some {| wc_Kind := SK_P2WSH_MULTISIG; wc_Reqsigs := 1; wc_MasterPubs := [example_key];
                wc_Height := 120 |}).
Proof.
  apply (wLoad_reads (Some 120) SK_P2WSH_MULTISIG (Some 1) [example_key]).
  - simpl. lia.
  - discriminate.
  - simpl. lia.
  - apply Forall_cons. split; [exact example_key_ok|apply Forall_nil; exact I].
Defined.

(** An entry of the environment: another variable, or a wallet. *)
Inductive entry :=
  | OtherVar (text : bytes)
  | WalletVar (name : bytes) (height : option Z) (k : Kind) (reqsigs : option Z) (keys : list ExtendedKey).

Definition entry_text (e : entry) : bytes :=
  match e with
  | OtherVar text => text
  | WalletVar name height k reqsigs keys =>
      str "WALLET" ++ name ++ [x3d] ++ join x20 (wallet_fields height k reqsigs keys)
  end.

Definition entry_ok (e : entry) : Prop :=
  match e with
  | OtherVar text => HasPrefix text (str "WALLET") = false
  | WalletVar name height k reqsigs keys =>
      (x3d ∉ name) ∧ height_ok height ∧ k ≠ SK_NONE ∧ reqsigs_ok reqsigs keys ∧ Forall key_ok keys
  end.

Definition entry_wallet (e : entry) : option WalletConfig :=
  match e with
  | OtherVar _ => None
  | WalletVar _ height k reqsigs keys =>
      Some {| wc_Kind := k; wc_Reqsigs := default 0 reqsigs; wc_MasterPubs := keys;
              wc_Height := default 0 height |}
  end.

Lemma join_no_sep sep s fields : sep ≠ s → Forall (λ f, sep ∉ f) fields → sep ∉ join s fields.
Proof.
  intros Hs Hf. destruct Hf as [|x xs Hx Hxs]; [by intros ?%elem_of_nil|]. cbn [join].
  rewrite not_elem_of_app. split; [done|]. induction Hxs as [|y ys Hy Hys IH]; [by intros ?%elem_of_nil|].
  rewrite bind_cons. change ((s :: y) ++ ?r) with (s :: (y ++ r)).
  rewrite not_elem_of_cons, not_elem_of_app. done.
Qed.

(** One variable of a wallet. *)
Lemma getWallets_wallet name value es :
  x3d ∉ name → x3d ∉ value →
  getWallets ((str "WALLET" ++ name ++ [x3d] ++ value) :: es) =
    (wc ← wLoad value; ws ← getWallets es; Ok match wc with Some wc => wc :: ws | None => ws end).
Proof.
  intros Hn Hv. cbn [getWallets].
  assert (HasPrefix (str "WALLET" ++ name ++ [x3d] ++ value) (str "WALLET") = true) as ->.
  { unfold HasPrefix. apply bool_decide_eq_true_2. by rewrite take_app_length. }
  cbn [negb]. rewrite (assoc_L (++) (str "WALLET")).
  change ([x3d] ++ ?t) with (x3d :: t). rewrite Split_cons.
  2: { rewrite not_elem_of_app. split; [|done]. apply (bool_decide_unpack _). vm_compute. exact I. }
  rewrite Split_last by done. by change (index [?a; ?b] 1) with (Ok b).
Qed.

Lemma getWallets_entries es vars :
  Forall entry_ok es →
  getWallets ((entry_text <$> es) ++ vars) = (ws ← getWallets vars; Ok (omap entry_wallet es ++ ws)).
Proof.
  induction 1 as [|e es He Hes IH]; [cbn; by destruct (getWallets vars)|]. rewrite fmap_cons, <- app_comm_cons.
  destruct e as [text|name height k reqsigs keys]; cbn [entry_text entry_ok] in *.
  - cbn [getWallets]. by rewrite He.
  - destruct He as (Hn & Hh & Hk & Hr & Hkeys).
    rewrite getWallets_wallet; [|done|].
    2: { apply join_no_sep; [done|apply wallet_fields_no_sep; [by right; left|done]]. }
    rewrite wLoad_spec by done. run_outcome. rewrite IH. by destruct (getWallets vars).
Qed.

(** A wallet variable that ends too early stops the program: [wLoad] of a
    height alone, or of a height and a kind, reads past its fields and panics. *)
Theorem wLoad_short_panics h k :
  10 ≤ h < 2 ^ 31 → k ≠ SK_NONE →
  wLoad (decimal h) = Panic "index out of range" ∧
  wLoad (join x20 [decimal h; kind_name k]) = Panic "index out of range".
Proof.
  intros Hh Hk. pose proof (separator_not_in_decimal x20 h ltac:(by left)) as Hd.
  pose proof (ParseIntValue_decimal 32 h ltac:(lia) ltac:(simpl; lia)) as Hp. split.
  - unfold wLoad. rewrite Split_last by done. rewrite bool_decide_eq_false_2.
    + cbv zeta. change (index [?a] 0) with (Ok a). run_outcome. rewrite Hp. reflexivity.
    + destruct (decimal_cases h) as (ds & Hn & Hv & ->). rewrite (proj2 (Z.ltb_ge _ _)) by lia.
      apply natural_digits in Hn as [_ Hn]. destruct ds as [|a [|b ds]]; [done| |simpl; lia]. exfalso. clear -Hv Hh.
      cbn [parse_digits] in Hv. destruct (isDigit a) eqn:E; [|done]. injection Hv as Hv.
      unfold isDigit in E. apply andb_true_iff in E as [_ E]. apply Z.leb_le in E.
      unfold digit_value in Hv. lia.
  - pose proof (kind_name_length k Hk). pose proof (kind_name_sep k x20 ltac:(by left) Hk).
    rewrite wLoad_fields; [|etrans; [|apply length_join]; lia|by repeat constructor].
    cbv zeta. rewrite Hp. change (parsed (h, None)) with 1%nat.
    change (index [?a; ?b] 1) with (Ok b). run_outcome. by rewrite KindFromString_name.
Qed.

Lemma wLoad_short_panics_witness :
  wLoad (str "120") = Panic "index out of range" ∧ wLoad (str "120 p2wsh") = Panic "index out of range".
Proof. apply (wLoad_short_panics 120 SK_P2WSH_MULTISIG); [lia|discriminate]. Defined.

(** C39: the wallets of the environment: when every variable whose name begins
    with WALLET is well formed (a height or none, a kind, the number of
    signatures when the kind needs one, and keys, with no further equals sign),
    [getWallets] gives the configurations of these variables in the order of the
    environment, and passes over every other variable.  After such
    variables, one of a wallet that is a height of two digits or more and nothing
    else panics with an index out of range. *)
Theorem getWallets_reads es :
  Forall entry_ok es →
  getWallets (entry_text <$> es) = Ok (omap entry_wallet es) ∧
  ∀ name h vars, x3d ∉ name → 10 ≤ h < 2 ^ 31 →
    getWallets ((entry_text <$> es) ++ (str "WALLET" ++ name ++ [x3d] ++ decimal h) :: vars) =
      Panic "index out of range".
Proof.
  intros Hes. split.
  - pose proof (getWallets_entries es [] Hes) as Hg. cbn [getWallets mbind outcome_bind] in Hg.
    by rewrite !app_nil_r in Hg.
  - intros name h vars Hn Hh. rewrite getWallets_entries by done.
    rewrite getWallets_wallet; [|done|apply separator_not_in_decimal; by right; left].
    by rewrite (proj1 (wLoad_short_panics h SK_P2WPKH Hh ltac:(done))).
Qed.

Lemma getWallets_reads_witness :
  let es := [OtherVar (str "HOME=/"); WalletVar (str "_1") None SK_P2WPKH (Some 0) [example_key]] in
  getWallets (entry_text <$> es) =
    Ok [{| wc_Kind := SK_P2WPKH; wc_Reqsigs := 0; wc_MasterPubs := [example_key]; wc_Height := 0 |}] ∧
  getWallets ((entry_text <$> es) ++ [str "WALLET" ++ str "_2" ++ [x3d] ++ decimal 120]) =
    Panic "index out of range".
Proof.
  intros es. destruct (getWallets_reads es) as [H1 H2].
  - apply Forall_cons. split; [reflexivity|]. apply Forall_cons. split; [|apply Forall_nil; exact I].
    split; [apply (bool_decide_unpack _); vm_compute; exact I|]. split; [exact I|]. split; [discriminate|].
    split; [simpl; lia|]. apply Forall_cons. split; [exact example_key_ok|apply Forall_nil; exact I].
  - split; [exact H1|]. apply H2; [|lia]. apply (bool_decide_unpack _). vm_compute. exact I.
Defined.
