(* ===== verification/StartupTheorems.v ===== *)
(** * StartupTheorems: where the settings come from, and how the program ends *)

From S2P Require Import Prelude Bytes Json Sha256 ScriptPubkey Base58 Database Repository RepositoryFacts.
From S2P Require Import Wallet WalletFacts Config Genesis Sync HeaderSync Manager Electrum Server Startup.
From S2P Require Import Subscriptions System LifeCycle Examples ScanExamples WalletTheorems.
From Stdlib Require Import Strings.Byte.

(** ** Config *)

Lemma LookupEnv_put key key' v env :
  LookupEnv (put_env key v env) key' = if bool_decide (key = key') then Some v else LookupEnv env key'.
Proof.
  induction env as [|[k x] env IH]; cbn [put_env LookupEnv].
  - by case_bool_decide.
  - destruct (decide (k = key)) as [->|Hne].
    + rewrite (bool_decide_eq_true_2 (key = key)) by done. cbn [LookupEnv]. by case_bool_decide.
    + rewrite (bool_decide_eq_false_2 (k = key)) by done. cbn [LookupEnv]. rewrite IH.
      repeat case_bool_decide; congruence.
Qed.

Lemma LookupEnv_None env key : key ∉ env.*1 → LookupEnv env key = None.
Proof.
  induction env as [|[k v] env IH]; [done|]. cbn. intros [Hne Hni]%not_elem_of_cons.
  rewrite bool_decide_eq_false_2 by congruence. by apply IH.
Qed.

Lemma LookupEnv_is_Some env key : is_Some (LookupEnv env key) ↔ key ∈ env.*1.
Proof.
  induction env as [|[k v] env IH]; cbn; [split; [by intros []|by intros []%elem_of_nil]|].
  rewrite elem_of_cons, <- IH. destruct (decide (k = key)) as [->|Hne].
  - rewrite bool_decide_eq_true_2 by done. split; [by left|by eexists].
  - rewrite bool_decide_eq_false_2 by done. split; [by right|by intros [->|?]].
Qed.

(** The variables of a file are a map, with names and values that can be set. *)
Definition vars_ok (vars : environ) : Prop :=
  NoDup vars.*1 ∧ Forall (λ kv, settable kv.1 kv.2 = true) vars.

(** Loading a file adds what is not set. *)
Lemma LookupEnv_loadFile vars env key :
  vars_ok vars →
  LookupEnv (loadFile (Some vars) env) key =
    match LookupEnv env key with Some v => Some v | None => LookupEnv vars key end.
Proof.
  intros [Hnd Hset]. cbn [loadFile].
  enough (∀ env', (key ∉ env.*1 → key ∈ vars.*1 → LookupEnv env' key = None) →
    LookupEnv (foldl (λ env' kv, if bool_decide (kv.1 ∈ env.*1) then env' else Setenv kv.1 kv.2 env') env' vars) key =
    if bool_decide (key ∈ env.*1) then LookupEnv env' key
    else match LookupEnv vars key with Some v => Some v | None => LookupEnv env' key end) as He.
  { rewrite He by (intros Hn _; by apply LookupEnv_None).
    destruct (LookupEnv env key) as [v|] eqn:E.
    - rewrite bool_decide_eq_true_2; [done|]. apply LookupEnv_is_Some. by rewrite E.
    - rewrite bool_decide_eq_false_2; [by destruct (LookupEnv vars key)|].
      intros HF%LookupEnv_is_Some. rewrite E in HF. by destruct HF. }
  induction vars as [|[k v] vars IH]; intros env' Hn; cbn [foldl fst snd LookupEnv].
  { by case_bool_decide. }
  cbn in Hnd. apply NoDup_cons in Hnd as [Hni Hnd]. apply Forall_cons in Hset as [Hs Hset].
  cbn [fst snd] in *.
  assert (∀ env2, (key ≠ k → LookupEnv env2 key = LookupEnv env' key) →
    key ∉ env.*1 → key ∈ vars.*1 → LookupEnv env2 key = None) as Hkeep.
  { intros env2 H2 H3 H4. rewrite H2 by congruence. apply Hn; [done|]. cbn. by apply list_elem_of_further. }
  destruct (decide (k ∈ env.*1)) as [Hin|Hin].
  - rewrite (bool_decide_eq_true_2 (k ∈ env.*1)) by done. rewrite IH by (done || by apply Hkeep).
    destruct (decide (key ∈ env.*1)) as [H1|H1].
    + by rewrite !(bool_decide_eq_true_2 (key ∈ env.*1)) by done.
    + rewrite !(bool_decide_eq_false_2 (key ∈ env.*1)) by done.
      by rewrite (bool_decide_eq_false_2 (k = key)) by congruence.
  - rewrite (bool_decide_eq_false_2 (k ∈ env.*1)) by done. unfold Setenv. rewrite Hs, IH; [|done|done|].
    2: { apply Hkeep. intros Hne. rewrite LookupEnv_put. by rewrite bool_decide_eq_false_2 by congruence. }
    rewrite LookupEnv_put. destruct (decide (k = key)) as [->|Hne].
    + rewrite (bool_decide_eq_true_2 (key = key)) by done.
      rewrite !(bool_decide_eq_false_2 (key ∈ env.*1)) by done. by rewrite LookupEnv_None.
    + by rewrite (bool_decide_eq_false_2 (k = key)) by done.
Qed.

Definition file_value (vars : option environ) (key : bytes) : option bytes :=
  vars ≫= λ vars, LookupEnv vars key.

(** Where a variable gets its value from. *)
Definition first_of (l : list (option bytes)) : option bytes :=
  foldr (λ o rest, match o with Some v => Some v | None => rest end) None l.

(** C40: the settings come, in this order, from the environment, from the file
    [eps-go.conf] beside the program, and from the configuration file; the file
    beside the program cannot name the configuration file; a variable that is
    set and empty hides the files and stands for the default; and all later
    readers of the environment, those of the wallets among them, see the
    variables of the files. *)
Theorem cfgInit_precedence read_vars WriteFile arg0 env cfg env' :
  cfgInit read_vars WriteFile arg0 env = Ok (cfg, env') →
  (∀ name vars, read_vars name = Some vars → vars_ok vars) →
  let value key := first_of [LookupEnv env (str key);
    file_value (read_vars (dirname arg0 ++ str "/eps-go.conf")) (str key);
    file_value (read_vars (ConfigFile cfg)) (str key)] in
  let setting key def := match value key with Some [] | None => def | Some v => v end in
  ConfigFile cfg = EnvOrDefault env (str "CONFIG_FILE") (XDGConfigHome (XDGDirs cfg) ++ str "/eps-go.conf") ∧
  SqliteDBPath cfg = setting "SQLITE_DB_PATH"%string (XDGDataHome (XDGDirs cfg) ++ str "/db.sqlite3") ∧
  BTCNodeAddr cfg = setting "BTC_NODE_ADDR"%string (str "127.0.0.1:8333") ∧
  ListenAddress cfg = setting "LISTEN_ADDRESS"%string (str "127.0.0.1:50002") ∧
  cfg_Network cfg = NetworkFromString (setting "BTC_NETWORK"%string (str "mainnet")) ∧
  LogLevel cfg = setting "LOG_LEVEL"%string (str "INFO") ∧
  MigrateFresh cfg = default [] (value "MIGRATE_FRESH"%string) ∧
  ∀ key, LookupEnv env' (str key) = value key.
Proof.
  intros Hc Hv value setting. unfold cfgInit in Hc.
  apply outcome_bind_Ok in Hc as (dirs & Hd & Hc). revert Hc.
  set (f1 := read_vars (dirname arg0 ++ str "/eps-go.conf")).
  set (cf := EnvOrDefault env (str "CONFIG_FILE") (XDGConfigHome dirs ++ str "/eps-go.conf")).
  set (env2 := loadFile (read_vars cf) (loadFile f1 env)). intros Hc.
  destruct (WriteFile _) as [[]|e|why|]; try done. injection Hc as <- <-. cbn [ConfigFile XDGDirs] in *.
  assert (∀ key, LookupEnv env2 (str key) = value key) as Hval.
  { intros key. unfold value, env2, first_of, file_value. cbn [foldr]. fold f1.
    assert (∀ vars e k, (∀ l, vars = Some l → vars_ok l) → LookupEnv (loadFile vars e) k =
      match LookupEnv e k with Some v => Some v | None => vars ≫= λ l, LookupEnv l k end) as Hl.
    { intros [l|] e k Hok; [by apply LookupEnv_loadFile, Hok|]. cbn. by destruct (LookupEnv e k). }
    rewrite !Hl by (intros l Hl'; by eapply Hv).
    destruct (LookupEnv env (str key)); [done|]. cbn. destruct (f1 ≫= _); [done|].
    by destruct (read_vars cf ≫= _). }
  assert (∀ key def, EnvOrDefault env2 (str key) def = setting key def) as Hset.
  { intros key def. unfold EnvOrDefault, Getenv, setting. rewrite Hval.
    destruct (value key) as [[|c v]|]; [by rewrite bool_decide_eq_true_2..| |by rewrite bool_decide_eq_true_2].
    by rewrite bool_decide_eq_false_2. }
  split; [done|]. cbn [SqliteDBPath BTCNodeAddr ListenAddress cfg_Network LogLevel MigrateFresh].
  unfold Getenv. by rewrite !Hset, Hval.
Qed.

(** An environment that names the node, and a file that names it too. *)
Definition example_env : environ :=
  [(str "HOME", str "/root"); (str "BTC_NODE_ADDR", str "10.0.0.1:8333"); (str "LOG_LEVEL", [])].
Definition example_file : environ :=
  [(str "BTC_NODE_ADDR", str "10.0.0.2:8333"); (str "BTC_NETWORK", str "regtest")].
Definition example_vars (name : bytes) : option environ :=
  if bool_decide (name = str "/root/.config/eps-go/eps-go.conf") then Some example_file else None.

Lemma cfgInit_precedence_witness :
  ∃ cfg env', cfgInit example_vars (λ _, Ok tt) (str "/usr/bin/eps-go") example_env = Ok (cfg, env') ∧
    BTCNodeAddr cfg = str "10.0.0.1:8333" ∧ cfg_Network cfg = Regtest.
Proof.
  destruct (cfgInit example_vars (λ _, Ok tt) (str "/usr/bin/eps-go") example_env) as [[cfg env']| | |] eqn:E;
    [|vm_compute in E; discriminate E..].
  exists cfg, env'. split; [reflexivity|].
  assert (ConfigFile cfg = str "/root/.config/eps-go/eps-go.conf") as Hf.
  { vm_compute in E. injection E as <- <-. vm_compute. reflexivity. }
  destruct (cfgInit_precedence example_vars (λ _, Ok tt) (str "/usr/bin/eps-go") example_env cfg env')
    as (_ & _ & H2 & _ & H3 & _).
  - exact E.
  - intros name vars Hv. unfold example_vars in Hv. case_bool_decide; [|discriminate Hv].
    injection Hv as <-. split; [apply (bool_decide_unpack _); vm_compute; exact I|].
    repeat constructor.
  - rewrite H2, H3, Hf. split; vm_compute; reflexivity.
Defined.

(** The directory of a path. *)
Theorem dirname_path d base : d ≠ [] → x2f ∉ base → dirname (d ++ [x2f] ++ base) = d.
Proof.
  intros Hd Hb. unfold dirname. rewrite !reverse_app, <- (assoc_L (++)).
  assert (∀ l rest, x2f ∉ l → upto_slash (l ++ x2f :: rest) = Some rest) as Hu.
  { induction l as [|c l IH]; intros rest Hl; cbn; [done|].
    apply not_elem_of_cons in Hl as [Hc Hl]. rewrite bool_decide_eq_false_2 by congruence. by apply IH. }
  change (reverse [x2f] ++ reverse d) with (x2f :: reverse d). rewrite Hu by by rewrite elem_of_reverse.
  destruct (reverse d) eqn:E; [by apply (f_equal reverse) in E; rewrite reverse_involutive in E|].
  by rewrite <- E, reverse_involutive.
Qed.

Lemma dirname_path_witness : dirname (str "/usr/bin" ++ [x2f] ++ str "eps-go") = str "/usr/bin".
Proof. apply (dirname_path (str "/usr/bin") (str "eps-go")); [discriminate|]. apply (bool_decide_unpack _). vm_compute. exact I. Defined.

(** ** The parts together *)

Section run.
Context `{Bip32Safe}.
Context (read_vars : bytes → option environ) (WriteFile : bytes → outcome unit).
Context (LoadFromEmbedFS : outcome unit) (Migrate : bytes → Z → outcome Z) (sqliteNew : bytes → outcome Database).
Context (Start : bytes → Network → outcome unit).

Abbreviation starts := (start_up read_vars WriteFile LoadFromEmbedFS Migrate sqliteNew Start).
Abbreviation runs := (run read_vars WriteFile LoadFromEmbedFS Migrate sqliteNew Start).

(** The program serves a manager over its database and its wallets. *)
Lemma start_up_serves arg0 env cfg env' configs db :
  cfgInit read_vars WriteFile arg0 env = Ok (cfg, env') →
  getWallets (Environ env') = Ok configs → configs ≠ [] →
  OpenDB LoadFromEmbedFS Migrate sqliteNew (SqliteDBPath cfg) FlagMigrateAllowUpgrade = Ok db →
  Start (BTCNodeAddr cfg) (cfg_Network cfg) = Ok tt →
  blobs_ok db → rows_ok db → Forall config_ok configs →
  ∃ w, starts arg0 env = Ok (cfg, Some w) ∧ started (cfg_Network cfg) db configs w.
Proof.
  intros Hcfg Hws Hne Hdb Hst Hb Hr Hc.
  destruct (New_run (cfg_Network cfg) db configs Hb Hr Hc) as (w & Hnew & Hw).
  exists w. split; [|done]. unfold start_up. rewrite Hcfg. run_outcome. rewrite Hws. run_outcome.
  rewrite bool_decide_eq_false_2 by by destruct configs.
  rewrite Hdb. run_outcome. rewrite Hst. run_outcome. by rewrite Hnew.
Qed.

(** A signal ends the program at once: [Wait] returns, and [Close] of the server
    and of the manager are given the context that is done already, so that
    neither waits: [run] may return while the connections and the round of
    [run] go on. *)
Theorem interrupted_run_does_not_wait arg0 env cfg w :
  starts arg0 env = Ok (cfg, Some w) →
  runs arg0 env (Ok tt) (Ok tt) false false true (Err (ErrMsg "context canceled")) ∧
  LifeCycle.Close (Starting w) true (Err (ErrMsg "timed out while closing")).
Proof using Type.
  intros Hw. split; [|by apply select_timeout].
  apply (run_serves _ _ _ _ _ _ _ _ _ _ _ _ _ cfg w); [done|].
  apply (listen_serves _ _ _ _ _ accept_start); [done|by right|done|by apply select_timeout].
Qed.
End run.

(** ** A database that cannot be loaded *)

(** A row of the table of unspent outputs whose key is no outpoint. *)
Definition broken_db : Database :=
  upd_unspent_output (λ _, {[ [x00] := {| uo_satoshi := 1; uo_scriptpubkey_hash := [] |} ]}) emptyDatabase.

(** The wallet of the examples, in the environment. *)
Definition wallet_env : environ :=
  [(str "HOME", str "/root"); (str "BTC_NETWORK", str "regtest");
   (str "WALLET", str "0 p2wpkh 1 " ++ ExtendedEncode key0)].
Definition no_vars (_ : bytes) : option environ := None.
Lemma wallet_env_config : ∃ cfg,
  cfgInit no_vars (λ _, Ok tt) (str "eps-go") wallet_env = Ok (cfg, wallet_env) ∧
  getWallets (Environ wallet_env) = Ok [config0] ∧ cfg_Network cfg = Regtest.
Proof.
  destruct (cfgInit no_vars (λ _, Ok tt) (str "eps-go") wallet_env) as [[cfg env']| | |] eqn:E;
    [|vm_compute in E; discriminate E..].
  exists cfg. vm_compute in E. injection E as <- <-. split; [reflexivity|]. split; [|reflexivity].
  vm_compute. reflexivity.
Qed.

Lemma interrupted_run_does_not_wait_witness :
  ∃ w, run no_vars (λ _, Ok tt) (Ok tt) (λ _ _, Ok 0) (λ _, Ok emptyDatabase) (λ _ _, Ok tt)
    (str "eps-go") wallet_env (Ok tt) (Ok tt) false false true (Err (ErrMsg "context canceled")) ∧
  LifeCycle.Close (Starting w) true (Err (ErrMsg "timed out while closing")).
Proof.
  destruct wallet_env_config as (cfg & Hcfg & Hws & _).
  destruct (start_up_serves no_vars (λ _, Ok tt) (Ok tt) (λ _ _, Ok 0) (λ _, Ok emptyDatabase) (λ _ _, Ok tt)
    (str "eps-go") wallet_env cfg wallet_env [config0] emptyDatabase) as (w & Hw & _).
  - exact Hcfg.
  - exact Hws.
  - discriminate.
  - reflexivity.
  - reflexivity.
  - exact blobs_ok_empty.
  - intros hs row Hr. cbn [emptyDatabase t_wallet] in Hr. rewrite lookup_empty in Hr. discriminate Hr.
  - apply Forall_singleton. exact config0_ok.
  - exists w. exact (interrupted_run_does_not_wait no_vars (λ _, Ok tt) (Ok tt) (λ _ _, Ok 0)
      (λ _, Ok emptyDatabase) (λ _ _, Ok tt) (str "eps-go") wallet_env cfg w Hw).
Defined.

(** [run] does not look at the error of [walletmanager.New]: over a database that
    cannot be loaded the server is started all the same, with no manager behind
    it, and the program ends in a panic. *)
Theorem run_ignores_New_error :
  (New broken_db [config0] Regtest).1 ≠ Ok tt ∧
  ∃ cfg, start_up no_vars (λ _, Ok tt) (Ok tt) (λ _ _, Ok 0) (λ _, Ok broken_db) (λ _ _, Ok tt)
      (str "eps-go") wallet_env = Ok (cfg, None) ∧
    run no_vars (λ _, Ok tt) (Ok tt) (λ _ _, Ok 0) (λ _, Ok broken_db) (λ _ _, Ok tt)
      (str "eps-go") wallet_env (Ok tt) (Ok tt) true true false
      (Panic "invalid memory address or nil pointer dereference").
Proof.
  assert (∃ e w, New broken_db [config0] Regtest = (Err e, w)) as (e & w & Hnew).
  { eexists _, _. vm_compute. reflexivity. }
  split; [by rewrite Hnew|]. destruct wallet_env_config as (cfg & Hcfg & Hws & Hnet).
  assert (start_up no_vars (λ _, Ok tt) (Ok tt) (λ _ _, Ok 0) (λ _, Ok broken_db) (λ _ _, Ok tt)
      (str "eps-go") wallet_env = Ok (cfg, None)) as Hs.
  { unfold start_up. rewrite Hcfg. run_outcome. rewrite Hws. run_outcome. rewrite Hnet.
    rewrite bool_decide_eq_false_2 by done. unfold OpenDB. run_outcome. by rewrite Hnew. }
  exists cfg. split; [done|]. eapply run_nil; [done|].
  apply (listen_serves _ _ _ _ _ accept_start); [done|by left|done|by apply select_closed].
Qed.
